(* ===== verification/_CoqProject ===== *)
-Q . S2P
Prelude.v
PyDict.v
Text.v
Secrets.v
Pipeline.v
WriteSafety.v
WriteSafetySpec.v
WriteScope.v
Types.v
Transitions.v
Trace.v
TraceReader.v
TraceSpec.v
Graph.v
Locks.v
Validator.v
Verify.v
Store.v
Scheduler.v
Lifecycle.v
LifecycleSpec.v
Dispatch.v
DispatchWorker.v
DispatchSpec.v
Budget.v
TaskDispatch.v
TaskDispatchSpec.v
OverseerLink.v
AgentExecution.v
AgentExecutionSpec.v
Loader.v
RunStore.v
Workflow.v
WorkflowSpec.v
Overseer.v
OverseerSpec.v
Stream.v
StreamSpec.v
Provider.v
ProviderSpec.v
Transport.v
TransportDemo.v
TransportSpec.v
TransportReports.v
Session.v
SessionSpec.v
Identity.v
IdentitySpec.v
Auth.v
AuthSpec.v
Notification.v
NotificationSpec.v
Agui.v
AguiSpec.v
Compose.v
ComposeSpec.v
Incoming.v
IncomingSpec.v
EventStreamSpec.v
Capabilities.v
CapabilitiesSpec.v
Cli.v
CliSpec.v
ReadTools.v
ReadToolsSpec.v
SearchSpec.v
