(* ===== verification/Prelude.v ===== *)
(** * Orxtra: the task engine and its stores

    Orxtra runs workflows of tasks done by LLM agents, scripts and functions, with an overseer - another
    LLM - that is told of what goes wrong.  This library models the parts that decide what happens to a
    task: the in-memory trace store, the scheduler's tables and task tools, the executors of tasks, agents
    and workflows, the loader and the validator, the dependency graph, the file locks, the check runner, the
    budget, the overseer's adapter, the reading and writing tools with the pipeline around them, the event dispatcher,
    the sessions of agents with the transport and the model providers under them, and what stands between the
    engine and its callers: credentials, principals, notifications, the streams of a run, webhooks, and the
    operations a server and the command line offer.  Paths below are relative to
    src/<package>/src/orxtra/<package>/.

    ** Parts

    - [Prelude], [PyDict]: ids, instants, JSON-like values, exceptions, the state-and-exception monad [M]
      with its weakest precondition [wp] and preservation predicate [keeps], record update, stable
      sorting; Python's insertion-ordered [dict].
    - [Types]: protocols/_types (enumerations, task specs, checks, actions, dispatch records).
    - [Transitions]: trace/_transitions.py, the task and run state machines, as functions and as
      relations.
    - [Trace], [TraceReader]: trace/_memory_backend.py, [InMemoryBackend]: one definition per method.
      [TraceSpec]: the store as a transition system whose steps are all its writing methods; the event
      log as history; recovery after a crash.
    - [Graph]: scheduler/_graph.py.  [Locks]: scheduler/_locks.py.  [Validator]:
      scheduler/_validator.py.  [Verify]: verify/_execution.py and verify/_runner.py.
    - [Store]: what the scheduler asks of a trace store (classes [TraceStore], [TraceLog] with laws);
      [mem_store], the in-memory backend with a counter of fresh ids, implements it.
    - [Scheduler]: the tables of scheduler/_base.py and _executor.py as the record [sched], the
      operations of _executor.py, the enforcement of _enforcement.py, session/_pricing.py.  A scheduler
      with its store is a [sys W].
    - [Lifecycle]: scheduler/_lifecycle_handlers.py, the tools [handle_start_task], [handle_end_task],
      [handle_create_task], [handle_create_workflow], [handle_create_wait_for], [handle_await_task] an
      agent's session calls.  [LifecycleSpec]: theorems over every sequence of calls by any sessions.
    - [Budget]: theorems on costs, budget events and [Scheduler.abort].
    - [TaskDispatch]: scheduler/_task_dispatch.py and [execute_task], [run_workflow_check] of
      _executor.py.  [TaskDispatchSpec]: their theorems.
    - [OverseerLink]: [_send_overseer_event] of _executor.py with the fallbacks of scheduler/_overseer.py.
      [Overseer]: protocols/_autonomy.py, overseer/_health.py, overseer/_handoff.py and the adapter of
      scheduler/_overseer.py, which implements the interface of [OverseerLink].  [OverseerSpec]: their
      theorems.
    - [AgentExecution]: scheduler/_agent_execution.py, the agent executor with its attempts and the
      orchestrator executor.  [AgentExecutionSpec]: their theorems, with sessions that call any tools.
    - [Loader]: scheduler/_loader.py.  [RunStore]: what running a workflow asks of the store, and the
      in-memory backend that provides it.  [Workflow]: [execute_workflow], its groups, pausing, aborting,
      control signals and crash recovery of _executor.py, and scheduler/_services.py.  [WorkflowSpec]:
      their theorems.
    - [Text], [Secrets]: Python's string functions; secrets/_registry.py.  [Pipeline]: tool/_pipeline.py,
      tool/_scrub.py and the retry of write-safety/_replay.py.
    - [WriteSafety]: write-safety/_stale.py, _queue.py, _atomic.py, tool/_path.py and tool/_write_tools.py
      over a disk of files and directories.  [WriteSafetySpec], [WriteScope]: their theorems.
    - [ReadTools]: tool/_read_tools.py and tool/_preview.py over such a disk with symbolic links ([file_tree]).
      [ReadToolsSpec], [SearchSpec]: their theorems.
    - [Dispatch]: dispatch/_memory_backend.py and dispatch/_delivery.py.  [DispatchWorker]:
      dispatch/_action_executor.py and dispatch/_dispatch_worker.py.  [DispatchSpec]: their theorems.
    - [Stream]: transport/_events.py and the stream parsers of transport/providers/_anthropic.py, _openai.py
      and _google.py.  [StreamSpec]: their theorems.
    - [Provider]: transport/_provider.py and the message formats of the three providers.  [ProviderSpec]: what
      the transport relies on in a format ([MessageView], [ProviderLaws]), proved of the three.
    - [Transport]: transport/_transport.py, _state_machine.py and _liveness.py, the loop of model turns and
      tool calls.  [TransportSpec], [TransportReports]: theorems, against [ProviderLaws], on histories and on
      events; [TransportDemo]: the scripted world of their witnesses.
    - [Session]: session/_session.py and _factory.py, over a transcript store ([TranscriptStore]).
      [SessionSpec]: their theorems, against [TranscriptStoreLaws], with an in-memory store.
    - [Identity]: identity/ (in-memory) and the services of services/_identity.py and _dispatch.py that create
      principals, sources and subscriptions, over a [directory] of both stores.  [Auth]: auth/ (in-memory) and
      secrets/_mac_provider.py: consumers, credentials, verifiers, the authenticator and the middleware.
      [IdentitySpec], [AuthSpec]: their theorems.
    - [Notification]: notification/ (in-memory), the deliveries and the stream that replays and follows them.
      [Agui]: agui/_translator.py, _sinks.py, _registry.py and _server.py, the stream of a run's events to
      user interfaces.  [NotificationSpec], [AguiSpec]: their theorems.
    - [Compose]: compose/, the includes, variables and fragments of prompts.  [ComposeSpec]: their theorems.
    - [Incoming]: incoming/, webhooks, their replay and their stream, and [fire_event] of services/_events.py.
      [IncomingSpec], [EventStreamSpec]: their theorems.
    - [Capabilities]: services/_registry.py, _params.py and _dispatcher.py, the operations of a server with their
      scopes, dependencies and parameters and the dispatcher every interface calls them through;
      services/_notifications.py.  [Cli]: cli/_cli.py, every command down to that dispatcher.
      [CapabilitiesSpec], [CliSpec]: their theorems.

    [execute_workflow] loads nothing itself: it takes what [Loader] returned and [Validator] accepted, puts
    its tasks in groups with [Graph] and runs each with [execute_task] of [TaskDispatch], which gives
    agents to [AgentExecution] - whose sessions call the tools of [Lifecycle] - and, for orchestrators,
    is called back ([full_env] ties the knot).  What fails goes to the overseer through [OverseerLink].
    The handlers and executors run over any store that satisfies the laws of [Store]; the executors call
    [Graph] for the order of subtasks and [Scheduler] for checks and completion; the handlers claim
    paths with [Locks]; the checks of [Verify] act on whatever world they are given.  A [Session] sends over
    [Transport], which formats with [Provider], reads with [Stream] and runs tools that [Pipeline] may have
    wrapped.  The middleware of [Auth] puts an [AuthContext] on a request; the handlers of [Notification] and
    [Agui] resolve it to a principal with [Identity] before they serve a stream; the subscriptions that the
    services of [Identity] make are those [DispatchWorker] matches.  The webhooks of [Incoming] are proved with the
    credentials of [Auth], become events of [Trace] and are attributed to the sources' principals of [Identity].
    [Cli] calls the dispatcher of [Capabilities], which asks [Auth] for the scope and [Identity] for the caller's
    principal before a service runs.  The sessions of [AgentExecution] and [Overseer] are parameters there: what
    they call is arbitrary.

    ** What the theorems show

    - The store ([TraceSpec]): transitions happen exactly when the state machine allows them, the status
      of a task is the replay of its log, finished runs and resolved inbox items are final, idempotency
      keys write once, each recovery sweep has exactly its intended effect and is idempotent, paging
      through the log loses nothing.
    - The task tools ([LifecycleSpec]): a completed task has only completed tasks below it; the
      scheduler's view of a task is the store's, until a task is ended again after its postchecks failed -
      which is shown to raise and to break it; each branch of starting a task; what a write-scope
      conflict leaves behind; where the budget block is looked at.  The checks, commits and callbacks that the
      calls run may work on tasks of their own ([considerate]).
    - The executors ([TaskDispatchSpec]): executing a tree of tasks without an aborting for_each keeps that
      agreement on every return and every exception; what a result says of the task's state; an aborting for_each
      breaks it.
    - Agents ([AgentExecutionSpec]): whatever tools the sessions call, a result that is returned says what
      scheduler and store hold of the task; a retry after failed postchecks cannot succeed; only failed
      postchecks can be escalated, and not without an overseer; orchestrators never start.
    - Workflows ([Loader], [WorkflowSpec]): a loaded workflow is validated without an exception and its groups
      respect its dependencies; what an executor would do with a task whose dependencies have not finished does
      not matter to a run, under any policy, as none is started; what pausing, control signals, crash recovery and starting a service do, exactly.
    - The overseer ([OverseerSpec]): one response that does not verify among the first two degrades it for
      a type of event, for good; which constraints pass its check; which tools its level of autonomy
      lets through.
    - Files and secrets ([WriteSafetySpec], [WriteScope], [Pipeline], [Secrets]): write, edit and multi_edit are a
      store with compare-and-swap; the writing tools stay in their scope - what a delete does is what saferm does
      with a path in it -; edits apply to the current content; no secret that cannot be taken for a placeholder
      ([apart]) gets past the pipeline, except one that JSON escapes; substituting undoes scrubbing.
    - Reading ([ReadToolsSpec], [SearchSpec]): nothing outside the read root can be told from what read, glob, stat
      and diff return, nor from what list_dir and grep return unless a link below the root leads out of it - then
      it can ([grep_follows_links]); which files a search looks at and what exactly it reports.
    - Ordering and exclusion ([Graph], [Locks]): the sort decides acyclicity, the parallel groups are
      the levels of the graph, no two workflows hold overlapping paths.
    - Validation ([Validator]): no message exactly for valid configurations, at every depth.
    - Checks ([Verify]): order, stopping at the first failure, verdicts of reviewing agents.
    - Money ([Budget]): costs are non-negative, events are raised and sent exactly once, an abort
      cancels exactly the running tasks.
    - The dispatcher ([DispatchSpec]): at-most-once execution, nothing completed is lost, also when a poll is cut
      off by a [BaseException]; catching up with the queue in a bounded number of polls, oldest-first batches,
      waiters; and two ways it gets stuck.
    - Conversations ([TransportSpec]): after every send and resumption each tool call of a history that was so is
      answered, in order, or is the one the turn is suspended at; what compaction keeps.  Requests
      ([TransportReports]): their number is bounded, retries are announced, a failure is an Error event and an
      exception.
    - Formats ([StreamSpec], [ProviderSpec]): a response means the same however it is cut into chunks, except
      where a character is cut; events in the form the Anthropic API writes them are read in order; calls sent in
      pieces are put together; what parsing makes of a turn formatted for the history.
    - Sessions ([SessionSpec]): the totals of a session and the rows of its transcript as functions of the
      events of its turns - exactly the usage of the last response of a turn is counted - and what reopening a
      session restores: the totals, and twice the number of recorded turns.
    - Callers ([AuthSpec], [IdentitySpec]): a token is accepted exactly if the credential it stands for
      ([designated]) proves itself and its consumer is enabled, what is audited, and who gets past the middleware; one principal for each actor,
      whatever services are called; what a retry of creating a principal does.
    - Streams ([NotificationSpec], [AguiSpec]): notifications reach only their principal, each once, but a live
      stream knows only the first fifty deliveries; a run's events are well framed for one client and not for
      two; the channels of the runs are counted exactly.
    - Prompts ([ComposeSpec]): includes end, and fail exactly for a chain that is circular or broken; variables
      and placeholders must be the same; the order of the providers does not matter.
    - Webhooks ([IncomingSpec], [EventStreamSpec]): which requests become events and with what, that a MAC covers
      the body but not it alone, and that a key used by anyone is used; what a client that reconnects to the
      stream is sent, each once, and what it misses behind the first thousand.
    - Operations ([CapabilitiesSpec], [CliSpec]): no service is called but for a caller with its scope; every call
      has every argument, converted, in the parameter of its name; a delivery is acknowledged only by its owner;
      every command of cli/_cli.py can work but the one that starts a run.

    ** Conventions

    - Fresh ids and the clock are arguments of the store's methods; [mem_store] and the dispatch worker
      take them from an increasing counter, as uuid7 ids and the clock of one process increase.
    - An exception is a value of [exn]; of a message only what tells cases apart is kept, and the
      handlers' replies are a datatype with one constructor per sentence.  [str(uuid)] inside JSON is
      [VUuidStr].  Decimal amounts are exact rationals.  A set of names is a duplicate-free list.
    - Code outside the modelled files - imported functions, agents, subprocesses, git, notifications,
      the identity layer - is a parameter.  Where a theorem needs it to behave, the hypothesis is named:
      [quiet] code leaves the scheduler's tables and task statuses alone, [considerate] and [polite] code
      ([env_ok]) may add tasks but keeps the invariants and the tasks that exist; [TraceStoreLaws] is proved of the
      in-memory store.
    - The dispatch worker catches [Exception] and not [CancelledError], [KeyboardInterrupt], [SystemExit] and
      [GeneratorExit] ([is_Exception], [mexcept]); the other components' handlers are modelled for the exceptions
      that reach them, and what they await is taken to raise only those.
    - Tool handlers run one after the other.  [gather] runs the tasks started together in start order; a
      suspension is inside a parameter, which may change the whole state, so what other coroutines do
      meanwhile is the parameter's doing.
    - [wk_history] of the dispatch worker is a history variable: the executions begun, which no code
      reads.
    - Fuel: the sort, the cycle search and the walk up the parent table take the number of nodes, which
      is enough for each (proved with their theorems; the walk only gives up on a cyclic table, where
      the loop of the source does not end either).  [run_loop] of the worker takes a number of rounds,
      as the loop of the source ends only when told to.  [wait_healthy] takes two checks for each second
      of its time, which is enough ([start_service_ends]).  How deep orchestrators await each other
      ([full_env]), how many turns one takes ([ae_turns]) and how deep control callbacks call back
      ([transition_run]) are bounds of their own, where Python has its stack or nothing; no theorem
      depends on their size.
    - Of the transport, messages and [json] values are [value]s, bytes and text are [string]s of bytes.  List
      objects that a session, a step context and a continuation share are named by numbers and live in a
      store ([Transport.HasTransport]); so are tools, handlers and sinks.  A generator hands each event to the
      argument [emit] at the moment the source yields it.  The loop of model turns takes a number [turns] of
      steps, as the source has no bound: a theorem about what a turn did holds for every number, and that a
      request ends is proved without it ([requests_bounded]).
    - Hashes and MACs ([sha256_hex], [hmac_hex]) are parameters of which no theorem assumes anything; JSON texts,
      [str] and [UUID] of a text are parameters as well.  A generator that streams is a state machine whose
      steps end where it waits or yields.  Broadcasters are objects with a parameter for what they do.
    - A webhook's headers and query parameters are functions of the request, its body a text of bytes; the text a
      MAC is checked over is the decoded body.  What the database notifies of an event is a step of the world
      around a stream ([feed_step]), in any order and at any later moment, once for each row.
    - The operations of a server are a table of names, scopes, dependencies and parameter types ([CAPABILITIES]),
      beside the table of the functions' signatures; both are checked against each other by evaluation.  pydantic's
      validation is a parameter; [calls_fit] assumes that what it returns has the types of the model's fields.
    - The walks of the reading tools take the depth of the tree below their directory as fuel, which is enough
      ([shallow_depth]); a regular expression is a predicate on lines, a glob a list of paths.  A symbolic link is
      an entry with the canonical path it leads to; paths are resolved by a parameter.  In the writing tools paths
      are resolved, so that no link is met; of file modes only the calls of set_executable are kept ([chmods]).
    - Includes nest at most as deep as there are files, plus one for the file that is refused ([include_fuel]).
    - The wait of a paused scheduler is a parameter ([te_paused]), as is everything else that is awaited: a
      session, a process, a sink.  Cancelling an asyncio task is left to them.

    ** Not modelled

    - The PostgreSQL backends of trace, dispatch, identity, auth and notification: SQL against a server.  The
      in-memory backends have the same operations.
    - The network: HTTP, its errors' texts, and the threads of session/_sync.py around a session.
    - Devices and other special files, file modes, and links made while a tool runs; HTTP, git, data and subprocess
      tools; what saferm does.
    - Prompts and their templates, user interfaces, the A2A and MCP surfaces, how options
      are parsed and results shown, the assembly of a run from its configuration, generated code: I/O and text
      around the parts above. *)
From stdpp Require Export base strings list gmap sets sorting.
From Stdlib Require Export ZArith.
From Stdlib Require Ascii.
From Stdlib Require QArith Qcanon.

#[global] Set Default Goal Selector "!".

Declare Scope py_scope.
Delimit Scope py_scope with py.
#[global] Open Scope py_scope.

(** ** Identifiers, instants and JSON-like values *)

Abbreviation uuid := Z.
Abbreviation time := Z.
Abbreviation decimal := Qcanon.Qc.

(** [Decimal] literals and integers: [decimal_of n d] is n/d. *)
Definition decimal_of (num : Z) (den : positive) : decimal :=
  Qcanon.Q2Qc (QArith_base.Qmake num den).
Definition decimal_Z (n : Z) : decimal := decimal_of n 1.

#[warnings="-register-all"]
Inductive value :=
| VNone
| VBool (b : bool)
| VInt (z : Z)
| VStr (s : string)
| VUuidStr (u : uuid)
| VList (l : list value)
| VDict (d : list (string * value)).

(** Values compare as Python's [==] does on JSON data of one type. *)
#[export] Instance value_eq_dec : EqDecision value.
Proof.
  hnf. fix go 1. intros x y.
  destruct x as [|b|z|s|u|l|d], y as [|b'|z'|s'|u'|l'|d']; try (right; discriminate).
  - by left.
  - destruct (decide (b = b')) as [->|Hn]; [by left|right; congruence].
  - destruct (decide (z = z')) as [->|Hn]; [by left|right; congruence].
  - destruct (decide (s = s')) as [->|Hn]; [by left|right; congruence].
  - destruct (decide (u = u')) as [->|Hn]; [by left|right; congruence].
  - destruct (list_eq_dec (dec := go) l l') as [->|Hn]; [by left|right; congruence].
  - destruct (list_eq_dec (dec := prod_eq_dec (EqDecision1 := go)) d d') as [->|Hn]; [by left|right; congruence].
Defined.

Fixpoint assoc {K V} `{EqDecision K} (k : K) (d : list (K * V)) : option V :=
  match d with
  | [] => None
  | (k', v) :: d' => if decide (k = k') then Some v else assoc k d'
  end.

(** Split [x ∈ [a; b; ...]] into its cases. *)
Ltac elem_of_cases H :=
  lazymatch type of H with
  | _ ∈ _ :: _ => apply elem_of_cons in H as [->|H]; [|elem_of_cases H]
  | _ ∈ [] => by apply not_elem_of_nil in H
  end.

Definition vget (k : string) (v : value) : option value :=
  match v with
  | VDict d => assoc k d
  | _ => None
  end.

Definition vstr (v : option value) : option string :=
  match v with
  | Some (VStr s) => Some s
  | _ => None
  end.

(** [not v] *)
Definition falsy (v : value) : bool :=
  match v with
  | VNone | VBool false | VList [] | VDict [] => true
  | VInt n => bool_decide (n = 0)%Z
  | VStr s => bool_decide (s = EmptyString)
  | _ => false
  end.

(** [None] or a text *)
Definition vopt (o : option string) : value := match o with Some s => VStr s | None => VNone end.

(** ** Record update

    [r .[ f := v ]] is [r] with field [f] replaced, [r .[ f ::= g ]] with [g] applied to it.  A
    record type opts in with an [Eta] instance. *)

Class Eta (R : Type) := eta : R -> R.
Class Setter {R E : Type} (get : R -> E) := upd : (E -> E) -> R -> R.
Arguments upd {R E} get {_} _ _ /.

Ltac solve_setter :=
  lazymatch goal with
  | |- @Setter ?R ?E ?get =>
      let inst := constr:(_ : Eta R) in
      let inst' := eval red in inst in
      let body := lazymatch inst' with
                  | fun r => _ => inst'
                  | _ => eval unfold inst' in inst'
                  end in
      let abs := eval pattern get in body in
      lazymatch abs with
      | ?F _ => exact (fun (f : E -> E) (r : R) => F (fun r' => f (get r')) r)
      end
  end.
#[global] Hint Extern 1 (Setter _) => solve_setter : typeclass_instances.

Notation "r '.[' get ':=' v ']'" := (upd get (fun _ => v) r)
  (at level 1, left associativity, get at level 10, v at level 200) : py_scope.
Notation "r '.[' get '::=' f ']'" := (upd get f r)
  (at level 1, left associativity, get at level 10, f at level 200) : py_scope.

(** ** Exceptions and the state-and-exception monad

    A method is a function of its object's state that returns a value or raises; the state it had
    reached when it raised is kept, as in Python. *)

Inductive exn :=
| ValueError (what : string)
| KeyError (what : string)
| TypeError (what : string)
| RuntimeError (what : string)
| ToolError (what : string)
| InvalidTransitionError (old new : string)
| RunLockError (run : uuid)
| CycleError (cycle : list string)
| OSError (errno : Z)
| TimeoutError
| JSONDecodeError
| ImportError
| AssertionError (what : string)
| PathError (what : string)
| StaleWriteError (what : string)
| AuthenticationError (what : string)
| AuthorizationError (what : string)
| OtherError (what : string).

(** [FileNotFoundError], [NotADirectoryError], [IsADirectoryError] are [OSError]s. *)
Definition ENOENT : Z := 2.
Definition ENOTDIR : Z := 20.
Definition EISDIR : Z := 21.
Definition EEXIST : Z := 17.
Definition EINVAL : Z := 22.
Definition ENOTEMPTY : Z := 39.

#[export] Instance exn_eq_dec : EqDecision exn.
Proof. solve_decision. Defined.

(** [isinstance(e, Exception)]: cancellation and exit are [BaseException]s only, which [except Exception]
    lets through. *)
Definition is_Exception (e : exn) : bool :=
  match e with
  | OtherError what =>
      negb (bool_decide (what ∈ ["CancelledError"; "KeyboardInterrupt"; "SystemExit"; "GeneratorExit"]%string))
  | _ => true
  end.

Inductive result (A : Type) :=
| Ok (a : A)
| Raise (e : exn).
Arguments Ok {A} _.
Arguments Raise {A} _.

Definition is_ok {A} (r : result A) : bool :=
  match r with Ok _ => true | Raise _ => false end.

(** Code that may raise but changes no state. *)
#[export] Instance result_ret : MRet result := @Ok.
#[export] Instance result_bind : MBind result := fun A B k r =>
  match r with Ok a => k a | Raise e => Raise e end.
#[export] Instance result_throw : MThrow exn result := fun A e => Raise e.

(** [d[k]] *)
Definition or_raise {A} (o : option A) (e : exn) : result A :=
  match o with Some a => Ok a | None => Raise e end.

(** [for x in l: acc = f(acc, x)] *)
Fixpoint rfold {A B} (f : A -> B -> result A) (acc : A) (l : list B) : result A :=
  match l with
  | [] => Ok acc
  | x :: l' => acc' ← f acc x; rfold f acc' l'
  end.

Fixpoint rmap {A B} (f : A -> result B) (l : list A) : result (list B) :=
  match l with
  | [] => Ok []
  | x :: l' => y ← f x; ys ← rmap f l'; Ok (y :: ys)
  end.

Lemma rmap_spec {A B} (f : A -> result B) l l' :
  rmap f l = Ok l' -> Forall2 (fun x y => f x = Ok y) l l'.
Proof.
  revert l'. induction l as [|x l IH]; intros l'; simpl; [by intros [= <-]|].
  destruct (f x) as [y|e] eqn:E; [|done]. simpl. destruct (rmap f l) as [ys|e]; [|done].
  intros [= <-]. constructor; [done|by apply IH].
Qed.

Definition M (S A : Type) := S -> result A * S.

#[export] Instance M_ret {S} : MRet (M S) := fun A a s => (Ok a, s).
#[export] Instance M_bind {S} : MBind (M S) := fun A B k m s =>
  match m s with
  | (Ok a, s') => k a s'
  | (Raise e, s') => (Raise e, s')
  end.
#[export] Instance M_throw {S} : MThrow exn (M S) := fun A e s => (Raise e, s).

Definition mget {S} : M S S := fun s => (Ok s, s).
Definition mmod {S} (f : S -> S) : M S unit := fun s => (Ok tt, f s).
Definition mgets {S A} (f : S -> A) : M S A := fun s => (Ok (f s), s).

(** [try m except: h] *)
Definition mcatch {S A} (m : M S A) (h : exn -> M S A) : M S A := fun s =>
  match m s with
  | (Raise e, s') => h e s'
  | r => r
  end.

(** [try m except Exception: h] *)
Definition mexcept {S A} (m : M S A) (h : exn -> M S A) : M S A :=
  mcatch m (fun e => if is_Exception e then h e else mthrow e).

(** A computation on values, in a method *)
Definition liftr {S A} (r : result A) : M S A :=
  match r with Ok a => mret a | Raise e => mthrow e end.

(** The outcome of [m], as a value. *)
Definition mtry {S A} (m : M S A) : M S (result A) := fun s => let '(r, s') := m s in (Ok r, s').

(** [for x in l: f x] *)
Fixpoint mfor {S A} (l : list A) (f : A -> M S unit) : M S unit :=
  match l with
  | [] => mret tt
  | x :: l' => f x ;; mfor l' f
  end.

(** Run a method of a component inside the state that contains it. *)
Definition zoom {W S A} (get : W -> S) (put : S -> W -> W) (m : M S A) : M W A := fun w =>
  let '(r, s) := m (get w) in (r, put s w).

Section monad_laws.
Context {S : Type}.

Lemma M_bind_ret {A B} (a : A) (k : A -> M S B) s : (mret a ≫= k) s = k a s.
Proof. reflexivity. Qed.

Lemma M_bind_mgets {A B} (f : S -> A) (k : A -> M S B) s : (mgets f ≫= k) s = k (f s) s.
Proof. reflexivity. Qed.

Lemma M_bind_mmod {B} (f : S -> S) (k : unit -> M S B) s : (mmod f ≫= k) s = k tt (f s).
Proof. reflexivity. Qed.

Lemma M_bind_ok {A B} (m : M S A) (k : A -> M S B) s a s' :
  m s = (Ok a, s') -> (m ≫= k) s = k a s'.
Proof. intros E. unfold mbind, M_bind. by rewrite E. Qed.

Lemma M_bind_raise {A B} (m : M S A) (k : A -> M S B) s e s' :
  m s = (Raise e, s') -> (m ≫= k) s = (Raise e, s').
Proof. intros E. unfold mbind, M_bind. by rewrite E. Qed.

Lemma M_bind_assoc {A B C} (m : M S A) (k : A -> M S B) (h : B -> M S C) s :
  ((m ≫= k) ≫= h) s = (m ≫= (fun a => k a ≫= h)) s.
Proof. unfold mbind, M_bind. by destruct (m s) as [[a|e] s']. Qed.

(** A bind that returned [Ok] ran both halves. *)
Lemma M_bind_inv_ok {A B} (m : M S A) (k : A -> M S B) s b s'' :
  (m ≫= k) s = (Ok b, s'') -> exists a s', m s = (Ok a, s') /\ k a s' = (Ok b, s'').
Proof.
  unfold mbind, M_bind. destruct (m s) as [[a|e] s']; [|discriminate]. eauto.
Qed.

(** A state predicate kept by both halves is kept by the bind, whatever is raised. *)
Definition keeps {A} (P : S -> Prop) (m : M S A) : Prop := forall s, P s -> P (snd (m s)).

Lemma keeps_ret {A} P (a : A) : keeps P (mret a).
Proof. intros s Hs. exact Hs. Qed.
Lemma keeps_throw {A} P (e : exn) : keeps P (mthrow e : M S A).
Proof. intros s Hs. exact Hs. Qed.
Lemma keeps_mget P : keeps P (mget : M S S).
Proof. intros s Hs. exact Hs. Qed.
Lemma keeps_mgets {A} P (f : S -> A) : keeps P (mgets f).
Proof. intros s Hs. exact Hs. Qed.
Lemma keeps_mmod P f : (forall s, P s -> P (f s)) -> keeps P (mmod f).
Proof. intros H s Hs. by apply H. Qed.
Lemma keeps_bind {A B} P (m : M S A) (k : A -> M S B) :
  keeps P m -> (forall a, keeps P (k a)) -> keeps P (m ≫= k).
Proof.
  intros Hm Hk s Hs. unfold mbind, M_bind. specialize (Hm s Hs).
  destruct (m s) as [[a|e] s']; [by apply Hk|done].
Qed.
Lemma keeps_catch {A} P (m : M S A) h :
  keeps P m -> (forall e, keeps P (h e)) -> keeps P (mcatch m h).
Proof.
  intros Hm Hh s Hs. unfold mcatch. specialize (Hm s Hs).
  destruct (m s) as [[a|e] s']; [done|by apply Hh].
Qed.
Lemma keeps_except {A} P (m : M S A) h :
  keeps P m -> (forall e, keeps P (h e)) -> keeps P (mexcept m h).
Proof.
  intros Hm Hh. apply keeps_catch; [done|]. intros e. destruct (is_Exception e); [done|apply keeps_throw].
Qed.
Lemma keeps_liftr {A} P (r : result A) : keeps P (liftr r : M S A).
Proof. destruct r; [apply keeps_ret|apply keeps_throw]. Qed.
Lemma keeps_mtry {A} P (m : M S A) : keeps P m -> keeps P (mtry m).
Proof. intros Hm s Hs. unfold mtry. specialize (Hm s Hs). by destruct (m s). Qed.
Lemma keeps_mfor {A} P (l : list A) f :
  (forall x, x ∈ l -> keeps P (f x)) -> keeps P (mfor l f).
Proof.
  induction l as [|x l IH]; intros H; [apply keeps_ret|].
  apply keeps_bind; [apply H; left|]. intros _. apply IH. intros y Hy. apply H. by right.
Qed.
End monad_laws.

(** ** Weakest preconditions

    [wp m Q E s]: from [s], [m] returns a value and a state that satisfy [Q], or raises an exception in
    a state that satisfy [E]. *)
Definition wp {S A} (m : M S A) (Q : A -> S -> Prop) (E : exn -> S -> Prop) (s : S) : Prop :=
  match m s with
  | (Ok a, s') => Q a s'
  | (Raise e, s') => E e s'
  end.

Section wp.
Context {S : Type}.

Lemma wp_ret {A} (a : A) Q E (s : S) : Q a s -> wp (mret a) Q E s.
Proof. done. Qed.
Lemma wp_throw {A} (e : exn) (Q : A -> S -> Prop) E (s : S) : E e s -> wp (mthrow e) Q E s.
Proof. done. Qed.
Lemma wp_mmod f Q E (s : S) : Q tt (f s) -> wp (mmod f) Q E s.
Proof. done. Qed.
Lemma wp_mgets {A} (f : S -> A) Q E s : Q (f s) s -> wp (mgets f) Q E s.
Proof. done. Qed.
Lemma wp_bind {A B} (m : M S A) (k : A -> M S B) Q E s :
  wp m (fun a => wp (k a) Q E) E s -> wp (m ≫= k) Q E s.
Proof. unfold wp, mbind, M_bind. by destruct (m s) as [[a|e] s']. Qed.
Lemma wp_bind_run {A B} (m : M S A) (k : A -> M S B) Q E s a s' :
  m s = (Ok a, s') -> wp (k a) Q E s' -> wp (m ≫= k) Q E s.
Proof. intros Em Hk. unfold wp. by rewrite (M_bind_ok m k s a s' Em). Qed.
Lemma wp_regroup {A B C} (m : M S A) (k : A -> M S B) (h : B -> M S C) Q E s :
  wp ((m ≫= k) ≫= h) Q E s -> wp (m ≫= fun a => k a ≫= h) Q E s.
Proof. unfold wp. by rewrite M_bind_assoc. Qed.
Lemma wp_catch {A} (m : M S A) h Q E s :
  wp m Q (fun e => wp (h e) Q E) s -> wp (mcatch m h) Q E s.
Proof. unfold wp, mcatch. by destruct (m s) as [[a|e] s']. Qed.
Lemma wp_except {A} (m : M S A) h Q E s :
  wp m Q (fun e s' => if is_Exception e then wp (h e) Q E s' else E e s') s -> wp (mexcept m h) Q E s.
Proof.
  unfold wp, mexcept, mcatch. destruct (m s) as [[a|e] s']; [done|]. by destruct (is_Exception e).
Qed.
Lemma wp_cases {A} (m : M S A) Q E s :
  wp m Q E s ->
  (exists a s', m s = (Ok a, s') /\ Q a s') \/ (exists e s', m s = (Raise e, s') /\ E e s').
Proof. unfold wp. destruct (m s) as [[a|e] s'] eqn:Em; [left|right]; by do 2 eexists. Qed.
Lemma wp_liftr {A} (r : result A) (Q : A -> S -> Prop) E s :
  (forall a, r = Ok a -> Q a s) -> (forall e, r = Raise e -> E e s) -> wp (liftr r) Q E s.
Proof. intros HQ HE. destruct r; [by apply wp_ret, HQ|by apply wp_throw, HE]. Qed.
Lemma wp_mtry {A} (m : M S A) Q E s :
  wp m (fun a => Q (Ok a)) (fun e => Q (Raise e)) s -> wp (mtry m) Q E s.
Proof. unfold wp, mtry. by destruct (m s) as [[a|e] s']. Qed.
Lemma wp_and {A} (m : M S A) Q E Q' E' s :
  wp m Q E s -> wp m Q' E' s -> wp m (fun a s' => Q a s' /\ Q' a s') (fun e s' => E e s' /\ E' e s') s.
Proof. unfold wp. by destruct (m s) as [[a|e] s']. Qed.
Lemma wp_returned {A} (m : M S A) Q E s a : wp m Q E s -> fst (m s) = Ok a -> Q a (snd (m s)).
Proof. unfold wp. destruct (m s) as [[a'|e] s']; simpl; [|done]. by intros ? [= ->]. Qed.
(** What [m] keeps holds where it ends, too. *)
Lemma wp_keeps {A} (P : S -> Prop) (m : M S A) Q E s :
  keeps P m -> P s -> wp m Q E s -> wp m (fun a s' => Q a s' /\ P s') (fun e s' => E e s' /\ P s') s.
Proof. intros Hm Hs. specialize (Hm s Hs). unfold wp. by destruct (m s) as [[a|e] s']. Qed.
Lemma wp_kept {A} (P : S -> Prop) (m : M S A) s : keeps P m -> P s -> wp m (fun _ => P) (fun _ => P) s.
Proof. intros Hm Hs. specialize (Hm s Hs). unfold wp. by destruct (m s) as [[a|e] s']. Qed.
Lemma wp_mono {A} (m : M S A) (Q Q' : A -> S -> Prop) (E E' : exn -> S -> Prop) s :
  wp m Q E s -> (forall a s', Q a s' -> Q' a s') -> (forall e s', E e s' -> E' e s') -> wp m Q' E' s.
Proof. unfold wp. intros H HQ HE. destruct (m s) as [[a|e] s']; auto. Qed.
Lemma keeps_wp {A} (P : S -> Prop) (m : M S A) :
  (forall s, P s -> wp m (fun _ => P) (fun _ => P) s) -> keeps P m.
Proof. intros H s Hs. specialize (H s Hs). unfold wp in H. by destruct (m s) as [[a|e] s']. Qed.
End wp.

Lemma wp_zoom {W S A} (get : W -> S) (put : S -> W -> W) (m : M S A) Q E w :
  wp m (fun a s => Q a (put s w)) (fun e s => E e (put s w)) (get w) -> wp (zoom get put m) Q E w.
Proof. unfold wp, zoom. by destruct (m (get w)) as [[a|e] s]. Qed.

Create HintDb pydb discriminated.
#[export] Hint Resolve keeps_ret keeps_throw keeps_mget keeps_mgets keeps_mmod keeps_bind
  keeps_catch keeps_except keeps_mfor keeps_liftr keeps_mtry : pydb.

Lemma filter_ext_in {A} (P Q : A -> Prop) `{!forall x, Decision (P x), !forall x, Decision (Q x)}
    (l : list A) : (forall x, x ∈ l -> P x <-> Q x) -> filter P l = filter Q l.
Proof.
  induction l as [|x l IH]; intros E; [done|]. rewrite !filter_cons.
  rewrite (decide_ext (P x) (Q x)) by (apply E; left).
  rewrite IH by (intros y Hy; apply E; by right). done.
Qed.

(** [next(x for x in l if P(x))]: the first match, and that there is none. *)
Lemma head_filter_Some {A} (P : A -> Prop) `{!forall x, Decision (P x)} (l : list A) x :
  head (filter P l) = Some x -> x ∈ l /\ P x.
Proof. intros Hx%head_Some_elem_of. by apply list_elem_of_filter in Hx as [??]. Qed.
Lemma head_filter_None {A} (P : A -> Prop) `{!forall x, Decision (P x)} (l : list A) :
  head (filter P l) = None <-> forall x, x ∈ l -> ~ P x.
Proof.
  split.
  - intros Hl x Hx HP. assert (Hin : x ∈ filter P l) by (by apply list_elem_of_filter).
    destruct (filter P l); [by apply not_elem_of_nil in Hin|done].
  - intros Hl. destruct (filter P l) as [|y l'] eqn:E; [done|]. exfalso.
    assert (Hy : y ∈ filter P l) by (rewrite E; left). apply list_elem_of_filter in Hy as [??]. by apply (Hl y).
Qed.

Lemma list_eq_nil {A} (l : list A) : (forall x, x ∉ l) -> l = [].
Proof. destruct l as [|x l]; [done|]. intros H. exfalso. apply (H x). left. Qed.

Lemma fmap_filter_NoDup {A B} (f : A -> B) (P : A -> Prop) `{!forall x, Decision (P x)}
    (l : list A) : NoDup (f <$> l) -> NoDup (f <$> filter P l).
Proof. intros Hl. eapply sublist_NoDup; [exact Hl|]. apply fmap_sublist, sublist_filter. Qed.

(** What every step keeps holds along a run. *)
Lemma rtc_inv {A} (R : A -> A -> Prop) (P : A -> Prop) x y :
  (forall a b, P a -> R a b -> P b) -> P x -> rtc R x y -> P y.
Proof. intros HR Hx Hxy. induction Hxy; eauto. Qed.

Lemma filter_all {A} (P : A -> Prop) `{!forall x, Decision (P x)} (l : list A) :
  (forall x, x ∈ l -> P x) -> filter P l = l.
Proof.
  induction l as [|x l IH]; intros Hall; [done|].
  rewrite filter_cons_True by (apply Hall; left).
  rewrite IH; [done|]. intros y Hy. apply Hall. by right.
Qed.

Lemma strongly_sorted_app {A} (R : A -> A -> Prop) l1 l2 :
  StronglySorted R (l1 ++ l2) ->
  StronglySorted R l1 /\ StronglySorted R l2 /\ Forall (fun x => Forall (R x) l2) l1.
Proof.
  induction l1 as [|x l1 IH]; simpl; [by repeat split; try constructor|].
  intros [H Hx]%StronglySorted_inv. apply IH in H as (H1 & H2 & H3).
  apply Forall_app in Hx as [Hx1 Hx2]. split_and!; [by constructor|done|by constructor].
Qed.

(** An optional filter argument: [None] lets everything through. *)
Definition opt_ok {A} (f : A -> bool) (o : option A) : bool :=
  match o with Some a => f a | None => true end.

(** [set(l)] of strings: a list without duplicates.  No definition depends on the order. *)
Definition py_set (l : list string) : list string := remove_dups l.

Lemma elem_of_py_set x l : x ∈ py_set l <-> x ∈ l.
Proof. apply elem_of_remove_dups. Qed.
Lemma NoDup_py_set l : NoDup (py_set l).
Proof. apply NoDup_remove_dups. Qed.

(** [xs[:limit]]: a negative limit drops that many from the end. *)
Definition py_take {A} (limit : Z) (l : list A) : list A :=
  if decide (0 <= limit)%Z then take (Z.to_nat limit) l
  else take (length l - Z.to_nat (- limit)) l.

Lemma py_take_nonneg {A} n (l : list A) : (0 <= n)%Z -> py_take n l = take (Z.to_nat n) l.
Proof. intros H. unfold py_take. by rewrite decide_True. Qed.

(** ** Stable sorting by an integer key ([list.sort(key=...)]) *)

Section sort_by.
Context {A : Type} (key : A -> Z).

Fixpoint insert_by (x : A) (l : list A) : list A :=
  match l with
  | [] => [x]
  | y :: l' => if decide (key x <= key y)%Z then x :: l else y :: insert_by x l'
  end.

Fixpoint sort_by (l : list A) : list A :=
  match l with
  | [] => []
  | x :: l' => insert_by x (sort_by l')
  end.

Definition key_le (x y : A) : Prop := (key x <= key y)%Z.

Lemma insert_by_perm x l : insert_by x l ≡ₚ x :: l.
Proof.
  induction l as [|y l IH]; simpl; [done|]. case_decide; [done|].
  rewrite IH. apply Permutation_swap.
Qed.

Lemma sort_by_perm l : sort_by l ≡ₚ l.
Proof. induction l as [|x l IH]; simpl; [done|]. by rewrite insert_by_perm, IH. Qed.

Lemma elem_of_sort_by x l : x ∈ sort_by l <-> x ∈ l.
Proof. by rewrite sort_by_perm. Qed.

Lemma length_sort_by l : length (sort_by l) = length l.
Proof. by rewrite sort_by_perm. Qed.

Lemma insert_by_sorted x l : StronglySorted key_le l -> StronglySorted key_le (insert_by x l).
Proof.
  induction 1 as [|y l Hs IH Hf]; simpl; [by repeat constructor|].
  case_decide as Hle.
  - constructor; [by constructor|]. constructor; [done|].
    eapply Forall_impl; [exact Hf|]. unfold key_le. intros z ?. lia.
  - constructor; [done|]. apply Forall_forall. intros z Hz.
    rewrite insert_by_perm in Hz. apply elem_of_cons in Hz as [->|Hz].
    + unfold key_le. lia.
    + by eapply Forall_forall in Hf.
Qed.

Lemma sort_by_sorted l : StronglySorted key_le (sort_by l).
Proof. induction l; simpl; [constructor|by apply insert_by_sorted]. Qed.

(** Sorting a sorted list changes nothing: the sort is stable. *)
Lemma sort_by_id l : StronglySorted key_le l -> sort_by l = l.
Proof.
  induction 1 as [|x l Hs IH Hf]; simpl; [done|]. rewrite IH.
  destruct l as [|y l]; simpl; [done|]. case_decide as Hn; [done|].
  apply Forall_cons in Hf as [Hle _]. unfold key_le in Hle. lia.
Qed.

Lemma insert_by_filter (P : A -> bool) x l :
  StronglySorted key_le l ->
  filter P (insert_by x l) = if P x then insert_by x (filter P l) else filter P l.
Proof.
  induction 1 as [|y l Hs IH Hf]; simpl.
  - rewrite !filter_cons, !filter_nil. by destruct (P x).
  - destruct (decide (key x <= key y)%Z) as [Hle|Hgt].
    + rewrite (filter_cons P x). destruct (P x) eqn:Ex; simpl; [|done].
      rewrite filter_cons. case_decide as Ey; simpl.
      * rewrite decide_True by done. done.
      * assert (Hall : Forall (key_le x) (filter P l)).
        { apply Forall_forall. intros z [_ Hz]%list_elem_of_filter.
          rewrite Forall_forall in Hf. specialize (Hf z Hz). unfold key_le in *. lia. }
        destruct (filter P l) as [|z l']; simpl; [done|].
        apply Forall_cons in Hall as [Hz _]. unfold key_le in Hz. by case_decide.
    + rewrite !(filter_cons P y), IH. destruct (P x), (P y); simpl; try done.
      by rewrite decide_False.
Qed.

Lemma insert_by_snoc x l y :
  (key x <= key y)%Z -> insert_by x (l ++ [y]) = insert_by x l ++ [y].
Proof.
  intros Hxy. induction l as [|z l IH]; simpl; [by rewrite decide_True|].
  case_decide; [done|]. by rewrite IH.
Qed.

(** An element with the greatest key goes last. *)
Lemma sort_by_snoc l y : Forall (fun x => key x <= key y)%Z l -> sort_by (l ++ [y]) = sort_by l ++ [y].
Proof.
  induction 1 as [|x l Hx _ IH]; simpl; [done|]. by rewrite IH, insert_by_snoc.
Qed.

(** Sorting commutes with filtering: the order of the elements with a given key is kept. *)
Lemma sort_by_filter (P : A -> bool) l : filter P (sort_by l) = sort_by (filter P l).
Proof.
  induction l as [|x l IH]; simpl; [done|].
  rewrite insert_by_filter by apply sort_by_sorted. rewrite filter_cons, IH.
  by destruct (P x).
Qed.
End sort_by.

(** Sorting commutes with a map that keeps the key. *)
Lemma sort_by_fmap {A B} (key : A -> Z) (key' : B -> Z) (f : A -> B) l :
  (forall x, key' (f x) = key x) -> f <$> sort_by key l = sort_by key' (f <$> l).
Proof.
  intros Hk. assert (Hi : forall x l, f <$> insert_by key x l = insert_by key' (f x) (f <$> l)).
  { intros x m. induction m as [|y m IH]; csimpl; [done|]. rewrite !Hk. case_decide; [done|].
    csimpl. by rewrite IH. }
  induction l as [|x l IH]; csimpl; [done|]. by rewrite Hi, IH.
Qed.

(** ** Substrings and ASCII case *)

Fixpoint str_prefix (p s : string) : bool :=
  match p, s with
  | EmptyString, _ => true
  | String a p', String b s' => bool_decide (a = b) && str_prefix p' s'
  | String _ _, EmptyString => false
  end.

(** [s.endswith(suf)] *)
Fixpoint str_suffix (suf s : string) : bool :=
  bool_decide (s = suf) || match s with EmptyString => false | String _ s' => str_suffix suf s' end.

Lemma str_app_cons a s t : (String a s +:+ t)%string = String a (s +:+ t)%string.
Proof. reflexivity. Qed.
Lemma str_app_nil t : (EmptyString +:+ t)%string = t.
Proof. reflexivity. Qed.
Lemma str_app_assoc s t u : ((s +:+ t) +:+ u)%string = (s +:+ (t +:+ u))%string.
Proof. induction s as [|a s IH]; [done|]. by rewrite !str_app_cons, IH. Qed.
Lemma str_app_nil_r s : (s +:+ EmptyString)%string = s.
Proof. induction s as [|a s IH]; [done|]. by rewrite str_app_cons, IH. Qed.

Lemma str_prefix_spec p s : str_prefix p s = true <-> exists r, s = (p +:+ r)%string.
Proof.
  revert s. induction p as [|a p IH]; intros s; simpl; [split; [by exists s|done]|].
  destruct s as [|b s]; [split; [done|by intros [r ?]]|].
  rewrite andb_true_iff, bool_decide_eq_true, IH. split.
  - intros [-> [r ->]]. by exists r.
  - intros [r E]. injection E as -> ->. split; [done|by exists r].
Qed.

Lemma str_app_snoc_inj s t c d :
  (s +:+ String c "")%string = (t +:+ String d "")%string -> s = t /\ c = d.
Proof.
  revert t. induction s as [|a s IH]; intros [|b t]; rewrite ?str_app_cons, ?str_app_nil; intros E.
  - by injection E.
  - injection E as _ E. destruct t; discriminate E.
  - injection E as _ E. destruct s; discriminate E.
  - injection E as -> E. destruct (IH t E) as [-> ->]. done.
Qed.

Lemma str_prefix_app p s r : str_prefix p s = true -> str_prefix p (s +:+ r) = true.
Proof. rewrite !str_prefix_spec. intros [q ->]. exists (q +:+ r)%string. apply str_app_assoc. Qed.

(** A prefix of a string with one character more is a prefix of it, or all of it. *)
Lemma str_prefix_snoc p s c :
  str_prefix p (s +:+ String c "") = true ->
  str_prefix p s = true \/ p = (s +:+ String c "")%string.
Proof.
  revert s. induction p as [|a p IH]; intros s; [by left|].
  destruct s as [|b s]; rewrite ?str_app_cons, ?str_app_nil; simpl;
    rewrite andb_true_iff, bool_decide_eq_true.
  - intros [-> Hp]. right. destruct p; [done|discriminate Hp].
  - intros [-> Hp]. destruct (IH s Hp) as [H| ->]; [left|by right].
    by rewrite bool_decide_true.
Qed.

(** [p in s] *)
Fixpoint str_in (p s : string) : bool :=
  str_prefix p s || match s with EmptyString => false | String _ s' => str_in p s' end.

Definition ascii_lower (a : Ascii.ascii) : Ascii.ascii :=
  let n := Ascii.nat_of_ascii a in
  if decide (65 <= n /\ n <= 90) then Ascii.ascii_of_nat (n + 32) else a.

Fixpoint str_lower (s : string) : string :=
  match s with
  | EmptyString => EmptyString
  | String a s' => String (ascii_lower a) (str_lower s')
  end.

Definition colon : Ascii.ascii := Ascii.Ascii false true false true true true false false.

(** [s.split(":")] *)
Fixpoint split_colon (s : string) : list string :=
  match s with
  | EmptyString => [EmptyString]
  | String a s' =>
      match split_colon s' with
      | [] => [EmptyString]
      | p :: ps => if decide (a = colon) then EmptyString :: p :: ps else String a p :: ps
      end
  end.
