(* ===== verification/PyDict.v ===== *)
(** Python's [dict]: a finite map that iterates in insertion order.

    Assigning an existing key keeps its position, assigning a new one appends it, deleting a key
    closes the gap.  [dict] is compared up to [≡] (same lookups) where order does not matter, and
    [dict_to_gmap] forgets the order: the finite-map laws are those of [gmap]. *)
From S2P Require Import Prelude.

Record dict (K V : Type) := Dict { ditems : list (K * V) }.
Arguments Dict {K V} _.
Arguments ditems {K V} _.

Section dict.
Context {K V : Type} `{EqDecision K}.
Implicit Types (k : K) (v : V) (d : dict K V) (l : list (K * V)).

Definition dkeys d : list K := fst <$> ditems d.
Definition dvalues d : list V := snd <$> ditems d.

Fixpoint assoc_set k v l : list (K * V) :=
  match l with
  | [] => [(k, v)]
  | (k', v') :: l' => if decide (k = k') then (k', v) :: l' else (k', v') :: assoc_set k v l'
  end.

Fixpoint assoc_del k l : list (K * V) :=
  match l with
  | [] => []
  | (k', v') :: l' => if decide (k = k') then assoc_del k l' else (k', v') :: assoc_del k l'
  end.

#[export] Instance dict_empty : Empty (dict K V) := Dict [].
#[export] Instance dict_lookup : Lookup K V (dict K V) := fun k d => assoc k (ditems d).
#[export] Instance dict_insert : Insert K V (dict K V) := fun k v d =>
  Dict (assoc_set k v (ditems d)).
#[export] Instance dict_delete : Delete K (dict K V) := fun k d =>
  Dict (assoc_del k (ditems d)).

(** Apply [f] to every value, in place. *)
Definition dmap (f : V -> V) d : dict K V := Dict ((fun kv => (kv.1, f kv.2)) <$> ditems d).

Definition dmem k d : bool := bool_decide (is_Some (d !! k)).

(** No key occurs twice: what Python guarantees of every dict. *)
Definition dwf d : Prop := NoDup (dkeys d).

Lemma dict_lookup_empty k : (∅ : dict K V) !! k = None.
Proof. done. Qed.

Lemma assoc_assoc_set k k' v l :
  assoc k' (assoc_set k v l) = if decide (k' = k) then Some v else assoc k' l.
Proof.
  induction l as [|[k1 v1] l IH]; simpl; [by repeat case_decide|].
  destruct (decide (k = k1)) as [->|Hne]; simpl; [by repeat case_decide|].
  rewrite IH. repeat case_decide; congruence.
Qed.

Lemma dict_lookup_insert k k' v d :
  <[k:=v]> d !! k' = if decide (k' = k) then Some v else d !! k'.
Proof. apply assoc_assoc_set. Qed.
Lemma dict_lookup_insert_eq k v d : <[k:=v]> d !! k = Some v.
Proof. rewrite dict_lookup_insert. by case_decide. Qed.
Lemma dict_lookup_insert_ne k k' v d : k' <> k -> <[k:=v]> d !! k' = d !! k'.
Proof. intros ?. rewrite dict_lookup_insert. by case_decide. Qed.

Lemma dict_lookup_delete k k' d :
  delete k d !! k' = if decide (k' = k) then None else d !! k'.
Proof.
  unfold lookup, dict_lookup, delete, dict_delete; simpl.
  induction (ditems d) as [|[k1 v1] l IH]; simpl; [by case_decide|].
  destruct (decide (k = k1)) as [->|]; simpl; rewrite IH; repeat case_decide; congruence.
Qed.

Lemma dict_lookup_dmap f k d : dmap f d !! k = f <$> d !! k.
Proof.
  unfold lookup, dict_lookup, dmap; simpl.
  induction (ditems d) as [|[k1 v1] l IH]; simpl; [done|]. by case_decide.
Qed.

Lemma dict_lookup_Some_in k v d : d !! k = Some v -> (k, v) ∈ ditems d.
Proof.
  unfold lookup, dict_lookup.
  induction (ditems d) as [|[k1 v1] l IH]; simpl; [done|].
  case_decide; [intros [= ->]; subst; left|right; auto].
Qed.

Lemma dict_lookup_Some_value k v d : d !! k = Some v -> v ∈ dvalues d.
Proof.
  intros Hk%dict_lookup_Some_in. unfold dvalues. apply list_elem_of_fmap. by exists (k, v).
Qed.

Lemma dict_lookup_None_key k d : d !! k = None <-> k ∉ dkeys d.
Proof.
  unfold lookup, dict_lookup, dkeys.
  induction (ditems d) as [|[k1 v1] l IH]; simpl; [by split; [intros _; apply not_elem_of_nil|]|].
  rewrite not_elem_of_cons, <- IH. case_decide; [by split; [|intros [? ?]]|]. by split; [|intros [? ?]].
Qed.

Lemma dict_in_lookup k v d : dwf d -> (k, v) ∈ ditems d -> d !! k = Some v.
Proof.
  unfold dwf, dkeys, lookup, dict_lookup.
  induction (ditems d) as [|[k1 v1] l IH]; simpl; [by intros _ ?%not_elem_of_nil|].
  intros [Hn Hnd]%NoDup_cons [[= -> ->]|Hin]%elem_of_cons; [by case_decide|].
  case_decide as E; [|auto]. subst. exfalso. apply Hn.
  apply list_elem_of_fmap. by exists (k1, v).
Qed.

Lemma dict_value_lookup v d : dwf d -> v ∈ dvalues d -> exists k, d !! k = Some v.
Proof.
  intros Hwf ([k v'] & -> & Hin)%list_elem_of_fmap. exists k. by apply dict_in_lookup.
Qed.

Lemma assoc_set_new k v l : assoc k l = None -> assoc_set k v l = l ++ [(k, v)].
Proof.
  induction l as [|[k1 v1] l IH]; simpl; [done|]. case_decide; [done|].
  intros Hk. by rewrite IH.
Qed.

Lemma ditems_insert_new k v d : d !! k = None -> ditems (<[k:=v]> d) = ditems d ++ [(k, v)].
Proof. apply assoc_set_new. Qed.
Lemma dvalues_insert_new k v d : d !! k = None -> dvalues (<[k:=v]> d) = dvalues d ++ [v].
Proof. intros Hk. unfold dvalues. by rewrite ditems_insert_new, fmap_app. Qed.

Lemma dkeys_insert k v d :
  dkeys (<[k:=v]> d) = match d !! k with Some _ => dkeys d | None => dkeys d ++ [k] end.
Proof.
  unfold dkeys, insert, dict_insert, lookup, dict_lookup; simpl.
  induction (ditems d) as [|[k1 v1] l IH]; csimpl; [done|].
  destruct (decide (k = k1)) as [->|Hne]; csimpl; [done|].
  rewrite IH. by destruct (assoc k l).
Qed.

(** Replacing a value by one that looks the same to [f] *)
Lemma dvalues_insert_same {B} (f : V -> B) k v v' d :
  d !! k = Some v -> f v' = f v -> f <$> dvalues (<[k:=v']> d) = f <$> dvalues d.
Proof.
  unfold dvalues, insert, dict_insert, lookup, dict_lookup; simpl. intros Hk Hf.
  induction (ditems d) as [|[k1 v1] l IH]; simpl in *; [done|].
  destruct (decide (k = k1)) as [->|]; csimpl; [congruence|]. by rewrite IH.
Qed.

Lemma dwf_empty : dwf (∅ : dict K V).
Proof. apply NoDup_nil_2. Qed.

Lemma dwf_insert k v d : dwf d -> dwf (<[k:=v]> d).
Proof.
  unfold dwf. intros Hd. rewrite dkeys_insert.
  destruct (d !! k) eqn:Hk; [done|]. apply dict_lookup_None_key in Hk.
  apply NoDup_app; repeat split; [done| |apply NoDup_singleton].
  by intros x Hx ->%list_elem_of_singleton.
Qed.

Lemma assoc_del_in k x l : x ∈ (assoc_del k l).*1 -> x ∈ l.*1.
Proof.
  induction l as [|[k1 v1] l IH]; simpl; [done|]. case_decide; simpl; [by right; auto|].
  intros [->|?]%elem_of_cons; [left|right; auto].
Qed.

Lemma dwf_delete k d : dwf d -> dwf (delete k d).
Proof.
  unfold dwf, dkeys, delete, dict_delete; simpl.
  induction (ditems d) as [|[k1 v1] l IH]; simpl; [done|].
  intros [Hn Hnd]%NoDup_cons. case_decide; [by auto|]. simpl.
  apply NoDup_cons; split; [|by auto]. intros Hin. by apply Hn, (assoc_del_in k).
Qed.

Lemma dkeys_dmap f d : dkeys (dmap f d) = dkeys d.
Proof. unfold dkeys, dmap; simpl. by rewrite <- list_fmap_compose. Qed.
Lemma dvalues_dmap f d : dvalues (dmap f d) = f <$> dvalues d.
Proof. unfold dvalues, dmap; simpl. by rewrite <- !list_fmap_compose. Qed.
Lemma dwf_dmap f d : dwf d -> dwf (dmap f d).
Proof. unfold dwf. by rewrite dkeys_dmap. Qed.

Lemma ditems_delete k d : ditems (delete k d) = filter (fun kv => kv.1 <> k) (ditems d).
Proof.
  unfold delete, dict_delete; simpl. induction (ditems d) as [|[k1 v1] l IH]; [done|].
  rewrite filter_cons; simpl. rewrite IH. by repeat case_decide.
Qed.

(** *** Equality of dicts up to order *)

#[export] Instance dict_equiv : Equiv (dict K V) := fun d1 d2 => forall k, d1 !! k = d2 !! k.

#[export] Instance dict_equivalence : Equivalence (≡@{dict K V}).
Proof.
  split.
  - by intros d k.
  - by intros d1 d2 E k.
  - intros d1 d2 d3 E1 E2 k. by rewrite (E1 k), (E2 k).
Qed.

#[export] Instance dict_lookup_proper k : Proper ((≡) ==> (=)) (lookup k : dict K V -> option V).
Proof. intros d1 d2 E. apply E. Qed.

#[export] Instance dict_insert_proper k v :
  Proper ((≡) ==> (≡)) (insert k v : dict K V -> dict K V).
Proof. intros d1 d2 E k'. by rewrite !dict_lookup_insert, (E k'). Qed.

#[export] Instance dict_delete_proper k :
  Proper ((≡) ==> (≡)) (delete k : dict K V -> dict K V).
Proof. intros d1 d2 E k'. by rewrite !dict_lookup_delete, (E k'). Qed.
End dict.

Section to_gmap.
Context {K V : Type} `{Countable K}.
Implicit Types (d : dict K V).

Definition dict_to_gmap d : gmap K V := list_to_map (ditems d).

Lemma dict_to_gmap_lookup d k : dict_to_gmap d !! k = d !! k.
Proof.
  unfold dict_to_gmap, lookup at 2, dict_lookup.
  induction (ditems d) as [|[k1 v1] l IH]; simpl; [apply lookup_empty|].
  case_decide; subst; [apply lookup_insert_eq|]. by rewrite lookup_insert_ne.
Qed.

Lemma dict_to_gmap_insert d k v : dict_to_gmap (<[k:=v]> d) = <[k:=v]> (dict_to_gmap d).
Proof.
  apply map_eq. intros k'. rewrite dict_to_gmap_lookup, dict_lookup_insert.
  case_decide; subst; [by rewrite lookup_insert_eq|].
  by rewrite lookup_insert_ne, dict_to_gmap_lookup.
Qed.

Lemma dict_to_gmap_delete d k : dict_to_gmap (delete k d) = delete k (dict_to_gmap d).
Proof.
  apply map_eq. intros k'. rewrite dict_to_gmap_lookup, dict_lookup_delete.
  case_decide; subst; [by rewrite lookup_delete_eq|].
  by rewrite lookup_delete_ne, dict_to_gmap_lookup.
Qed.
End to_gmap.

#[export] Hint Resolve dwf_empty dwf_insert dwf_delete dwf_dmap : pydb.

(** Case analysis on the key of a lookup after an update. *)
Ltac dict_simpl :=
  repeat first
    [ rewrite dict_lookup_insert in *
    | rewrite dict_lookup_delete in *
    | rewrite dict_lookup_dmap in *
    | rewrite dict_lookup_empty in * ];
  repeat case_decide; simplify_eq/=; try done.
