(* ===== verification/Text.v ===== *)
(** Python's [str] methods, as scans of a string: [in], [replace] and [count], [join], [strip], slices. *)
From S2P Require Import Prelude.

(** ** Definitions *)

Definition newline : string := String (Ascii.ascii_of_nat 10) EmptyString.

(** One left-to-right scan: at a match of [old] the result of [hit] is emitted and the match is skipped,
    otherwise the character is kept. *)
Fixpoint replace_from (skip : nat) (old new s : string) : string :=
  match s with
  | EmptyString => EmptyString
  | String c s' =>
      match skip with
      | S k => replace_from k old new s'
      | 0 => if str_prefix old s then (new +:+ replace_from (String.length old - 1) old new s')%string
             else String c (replace_from 0 old new s')
      end
  end.

(** [s.replace("", new)] *)
Fixpoint interleave (new s : string) : string :=
  match s with
  | EmptyString => new
  | String c s' => (new +:+ String c (interleave new s'))%string
  end.

(** [s.replace(old, new)] *)
Definition str_replace (old new s : string) : string :=
  if decide (old = EmptyString) then interleave new s else replace_from 0 old new s.

Fixpoint count_from (skip : nat) (old s : string) : nat :=
  match s with
  | EmptyString => 0
  | String c s' =>
      match skip with
      | S k => count_from k old s'
      | 0 => if str_prefix old s then S (count_from (String.length old - 1) old s')
             else count_from 0 old s'
      end
  end.

(** [s.count(old)] *)
Definition str_count (old s : string) : nat :=
  if decide (old = EmptyString) then S (String.length s) else count_from 0 old s.

(** [s[n:]] *)
Fixpoint str_drop (n : nat) (s : string) : string :=
  match n, s with
  | S n', String _ s' => str_drop n' s'
  | _, _ => s
  end.

(** [s.rstrip] of the characters [strip] says *)
Fixpoint rstrip (strip : Ascii.ascii -> bool) (s : string) : string :=
  match s with
  | EmptyString => EmptyString
  | String a s' =>
      match rstrip strip s' with
      | EmptyString => if strip a then EmptyString else String a EmptyString
      | r => String a r
      end
  end.

Fixpoint lstrip (strip : Ascii.ascii -> bool) (s : string) : string :=
  match s with
  | EmptyString => EmptyString
  | String a s' => if strip a then lstrip strip s' else s
  end.

(** ASCII white space: tab to carriage return, the separators, the blank *)
Definition is_space (a : Ascii.ascii) : bool :=
  let n := Ascii.nat_of_ascii a in
  Nat.leb 9 n && Nat.leb n 13 || Nat.leb 28 n && Nat.leb n 32.

Definition strip (s : string) : string := lstrip is_space (rstrip is_space s).

(** ** Occurrences *)

Lemma str_length_app s t : String.length (s +:+ t) = String.length s + String.length t.
Proof. induction s as [|c s IH]; [done|]. rewrite str_app_cons. simpl. by rewrite IH. Qed.

Lemma str_prefix_nil s : str_prefix "" s = true.
Proof. by destruct s. Qed.

Lemma str_in_spec p s : str_in p s = true <-> exists l r, s = (l +:+ (p +:+ r))%string.
Proof.
  induction s as [|c s IH]; simpl.
  - rewrite orb_false_r, str_prefix_spec. split.
    + intros [r E]. by exists ""%string, r.
    + intros (l & r & E). exists r. by destruct l.
  - rewrite orb_true_iff, str_prefix_spec, IH. split.
    + intros [[r E]|(l & r & ->)]; [by exists ""%string, r|by exists (String c l), r].
    + intros ([|d l] & r & E); [left; by exists r|]. right. exists l, r. by injection E.
Qed.

Lemma str_in_app_l p s r : str_in p s = true -> str_in p (r +:+ s) = true.
Proof.
  rewrite !str_in_spec. intros (l & q & ->). exists (r +:+ l)%string, q. by rewrite str_app_assoc.
Qed.

Lemma replace_none_aux old new s :
  old <> EmptyString -> str_in old s = false -> replace_from 0 old new s = s.
Proof.
  intros Ho. induction s as [|c s IH]; [done|]. cbn [str_in replace_from].
  intros [-> Hs]%orb_false_iff. by rewrite IH.
Qed.

(** A pattern that does not occur is not replaced. *)
Lemma str_replace_none old new s :
  old <> EmptyString -> str_in old s = false -> str_replace old new s = s.
Proof. intros Ho Hs. unfold str_replace. rewrite decide_False by done. by apply replace_none_aux. Qed.

Lemma count_zero old s : old <> EmptyString -> str_count old s = 0 <-> str_in old s = false.
Proof.
  intros Ho. unfold str_count. rewrite decide_False by done.
  induction s as [|c s IH]; cbn [str_in count_from].
  - destruct old; [done|]. by split.
  - destruct (str_prefix old (String c s)); simpl; [by split|exact IH].
Qed.

Lemma replace_from_skip p old new r :
  replace_from (String.length p) old new (p +:+ r) = replace_from 0 old new r.
Proof. induction p as [|c p IH]; [done|]. exact IH. Qed.

Lemma count_from_skip p old r : count_from (String.length p) old (p +:+ r) = count_from 0 old r.
Proof. induction p as [|c p IH]; [done|]. exact IH. Qed.

(** The equations of the scan: at a match, and past a character that starts none. *)
Lemma replace_from_hit old new r :
  old <> EmptyString -> replace_from 0 old new (old +:+ r) = (new +:+ replace_from 0 old new r)%string.
Proof.
  destruct old as [|c old]; [done|]. intros _. rewrite str_app_cons. cbn [replace_from].
  rewrite (proj2 (str_prefix_spec (String c old) _)) by (exists r; by rewrite str_app_cons).
  f_equal. simpl String.length. rewrite Nat.sub_0_r || rewrite Nat.sub_succ, Nat.sub_0_r.
  apply replace_from_skip.
Qed.

Lemma count_from_hit old r :
  old <> EmptyString -> count_from 0 old (old +:+ r) = S (count_from 0 old r).
Proof.
  destruct old as [|c old]; [done|]. intros _. rewrite str_app_cons. cbn [count_from].
  rewrite (proj2 (str_prefix_spec (String c old) _)) by (exists r; by rewrite str_app_cons).
  f_equal. simpl String.length. rewrite Nat.sub_0_r || rewrite Nat.sub_succ, Nat.sub_0_r.
  apply count_from_skip.
Qed.

Lemma replace_from_miss c s old new :
  str_prefix old (String c s) = false ->
  replace_from 0 old new (String c s) = String c (replace_from 0 old new s).
Proof. intros E. cbn [replace_from]. by rewrite E. Qed.

Lemma count_from_miss c s old :
  str_prefix old (String c s) = false -> count_from 0 old (String c s) = count_from 0 old s.
Proof. intros E. cbn [count_from]. by rewrite E. Qed.

(** [old.join] of the pieces [s] is cut into. *)
Definition join (sep : string) (pieces : list string) : string :=
  match pieces with
  | [] => EmptyString
  | x :: rest => foldl (fun acc y => (acc +:+ (sep +:+ y))%string) x rest
  end.

Lemma foldl_join_app sep x l a :
  foldl (fun acc y => (acc +:+ (sep +:+ y))%string) (a +:+ x)%string l =
  (a +:+ foldl (fun acc y => (acc +:+ (sep +:+ y))%string) x l)%string.
Proof.
  revert x. induction l as [|y l IH]; intros x; [done|]. simpl. by rewrite str_app_assoc, IH.
Qed.

Lemma join_cons sep x y l : join sep (x :: y :: l) = (x +:+ (sep +:+ join sep (y :: l)))%string.
Proof. simpl. by rewrite <- !str_app_assoc, foldl_join_app. Qed.

Lemma join_cons_char sep c x l : join sep (String c x :: l) = String c (join sep (x :: l)).
Proof. simpl. apply (foldl_join_app sep x l (String c "")). Qed.

(** Replacing and counting cut the string at the same places: into pieces, one more than the count,
    none of which contains the pattern. *)
Lemma str_replace_pieces old s :
  old <> EmptyString ->
  exists pieces, s = join old pieces /\ length pieces = S (str_count old s) /\
    Forall (fun p => str_in old p = false) pieces /\
    forall new, str_replace old new s = join new pieces.
Proof.
  intros Ho. unfold str_replace, str_count. rewrite !decide_False by done.
  cut (exists pieces, s = join old pieces /\ length pieces = S (count_from 0 old s) /\
    Forall (fun p => str_in old p = false) pieces /\
    (forall p rest, pieces = p :: rest -> forall q, str_prefix q p = true -> str_prefix q s = true) /\
    forall new, replace_from 0 old new s = join new pieces).
  { intros (pieces & H1 & H2 & H3 & _ & H4). exists pieces. split_and!; try done.
    intros new. rewrite decide_False by done. apply H4. }
  induction s as [s IH] using (induction_ltof1 _ String.length). unfold ltof in IH.
  destruct (str_prefix old s) eqn:Ep.
  - apply str_prefix_spec in Ep as [r ->].
    destruct (IH r) as (pieces & Hj & Hl & Hf & _ & Hr).
    { rewrite str_length_app. destruct old; [done|simpl; lia]. }
    destruct pieces as [|p pieces]; [done|].
    exists (EmptyString :: p :: pieces). split_and!.
    + rewrite join_cons, <- Hj. done.
    + rewrite count_from_hit by done. simpl in *. lia.
    + constructor; [|done]. by destruct old.
    + intros p' rest [= <- _] q Hq. destruct q; [apply str_prefix_nil|done].
    + intros new. rewrite replace_from_hit by done. by rewrite Hr, join_cons.
  - destruct s as [|c s].
    { exists [EmptyString]. split_and!; try done; [|by intros p rest [= <- _]].
      constructor; [|constructor]. by destruct old. }
    destruct (IH s) as (pieces & Hj & Hl & Hf & Hp & Hr); [simpl; lia|].
    destruct pieces as [|p pieces]; [done|].
    assert (Hpre : forall q, str_prefix q (String c p) = true -> str_prefix q (String c s) = true).
    { intros [|d q]; [done|]. simpl. rewrite !andb_true_iff. intros [? ?]. split; [done|]. by eapply Hp. }
    exists (String c p :: pieces). split_and!.
    + by rewrite join_cons_char, <- Hj.
    + by rewrite count_from_miss.
    + apply Forall_cons in Hf as [Hp0 Hf]. constructor; [|done]. cbn [str_in]. rewrite Hp0, orb_false_r.
      apply not_true_is_false. intros H. apply Hpre in H. congruence.
    + intros p' rest [= <- _]. exact Hpre.
    + intros new. rewrite replace_from_miss by done. by rewrite Hr, join_cons_char.
Qed.
