(* ===== verification/Secrets.v ===== *)
(** secrets/_registry.py: the registry of secrets, which puts secret values into text in place of
    [{{secret:NAME}}] placeholders and placeholders into text in place of secret values. *)
From Stdlib Require Import Ascii.
From S2P Require Import Prelude PyDict Text.

(** ** Definitions *)

(** [[A-Za-z0-9_-]] *)
Definition name_char (c : ascii) : bool :=
  let n := nat_of_ascii c in
  bool_decide (65 <= n /\ n <= 90) || bool_decide (97 <= n /\ n <= 122) ||
  bool_decide (48 <= n /\ n <= 57) || bool_decide (n = 95) || bool_decide (n = 45).

(** The longest prefix of name characters, and what follows it. *)
Fixpoint span_name (s : string) : string * string :=
  match s with
  | EmptyString => (EmptyString, EmptyString)
  | String c s' =>
      if name_char c then let '(n, r) := span_name s' in (String c n, r) else (EmptyString, s)
  end.

Definition opening : string := "{{secret:".
Definition closing : string := "}}".

(** [_PATTERN.match] at the start of [s]: the name.  No shorter name could be followed by the closing
    braces, so the greedy match is the only one. *)
Definition match_secret (s : string) : option string :=
  if str_prefix opening s then
    let '(n, r) := span_name (str_drop (String.length opening) s) in
    if bool_decide (n <> EmptyString) && str_prefix closing r then Some n else None
  else None.

(** [match.group(0)] *)
Definition placeholder (name : string) : string := (opening +:+ (name +:+ closing))%string.

(** [_PATTERN.finditer]: the names, from left to right *)
Fixpoint references_from (skip : nat) (s : string) : list string :=
  match s with
  | EmptyString => []
  | String _ s' =>
      match skip with
      | S k => references_from k s'
      | 0 => match match_secret s with
             | Some n => n :: references_from (String.length (placeholder n) - 1) s'
             | None => references_from 0 s'
             end
      end
  end.

(** [_PATTERN.sub(f, s)] *)
Fixpoint sub_from (f : string -> string) (skip : nat) (s : string) : string :=
  match s with
  | EmptyString => EmptyString
  | String c s' =>
      match skip with
      | S k => sub_from f k s'
      | 0 => match match_secret s with
             | Some n => (f n +:+ sub_from f (String.length (placeholder n) - 1) s')%string
             | None => String c (sub_from f 0 s')
             end
      end
  end.

Record SecretRegistry := {
  _secrets : dict string string;
  (** longest values first; entries of equal length stay in order *)
  _scrub_order : list (string * string)
}.

Definition SecretRegistry_init (secrets : dict string string) : result SecretRegistry :=
  match filter (fun nv : string * string => nv.2 = EmptyString) (ditems secrets) with
  | _ :: _ => Raise (ValueError "Secret has an empty value")
  | [] => Ok {|
      _secrets := secrets;
      _scrub_order := sort_by (fun nv : string * string => (- Z.of_nat (String.length nv.2))%Z) (ditems secrets)
    |}
  end.

Definition resolve (r : SecretRegistry) (name : string) : result string :=
  or_raise (_secrets r !! name) (KeyError name).

Definition validate_references (r : SecretRegistry) (text : string) : result (list string) :=
  let names := references_from 0 text in
  match filter (fun n => _secrets r !! n = None) names with
  | n :: _ => Raise (KeyError n)
  | [] => Ok (py_set names)
  end.

Definition substitute (r : SecretRegistry) (text : string) : string :=
  sub_from (fun name => default (placeholder name) (_secrets r !! name)) 0 text.

Definition scrub_step (text : string) (nv : string * string) : string :=
  str_replace nv.2 (placeholder nv.1) text.

Definition scrub (r : SecretRegistry) (text : string) : string := foldl scrub_step text (_scrub_order r).

(** ** Texts as characters and references

    A text that has been partly scrubbed is a sequence of characters and of references to secrets. *)

Definition token : Type := ascii + string.

Fixpoint render (ts : list token) : string :=
  match ts with
  | [] => EmptyString
  | inl c :: ts' => String c (render ts')
  | inr n :: ts' => (placeholder n +:+ render ts')%string
  end.

(** The references replaced by the values. *)
Fixpoint expand (secrets : dict string string) (ts : list token) : string :=
  match ts with
  | [] => EmptyString
  | inl c :: ts' => String c (expand secrets ts')
  | inr n :: ts' => (default (placeholder n) (secrets !! n) +:+ expand secrets ts')%string
  end.

Fixpoint chars (s : string) : list token :=
  match s with EmptyString => [] | String c s' => inl c :: chars s' end.

(** Matching, occurrence and replacement among the characters. *)
Fixpoint tprefix (v : string) (ts : list token) : bool :=
  match v, ts with
  | EmptyString, _ => true
  | String c v', inl d :: ts' => bool_decide (c = d) && tprefix v' ts'
  | String _ _, _ => false
  end.

Fixpoint tin (v : string) (ts : list token) : bool :=
  tprefix v ts || match ts with [] => false | _ :: ts' => tin v ts' end.

Fixpoint treplace (skip : nat) (n v : string) (ts : list token) : list token :=
  match ts with
  | [] => []
  | inl c :: ts' =>
      match skip with
      | S k => treplace k n v ts'
      | 0 => if tprefix v (inl c :: ts') then inr n :: treplace (String.length v - 1) n v ts'
             else inl c :: treplace 0 n v ts'
      end
  | inr m :: ts' => inr m :: treplace 0 n v ts'
  end.

(** A value that cannot be confused with a placeholder: it has no brace and is no part of
    "secret:NAME". *)
Definition brace (c : ascii) : bool := bool_decide (c = "{"%char) || bool_decide (c = "}"%char).
Fixpoint braceless (s : string) : bool :=
  match s with EmptyString => true | String c s' => negb (brace c) && braceless s' end.
Definition inner (n : string) : string := ("secret:" +:+ n)%string.
Definition apart (names : list string) (v : string) : Prop :=
  v <> EmptyString /\ braceless v = true /\ forall n, n ∈ names -> str_in v (inner n) = false.

Definition refs_in (names : list string) (ts : list token) : Prop :=
  forall n, inr n ∈ ts -> n ∈ names.

Lemma braceless_cons c s : braceless (String c s) = true -> brace c = false /\ braceless s = true.
Proof. simpl. rewrite andb_true_iff, negb_true_iff. done. Qed.

(** A pattern without braces does not reach over one. *)
Lemma prefix_barrier v u c r :
  v <> EmptyString -> braceless v = true -> brace c = true ->
  str_prefix v (u +:+ String c r) = str_prefix v u.
Proof.
  intros _ Hv Hc. revert v Hv. induction u as [|d u IH]; intros [|e v] Hv; try done.
  - rewrite str_app_nil. apply braceless_cons in Hv as [He _]. simpl.
    rewrite bool_decide_false; [done|congruence].
  - apply braceless_cons in Hv as [_ Hv]. rewrite str_app_cons. simpl. by rewrite IH.
Qed.

Lemma prefix_at_brace v c r :
  v <> EmptyString -> braceless v = true -> brace c = true -> str_prefix v (String c r) = false.
Proof.
  intros Hne Hv Hc. rewrite <- (str_app_nil (String c r)), prefix_barrier by done. by destruct v.
Qed.

Lemma prefix_in p u : str_in p u = false -> str_prefix p u = false.
Proof. destruct u; simpl; by intros [? _]%orb_false_iff. Qed.

(** No match starts inside a piece of text in front of a brace that does not contain the pattern. *)
Lemma replace_past v new u c r :
  v <> EmptyString -> braceless v = true -> brace c = true -> str_in v u = false ->
  replace_from 0 v new (u +:+ String c r) = (u +:+ replace_from 0 v new (String c r))%string.
Proof.
  intros Hne Hv Hc. induction u as [|d u IH]; intros Hu; [done|].
  pose proof (prefix_in _ _ Hu) as Hp. rewrite str_app_cons.
  rewrite replace_from_miss by (by rewrite <- str_app_cons, prefix_barrier).
  rewrite IH; [done|]. by apply orb_false_iff in Hu as [_ ?].
Qed.

Lemma in_past v u c r :
  v <> EmptyString -> braceless v = true -> brace c = true -> str_in v u = false ->
  str_in v (u +:+ String c r) = str_in v (String c r).
Proof.
  intros Hne Hv Hc. induction u as [|d u IH]; intros Hu; [done|].
  pose proof (prefix_in _ _ Hu) as Hp. rewrite str_app_cons. cbn [str_in].
  apply orb_false_iff in Hu as [_ Hu].
  by rewrite <- str_app_cons, prefix_barrier, Hp, IH by done.
Qed.

Lemma placeholder_app n r :
  (placeholder n +:+ r)%string =
  String "{" (String "{" (inner n +:+ String "}" (String "}" r)))%string.
Proof. unfold placeholder, inner. by rewrite !str_app_assoc. Qed.

Section apart.
Context (names : list string) (v : string) (Hv : apart names v).
Let Hne : v <> EmptyString := proj1 Hv.
Let Hb : braceless v = true := proj1 (proj2 Hv).
Let Hin : forall n, n ∈ names -> str_in v (inner n) = false := proj2 (proj2 Hv).

Lemma replace_placeholder new n r :
  n ∈ names -> replace_from 0 v new (placeholder n +:+ r) = (placeholder n +:+ replace_from 0 v new r)%string.
Proof using Hv.
  intros Hn. rewrite !placeholder_app.
  rewrite !replace_from_miss by (by apply prefix_at_brace). do 2 f_equal.
  rewrite replace_past by auto. by rewrite !replace_from_miss by (by apply prefix_at_brace).
Qed.

Lemma in_placeholder n r : n ∈ names -> str_in v (placeholder n +:+ r) = str_in v r.
Proof using Hv.
  intros Hn. rewrite placeholder_app. cbn [str_in]. rewrite !prefix_at_brace by done.
  rewrite !orb_false_l, in_past by auto. cbn [str_in]. rewrite !prefix_at_brace by done. done.
Qed.

Lemma prefix_render w ts : braceless w = true -> str_prefix w (render ts) = tprefix w ts.
Proof.
  revert ts. induction w as [|d w IH]; intros ts Hw; [by rewrite str_prefix_nil|].
  destruct ts as [|[c|n] ts]; [done| |].
  - apply braceless_cons in Hw as [_ Hw]. simpl. by rewrite IH.
  - apply braceless_cons in Hw as [Hd _]. cbn [render tprefix]. rewrite placeholder_app.
    cbn [str_prefix]. rewrite bool_decide_false; [done|]. by intros ->.
Qed.

Lemma in_render ts : refs_in names ts -> str_in v (render ts) = tin v ts.
Proof using Hv.
  induction ts as [|[c|n] ts IH]; intros Hr; [by destruct v| |].
  - assert (Hr' : refs_in names ts) by (intros n Hn; apply Hr; by right).
    change (render (inl c :: ts)) with (String c (render ts)). cbn [str_in tin].
    rewrite IH by done. f_equal. apply (prefix_render v (inl c :: ts)), Hb.
  - assert (Hr' : refs_in names ts) by (intros m Hm; apply Hr; by right).
    cbn [render tin]. rewrite in_placeholder by (apply Hr; left). rewrite IH by done.
    by destruct v.
Qed.

(** The first [k] tokens are characters. *)
Fixpoint lead (k : nat) (ts : list token) : Prop :=
  match k, ts with
  | 0, _ => True
  | S k', inl _ :: ts' => lead k' ts'
  | S _, _ => False
  end.

Lemma tprefix_lead w ts : tprefix w ts = true -> lead (String.length w) ts.
Proof.
  revert ts. induction w as [|c w IH]; intros [|[d|n] ts]; simpl; try done.
  rewrite andb_true_iff. intros [_ H]. by apply IH.
Qed.

Lemma length_pred : S (String.length v - 1) = String.length v.
Proof using Hv. destruct v; [done|simpl; lia]. Qed.

Lemma replace_render n k ts :
  refs_in names ts -> lead k ts ->
  replace_from k v (placeholder n) (render ts) = render (treplace k n v ts).
Proof using Hv.
  revert k. induction ts as [|[c|m] ts IH]; intros k Hr Hl; [by destruct k| |].
  - assert (Hr' : refs_in names ts) by (intros m Hm; apply Hr; by right).
    destruct k as [|k]; [|by apply IH].
    pose proof (prefix_render v (inl c :: ts) Hb) as Ep.
    change (render (inl c :: ts)) with (String c (render ts)) in *. cbn [replace_from treplace].
    rewrite Ep. destruct (tprefix v (inl c :: ts)) eqn:Et.
    + cbn [render]. f_equal. apply IH; [done|].
      apply tprefix_lead in Et. rewrite <- length_pred in Et. exact Et.
    + cbn [render]. f_equal. by apply IH.
  - assert (Hr' : refs_in names ts) by (intros x Hx; apply Hr; by right).
    destruct k as [|k]; [|done]. cbn [render treplace].
    rewrite replace_placeholder by (apply Hr; left). f_equal. by apply IH.
Qed.
End apart.

Lemma tprefix_treplace p n v ts : tprefix p (treplace 0 n v ts) = true -> tprefix p ts = true.
Proof.
  revert ts. induction p as [|d p IH]; intros ts; [by destruct ts|].
  destruct ts as [|[c|m] ts]; [done| |done]. cbn [treplace].
  destruct (tprefix v _); [done|]. simpl. rewrite !andb_true_iff. intros [? ?]. split; [done|by apply IH].
Qed.

(** Replacing removes every occurrence of the value and makes none of another. *)
Lemma tin_treplace p n v ts k :
  p <> EmptyString -> tin p ts = false \/ p = v -> tin p (treplace k n v ts) = false.
Proof.
  intros Hp. revert k. induction ts as [|x ts IH]; intros k Hor; [by destruct p|].
  assert (Hor' : tin p ts = false \/ p = v).
  { destruct Hor as [H|H]; [left|by right]. by apply orb_false_iff in H as [_ ?]. }
  destruct x as [c|m]; cbn [treplace].
  - destruct k as [|k]; [|by apply IH]. destruct (tprefix v (inl c :: ts)) eqn:Et.
    + cbn [tin]. rewrite IH by done. by destruct p.
    + assert (Hm : tprefix p (inl c :: ts) = false).
      { destruct Hor as [H| ->]; [|done]. by apply orb_false_iff in H as [? _]. }
      cbn [tin]. rewrite IH, orb_false_r by done. apply not_true_is_false. intros H.
      rewrite (tprefix_treplace p n v (inl c :: ts)) in Hm; [done|]. cbn [treplace]. by rewrite Et.
  - cbn [tin]. rewrite IH by done. by destruct p.
Qed.

Lemma elem_of_treplace x n v ts k : x ∈ treplace k n v ts -> x = inr n \/ x ∈ ts.
Proof.
  revert k. induction ts as [|[c|m] ts IH]; intros k; simpl; [by right| |].
  - destruct k as [|k]; [|intros [?|?]%IH; [by left|by right; right]].
    destruct (tprefix v (inl c :: ts)); (intros [->|H]%elem_of_cons; [|apply IH in H as [?|?]]);
      try (by left); right; (by left) || by right.
  - intros [->|[?|?]%IH]%elem_of_cons; [right; left|by left|right; by right].
Qed.

Lemma expand_tprefix secrets v ts :
  tprefix v ts = true -> expand secrets ts = (v +:+ expand secrets (drop (String.length v) ts))%string.
Proof.
  revert ts. induction v as [|c v IH]; intros ts; [done|]. destruct ts as [|[d|n] ts]; try done.
  simpl. rewrite andb_true_iff, bool_decide_eq_true. intros [-> H]. by rewrite (IH ts H).
Qed.

(** Replacing a value by its reference does not change what the text stands for. *)
Lemma expand_treplace secrets n v ts k :
  v <> EmptyString -> secrets !! n = Some v -> lead k ts ->
  expand secrets (treplace k n v ts) = expand secrets (drop k ts).
Proof.
  intros Hne Hn. revert k. induction ts as [|[c|m] ts IH]; intros k Hl; [by destruct k| |].
  - destruct k as [|k]; [|by apply IH]. cbn [treplace drop].
    destruct (tprefix v (inl c :: ts)) eqn:Et.
    + etransitivity; [|symmetry; apply (expand_tprefix secrets _ _ Et)].
      cbn [expand]. rewrite Hn. simpl. f_equal.
      apply tprefix_lead in Et. destruct v as [|d v]; [done|]. cbn [String.length drop lead] in *.
      rewrite Nat.sub_succ, Nat.sub_0_r. by apply IH.
    + cbn [expand]. f_equal. by apply (IH 0).
  - destruct k as [|k]; [|done]. cbn [treplace drop expand]. f_equal. by apply (IH 0).
Qed.

(** ** Scrubbing a text is replacing among its tokens *)

Section registry.
Context (secrets : dict string string) (names := dkeys secrets).
Context (Hapart : forall n v, secrets !! n = Some v -> apart names v).

Lemma scrub_steps l ts :
  (forall nv, nv ∈ l -> secrets !! nv.1 = Some nv.2) -> refs_in names ts ->
  exists ts', foldl scrub_step (render ts) l = render ts' /\ refs_in names ts' /\
    expand secrets ts' = expand secrets ts /\ (forall c, inl c ∈ ts' -> inl c ∈ ts) /\
    forall p, p <> EmptyString -> tin p ts = false \/ p ∈ l.*2 -> tin p ts' = false.
Proof using Hapart.
  revert ts. induction l as [|[n v] l IH]; intros ts Hl Hr.
  - exists ts. split_and!; try done. by intros p _ [?|?%not_elem_of_nil].
  - pose proof (Hl (n, v) ltac:(left)) as Hn. simpl in Hn. destruct (Hapart n v Hn) as (Hne & Hb & Hi).
    assert (Hk : n ∈ names).
    { apply dec_stable. intros Hx. apply dict_lookup_None_key in Hx. congruence. }
    assert (Estep : scrub_step (render ts) (n, v) = render (treplace 0 n v ts)).
    { unfold scrub_step, str_replace; simpl. rewrite decide_False by done.
      by apply (replace_render names). }
    destruct (IH (treplace 0 n v ts)) as (ts' & E & Hr' & Hx & Hc & Hp).
    { intros nv Hnv. apply Hl. by right. }
    { intros m [[= ->]|Hm]%elem_of_treplace; [done|by apply Hr]. }
    exists ts'. cbn [foldl]. rewrite Estep. split_and!; [done|done| | |].
    + rewrite Hx. by apply (expand_treplace secrets n v ts 0).
    + intros c Hin%Hc. by apply elem_of_treplace in Hin as [?|?].
    + intros p Hpne Hor. apply Hp; [done|]. rewrite fmap_cons in Hor.
      destruct Hor as [H|[->|H]%elem_of_cons]; [left|left|by right]; apply tin_treplace; auto.
Qed.

Lemma chars_render s : render (chars s) = s.
Proof. induction s as [|c s IH]; simpl; [done|]. by rewrite IH. Qed.
Lemma chars_expand s : expand secrets (chars s) = s.
Proof using Type. induction s as [|c s IH]; simpl; [done|]. by rewrite IH. Qed.
Lemma chars_refs s : refs_in names (chars s).
Proof using Type. induction s as [|c s IH]; intros n; simpl; [by intros ?%not_elem_of_nil|]. by intros [?|?%IH]%elem_of_cons. Qed.
Lemma elem_of_chars s c : braceless s = true -> inl c ∈ chars s -> brace c = false.
Proof.
  induction s as [|d s IH]; simpl; [by intros _ ?%not_elem_of_nil|].
  rewrite andb_true_iff, negb_true_iff. intros [Hd Hs] [[= ->]|?]%elem_of_cons; auto.
Qed.

Context (Hwf : dwf secrets) (r : SecretRegistry) (Er : SecretRegistry_init secrets = Ok r).

Lemma init_registry : _secrets r = secrets /\ forall nv, nv ∈ _scrub_order r <-> nv ∈ ditems secrets.
Proof using Er.
  clear Hapart Hwf names. revert Er. unfold SecretRegistry_init.
  destruct (filter _ _); [|discriminate]. intros [= <-]. split; [done|]. intros nv. apply elem_of_sort_by.
Qed.

Lemma scrub_tokens text :
  exists ts, scrub r text = render ts /\ refs_in names ts /\ expand secrets ts = text /\
    (forall c, inl c ∈ ts -> inl c ∈ chars text) /\
    forall n v, secrets !! n = Some v -> tin v ts = false.
Proof using Hapart Hwf Er.
  destruct init_registry as [_ Hord].
  destruct (scrub_steps (_scrub_order r) (chars text)) as (ts & E & Hr & Hx & Hc & Hp).
  - intros [n v] Hin. apply dict_in_lookup; [done|by apply Hord].
  - apply chars_refs.
  - exists ts. rewrite chars_render in E. rewrite chars_expand in Hx. split_and!; try done.
    intros n v Hn. apply Hp; [apply (Hapart n v Hn)|]. right.
    apply list_elem_of_fmap. exists (n, v). split; [done|]. by apply Hord, dict_lookup_Some_in.
Qed.

(** [substitute] at a placeholder and elsewhere. *)
Definition name_ok (n : string) : Prop :=
  n <> EmptyString /\ forall c s t, n = (s +:+ String c t)%string -> name_char c = true.

Lemma name_ok_cons c n : n <> EmptyString -> name_ok (String c n) -> name_char c = true /\ name_ok n.
Proof.
  intros Hne [_ H]. split; [by apply (H c "" n)%string|]. split; [done|].
  intros d s t ->. by apply (H d (String c s) t).
Qed.

Lemma span_name_closing n s : name_ok n -> span_name (n +:+ String "}" s) = (n, String "}" s).
Proof.
  induction n as [|c n IH]; intros Hn; [by destruct Hn|]. rewrite str_app_cons. cbn [span_name].
  destruct (decide (n = EmptyString)) as [->|Hne].
  - destruct Hn as [_ Hn]. by rewrite (Hn c "" "")%string.
  - apply name_ok_cons in Hn as [-> Hn]; [|done]. by rewrite IH.
Qed.

Lemma match_placeholder n s : name_ok n -> match_secret (placeholder n +:+ s) = Some n.
Proof.
  intros Hn. unfold match_secret. rewrite (proj2 (str_prefix_spec opening _)).
  2: { exists (n +:+ (closing +:+ s))%string. unfold placeholder. by rewrite !str_app_assoc. }
  replace (str_drop (String.length opening) (placeholder n +:+ s))
    with (n +:+ String "}" (String "}" s))%string.
  2: { rewrite placeholder_app. reflexivity. }
  rewrite span_name_closing by done. rewrite bool_decide_true by apply Hn. done.
Qed.

Lemma sub_from_skip f p s : sub_from f (String.length p) (p +:+ s) = sub_from f 0 s.
Proof. induction p as [|c p IH]; [done|]. exact IH. Qed.

Lemma sub_from_placeholder f n s :
  name_ok n -> sub_from f 0 (placeholder n +:+ s) = (f n +:+ sub_from f 0 s)%string.
Proof.
  intros Hn. pose proof (match_placeholder n s Hn) as Em.
  destruct (placeholder n) as [|c p] eqn:Ep; [done|]. rewrite str_app_cons in *.
  cbn [sub_from]. rewrite Em, Ep. f_equal. cbn [String.length]. rewrite Nat.sub_succ, Nat.sub_0_r.
  apply sub_from_skip.
Qed.

Lemma substitute_render ts :
  (forall n, inr n ∈ ts -> name_ok n) -> (forall c, inl c ∈ ts -> brace c = false) ->
  substitute r (render ts) = expand secrets ts.
Proof using Er.
  destruct init_registry as [Es _]. unfold substitute. rewrite Es.
  induction ts as [|[c|n] ts IH]; intros Hn Hc; [done| |].
  - assert (Em : match_secret (String c (render ts)) = None).
    { unfold match_secret. destruct (str_prefix opening _) eqn:E; [|done].
      apply str_prefix_spec in E as [q E]. injection E as -> _.
      specialize (Hc _ ltac:(left)). discriminate Hc. }
    cbn [render sub_from expand]. rewrite Em. f_equal.
    apply IH; intros; [apply Hn|apply Hc]; by right.
  - cbn [render expand]. rewrite sub_from_placeholder by (apply Hn; left). f_equal.
    apply IH; intros; [apply Hn|apply Hc]; by right.
Qed.
End registry.

Lemma scrub_clean secrets r text :
  dwf secrets -> SecretRegistry_init secrets = Ok r ->
  (forall n v, secrets !! n = Some v -> apart (dkeys secrets) v) ->
  forall n v, secrets !! n = Some v -> str_in v (scrub r text) = false.
Proof.
  intros Hwf Er Hap n v Hn.
  destruct (scrub_tokens secrets Hap Hwf r Er text) as (ts & -> & Hr & _ & _ & Hp).
  rewrite (in_render (dkeys secrets)); [by eapply Hp|by eapply Hap|done].
Qed.

(** ** Main theorems *)

(** A scrubbed text holds no secret.  When no value has a brace or is part of "secret:NAME" for
    a registered name, no secret value occurs in a text after [scrub], whatever the text. *)
Theorem scrub_leaves_no_secret secrets r text :
  dwf secrets -> SecretRegistry_init secrets = Ok r ->
  (forall n v, secrets !! n = Some v -> apart (dkeys secrets) v) ->
  forall n v, secrets !! n = Some v -> str_in v (scrub r text) = false.
Proof. intros. by eapply scrub_clean. Qed.

(** Substituting undoes scrubbing.  With such values and names that a placeholder can hold, putting
    the values back into a scrubbed text gives the text, if that had no braces of its own. *)
Theorem substitute_scrub secrets r text :
  dwf secrets -> SecretRegistry_init secrets = Ok r ->
  (forall n v, secrets !! n = Some v -> apart (dkeys secrets) v) ->
  (forall n, n ∈ dkeys secrets -> name_ok n) -> braceless text = true ->
  substitute r (scrub r text) = text.
Proof.
  intros Hwf Er Hap Hnames Htext.
  destruct (scrub_tokens secrets Hap Hwf r Er text) as (ts & -> & Hr & <- & Hc & _).
  apply substitute_render; [done| |].
  - intros n Hn. by apply Hnames, Hr.
  - intros c Hin. by eapply elem_of_chars, Hc.
Qed.

(** ** Witnesses *)

Fixpoint all_chars (f : ascii -> bool) (s : string) : bool :=
  match s with EmptyString => true | String c s' => f c && all_chars f s' end.

Lemma name_ok_check n : bool_decide (n <> EmptyString) && all_chars name_char n = true -> name_ok n.
Proof.
  rewrite andb_true_iff, bool_decide_eq_true. intros [Hne Ha]. split; [done|].
  clear Hne. induction n as [|d n IH]; intros c s t E; [by destruct s|].
  simpl in Ha. apply andb_true_iff in Ha as [Hd Ha].
  destruct s as [|e s]; [by injection E as -> _|]. rewrite str_app_cons in E. injection E as -> E.
  by eapply IH.
Qed.

Definition apart_check (secrets : dict string string) : bool :=
  forallb (fun nv : string * string => bool_decide (nv.2 <> EmptyString) && braceless nv.2 &&
    forallb (fun n => negb (str_in nv.2 (inner n))) (dkeys secrets)) (ditems secrets).

Lemma apart_checked secrets n v :
  apart_check secrets = true -> secrets !! n = Some v -> apart (dkeys secrets) v.
Proof.
  unfold apart_check. rewrite forallb_forall. intros Ha Hn%dict_lookup_Some_in.
  specialize (Ha (n, v) (proj1 (list_elem_of_In _ _) Hn)). simpl in Ha.
  rewrite !andb_true_iff, bool_decide_eq_true, forallb_forall in Ha.
  destruct Ha as [[? ?] Hf]. split_and!; [done|done|]. intros m Hm.
  apply negb_true_iff, Hf. by apply list_elem_of_In.
Qed.

Definition demo_secrets : dict string string :=
  Dict [("api-key", "s3cr3t"); ("db_pass", "s3cr3t-long"); ("tok1", "abc")]%string.
Definition demo_registry : SecretRegistry :=
  {| _secrets := demo_secrets;
     _scrub_order := [("db_pass", "s3cr3t-long"); ("api-key", "s3cr3t"); ("tok1", "abc")]%string |}.
Definition demo_text : string := "login s3cr3t-long then s3cr3t, ababc".

Lemma scrub_leaves_no_secret_witness :
  scrub demo_registry demo_text =
    "login {{secret:db_pass}} then {{secret:api-key}}, ab{{secret:tok1}}"%string /\
  str_in "s3cr3t" (scrub demo_registry demo_text) = false.
Proof.
  split; [vm_compute; reflexivity|].
  apply (scrub_leaves_no_secret demo_secrets demo_registry demo_text
    ltac:(refine (bool_decide_eq_true_1 _ _); vm_compute; reflexivity) eq_refl
    (fun n v => apart_checked demo_secrets n v eq_refl) "api-key").
  reflexivity.
Defined.

Lemma substitute_scrub_witness : substitute demo_registry (scrub demo_registry demo_text) = demo_text.
Proof.
  apply (substitute_scrub demo_secrets demo_registry demo_text
    ltac:(refine (bool_decide_eq_true_1 _ _); vm_compute; reflexivity) eq_refl
    (fun n v => apart_checked demo_secrets n v eq_refl)); [|reflexivity].
  intros n Hn. apply name_ok_check. revert n Hn. apply Forall_forall. repeat constructor.
Defined.
