(* ===== verification/Pipeline.v ===== *)
(** The pipeline every tool call goes through: tool/_pipeline.py, with tool/_scrub.py and the transient
    retry of write-safety/_replay.py.

    The tool itself, the scheduler's check, the trace, the clock, sleeping and [json] are parameters. *)
From Stdlib Require Import Ascii.
From S2P Require Import Prelude PyDict Text Secrets.

(** ** with_transient_retry *)

(** [EIO], [EBUSY], [EAGAIN], [ENOSPC], [ENOLCK] *)
Definition _TRANSIENT_ERRNOS : list Z := [5; 16; 11; 28; 37]%Z.

Definition is_transient_error (errno : Z) : bool := bool_decide (errno ∈ _TRANSIENT_ERRNOS).

Section retry.
Context {W A : Type} (sleep : Z -> M W unit) (fn : M W A).

(** [for attempt in range(max_retries + 1)]; [delay] in milliseconds, [left] attempts to go *)
Fixpoint retry_loop (left : nat) (delay : Z) : M W A :=
  match left with
  | 0 => mthrow (AssertionError "unreachable")
  | S left' =>
      r ← mtry fn;
      match r with
      | Ok a => mret a
      | Raise (OSError errno) =>
          if negb (is_transient_error errno) || bool_decide (left' = 0) then mthrow (OSError errno)
          else sleep delay ;; retry_loop left' (delay * 2)%Z
      | Raise e => mthrow e
      end
  end.

Definition with_transient_retry (max_retries : nat) : M W A := retry_loop (S max_retries) 100.
End retry.

(** ** Scrubbing tool output *)

Record ToolOutput := { data : value; text : string }.

(** protocols/_types/_tool.py *)
Record Tool (S : Type) := {
  tl_name : string;
  tl_description : string;
  tl_parameters : value;
  tl_execute : dict string value -> M S ToolOutput;
  tl_suspending : bool;
  tl_namespace : string;
  tl_tags : list string;
  tl_deferred : bool;
  (** the values of [ToolLocation] and [ToolCapability] *)
  tl_location : string;
  tl_capabilities : list string
}.
Arguments tl_name {S} _.
Arguments tl_description {S} _.
Arguments tl_parameters {S} _.
Arguments tl_execute {S} _ _.
Arguments tl_suspending {S} _.
Arguments tl_namespace {S} _.
Arguments tl_tags {S} _.
Arguments tl_deferred {S} _.
Arguments tl_location {S} _.
Arguments tl_capabilities {S} _.

Section scrub.
(** [json.dumps(data, cls=_ScrubEncoder)]: [None] when it raises; [json.loads] *)
Context (dumps : value -> option string) (loads : string -> result value).

Definition scrub_text (registry : SecretRegistry) (text : string) : string := scrub registry text.

Definition scrub_data (registry : SecretRegistry) (data : value) : result value :=
  match data with
  | VNone => Ok VNone
  | _ => match dumps data with
         | None => Ok data
         | Some serialized => loads (scrub registry serialized)
         end
  end.

Definition scrub_tool_output (registry : SecretRegistry) (out : ToolOutput) : result ToolOutput :=
  data' ← scrub_data registry (data out);
  Ok {| data := data'; text := scrub_text registry (text out) |}.
End scrub.

(** ** wrap_tool_with_pipeline *)

(** The scheduler's [mutation_tracker]: per session, the set of paths its tools changed. *)
Record pipe (W : Type) := Pipe { world : W; mutation_tracker : dict string (list string) }.
Arguments Pipe {W} _ _.
Arguments world {W} _.
Arguments mutation_tracker {W} _.
#[export] Instance eta_pipe {W} : Eta (pipe W) := fun s => {|
  world := world s; mutation_tracker := mutation_tracker s |}.

Definition on_world {W A} (m : M W A) : M (pipe W) A := zoom world (fun w s => s .[world := w]) m.

Record pipeline_env (W : Type) := {
  tool_name : string;
  tool_execute : value -> M W ToolOutput;
  scheduler_check : string -> M W unit;
  trace_callback : option (string -> value -> string -> Z -> M W unit);
  result_appendix : option (string -> W -> option string);
  pl_sleep : Z -> M W unit;
  (** the measured duration of the call, in milliseconds *)
  duration_ms : W -> Z;
  pl_dumps : value -> option string;
  pl_loads : string -> result value;
  pl_str : value -> string
}.
Arguments tool_name {W} _.
Arguments tool_execute {W} _ _.
Arguments scheduler_check {W} _ _.
Arguments trace_callback {W} _.
Arguments result_appendix {W} _.
Arguments pl_sleep {W} _ _.
Arguments duration_ms {W} _ _.
Arguments pl_dumps {W} _ _.
Arguments pl_loads {W} _ _.
Arguments pl_str {W} _ _.

Section pipeline.
Context {W : Type} (env : pipeline_env W) (secret_registry : option SecretRegistry).
Context (session_id : string) (is_start_task is_file_mutation tracked : bool).

(** Step 2: the arguments the tool gets *)
Definition effective_args (args : value) : result value :=
  match secret_registry with
  | None => Ok args
  | Some registry =>
      match pl_dumps env args with
      | None => Raise (TypeError "not JSON serializable")
      | Some serialized => pl_loads env (substitute registry serialized)
      end
  end.

(** [paths.add(x)] *)
Definition set_add (x : string) (l : list string) : list string :=
  if decide (x ∈ l) then l else l ++ [x].

(** Step 5 *)
Definition track (args : value) (paths : list string) : list string :=
  let add key paths := match vget key args with
                       | Some v => set_add (pl_str env v) paths
                       | None => paths
                       end in
  let paths := add "destination"%string (add "source"%string (add "path"%string paths)) in
  match paths with [] => ["__generic__"%string] | _ => paths end.

Definition wrapped_execute (args : value) : M (pipe W) ToolOutput :=
  (if is_start_task then mret tt else on_world (scheduler_check env session_id)) ;;
  eff ← liftr (effective_args args);
  out ← on_world (with_transient_retry (pl_sleep env) (tool_execute env eff) 3);
  duration ← mgets (fun s => duration_ms env (world s));
  out ← match secret_registry with
        | Some registry => liftr (scrub_tool_output (pl_dumps env) (pl_loads env) registry out)
        | None => mret out
        end;
  (if is_file_mutation && tracked
   then mmod (fun s => s .[mutation_tracker ::=
          fun t => <[session_id := track eff (default [] (t !! session_id))]> t])
   else mret tt) ;;
  match trace_callback env with
  | Some callback => on_world (callback (tool_name env) args (text out) duration)
  | None => mret tt
  end ;;
  match result_appendix env with
  | None => mret out
  | Some appendix =>
      a ← mgets (fun s => appendix (tool_name env) (world s));
      match a with
      | Some a => if decide (a = EmptyString) then mret out
                  else mret {| data := data out;
                               text := (text out +:+ (newline +:+ (newline +:+ a)))%string |}
      | None => mret out
      end
  end.
End pipeline.

(** ** Retrying *)

Section retry_lemmas.
Context {W A : Type} (sleep : Z -> M W unit) (fn : M W A).
Hypothesis Hsleep : forall d s, exists s', sleep d s = (Ok tt, s').

(** [fails k s s']: [k] calls, each of which fails for the moment and is slept over. *)
Inductive fails : nat -> Z -> W -> W -> Prop :=
| fails_none d s : fails 0 d s s
| fails_more k d errno s s1 s2 s3 :
    fn s = (Raise (OSError errno), s1) -> is_transient_error errno = true ->
    sleep d s1 = (Ok tt, s2) -> fails k (d * 2) s2 s3 -> fails (S k) d s s3.

Lemma retry_loop_spec left delay s :
  exists k s1 r s2, k <= left /\ fails k delay s s1 /\ fn s1 = (r, s2) /\
    retry_loop sleep fn (S left) delay s = (r, s2) /\
    (k < left -> forall errno, r = Raise (OSError errno) -> is_transient_error errno = false).
Proof using Hsleep.
  revert delay s. induction left as [|left IH]; intros delay s.
  - destruct (fn s) as [r s1] eqn:E. exists 0, s, r, s1. split_and!; [done|constructor|done| |lia].
    cbn [retry_loop]. unfold mbind, M_bind, mtry. rewrite E.
    destruct r as [a|[]]; try done. by rewrite bool_decide_true, orb_true_r.
  - destruct (fn s) as [r s1] eqn:E.
    assert (Hcase : (exists errno, r = Raise (OSError errno) /\ is_transient_error errno = true) \/
      forall errno, r = Raise (OSError errno) -> is_transient_error errno = false).
    { destruct r as [a|[]]; try (right; intros ? [=]; fail).
      destruct (is_transient_error errno) eqn:Et; [left; by eexists|right]. by intros ? [= <-]. }
    destruct Hcase as [(errno & -> & Ht)|Hno].
    + destruct (Hsleep delay s1) as [s2 Es].
      destruct (IH (delay * 2)%Z s2) as (k & s3 & r & s4 & ? & Hf & E3 & Er & Hlast).
      exists (S k), s3, r, s4. split_and!; [lia|by econstructor|done| |].
      * cbn [retry_loop]. unfold mbind at 1, M_bind, mtry. rewrite E, Ht. simpl.
        unfold mbind, M_bind. rewrite Es. exact Er.
      * intros ?. apply Hlast. lia.
    + exists 0, s, r, s1. split_and!; [lia|constructor|done| |].
      * cbn [retry_loop]. unfold mbind at 1, M_bind, mtry. rewrite E.
        destruct r as [a|[]]; try done. by rewrite (Hno errno).
      * intros _. exact Hno.
Qed.
End retry_lemmas.

(** ** JSON strings *)

(** [json.dumps] of a string, with [ensure_ascii] *)
Definition hex_digit (n : nat) : Ascii.ascii := Ascii.ascii_of_nat (if decide (n < 10) then 48 + n else 87 + n).
Definition dquote : Ascii.ascii := Ascii.ascii_of_nat 34.
Definition backslash : Ascii.ascii := Ascii.ascii_of_nat 92.

Definition json_char (c : Ascii.ascii) : string :=
  let n := Ascii.nat_of_ascii c in
  let esc s := String backslash s in
  if decide (n = 34) then esc (String dquote "")
  else if decide (n = 92) then esc (String backslash "")
  else if decide (n = 10) then esc "n"
  else if decide (n = 13) then esc "r"
  else if decide (n = 9) then esc "t"
  else if decide (n = 8) then esc "b"
  else if decide (n = 12) then esc "f"
  else if decide (n < 32 \/ 126 < n)
    then esc ("u00" +:+ String (hex_digit (n / 16)) (String (hex_digit (n mod 16)) ""))%string
  else String c "".

Fixpoint json_chars (s : string) : string :=
  match s with EmptyString => EmptyString | String c s' => (json_char c +:+ json_chars s')%string end.

Definition json_string (s : string) : string := String dquote (json_chars s +:+ String dquote "").

(** Somewhere a double quote stands between a character that is no backslash and another character. *)
Fixpoint open_quote (prev : Ascii.ascii) (s : string) : bool :=
  match s with
  | EmptyString => false
  | String c s' =>
      (bool_decide (c = dquote) && bool_decide (prev <> backslash) && bool_decide (s' <> EmptyString)) ||
      open_quote c s'
  end.

Lemma open_quote_app prev l s : open_quote prev (l +:+ s) = false -> l <> EmptyString ->
  exists p, open_quote p s = false.
Proof.
  revert prev. induction l as [|c l IH]; intros prev; [done|]. rewrite str_app_cons. cbn [open_quote].
  intros [_ H]%orb_false_iff _. destruct l as [|d l]; [by exists c|]. by eapply IH.
Qed.

Lemma open_quote_app_l prev s r : open_quote prev (s +:+ r) = false -> open_quote prev s = false.
Proof.
  revert prev. induction s as [|c s IH]; intros prev; [done|]. rewrite str_app_cons. cbn [open_quote].
  rewrite !orb_false_iff. intros [H1 H2]. split; [|by apply IH].
  destruct s as [|d s]; [by rewrite andb_false_r|]. by rewrite str_app_cons in H1.
Qed.

Lemma open_quote_escaped prev d s : open_quote prev (String backslash (String d s)) = open_quote d s.
Proof.
  cbn [open_quote]. rewrite (bool_decide_false (backslash = dquote)) by by vm_compute.
  rewrite (bool_decide_false (backslash <> backslash)) by auto. by rewrite andb_false_r.
Qed.

Lemma open_quote_plain prev c s : c <> dquote -> open_quote prev (String c s) = open_quote c s.
Proof. intros Hc. cbn [open_quote]. by rewrite bool_decide_false. Qed.

Lemma hex_digit_plain m : m < 16 -> hex_digit m <> dquote.
Proof. intros Hm. do 16 (destruct m as [|m]; [by vm_compute|]). lia. Qed.

Lemma open_quote_char prev c s :
  (forall p, open_quote p s = false) -> open_quote prev (json_char c +:+ s) = false.
Proof.
  intros Hs. unfold json_char. set (n := Ascii.nat_of_ascii c).
  repeat (case_decide; [rewrite ?str_app_cons, ?str_app_nil, open_quote_escaped;
    try exact (Hs _)|]).
  - rewrite !open_quote_plain by by vm_compute. rewrite !str_app_cons, str_app_nil.
    rewrite !open_quote_plain; [apply Hs|..].
    + apply hex_digit_plain, Nat.mod_upper_bound. lia.
    + apply hex_digit_plain, Nat.Div0.div_lt_upper_bound. pose proof (Ascii.nat_ascii_bounded c). lia.
  - rewrite str_app_cons, str_app_nil, open_quote_plain; [apply Hs|].
    intros ->. done.
Qed.

Lemma open_quote_chars prev s : open_quote prev (json_chars s +:+ String dquote "") = false.
Proof.
  revert prev. induction s as [|c s IH]; intros prev.
  - simpl. by rewrite andb_false_r.
  - cbn [json_chars]. rewrite str_app_assoc. by apply open_quote_char.
Qed.

(** A value with a double quote after a character that is no backslash is not found in JSON. *)
Lemma json_hides_quote a c b d s :
  c <> backslash -> str_in (a +:+ String c (String dquote (String d b)))%string (json_string s) = false.
Proof.
  intros Hc. apply not_true_is_false. rewrite str_in_spec. intros (l & r & E).
  assert (H : open_quote backslash (json_string s) = false).
  { unfold json_string. cbn [open_quote]. rewrite (bool_decide_false (backslash <> backslash)) by auto.
    rewrite andb_false_r, orb_false_l. apply open_quote_chars. }
  rewrite E in H. rewrite <- str_app_assoc in H.
  assert (Hin : forall l prev q, open_quote prev (l +:+ String c (String dquote (String d q))) = true).
  { clear -Hc. induction l as [|x l IH]; intros prev q.
    - rewrite str_app_nil. cbn [open_quote]. rewrite (bool_decide_true (dquote = dquote)) by done.
      rewrite (bool_decide_true (c <> backslash)) by done.
      rewrite (bool_decide_true (String d q <> "")%string) by done. by rewrite !orb_true_r.
    - rewrite str_app_cons. cbn [open_quote]. by rewrite IH, orb_true_r. }
  rewrite str_app_assoc in H. rewrite !str_app_assoc, !str_app_cons, <- str_app_assoc in H.
  by rewrite Hin in H.
Qed.

(** ** Main theorems *)

(** What a retried call does.  Of at most [max_retries + 1] calls, all but the last fail with a
    transient error; the last decides the outcome, and it is transient only when the retries are
    used up. *)
Theorem with_transient_retry_outcome {W A : Type} (sleep : Z -> M W unit) (fn : M W A) max_retries s :
  (forall d s, exists s', sleep d s = (Ok tt, s')) ->
  exists k s1 r s2, k <= max_retries /\ fails sleep fn k 100 s s1 /\ fn s1 = (r, s2) /\
    with_transient_retry sleep fn max_retries s = (r, s2) /\
    forall errno, r = Raise (OSError errno) -> is_transient_error errno = true -> k = max_retries.
Proof.
  intros Hsleep. destruct (retry_loop_spec sleep fn Hsleep max_retries 100 s)
    as (k & s1 & r & s2 & Hk & Hf & E & Er & Hlast).
  exists k, s1, r, s2. split_and!; try done. intros errno Eq Ht.
  destruct (decide (k < max_retries)) as [Hlt|]; [|lia]. by rewrite (Hlast Hlt errno Eq) in Ht.
Qed.

Section hides.
Context {W : Type} (env : pipeline_env W) (secrets : dict string string) (registry : SecretRegistry).
Context (session_id : string) (is_start_task is_file_mutation tracked : bool) (args : value) (Inv : W -> Prop).

Definition clean (text : string) : Prop := forall n v, secrets !! n = Some v -> str_in v text = false.

(** Code around the pipeline keeps [Inv]; the trace does when it is given text without secrets and the arguments of
    the call, [args], as they are. *)
Record env_keeps : Prop := {
  ek_check : forall session, keeps Inv (scheduler_check env session);
  ek_execute : forall effective, keeps Inv (tool_execute env effective);
  ek_sleep : forall d, keeps Inv (pl_sleep env d);
  ek_trace : forall callback text d, trace_callback env = Some callback -> clean text ->
    keeps Inv (callback (tool_name env) args text d)
}.

Lemma keeps_retry_loop (Henv : env_keeps) effective left d :
  keeps Inv (retry_loop (pl_sleep env) (tool_execute env effective) left d).
Proof.
  revert d. induction left as [|left IH]; intros d; cbn [retry_loop]; [apply keeps_throw|].
  apply keeps_bind.
  - intros s Hs. pose proof (ek_execute Henv effective s Hs) as H. unfold mtry.
    by destruct (tool_execute env effective s).
  - intros [a|[]]; try apply keeps_throw; [apply keeps_ret|].
    destruct (_ || _); [apply keeps_throw|]. apply keeps_bind; [apply (ek_sleep Henv)|auto].
Qed.

Lemma wp_on_world {A} (m : M W A) (Q : A -> pipe W -> Prop) E s :
  keeps Inv m -> Inv (world s) ->
  (forall a s', Inv (world s') -> Q a s') -> (forall e s', Inv (world s') -> E e s') ->
  wp (on_world m) Q E s.
Proof.
  intros Hm Hs HQ HE. specialize (Hm _ Hs). unfold wp, on_world, zoom.
  destruct (m (world s)) as [[a|e] w]; simpl in *; auto.
Qed.

(** C38. No secret gets into the trace.  Whatever the tool does and returns, the pipeline gives the trace
    only text without secret values and the arguments as the caller wrote them: what such calls of the trace, and
    the tool, the scheduler's check and the waits between retries keep true stays true.  The text it returns is such
    a text, and behind a blank line the advisory appendix, if one is configured and says anything.  The secrets are
    [apart]: each value is not empty, has no brace, and is no part of "secret:NAME" for the name of a secret. *)
Theorem pipeline_hides_secrets s :
  dwf secrets -> SecretRegistry_init secrets = Ok registry ->
  (forall n v, secrets !! n = Some v -> apart (dkeys secrets) v) ->
  env_keeps -> Inv (world s) ->
  wp (wrapped_execute env (Some registry) session_id is_start_task is_file_mutation tracked args)
    (fun out s' => Inv (world s') /\ exists body, clean body /\
       (text out = body \/ exists appendix a, result_appendix env = Some appendix /\
          appendix (tool_name env) (world s') = Some a /\ a <> EmptyString /\
          text out = (body +:+ (newline +:+ (newline +:+ a)))%string))
    (fun _ s' => Inv (world s')) s.
Proof.
  intros Hwf Er Hap Henv Hs. unfold wrapped_execute.
  assert (Hcheck : wp (if is_start_task then mret tt else on_world (scheduler_check env session_id))
            (fun _ s' => Inv (world s')) (fun _ s' => Inv (world s')) s).
  { destruct is_start_task; [by apply wp_ret|]. by apply wp_on_world; [apply (ek_check Henv)|..]. }
  apply wp_bind. eapply wp_mono; [exact Hcheck| |done]. intros u s1 Hs1; simpl in Hs1; clear u.
  apply wp_bind, wp_liftr; [|done]. intros eff _.
  apply wp_bind, wp_on_world; [apply (keeps_retry_loop Henv)|done| |done]. intros out s2 Hs2.
  apply wp_bind, wp_mgets. apply wp_bind, wp_liftr; [|done]. intros out' Eo.
  assert (Hclean : clean (text out')).
  { unfold scrub_tool_output in Eo. destruct (scrub_data _ _ _ _); [|done].
    injection Eo as <-. intros n v Hn. by eapply scrub_clean. }
  apply wp_bind. apply (wp_mono _ (fun _ s' => Inv (world s')) _ (fun _ s' => Inv (world s'))); [| |done].
  { destruct (_ && _); [by apply wp_mmod|by apply wp_ret]. }
  intros [] s3 Hs3.
  apply wp_bind. apply (wp_mono _ (fun _ s' => Inv (world s')) _ (fun _ s' => Inv (world s'))); [| |done].
  { destruct (trace_callback env) as [callback|] eqn:Ec; [|by apply wp_ret].
    by apply wp_on_world; [eapply (ek_trace Henv)|..]. }
  intros [] s4 Hs4. destruct (result_appendix env) as [appendix|]; [|apply wp_ret; eauto].
  apply wp_bind, wp_mgets. destruct (appendix _ _) as [a|] eqn:Ea; [|apply wp_ret; eauto].
  case_decide; apply wp_ret; simpl; [by eauto|]. split; [done|]. exists (text out'). split; [done|]. right.
  by exists appendix, a.
Qed.
End hides.

(** Structured output is not scrubbed through JSON's escapes.  [scrub_data] looks for the values in
    the JSON text of the data, where a double quote is escaped: when every secret has one (after a
    character other than a backslash, before another), a string is returned as it is, secrets included. *)
Theorem scrub_data_misses_escaped dumps loads secrets registry s :
  (forall s, dumps (VStr s) = Some (json_string s)) ->
  (forall s, loads (json_string s) = Ok (VStr s)) ->
  dwf secrets -> SecretRegistry_init secrets = Ok registry ->
  (forall n v, secrets !! n = Some v -> exists a c d b, c <> backslash /\
     v = (a +:+ String c (String dquote (String d b)))%string) ->
  scrub_data dumps loads registry (VStr s) = Ok (VStr s).
Proof.
  intros Hd Hl Hwf Er Hq. unfold scrub_data. rewrite Hd, <- Hl. f_equal.
  destruct (init_registry secrets registry Er) as [_ Hord]. unfold scrub.
  assert (Hall : forall nv, nv ∈ _scrub_order registry -> scrub_step (json_string s) nv = json_string s).
  { intros [n v] Hin%Hord. apply dict_in_lookup in Hin; [|done].
    destruct (Hq n v Hin) as (a & c & d & b & Hc & ->).
    apply str_replace_none; simpl; [by destruct a|by apply json_hides_quote]. }
  clear Hord. induction (_scrub_order registry) as [|nv l IH]; [done|]. simpl.
  rewrite Hall by left. apply IH. intros x Hx. apply Hall. by right.
Qed.

(** ** Witnesses *)

(** A call that fails twice with EAGAIN, over the number of calls made. *)
Definition flaky : M nat string := fun n =>
  if decide (n < 2) then (Raise (OSError 11), S n) else (Ok "done"%string, S n).

Lemma with_transient_retry_outcome_witness :
  with_transient_retry (fun _ => mret tt) flaky 3 0 = (Ok "done"%string, 3) /\
  exists k s1 r s2, k <= 3 /\ fails (fun _ => mret tt) flaky k 100 0 s1 /\ flaky s1 = (r, s2).
Proof.
  split; [reflexivity|].
  destruct (with_transient_retry_outcome (fun _ => mret tt) flaky 3 0) as (k & s1 & r & s2 & Hk & Hf & E & _).
  - intros d s. by exists s.
  - exists k, s1, r, s2. split; [exact Hk|]. split; [exact Hf|exact E].
Defined.

(** A tool that prints a secret, under a trace that is the list of the texts it was given. *)
Definition leaky_env : pipeline_env (list string) := {|
  tool_name := "cat";
  tool_execute args := mret {| data := VNone; text := "the key is s3cr3t!" |};
  scheduler_check session := mret tt;
  trace_callback := Some (fun name args text d => mmod (fun log => log ++ [text]));
  result_appendix := None;
  pl_sleep d := mret tt;
  duration_ms w := 0%Z;
  pl_dumps v := Some "{}"%string;
  pl_loads s := Ok (VDict []);
  pl_str v := ""%string
|}.

Abbreviation leaky_run :=
  (wrapped_execute leaky_env (Some demo_registry) "S" false false false (VDict []) (Pipe [] (Dict []))).

Lemma pipeline_hides_secrets_witness :
  world (snd leaky_run) = ["the key is {{secret:api-key}}!"%string] /\
  Forall (clean demo_secrets) (world (snd leaky_run)).
Proof.
  split; [vm_compute; reflexivity|].
  assert (Hk : env_keeps leaky_env demo_secrets (VDict []) (Forall (clean demo_secrets))).
  { split; simpl; intros; try (intros w Hw; exact Hw).
    match goal with H : Some _ = Some _ |- _ => injection H as <- end.
    intros w Hw. simpl. apply Forall_app. split; [exact Hw|]. by constructor. }
  pose proof (pipeline_hides_secrets leaky_env demo_secrets demo_registry "S" false false false
    (VDict []) (Forall (clean demo_secrets)) (Pipe [] (Dict []))
    ltac:(refine (bool_decide_eq_true_1 _ _); vm_compute; reflexivity) eq_refl
    (fun n v => apart_checked demo_secrets n v eq_refl) Hk (Forall_nil_2 _)) as Hw.
  destruct (wp_cases _ _ _ _ Hw) as [(out & s' & E & Hi & _)|(e & s' & E & Hi)];
    rewrite E; exact Hi.
Defined.

(** A decoder of JSON strings that gives every encoded string back. *)
Definition hex_value (c : ascii) : nat :=
  let n := nat_of_ascii c in if decide (n < 58) then n - 48 else n - 87.

Definition unescaped (d : ascii) : ascii :=
  if decide (d = "n"%char) then ascii_of_nat 10
  else if decide (d = "r"%char) then ascii_of_nat 13
  else if decide (d = "t"%char) then ascii_of_nat 9
  else if decide (d = "b"%char) then ascii_of_nat 8
  else if decide (d = "f"%char) then ascii_of_nat 12 else d.

Fixpoint json_unescape (s : string) : string :=
  match s with
  | EmptyString => EmptyString
  | String c s1 =>
      if decide (c = backslash) then
        match s1 with
        | String d s2 =>
            if decide (d = "u"%char) then
              match s2 with
              | String _ (String _ (String h (String l r))) =>
                  String (ascii_of_nat (16 * hex_value h + hex_value l)) (json_unescape r)
              | _ => EmptyString
              end
            else String (unescaped d) (json_unescape s2)
        | EmptyString => EmptyString
        end
      else if decide (c = dquote) then EmptyString else String c (json_unescape s1)
  end.

Definition string_dumps (v : value) : option string :=
  match v with VStr s => Some (json_string s) | _ => None end.
Definition string_loads (s : string) : result value :=
  match s with String _ s' => Ok (VStr (json_unescape s')) | _ => Raise (ValueError "JSON") end.

Lemma json_unescape_char c s :
  json_unescape (json_char c +:+ s) = String c (json_unescape s).
Proof.
  destruct c as [[] [] [] [] [] [] [] []]; reflexivity.
Qed.

Lemma string_loads_dumps s : string_loads (json_string s) = Ok (VStr s).
Proof.
  unfold string_loads, json_string. do 2 f_equal.
  induction s as [|c s IH]; [reflexivity|]. cbn [json_chars]. rewrite str_app_assoc.
  by rewrite json_unescape_char, IH.
Qed.

Definition quoted_secret : string := String "p" (String dquote "w1").
Definition quoted_secrets : dict string string := Dict [("pw"%string, quoted_secret)].
Definition quoted_registry : SecretRegistry :=
  {| _secrets := quoted_secrets; _scrub_order := [("pw"%string, quoted_secret)] |}.

Lemma scrub_data_misses_escaped_witness :
  scrub_data string_dumps string_loads quoted_registry (VStr quoted_secret) = Ok (VStr quoted_secret) /\
  scrub quoted_registry quoted_secret = "{{secret:pw}}"%string.
Proof.
  split; [|vm_compute; reflexivity].
  apply (scrub_data_misses_escaped string_dumps string_loads quoted_secrets quoted_registry quoted_secret
    (fun _ => eq_refl) string_loads_dumps
    ltac:(refine (bool_decide_eq_true_1 _ _); vm_compute; reflexivity) eq_refl).
  intros n v Hn. apply dict_lookup_Some_in in Hn. apply list_elem_of_singleton in Hn. injection Hn as -> ->.
  exists ""%string, "p"%char, "w"%char, "1"%string. split; [discriminate|reflexivity].
Defined.
