(* ===== verification/WriteSafety.v ===== *)
(** Writing files: write-safety/_stale.py, _queue.py and _atomic.py, tool/_path.py,
    tool/_write_integration.py and the tools of tool/_write_tools.py.

    The disk is a map from canonical paths to files and directories; text and bytes are strings.
    SHA-256, the resolution of links and the name of a temporary file are parameters. *)
From S2P Require Import Prelude PyDict Text.

(** ** The disk *)

(** A canonical absolute path: its segments. *)
Abbreviation fpath := (list string).

Definition fpath_str (p : fpath) : string :=
  match p with
  | [] => "/"%string
  | _ => foldr (fun seg acc => ("/" +:+ (seg +:+ acc))%string) EmptyString p
  end.

Inductive node := File (content : string) | Dir.
#[export] Instance node_eq_dec : EqDecision node.
Proof. solve_decision. Defined.
Abbreviation disk := (gmap fpath node).

Definition parent (p : fpath) : fpath := take (length p - 1) p.

Record ws := {
  ws_disk : disk;
  (** [WriteQueue._locks]: the locks made so far, [true] when held *)
  _locks : gmap fpath bool;
  (** [StaleWriteTracker._reads] *)
  _reads : gmap fpath (gmap string string);
  (** the files set_executable has given the executable bits, one for each call; modes are not modelled otherwise *)
  chmods : list fpath
}.
#[export] Instance eta_ws : Eta ws := fun s => {|
  ws_disk := ws_disk s; _locks := _locks s; _reads := _reads s; chmods := chmods s |}.

(** ** tool/_path.py *)

Section tools.
(** [(root / raw).resolve()], [path.resolve()], [sha256(_).hexdigest()], [tempfile.mkstemp(dir=_)] *)
Context (resolve : fpath -> string -> fpath) (canonical : fpath -> fpath).
Context (sha256 : string -> string) (mkstemp : disk -> fpath -> fpath).

Definition resolve_and_check (raw_path : string) (root : fpath) : result fpath :=
  if decide (raw_path = EmptyString) then Raise (PathError "Path must not be empty")
  else
    let resolved := resolve root raw_path in
    if decide (resolved = root) then Ok resolved
    else if negb (str_prefix (fpath_str root +:+ "/") (fpath_str resolved))
    then Raise (PathError "escapes root boundary")
    else Ok resolved.

Definition in_scope (resolved : fpath) (scope_path : fpath) : bool :=
  let canonical_scope := canonical scope_path in
  bool_decide (resolved = canonical_scope) ||
  str_prefix (fpath_str canonical_scope +:+ "/") (fpath_str resolved).

Definition check_write_scope (resolved : fpath) (scope : option (list fpath)) : result unit :=
  match scope with
  | None => Ok tt
  | Some scope => if existsb (in_scope resolved) scope then Ok tt
                  else Raise (PathError "outside write scope")
  end.

(** [_resolve_path], [_check_scope] *)
Definition _path_error_to_tool_error {A} (r : result A) : result A :=
  match r with Raise (PathError msg) => Raise (ToolError msg) | _ => r end.

Definition raises {A} (r : result A) : M ws A :=
  match r with Ok a => mret a | Raise e => mthrow e end.

Definition _resolve_path (raw_path : string) (root : fpath) : M ws fpath :=
  raises (_path_error_to_tool_error (resolve_and_check raw_path root)).
Definition _check_scope (resolved : fpath) (scope : option (list fpath)) : M ws unit :=
  raises (_path_error_to_tool_error (check_write_scope resolved scope)).

(** ** write-safety *)

Definition read_bytes (path : fpath) : M ws string :=
  s ← mget;
  match ws_disk s !! path with
  | Some (File content) => mret content
  | Some Dir => mthrow (OSError EISDIR)
  | None => mthrow (OSError ENOENT)
  end.

Definition compute_hash (path : fpath) : M ws string :=
  content ← read_bytes path; mret (sha256 content).

Definition record_read (session_id : string) (path : fpath) (content_hash : string) : M ws unit :=
  mmod (fun s => s .[_reads ::= fun reads =>
    <[canonical path := <[session_id := content_hash]> (default ∅ (reads !! canonical path))]> reads]).

Definition check_write (session_id : string) (path : fpath) (current_hash : string) (is_new_file : bool) :
    M ws unit :=
  if is_new_file then mret tt
  else
    s ← mget;
    match _reads s !! canonical path ≫= fun session_reads => session_reads !! session_id with
    | None => mthrow (StaleWriteError "has never read")
    | Some recorded_hash =>
        if decide (recorded_hash <> current_hash) then mthrow (StaleWriteError "changed since") else mret tt
    end.

(** [acquire]: a coroutine that would have to wait for the lock is never resumed here. *)
Definition acquire (path : fpath) : M ws unit :=
  s ← mget;
  match _locks s !! canonical path with
  | Some true => mthrow (OtherError "waits for ever")
  | _ => mmod (fun s => s .[_locks ::= <[canonical path := true]>])
  end.

Definition release_lock (path : fpath) : M ws unit :=
  s ← mget;
  match _locks s !! canonical path with
  | None => mret tt
  | Some false => mthrow (RuntimeError "Lock is not acquired.")
  | Some true => mmod (fun s => s .[_locks ::= <[canonical path := false]>])
  end.

(** [async with queue.lock(path): body] *)
Definition with_lock {A} (path : fpath) (body : M ws A) : M ws A :=
  acquire path ;;
  r ← mtry body;
  release_lock path ;;
  raises r.

Definition set_node (path : fpath) (n : option node) : M ws unit :=
  mmod (fun s => s .[ws_disk ::= partial_alter (fun _ => n) path]).

(** [Path.rename] of a file over another file *)
Definition rename (src dst : fpath) : M ws unit :=
  s ← mget;
  match ws_disk s !! src, ws_disk s !! dst with
  | None, _ => mthrow (OSError ENOENT)
  | Some _, Some Dir => mthrow (OSError EISDIR)
  | Some n, _ => set_node src None ;; set_node dst (Some n)
  end.

(** [fault] is the error the operating system reports while the temporary file is written, if any. *)
Definition atomic_write (path : fpath) (content : string) (fault : option Z) : M ws unit :=
  s ← mget;
  match ws_disk s !! parent path with
  | None => mthrow (OSError ENOENT)
  | Some (File _) => mthrow (OSError ENOTDIR)
  | Some Dir =>
      let tmp := mkstemp (ws_disk s) path in
      set_node tmp (Some (File EmptyString)) ;;
      mcatch
        (match fault with
         | Some errno => mthrow (OSError errno)
         | None => set_node tmp (Some (File content)) ;; rename tmp path
         end)
        (fun e => set_node tmp None ;; mthrow e)
  end.

(** ** tool/_write_integration.py *)

Definition safe_write (path : fpath) (content : string) (session_id : string) (is_new_file : bool)
    (fault : option Z) : M ws unit :=
  with_lock path
    ((if is_new_file then mret tt
      else current_hash ← compute_hash path; check_write session_id path current_hash false) ;;
     atomic_write path content fault ;;
     new_hash ← compute_hash path;
     record_read session_id path new_hash).

Definition safe_read_for_write (path : fpath) (session_id : string) : M ws string :=
  with_lock path
    (content ← read_bytes path;
     content_hash ← compute_hash path;
     record_read session_id path content_hash ;;
     mret content).

(** ** The tools *)

(** [path.mkdir(parents=True, exist_ok=True)] *)
Definition mkdirs (path : fpath) : M ws unit :=
  mfor (seq 0 (S (length path))) (fun n =>
    s ← mget;
    match ws_disk s !! take n path with
    | Some Dir => mret tt
    | Some (File _) => mthrow (OSError (if decide (n = length path) then EEXIST else ENOTDIR))
    | None => set_node (take n path) (Some Dir)
    end).

Record tool_args := {
  read_root : fpath;
  write_scope : option (list fpath);
  session_id : string;
  write_fault : option Z;
  (** what other coroutines and processes do while a tool waits for the lock of its path *)
  meanwhile : M ws unit
}.

Definition _write_impl (t : tool_args) (raw_path content : string) (create_dirs : option bool) : M ws fpath :=
  resolved ← _resolve_path raw_path (read_root t);
  _check_scope resolved (write_scope t) ;;
  (if default false create_dirs then mkdirs (parent resolved) else mret tt) ;;
  is_new_file ← mgets (fun s => negb (bool_decide (is_Some (ws_disk s !! resolved))));
  meanwhile t ;;
  safe_write resolved content (session_id t) is_new_file (write_fault t) ;;
  mret resolved.

(** The replacement itself: the new content and the number of matches. *)
Definition edited (content old_string new_string : string) (replace_all : bool) : result (string * nat) :=
  let count := str_count old_string content in
  if decide (count = 0) then Raise (ToolError "old_string not found")
  else if negb replace_all && bool_decide (1 < count) then Raise (ToolError "Multiple matches")
  else Ok (str_replace old_string new_string content, count).

Definition _edit_impl (t : tool_args) (raw_path old_string new_string : string)
    (replace_all : option bool) : M ws nat :=
  resolved ← _resolve_path raw_path (read_root t);
  _check_scope resolved (write_scope t) ;;
  if decide (old_string = EmptyString) then mthrow (ToolError "old_string must not be empty")
  else
    content ← safe_read_for_write resolved (session_id t);
    '(new_content, count) ← raises (edited content old_string new_string (default false replace_all));
    meanwhile t ;;
    safe_write resolved new_content (session_id t) false (write_fault t) ;;
    mret count.

Record edit := { e_file : string; e_old : string; e_new : string }.

Fixpoint resolve_edits (t : tool_args) (edits : list edit) : M ws (list (fpath * string * string)) :=
  match edits with
  | [] => mret []
  | e :: edits' =>
      resolved ← _resolve_path (e_file e) (read_root t);
      _check_scope resolved (write_scope t) ;;
      if decide (e_old e = EmptyString) then mthrow (ToolError "old_string must not be empty")
      else rest ← resolve_edits t edits'; mret ((resolved, e_old e, e_new e) :: rest)
  end.

(** The outcome of each edit: [true] is a confirmation, [false] a failure. *)
Fixpoint apply_edits (t : tool_args) (edits : list (fpath * string * string)) : M ws (list bool) :=
  match edits with
  | [] => mret []
  | (resolved, old_string, new_string) :: edits' =>
      ok ← mcatch
        (content ← safe_read_for_write resolved (session_id t);
         if decide (str_count old_string content = 0) then mret false
         else
           meanwhile t ;;
           safe_write resolved (str_replace old_string new_string content) (session_id t) false
             (write_fault t) ;;
           mret true)
        (fun e => match e with
                  | ToolError _ | OSError _ => mret false
                  | _ => mthrow e
                  end);
      rest ← apply_edits t edits'; mret (ok :: rest)
  end.

Definition _multi_edit_impl (t : tool_args) (edits : list edit) : M ws (list bool) :=
  resolved ← resolve_edits t edits; apply_edits t resolved.

Definition _mkdir_impl (t : tool_args) (raw_path : string) : M ws fpath :=
  resolved ← _resolve_path raw_path (read_root t);
  _check_scope resolved (write_scope t) ;;
  mkdirs resolved ;;
  mret resolved.

(** *** Moving and copying *)

Definition below (p q : fpath) : bool := bool_decide (take (length p) q = p).

(** The disk with what is at and below [src] put at [dst], in place of what was at [dst]. *)
Definition move_tree (src dst : fpath) (d : disk) : disk :=
  let moved := filter (fun qn : fpath * node => below src qn.1) (map_to_list d) in
  list_to_map (map (fun qn => (dst ++ drop (length src) qn.1, qn.2)) moved) ∪
  filter (fun qn : fpath * node => below src qn.1 = false /\ qn.1 <> dst) d.

Definition is_empty_dir (d : disk) (p : fpath) : bool :=
  forallb (fun qn : fpath * node => bool_decide (qn.1 = p) || negb (below p qn.1)) (map_to_list d).

(** [os.rename] of a file or a directory, which exists *)
Definition os_rename (src dst : fpath) : M ws unit :=
  s ← mget;
  let d := ws_disk s in
  match d !! parent dst with
  | None => mthrow (OSError ENOENT)
  | Some (File _) => mthrow (OSError ENOTDIR)
  | Some Dir =>
      if decide (src = dst) then mret tt
      else match d !! src, d !! dst with
           | None, _ => mthrow (OSError ENOENT)
           | Some (File _), Some Dir => mthrow (OSError EISDIR)
           | Some Dir, Some (File _) => mthrow (OSError ENOTDIR)
           | Some n, o =>
               if bool_decide (n = Dir) && below src dst then mthrow (OSError EINVAL)
               else if bool_decide (o = Some Dir) && negb (is_empty_dir d dst) then mthrow (OSError ENOTEMPTY)
               else mmod (fun s => s .[ws_disk ::= move_tree src dst])
           end
  end.

Definition _move_impl (t : tool_args) (source destination : string) : M ws (fpath * fpath) :=
  resolved_src ← _resolve_path source (read_root t);
  resolved_dst ← _resolve_path destination (read_root t);
  _check_scope resolved_src (write_scope t) ;;
  _check_scope resolved_dst (write_scope t) ;;
  s ← mget;
  match ws_disk s !! resolved_src with
  | None => mthrow (ToolError "Source does not exist")
  | Some _ => os_rename resolved_src resolved_dst ;; mret (resolved_src, resolved_dst)
  end.

(** [shutil.copy2] of a file: into [dst], or under its own name into the directory [dst] *)
Definition copy2 (src dst : fpath) : M ws unit :=
  content ← read_bytes src;
  s ← mget;
  let d := ws_disk s in
  let dst := match d !! dst with Some Dir => dst ++ drop (length src - 1) src | _ => dst end in
  if decide (src = dst) then mthrow (OSError 0)
  else match d !! dst, d !! parent dst with
       | Some Dir, _ => mthrow (OSError EISDIR)
       | _, None => mthrow (OSError ENOENT)
       | _, Some (File _) => mthrow (OSError ENOTDIR)
       | _, Some Dir => set_node dst (Some (File content))
       end.

Definition _copy_impl (t : tool_args) (source destination : string) : M ws (fpath * fpath) :=
  resolved_src ← _resolve_path source (read_root t);
  resolved_dst ← _resolve_path destination (read_root t);
  _check_scope resolved_dst (write_scope t) ;;
  s ← mget;
  match ws_disk s !! resolved_src with
  | None => mthrow (ToolError "Source does not exist")
  | Some Dir => mthrow (ToolError "Source is not a file")
  | Some (File _) => copy2 resolved_src resolved_dst ;; mret (resolved_src, resolved_dst)
  end.

(** *** Setting the executable bits *)

Definition _set_executable_impl (t : tool_args) (raw_path : string) : M ws fpath :=
  resolved ← _resolve_path raw_path (read_root t);
  _check_scope resolved (write_scope t) ;;
  s ← mget;
  match ws_disk s !! resolved with
  | None => mthrow (ToolError "File not found")
  | Some Dir => mthrow (ToolError "Not a file")
  | Some (File _) => mmod (fun s => s .[chmods ::= fun l => l ++ [resolved]]) ;; mret resolved
  end.

(** *** Deleting *)

(** The command [saferm delete [-r] path]: its exit code and what it leaves on the disk. *)
Context (saferm : bool -> fpath -> disk -> Z * disk).

Definition _delete_impl (t : tool_args) (raw_path : string) (recursive : bool) : M ws fpath :=
  resolved ← _resolve_path raw_path (read_root t);
  _check_scope resolved (write_scope t) ;;
  s ← mget;
  if bool_decide (ws_disk s !! resolved = Some Dir) && negb recursive
  then mthrow (ToolError "Path is a directory, set recursive=true to delete")
  else
    let '(returncode, d) := saferm recursive resolved (ws_disk s) in
    mmod (fun s => s .[ws_disk := d]) ;;
    if decide (returncode <> 0%Z) then mthrow (ToolError "saferm failed") else mret resolved.
End tools.
