(* ===== verification/WriteSafetySpec.v ===== *)
(** What the file tools guarantee: paths stay below their root, a write happens whole or not at all, and
    reads and writes of many sessions behave as a store with compare-and-swap, so that an edit never
    overwrites a change it has not seen. *)
From S2P Require Import Prelude PyDict Text WriteSafety.

(** ** Containment *)

(** A path segment. *)
Definition seg_ok (seg : string) : Prop := seg <> EmptyString /\ str_in "/" seg = false.

Lemma fpath_str_cons x p : fpath_str (x :: p) = ("/" +:+ (x +:+ if decide (p = []) then "" else fpath_str p))%string.
Proof. destruct p; [done|]. by rewrite decide_False. Qed.

Lemma seg_prefix x y t u :
  str_in "/" x = false -> str_in "/" y = false ->
  str_prefix (x +:+ ("/" +:+ t)) (y +:+ u) = true ->
  (u = "" \/ exists v, u = "/" +:+ v)%string -> x = y /\ str_prefix ("/" +:+ t) u = true.
Proof.
  revert y. induction x as [|c x IH]; intros [|d y] Hx Hy; rewrite ?str_app_nil, ?str_app_cons.
  - done.
  - intros Hp _. exfalso. cbn [str_in] in Hy. apply orb_false_iff in Hy as [Hy _].
    simpl in Hp, Hy. apply andb_true_iff in Hp as [Hp _]. by rewrite Hp in Hy.
  - intros Hp [->|[v ->]]; [done|]. exfalso. cbn [str_in] in Hx. apply orb_false_iff in Hx as [Hx _].
    simpl in Hp, Hx. apply andb_true_iff in Hp as [Hp _]. apply bool_decide_eq_true in Hp as ->.
    by rewrite bool_decide_true in Hx.
  - intros Hp Hu. simpl in Hp. apply andb_true_iff in Hp as [Hc Hp]. apply bool_decide_eq_true in Hc as ->.
    cbn [str_in] in Hx, Hy. apply orb_false_iff in Hx as [_ Hx], Hy as [_ Hy].
    by destruct (IH y Hx Hy Hp Hu) as [-> ?].
Qed.

Lemma fpath_str_slash p : exists v, fpath_str p = ("/" +:+ v)%string.
Proof. destruct p; by eexists. Qed.

(** A path is below another when its text goes on after a separator. *)
Lemma fpath_below r p :
  r <> [] -> Forall seg_ok r -> Forall seg_ok p ->
  str_prefix (fpath_str r +:+ "/") (fpath_str p) = true <-> exists x rest, p = r ++ x :: rest.
Proof.
  intros Hne Hr. revert p Hne. induction Hr as [|x r Hx Hr IH]; intros p Hne Hp; [done|]. clear Hne.
  destruct Hp as [|y p Hy Hp].
  { split; [|by intros (? & ? & ?)]. rewrite fpath_str_cons. rewrite !str_app_assoc. simpl.
    destruct x; [by destruct Hx|done]. }
  rewrite !fpath_str_cons, !str_app_assoc. change (str_prefix ("/" +:+ ?a) ("/" +:+ ?b)) with (str_prefix a b).
  assert (Hgo : forall t u, (u = "" \/ exists v, u = "/" +:+ v)%string ->
    str_prefix (x +:+ ("/" +:+ t)) (y +:+ u) = true <-> x = y /\ str_prefix ("/" +:+ t) u = true).
  { intros t u Hu. split; [intros H; apply seg_prefix; [apply Hx|apply Hy|done..]|].
    intros [-> H]. apply str_prefix_spec in H as [q ->]. apply str_prefix_spec. exists q.
    by rewrite !str_app_assoc. }
  assert (Hu : forall q, (let u := if decide (q = []) then "" else fpath_str q in
             u = "" \/ exists v, u = "/" +:+ v)%string).
  { intros q. simpl. case_decide; [by left|right; apply fpath_str_slash]. }
  destruct (decide (r = [])) as [->|Hner].
  - destruct (decide (@nil string = [])) as [_|]; [rewrite str_app_nil|done].
    change ("/")%string with ("/" +:+ "")%string at 1. rewrite Hgo by apply Hu. split.
    + intros [-> H]. destruct p as [|z p]; [done|]. by exists z, p.
    + intros (z & rest & E). injection E as -> ->. by rewrite decide_False.
  - destruct (decide (r = [])) as [|_]; [done|]. destruct (fpath_str_slash r) as [v Ev].
    rewrite Ev, str_app_assoc, Hgo by apply Hu. rewrite <- str_app_assoc, <- Ev. split.
    + intros [-> H]. case_decide as Hp0; [by rewrite Ev in H|].
      apply IH in H as (z & rest & ->); [|done..]. by exists z, rest.
    + intros (z & rest & E). injection E as -> ->. split; [done|].
      rewrite decide_False by (by destruct r). apply IH; [done|done|by eexists _, _].
Qed.

(** ** The specification: a store with compare-and-swap

    Sessions see contents.  A write to an existing file succeeds when the file still has the content the
    session saw last. *)
Record cas_store := {
  cas_disk : disk;
  seen : gmap (fpath * string) string
}.

(** Putting a whole file in place. *)
Definition cas_put (path : fpath) (content : string) (fault : option Z) (d : disk) : result disk :=
  match d !! parent path with
  | None => Raise (OSError ENOENT)
  | Some (File _) => Raise (OSError ENOTDIR)
  | Some Dir =>
      match fault, d !! path with
      | Some errno, _ => Raise (OSError errno)
      | None, Some Dir => Raise (OSError EISDIR)
      | None, _ => Ok (<[path := File content]> d)
      end
  end.

Definition cas_check (path : fpath) (session : string) (a : cas_store) : result unit :=
  match cas_disk a !! path with
  | None => Raise (OSError ENOENT)
  | Some Dir => Raise (OSError EISDIR)
  | Some (File current) =>
      match seen a !! (path, session) with
      | None => Raise (StaleWriteError "has never read")
      | Some last => if decide (last <> current) then Raise (StaleWriteError "changed since") else Ok tt
      end
  end.

Definition cas_read (path : fpath) (session : string) : M cas_store string := fun a =>
  match cas_disk a !! path with
  | None => (Raise (OSError ENOENT), a)
  | Some Dir => (Raise (OSError EISDIR), a)
  | Some (File content) =>
      (Ok content, {| cas_disk := cas_disk a; seen := <[(path, session) := content]> (seen a) |})
  end.

Definition cas_write (path : fpath) (content session : string) (is_new : bool) (fault : option Z) :
    M cas_store unit := fun a =>
  match (if is_new then Ok tt else cas_check path session a) with
  | Raise e => (Raise e, a)
  | Ok _ =>
      match cas_put path content fault (cas_disk a) with
      | Raise e => (Raise e, a)
      | Ok d => (Ok tt, {| cas_disk := d; seen := <[(path, session) := content]> (seen a) |})
      end
  end.

(** A change of the disk by others *)
Definition cas_change (change : disk -> disk) : M cas_store unit :=
  mmod (fun a => {| cas_disk := change (cas_disk a); seen := seen a |}).

(** What making directories does to a disk *)
Definition cas_mkdirs (path : fpath) : M cas_store unit := fun a =>
  let '(r, s) := mkdirs path {| ws_disk := cas_disk a; _locks := ∅; _reads := ∅; chmods := [] |} in
  (r, {| cas_disk := ws_disk s; seen := seen a |}).

(** What happens to the files: calls of the write, edit and multi_edit tools by sessions, each with what others do to
    the disk before its writes, and anything done to the disk between the calls. *)
Inductive file_op :=
| OpWrite (t : tool_args) (path content : string) (create_dirs : option bool) (change : disk -> disk)
| OpEdit (t : tool_args) (path old_string new_string : string) (replace_all : option bool) (change : disk -> disk)
| OpMultiEdit (t : tool_args) (edits : list edit) (change : disk -> disk)
| OpOutside (change : disk -> disk).

(** What a call returns *)
Inductive answer := Wrote (path : fpath) | Edited (count : nat) | Applied (outcomes : list bool) | Nothing.

Section refinement.
Context (resolve : fpath -> string -> fpath) (canonical : fpath -> fpath).
Context (sha256 : string -> string) (mkstemp : disk -> fpath -> fpath).
Hypothesis sha256_inj : forall x y, sha256 x = sha256 y -> x = y.
Hypothesis mkstemp_fresh : forall d p, d !! mkstemp d p = None /\ mkstemp d p <> p.
Hypothesis resolve_canonical : forall root raw, canonical (resolve root raw) = resolve root raw.

(** A call during which others change the disk *)
Definition during (t : tool_args) (change : disk -> disk) : tool_args := {|
  read_root := read_root t; write_scope := write_scope t; session_id := session_id t; write_fault := write_fault t;
  meanwhile := mmod (fun s => s .[ws_disk ::= change]) |}.

Definition run_op (op : file_op) : M ws answer :=
  match op with
  | OpWrite t path content dirs change =>
      r ← _write_impl resolve canonical sha256 mkstemp (during t change) path content dirs; mret (Wrote r)
  | OpEdit t path old new all change =>
      r ← _edit_impl resolve canonical sha256 mkstemp (during t change) path old new all; mret (Edited r)
  | OpMultiEdit t edits change =>
      r ← _multi_edit_impl resolve canonical sha256 mkstemp (during t change) edits; mret (Applied r)
  | OpOutside change => mmod (fun s => s .[ws_disk ::= change]) ;; mret Nothing
  end.

(** The path a call is for: below the root and in the scope *)
Definition target (t : tool_args) (raw : string) : result fpath :=
  p ← _path_error_to_tool_error (resolve_and_check resolve raw (read_root t));
  _ ← _path_error_to_tool_error (check_write_scope canonical p (write_scope t)); Ok p.

(** A write is held to what its session saw unless nothing was at its path when the call looked. *)
Definition spec_write (t : tool_args) (raw content : string) (dirs : option bool) (change : disk -> disk) :
    M cas_store fpath :=
  p ← liftr (target t raw);
  (if default false dirs then cas_mkdirs (parent p) else mret tt) ;;
  is_new ← mgets (fun a => negb (bool_decide (is_Some (cas_disk a !! p))));
  cas_change change ;;
  cas_write p content (session_id t) is_new (write_fault t) ;;
  mret p.

Definition spec_edit (t : tool_args) (raw old new : string) (all : option bool) (change : disk -> disk) :
    M cas_store nat :=
  p ← liftr (target t raw);
  if decide (old = EmptyString) then mthrow (ToolError "old_string must not be empty")
  else
    content ← cas_read p (session_id t);
    '(new_content, count) ← liftr (edited content old new (default false all));
    cas_change change ;;
    cas_write p new_content (session_id t) false (write_fault t) ;;
    mret count.

Fixpoint targets (t : tool_args) (edits : list edit) : M cas_store (list (fpath * string * string)) :=
  match edits with
  | [] => mret []
  | e :: edits' =>
      p ← liftr (target t (e_file e));
      if decide (e_old e = EmptyString) then mthrow (ToolError "old_string must not be empty")
      else rest ← targets t edits'; mret ((p, e_old e, e_new e) :: rest)
  end.

(** Edit after edit; one that fails, other than for a change its session has not seen, leaves the others. *)
Fixpoint cas_edits (t : tool_args) (edits : list (fpath * string * string)) (change : disk -> disk) :
    M cas_store (list bool) :=
  match edits with
  | [] => mret []
  | (p, old, new) :: edits' =>
      ok ← mcatch
        (content ← cas_read p (session_id t);
         if decide (str_count old content = 0) then mret false
         else cas_change change ;;
              cas_write p (str_replace old new content) (session_id t) false (write_fault t) ;; mret true)
        (fun e => match e with ToolError _ | OSError _ => mret false | _ => mthrow e end);
      rest ← cas_edits t edits' change; mret (ok :: rest)
  end.

Definition spec_op (op : file_op) : M cas_store answer :=
  match op with
  | OpWrite t path content dirs change => r ← spec_write t path content dirs change; mret (Wrote r)
  | OpEdit t path old new all change => r ← spec_edit t path old new all change; mret (Edited r)
  | OpMultiEdit t edits change => l ← targets t edits; r ← cas_edits t l change; mret (Applied r)
  | OpOutside change => cas_change change ;; mret Nothing
  end.

(** All operations, each after the one before, with their outcomes. *)
Fixpoint outcomes {S} (run : file_op -> M S answer) (ops : list file_op) (s : S) : list (result answer) * S :=
  match ops with
  | [] => ([], s)
  | op :: ops' => let '(r, s1) := run op s in let '(rs, s2) := outcomes run ops' s1 in (r :: rs, s2)
  end.

Definition recorded (reads : gmap fpath (gmap string string)) (p : fpath) (session : string) :
    option string := reads !! p ≫= fun m => m !! session.

(** Disk and recorded hashes say what the specification says. *)
Definition same_files (a : cas_store) (d : disk) (reads : gmap fpath (gmap string string)) : Prop :=
  d = cas_disk a /\ forall p session, recorded reads p session = sha256 <$> seen a !! (p, session).

Definition unlocked (s : ws) : Prop := forall p, _locks s !! p <> Some true.

Definition refines (s : ws) (a : cas_store) : Prop := unlocked s /\ same_files a (ws_disk s) (_reads s).

(** *** Pieces of a step *)

Lemma record_read_run session p h s :
  canonical p = p ->
  exists s', record_read canonical session p h s = (Ok tt, s') /\ ws_disk s' = ws_disk s /\
    _locks s' = _locks s /\
    forall q x, recorded (_reads s') q x =
      if decide (q = p /\ x = session) then Some h else recorded (_reads s) q x.
Proof.
  intros Hp. eexists. split; [reflexivity|]. split_and!; [done..|]. intros q x.
  unfold recorded; simpl. rewrite Hp. destruct (decide (q = p)) as [->|Hne].
  - rewrite lookup_insert_eq; simpl. destruct (decide (x = session)) as [->|Hx].
    + by rewrite lookup_insert_eq, decide_True.
    + rewrite lookup_insert_ne, decide_False by naive_solver. by destruct (_reads s !! p).
  - rewrite lookup_insert_ne by done. rewrite decide_False by naive_solver. done.
Qed.

(** The locks, free before and after, are no part of what happens in between. *)
Lemma with_lock_run {A} (p : fpath) (body : M ws A) (s : ws) (r : result A) (Q : disk -> gmap fpath (gmap string string) -> Prop) :
  unlocked s -> canonical p = p ->
  (forall s0, ws_disk s0 = ws_disk s -> _reads s0 = _reads s -> exists s0',
     body s0 = (r, s0') /\ Q (ws_disk s0') (_reads s0') /\ _locks s0' = _locks s0) ->
  exists s', with_lock canonical p body s = (r, s') /\ Q (ws_disk s') (_reads s') /\ unlocked s'.
Proof.
  intros Hfree Hp Hbody. pose (held := fun b (s : ws) => s .[_locks ::= <[p := b]>]).
  destruct (Hbody (held true s) eq_refl eq_refl) as (s2 & E & HQ & El).
  assert (Eacq : acquire canonical p s = (Ok tt, held true s)).
  { unfold acquire, mbind, M_bind; simpl. rewrite Hp. specialize (Hfree p).
    by destruct (_locks s !! p) as [[]|]. }
  assert (Erel : release_lock canonical p s2 = (Ok tt, held false s2)).
  { unfold release_lock, mbind, M_bind; simpl. rewrite Hp, El; simpl. by rewrite lookup_insert_eq. }
  exists (held false s2). split_and!; [|done|].
  - unfold with_lock, mbind at 1, M_bind. rewrite Eacq. unfold mbind at 1, M_bind, mtry. rewrite E.
    unfold mbind, M_bind. rewrite Erel. by destruct r.
  - intros q. simpl. rewrite El; simpl. destruct (decide (q = p)) as [->|Hq].
    + by rewrite lookup_insert_eq.
    + rewrite !lookup_insert_ne by done. apply Hfree.
Qed.

Lemma alter_twice (d : disk) i a b :
  partial_alter (fun _ => a) i (partial_alter (fun _ => b) i d) = partial_alter (fun _ => a) i d.
Proof.
  apply map_eq. intros j. destruct (decide (j = i)) as [->|Hj].
  - by rewrite !lookup_partial_alter_eq.
  - by rewrite !lookup_partial_alter_ne.
Qed.

Lemma put_back (d : disk) tmp n :
  d !! tmp = None -> partial_alter (fun _ => None) tmp (partial_alter (fun _ => n) tmp d) = d.
Proof.
  intros Ht. rewrite alter_twice. by apply partial_alter_id.
Qed.

Lemma move_over (d : disk) tmp p n :
  d !! tmp = None -> tmp <> p ->
  partial_alter (fun _ => Some n) p (partial_alter (fun _ => None) tmp
    (partial_alter (fun _ => Some n) tmp d)) = <[p := n]> d.
Proof. intros Ht Hne. by rewrite put_back. Qed.

(** An atomic write: the whole file, or nothing. *)
Lemma atomic_write_run p content fault s :
  exists s', atomic_write mkstemp p content fault s =
      (match cas_put p content fault (ws_disk s) with Ok _ => Ok tt | Raise e => Raise e end, s') /\
    ws_disk s' = match cas_put p content fault (ws_disk s) with Ok d => d | Raise _ => ws_disk s end /\
    _locks s' = _locks s /\ _reads s' = _reads s /\ chmods s' = chmods s.
Proof.
  destruct (mkstemp_fresh (ws_disk s) p) as [Hf Hne].
  unfold atomic_write, cas_put, mbind at 1, M_bind, mget.
  destruct (ws_disk s !! parent p) as [[c|]|]; [by eexists| |by eexists].
  set (tmp := mkstemp (ws_disk s) p) in *. unfold mcatch, rename, mbind, M_bind, set_node, mmod, mget; simpl.
  assert (Hp : forall n m, partial_alter (fun _ => Some n) tmp (partial_alter (fun _ => Some m) tmp
             (ws_disk s)) = partial_alter (fun _ => Some n) tmp (ws_disk s)).
  { intros n m. apply alter_twice. }
  destruct fault as [errno|]; simpl.
  { eexists. split; [reflexivity|]. split_and!; [simpl; by apply put_back|done..]. }
  rewrite Hp, lookup_partial_alter_eq, lookup_partial_alter_ne by done.
  destruct (ws_disk s !! p) as [[c|]|]; simpl; eexists; (split; [reflexivity|]);
    (split_and!; [simpl; rewrite ?Hp|done..]).
  - by apply move_over.
  - by apply put_back.
  - by apply move_over.
Qed.

(** The outcome of a run whose state does not matter. *)
Lemma read_bytes_run p s :
  read_bytes p s =
    (match ws_disk s !! p with
     | Some (File content) => Ok content
     | Some Dir => Raise (OSError EISDIR)
     | None => Raise (OSError ENOENT)
     end, s).
Proof. unfold read_bytes, mbind, M_bind, mget. by destruct (ws_disk s !! p) as [[]|]. Qed.

Lemma compute_hash_run p s :
  compute_hash sha256 p s =
    (match ws_disk s !! p with
     | Some (File content) => Ok (sha256 content)
     | Some Dir => Raise (OSError EISDIR)
     | None => Raise (OSError ENOENT)
     end, s).
Proof.
  unfold compute_hash, mbind, M_bind. rewrite read_bytes_run. by destruct (ws_disk s !! p) as [[]|].
Qed.

(** Seeing a content. *)
Lemma saw_run session p content (a : cas_store) d' s :
  canonical p = p -> same_files a (ws_disk s) (_reads s) ->
  exists s', record_read canonical session p (sha256 content) (s .[ws_disk := d']) = (Ok tt, s') /\
    same_files {| cas_disk := d'; seen := <[(p, session) := content]> (seen a) |} (ws_disk s') (_reads s') /\
    _locks s' = _locks s.
Proof.
  intros Hp [Hd Hs]. destruct (record_read_run session p (sha256 content) (s .[ws_disk := d']) Hp)
    as (s' & E & Ed & El & Er).
  exists s'. split_and!; [done| |done]. split; [done|]. intros q x. rewrite Er. simpl.
  destruct (decide (q = p /\ x = session)) as [[-> ->]|Hne].
  - by rewrite lookup_insert_eq.
  - rewrite lookup_insert_ne by naive_solver. apply Hs.
Qed.

(** The implementation does what the specification does: with the same outcome, and to corresponding files. *)
Definition sim {A} (m : M ws A) (m' : M cas_store A) : Prop := forall s a, refines s a ->
  exists s', m s = (fst (m' a), s') /\ refines s' (snd (m' a)).

Lemma sim_ret {A} (x : A) : sim (mret x) (mret x).
Proof. intros s a H. by exists s. Qed.

Lemma sim_throw {A} (e : exn) : sim (mthrow e : M ws A) (mthrow e).
Proof. intros s a H. by exists s. Qed.

Lemma sim_bind {A B} (m : M ws A) m' (k : A -> M ws B) k' :
  sim m m' -> (forall x, sim (k x) (k' x)) -> sim (m ≫= k) (m' ≫= k').
Proof.
  intros Hm Hk s a H. destruct (Hm s a H) as (s1 & E1 & H1). unfold mbind, M_bind. rewrite E1.
  destruct (m' a) as [[x|e] a1]; [by apply Hk|by exists s1].
Qed.

Lemma sim_catch {A} (m : M ws A) m' h h' :
  sim m m' -> (forall e, sim (h e) (h' e)) -> sim (mcatch m h) (mcatch m' h').
Proof.
  intros Hm Hh s a H. destruct (Hm s a H) as (s1 & E1 & H1). unfold mcatch. rewrite E1.
  destruct (m' a) as [[x|e] a1]; [by exists s1|by apply Hh].
Qed.

Lemma sim_liftr {A} (r : result A) : sim (raises r) (liftr r).
Proof. destruct r; [apply sim_ret|apply sim_throw]. Qed.

Lemma sim_is_new p : sim (mgets (fun s => negb (bool_decide (is_Some (ws_disk s !! p)))))
  (mgets (fun a => negb (bool_decide (is_Some (cas_disk a !! p))))).
Proof. intros s a H. exists s. split; [|done]. destruct H as [_ [E _]]. unfold mgets. cbn. by rewrite E. Qed.

Lemma sim_change f : sim (mmod (fun s => s .[ws_disk ::= f])) (cas_change f).
Proof.
  intros s a [Hfree [Hd Hs]]. eexists. split; [reflexivity|]. split; [done|]. split; [|done]. cbn. by f_equal.
Qed.

(** A computation that sees and changes the disk only *)
Definition bare (d : disk) : ws := {| ws_disk := d; _locks := ∅; _reads := ∅; chmods := [] |}.
Definition disk_only {A} (m : M ws A) : Prop := forall s,
  m s = (fst (m (bare (ws_disk s))), s .[ws_disk := ws_disk (snd (m (bare (ws_disk s))))]).

Lemma disk_only_bind {A B} (m : M ws A) (k : A -> M ws B) :
  disk_only m -> (forall x, disk_only (k x)) -> disk_only (m ≫= k).
Proof.
  intros Hm Hk s. unfold mbind, M_bind. rewrite (Hm s).
  destruct (m (bare (ws_disk s))) as [[x|e] b]; cbn [fst snd]; [|done].
  rewrite (Hk x (s .[ws_disk := ws_disk b])), (Hk x b). reflexivity.
Qed.

Lemma mkdirs_disk_only p : disk_only (mkdirs p).
Proof.
  unfold mkdirs. generalize (seq 0 (S (length p))). intros l. induction l as [|n l IH]; [by intros []|].
  cbn [mfor]. apply disk_only_bind; [|by intros _]. intros s. unfold mbind, M_bind, mget. cbn.
  by destruct (ws_disk s !! take n p) as [[]|], s.
Qed.

Lemma sim_mkdirs p : sim (mkdirs p) (cas_mkdirs p).
Proof.
  intros s a [Hfree [Hd Hs]]. rewrite mkdirs_disk_only. unfold cas_mkdirs. rewrite <- Hd.
  fold (bare (ws_disk s)). destruct (mkdirs p (bare (ws_disk s))) as [r b]. by eexists.
Qed.

Lemma sim_read p session :
  canonical p = p -> sim (safe_read_for_write canonical sha256 p session) (cas_read p session).
Proof.
  intros Hp s a [Hfree Hfiles]. destruct (with_lock_run p
    (content ← read_bytes p; content_hash ← compute_hash sha256 p;
     record_read canonical session p content_hash ;; mret content) s (fst (cas_read p session a))
    (same_files (snd (cas_read p session a))) Hfree Hp) as (s' & E & HQ & Hfree').
  - intros s0 Ed Er. rewrite <- Ed, <- Er in Hfiles.
    unfold mbind at 1, M_bind. rewrite read_bytes_run. unfold cas_read. rewrite <- (proj1 Hfiles).
    destruct (ws_disk s0 !! p) as [[content|]|] eqn:El; simpl; [|by eexists..].
    destruct (saw_run session p content a (ws_disk s0) s0 Hp Hfiles) as (s1 & E1 & Hf1 & El1).
    exists s1. split_and!; [|exact Hf1|done].
    assert (Es : s0 .[ws_disk := ws_disk s0] = s0) by by destruct s0. rewrite Es in E1.
    unfold mbind, M_bind. rewrite compute_hash_run, El. cbv beta iota. by rewrite E1.
  - exists s'. split; [exact E|]. by split.
Qed.

(** The check before a write. *)
Lemma check_run p session s a :
  canonical p = p -> same_files a (ws_disk s) (_reads s) ->
  (current_hash ← compute_hash sha256 p; check_write canonical session p current_hash false) s =
    (cas_check p session a, s).
Proof.
  intros Hp [Hd Hs]. unfold mbind at 1, M_bind. rewrite compute_hash_run. unfold cas_check. rewrite <- Hd.
  destruct (ws_disk s !! p) as [[current|]|]; [|done..].
  unfold check_write, mbind, M_bind, mget. rewrite Hp. change (option_bind ?A ?B) with (option_bind A B).
  specialize (Hs p session). unfold recorded, mbind in Hs. rewrite Hs.
  destruct (seen a !! (p, session)) as [lst|]; simpl; [|done].
  rewrite (decide_ext (sha256 lst <> sha256 current) (lst <> current)) by naive_solver.
  by case_decide.
Qed.

Lemma sim_write p content session is_new fault :
  canonical p = p ->
  sim (safe_write canonical sha256 mkstemp p content session is_new fault) (cas_write p content session is_new fault).
Proof.
  intros Hp s a [Hfree Hfiles].
  destruct (with_lock_run p
    ((if is_new then mret tt
      else current_hash ← compute_hash sha256 p; check_write canonical session p current_hash false) ;;
     atomic_write mkstemp p content fault ;;
     new_hash ← compute_hash sha256 p; record_read canonical session p new_hash) s
    (fst (cas_write p content session is_new fault a))
    (same_files (snd (cas_write p content session is_new fault a))) Hfree Hp) as (s' & E & HQ & Hfree').
  2: { exists s'. split; [exact E|]. by split. }
  intros s0 Ed Er. rewrite <- Ed, <- Er in Hfiles. clear Ed Er Hfree s.
  assert (Echeck : (if is_new then mret tt else current_hash ← compute_hash sha256 p;
             check_write canonical session p current_hash false) s0 =
           ((if is_new then Ok tt else cas_check p session a), s0)).
  { destruct is_new; [done|by apply check_run]. }
  unfold mbind at 1, M_bind at 1. rewrite Echeck. unfold cas_write.
  destruct (if is_new then Ok tt else cas_check p session a) as [[]|e]; simpl; [|by exists s0].
  destruct (atomic_write_run p content fault s0) as (s1 & E1 & Ed1 & El1 & Er1 & _).
  unfold mbind at 1, M_bind at 1. rewrite E1. rewrite <- (proj1 Hfiles).
  destruct (cas_put p content fault (ws_disk s0)) as [d|e] eqn:Eput; simpl.
  2: { exists s1. by rewrite Ed1, Er1, El1. }
  assert (Hread : d !! p = Some (File content)).
  { revert Eput. unfold cas_put. destruct (_ !! parent p) as [[]|]; [done| |done].
    destruct fault; [done|]. destruct (_ !! p) as [[]|]; intros [= <-]; apply lookup_insert_eq. }
  assert (Hfiles0 : same_files a (ws_disk (s1 .[ws_disk := ws_disk s0])) (_reads (s1 .[ws_disk := ws_disk s0])))
    by (simpl; by rewrite Er1).
  destruct (saw_run session p content a d _ Hp Hfiles0) as (s2 & E2 & Hf2 & El2).
  exists s2. split_and!; [|exact Hf2|by rewrite El2].
  unfold mbind, M_bind. rewrite compute_hash_run, Ed1, Hread. cbv beta iota.
  rewrite <- E2. f_equal. destruct s1; simpl in *. by subst.
Qed.

Lemma checked_canonical raw root p : resolve_and_check resolve raw root = Ok p -> p = resolve root raw.
Proof. unfold resolve_and_check. repeat (case_match; try done); congruence. Qed.

Lemma target_canonical t raw p : target t raw = Ok p -> canonical p = p.
Proof.
  unfold target. destruct (resolve_and_check resolve raw (read_root t)) as [q|e] eqn:Eq; [|by destruct e].
  cbn. apply checked_canonical in Eq as ->.
  destruct (check_write_scope canonical _ (write_scope t)) as [u|e]; [|by destruct e].
  intros [= <-]. apply resolve_canonical.
Qed.

Lemma sim_target {A} t raw (k : fpath -> M ws A) k' :
  (forall p, canonical p = p -> sim (k p) (k' p)) ->
  sim (p ← _resolve_path resolve raw (read_root t); _check_scope canonical p (write_scope t) ;; k p)
    (p ← liftr (target t raw); k' p).
Proof.
  intros Hk s a H. unfold _resolve_path, _check_scope, target.
  destruct (resolve_and_check resolve raw (read_root t)) as [p|[]] eqn:Ep; try by exists s.
  apply checked_canonical in Ep as ->.
  assert (H1 : forall q, canonical q = q -> sim (_check_scope canonical q (write_scope t) ;; k q)
    (p ← liftr (_ ← _path_error_to_tool_error (check_write_scope canonical q (write_scope t)); Ok q); k' p)).
  { intros q Hq s1 a1 Hr. unfold _check_scope. specialize (Hk q Hq s1 a1 Hr).
    destruct (check_write_scope canonical q (write_scope t)) as [[]|[]]; first [exact Hk|by exists s1]. }
  apply (H1 _ (resolve_canonical _ _) s a H).
Qed.

Lemma sim_resolve_edits t change edits :
  sim (resolve_edits resolve canonical (during t change) edits) (targets t edits) /\
  forall a l, fst (targets t edits a) = Ok l -> Forall (fun e : fpath * string * string => canonical e.1.1 = e.1.1) l.
Proof.
  induction edits as [|e edits [IH1 IH2]].
  { split; [apply sim_ret|]. by intros a l [= <-]. }
  split.
  - cbn [resolve_edits targets]. apply (sim_target t). intros p Hp. case_decide; [apply sim_throw|].
    apply sim_bind; [exact IH1|]. intros rest. apply sim_ret.
  - intros a l. cbn [targets]. unfold mbind at 1, M_bind at 1.
    destruct (target t (e_file e)) as [p|] eqn:Ep; cbn; [|done]. case_decide; [done|].
    unfold mbind, M_bind. specialize (IH2 a). destruct (targets t edits a) as [[rest|] a']; [|done].
    intros [= <-]. constructor; [by eapply target_canonical|by apply IH2].
Qed.

Lemma sim_edits t change l :
  Forall (fun e : fpath * string * string => canonical e.1.1 = e.1.1) l ->
  sim (apply_edits canonical sha256 mkstemp (during t change) l) (cas_edits t l change).
Proof.
  induction 1 as [|[[p old] new] l Hp _ IH]; [apply sim_ret|]. cbn [apply_edits cas_edits].
  apply sim_bind; [|intros ok; apply sim_bind; [exact IH|intros rest; apply sim_ret]].
  apply sim_catch; [|intros []; first [apply sim_ret|apply sim_throw]].
  apply sim_bind; [by apply sim_read|]. intros content. case_decide; [apply sim_ret|].
  apply sim_bind; [apply sim_change|]. intros _. apply sim_bind; [by apply sim_write|]. intros _. apply sim_ret.
Qed.

Lemma sim_op op : sim (run_op op) (spec_op op).
Proof.
  destruct op as [t raw content dirs change|t raw old new all change|t edits change|change]; cbn [run_op spec_op].
  - apply sim_bind; [|intros r; apply sim_ret]. unfold _write_impl, spec_write.
    apply (sim_target (during t change)). intros p Hp.
    apply sim_bind; [destruct (default false dirs); [apply sim_mkdirs|apply sim_ret]|]. intros _.
    apply sim_bind; [apply sim_is_new|]. intros is_new.
    apply sim_bind; [apply sim_change|]. intros _. apply sim_bind; [by apply sim_write|]. intros _. apply sim_ret.
  - apply sim_bind; [|intros r; apply sim_ret]. unfold _edit_impl, spec_edit.
    apply (sim_target (during t change)). intros p Hp. case_decide; [apply sim_throw|].
    apply sim_bind; [by apply sim_read|]. intros text. apply sim_bind; [apply sim_liftr|]. intros [new_content count].
    apply sim_bind; [apply sim_change|]. intros _. apply sim_bind; [by apply sim_write|]. intros _. apply sim_ret.
  - unfold _multi_edit_impl. intros s a H. destruct (sim_resolve_edits t change edits) as [Hsim Hcan].
    destruct (Hsim s a H) as (s1 & E1 & H1). unfold mbind, M_bind. rewrite E1. specialize (Hcan a).
    destruct (targets t edits a) as [[l|e] a1]; [|by exists s1]. cbn in H1 |- *.
    destruct (sim_edits t change l (Hcan l eq_refl) s1 a1 H1) as (s2 & -> & H2).
    destruct (cas_edits t l change a1) as [[r|e] a2]; by exists s2.
  - apply sim_bind; [apply sim_change|]. intros _. apply sim_ret.
Qed.

Lemma run_refines ops s a :
  refines s a ->
  fst (outcomes run_op ops s) = fst (outcomes spec_op ops a) /\
  refines (snd (outcomes run_op ops s)) (snd (outcomes spec_op ops a)).
Proof.
  revert s a. induction ops as [|op ops IH]; intros s a Hr; [done|].
  cbn [outcomes]. destruct (sim_op op s a Hr) as (s1 & -> & Hr1).
  destruct (spec_op op a) as [r a1]. simpl in Hr1. destruct (IH s1 a1 Hr1) as [E Hr2]. simpl.
  destruct (outcomes run_op ops s1) as [rs s2], (outcomes spec_op ops a1) as [rs' a2]. simpl in *.
  split; [by rewrite E|done].
Qed.

(** *** Other sessions at work *)

Definition op_session (op : file_op) : option string :=
  match op with
  | OpWrite t _ _ _ _ | OpEdit t _ _ _ _ _ | OpMultiEdit t _ _ => Some (session_id t)
  | OpOutside _ => None
  end.

Section unseen.
Context (p : fpath) (session : string) (last : option string).
Abbreviation P := (fun a : cas_store => seen a !! (p, session) = last).

Lemma keeps_cas_read q x : x <> session -> keeps P (cas_read q x).
Proof.
  intros Hx a Ha. unfold cas_read. destruct (cas_disk a !! q) as [[c|]|]; [|done..]. cbn.
  rewrite lookup_insert_ne; [done|congruence].
Qed.

Lemma keeps_cas_write q content x is_new fault : x <> session -> keeps P (cas_write q content x is_new fault).
Proof.
  intros Hx a Ha. unfold cas_write. destruct (if is_new then Ok tt else cas_check q x a); [|done].
  destruct (cas_put _ _ _ _); [|done]. cbn. rewrite lookup_insert_ne; [done|congruence].
Qed.

Lemma keeps_cas_change f : keeps P (cas_change f).
Proof. by intros a Ha. Qed.

Lemma keeps_cas_mkdirs q : keeps P (cas_mkdirs q).
Proof. intros a Ha. unfold cas_mkdirs. by destruct (mkdirs q _). Qed.

Lemma keeps_targets t edits : keeps P (targets t edits).
Proof.
  induction edits as [|e edits IH]; [apply keeps_ret|]. cbn [targets]. apply keeps_bind; [apply keeps_liftr|].
  intros q. case_decide; [apply keeps_throw|]. apply keeps_bind; [exact IH|]. intros rest. apply keeps_ret.
Qed.

Lemma keeps_cas_edits t l change : session_id t <> session -> keeps P (cas_edits t l change).
Proof.
  intros Hx. induction l as [|[[q old] new] l IH]; [apply keeps_ret|]. cbn [cas_edits].
  apply keeps_bind; [|intros ok; apply keeps_bind; [exact IH|intros rest; apply keeps_ret]].
  apply keeps_catch; [|intros []; first [apply keeps_ret|apply keeps_throw]].
  apply keeps_bind; [by apply keeps_cas_read|]. intros text. case_decide; [apply keeps_ret|].
  apply keeps_bind; [apply keeps_cas_change|]. intros _.
  apply keeps_bind; [by apply keeps_cas_write|]. intros _. apply keeps_ret.
Qed.

Lemma keeps_spec_op op : op_session op <> Some session -> keeps P (spec_op op).
Proof.
  destruct op as [t raw content dirs change|t raw old new all change|t edits change|change]; cbn; intros Hx;
    apply keeps_bind; intros; try apply keeps_ret.
  - unfold spec_write. apply keeps_bind; [apply keeps_liftr|]. intros q.
    apply keeps_bind; [destruct (default false dirs); [apply keeps_cas_mkdirs|apply keeps_ret]|]. intros _.
    apply keeps_bind; [apply keeps_mgets|]. intros is_new. apply keeps_bind; [apply keeps_cas_change|]. intros _.
    apply keeps_bind; [apply keeps_cas_write; congruence|]. intros _. apply keeps_ret.
  - unfold spec_edit. apply keeps_bind; [apply keeps_liftr|]. intros q. case_decide; [apply keeps_throw|].
    apply keeps_bind; [apply keeps_cas_read; congruence|]. intros text.
    apply keeps_bind; [apply keeps_liftr|]. intros [new_content count]. apply keeps_bind; [apply keeps_cas_change|].
    intros _. apply keeps_bind; [apply keeps_cas_write; congruence|]. intros _. apply keeps_ret.
  - apply keeps_targets.
  - apply keeps_bind; [apply keeps_cas_edits; congruence|]. intros r. apply keeps_ret.
  - apply keeps_cas_change.
Qed.
End unseen.

Lemma spec_ops_seen ops a p session :
  Forall (fun op => op_session op <> Some session) ops ->
  seen (snd (outcomes spec_op ops a)) !! (p, session) = seen a !! (p, session).
Proof.
  intros Hops. revert a. induction Hops as [|op ops Hop _ IH]; intros a; [done|]. cbn [outcomes].
  pose proof (keeps_spec_op p session _ op Hop a eq_refl) as E. destruct (spec_op op a) as [r a1].
  specialize (IH a1). destruct (outcomes spec_op ops a1) as [rs a2]. simpl in *. congruence.
Qed.

(** What a coroutine that waits gives way to. *)
Definition others (ops : list file_op) : M ws unit := fun s => (Ok tt, snd (outcomes run_op ops s)).
End refinement.

(** ** Main theorems *)


(** Containment.  A tool resolves a path exactly to the root and what is below it: for a root other
    than the file system's, [resolve_and_check] accepts a non-empty path whose resolution extends the
    root, and nothing else. *)
Theorem resolve_and_check_contained resolve raw root :
  root <> [] -> Forall seg_ok root -> Forall seg_ok (resolve root raw) ->
  forall p, resolve_and_check resolve raw root = Ok p <->
    raw <> EmptyString /\ p = resolve root raw /\ exists rest, p = root ++ rest.
Proof.
  intros Hne Hr Hp p. unfold resolve_and_check. case_decide as Hraw; [naive_solver|].
  case_decide as Heq.
  - rewrite Heq. split; [intros [= <-]|by intros (_ & -> & _)].
    split_and!; [done..|]. exists []. by rewrite app_nil_r.
  - destruct (str_prefix _ _) eqn:E; simpl.
    + apply fpath_below in E as (x & rest & E); [|done..]. split; [intros [= <-]|by intros (_ & -> & _)].
      split_and!; [done..|]. by exists (x :: rest).
    + split; [done|]. intros (_ & -> & rest & E'). destruct rest as [|x rest].
      { rewrite app_nil_r in E'. done. }
      rewrite (proj2 (fpath_below root _ Hne Hr Hp)) in E; [done|]. by exists x, rest.
Qed.

Lemma raises_ok {A} (r : result A) s a s' : raises r s = (Ok a, s') -> r = Ok a /\ s' = s.
Proof. destruct r; simpl; [by intros [= -> ->]|discriminate]. Qed.

Lemma edited_ok content old new all new_content count :
  edited content old new all = Ok (new_content, count) ->
  new_content = str_replace old new content /\ count = str_count old content /\ 0 < count /\
  (all = true \/ count = 1).
Proof.
  unfold edited. case_decide as H0; [done|]. destruct (negb all && _) eqn:E; [done|].
  intros [= <- <-]. split_and!; [done..|lia|]. destruct all; [by left|right].
  apply bool_decide_eq_false in E. lia.
Qed.

(** An edit never overwrites a change it has not seen.  Whatever other sessions and processes do
    to the files while the tool waits to write, when [edit] reports success, what it wrote is the replacement
    in the content the file had at that moment - one match, unless all were asked for - and nothing
    else on the disk is touched. *)
Theorem edit_applies_to_current resolve canonical sha256 mkstemp t ops raw old new all s a count s' :
  (forall x y, sha256 x = sha256 y -> x = y) ->
  (forall d p, d !! mkstemp d p = None /\ mkstemp d p <> p) ->
  (forall root raw, canonical (resolve root raw) = resolve root raw) ->
  refines sha256 s a ->
  let path := resolve (read_root t) raw in
  meanwhile t = others resolve canonical sha256 mkstemp ops ->
  Forall (fun op => op_session op <> Some (session_id t)) ops ->
  _edit_impl resolve canonical sha256 mkstemp t raw old new all s = (Ok count, s') ->
  exists s1 current,
    ws_disk (snd (outcomes (run_op resolve canonical sha256 mkstemp) ops s1)) !! path = Some (File current) /\
    ws_disk s1 = ws_disk s /\ old <> EmptyString /\
    count = str_count old current /\ 0 < count /\ (default false all = true \/ count = 1) /\
    ws_disk s' = <[path := File (str_replace old new current)]>
                   (ws_disk (snd (outcomes (run_op resolve canonical sha256 mkstemp) ops s1))).
Proof.
  intros Hinj Hfresh Hcanonical Hr path Hmean Hsess. unfold _edit_impl. intros E.
  assert (Hp : canonical path = path) by apply Hcanonical.
  apply M_bind_inv_ok in E as (q & s0 & Eq & E). unfold _resolve_path in Eq. apply raises_ok in Eq as [Eq ->].
  assert (q = path) as ->.
  { clear E. destruct (resolve_and_check resolve raw (read_root t)) as [q'|e] eqn:Ep; [|by destruct e].
    injection Eq as <-. by eapply checked_canonical. }
  apply M_bind_inv_ok in E as ([] & s0 & Ec & E). apply raises_ok in Ec as [_ ->].
  destruct (decide (old = EmptyString)) as [|Hold]; [done|].
  apply M_bind_inv_ok in E as (content & s1 & Eread & E).
  destruct (sim_read canonical sha256 mkstemp Hfresh path (session_id t) Hp s a Hr) as (s1' & Eread' & Hr1).
  rewrite Eread in Eread'. injection Eread' as Ek <-.
  unfold cas_read in Ek, Hr1. destruct (cas_disk a !! path) as [[c|]|] eqn:Ed; try discriminate Ek.
  injection Ek as ->. simpl in Hr1.
  apply M_bind_inv_ok in E as ([new_content n] & s2 & Ee & E). apply raises_ok in Ee as [Ee ->].
  apply edited_ok in Ee as (-> & -> & Hpos & Hone).
  apply M_bind_inv_ok in E as ([] & s2 & Em & E). rewrite Hmean in Em. injection Em as <-.
  apply M_bind_inv_ok in E as ([] & s3 & Ew & E). injection E as <- <-.
  destruct (run_refines resolve canonical sha256 mkstemp Hinj Hfresh Hcanonical ops s1 _ Hr1) as [_ Hr2].
  set (a1 := {| cas_disk := cas_disk a; seen := _ |}) in *.
  set (a2 := snd (outcomes (spec_op resolve canonical) ops a1)) in *.
  set (s2 := snd (outcomes _ ops s1)) in *.
  destruct (sim_write canonical sha256 mkstemp Hinj Hfresh path (str_replace old new c) (session_id t)
    false (write_fault t) Hp s2 a2 Hr2) as (s3' & Ew' & Hr3).
  rewrite Ew in Ew'. injection Ew' as Ek <-.
  assert (Hseen : seen a2 !! (path, session_id t) = Some c).
  { unfold a2. rewrite spec_ops_seen by done. apply lookup_insert_eq. }
  unfold cas_write, cas_check in Ek, Hr3.
  destruct Hr2 as [_ [Ed2 _]]. destruct Hr as [_ [Ed0 _]]. destruct Hr1 as [_ [Ed1 _]].
  destruct (cas_disk a2 !! path) as [[cur|]|] eqn:Ecur; try discriminate Ek.
  rewrite Hseen in Ek, Hr3. destruct (decide (c <> cur)) as [|Heq]; [discriminate Ek|].
  apply dec_stable in Heq as <-.
  destruct (cas_put _ _ _ _) as [d|e] eqn:Eput; [|discriminate Ek]. simpl in Hr3.
  exists s1, c. change (snd (outcomes (run_op resolve canonical sha256 mkstemp) ops s1)) with s2.
  split_and!; try done.
  - by rewrite Ed2.
  - by rewrite Ed1, Ed0.
  - destruct Hr3 as [_ [-> _]]. simpl. rewrite Ed2. revert Eput. unfold cas_put.
    destruct (_ !! parent path) as [[]|]; [done| |done].
    destruct (write_fault t); [done|]. rewrite Ecur. by intros [= <-].
Qed.

(** ** Witnesses *)

(** Without links; a hash that is the content; temporary names not in use. *)
Definition demo_resolve (root : fpath) (raw : string) : fpath := root ++ [raw].
Definition demo_mkstemp (d : disk) (p : fpath) : fpath := fresh (dom d ∪ {[p]}).

Lemma demo_mkstemp_fresh d p : d !! demo_mkstemp d p = None /\ demo_mkstemp d p <> p.
Proof.
  pose proof (is_fresh (dom d ∪ {[p]})) as H. apply not_elem_of_union in H as [H1 H2].
  split; [by apply not_elem_of_dom|]. intros E. apply H2. by apply elem_of_singleton.
Qed.

Definition notes : fpath := ["srv"; "notes"]%string.
Definition demo_disk : disk :=
  <[["srv"]%string := Dir]> (<[notes := File "draft one"%string]> ∅).
Definition demo_ws : ws := {| ws_disk := demo_disk; _locks := ∅; _reads := ∅; chmods := [] |}.
Definition demo_cas : cas_store := {| cas_disk := demo_disk; seen := ∅ |}.

Lemma demo_refines : refines id demo_ws demo_cas.
Proof. by split; [|split]. Qed.

Definition caller (session : string) : tool_args := {|
  read_root := ["srv"]%string; write_scope := None; session_id := session; write_fault := None;
  meanwhile := mret tt |}.

(** An edit of A, of a file B has not read; a write of B, before and after it has read; an edit of B that another
    process is in the way of; a write to a new file, and one that another process comes before *)
Definition race : list file_op :=
  [OpEdit (caller "A") "notes" "one" "two" None id;
   OpWrite (caller "B") "notes" "B's" None id;
   OpEdit (caller "B") "notes" "two" "three" None id;
   OpWrite (caller "A") "notes" "A's" None id;
   OpEdit (caller "B") "notes" "three" "four" None (insert notes (File "theirs"));
   OpMultiEdit (caller "B") [{| e_file := "notes"; e_old := "no match"; e_new := "" |};
                             {| e_file := "notes"; e_old := "theirs"; e_new := "B's" |}] id;
   OpWrite (caller "B") "new" "B's" None id;
   OpWrite (caller "A") "newer" "A's" None (insert ["srv"; "newer"] (File "theirs"))]%string.


Lemma resolve_and_check_contained_witness :
  resolve_and_check demo_resolve "notes" ["srv"]%string = Ok notes /\
  exists rest, notes = ["srv"]%string ++ rest.
Proof.
  assert (Hok : forall x, str_in "/" x = false -> x <> ""%string -> seg_ok x) by by split.
  assert (H : resolve_and_check demo_resolve "notes" ["srv"]%string = Ok notes) by reflexivity.
  split; [exact H|].
  assert (Hroot : Forall seg_ok ["srv"]%string) by (constructor; [by apply Hok|constructor]).
  assert (Hres : Forall seg_ok (demo_resolve ["srv"]%string "notes"))
    by (repeat (constructor; [by apply Hok|]); constructor).
  exact (proj2 (proj2 (proj1 (resolve_and_check_contained demo_resolve "notes" ["srv"]%string
    ltac:(discriminate) Hroot Hres notes) H))).
Defined.

Definition demo_others : list file_op := [OpWrite (caller "B") "todo" "new" None id]%string.
Definition demo_tool : tool_args := {|
  read_root := ["srv"]%string; write_scope := None; session_id := "A"; write_fault := None;
  meanwhile := others demo_resolve id id demo_mkstemp demo_others |}.
Abbreviation demo_edit :=
  (_edit_impl demo_resolve id id demo_mkstemp demo_tool "notes" "one" "two" None demo_ws).

Lemma edit_applies_to_current_witness :
  fst demo_edit = Ok 1 /\ ws_disk (snd demo_edit) !! notes = Some (File "draft two"%string) /\
  exists current, 1 = str_count "one" current /\
    ws_disk (snd demo_edit) !! notes = Some (File (str_replace "one" "two" current)).
Proof.
  assert (Eok : fst demo_edit = Ok 1) by (vm_compute; reflexivity). split; [exact Eok|].
  assert (Er : demo_edit = (Ok 1, snd demo_edit)) by (rewrite <- Eok; apply surjective_pairing).
  split; [vm_compute; reflexivity|].
  destruct (edit_applies_to_current demo_resolve id id demo_mkstemp demo_tool demo_others "notes" "one" "two"
    None demo_ws demo_cas 1 (snd demo_edit) (fun _ _ E => E) demo_mkstemp_fresh (fun _ _ => eq_refl) demo_refines eq_refl)
    as (s1 & current & _ & _ & _ & Hc & _ & _ & Ed);
    [constructor; [discriminate|constructor]|exact Er|].
  exists current. split; [exact Hc|]. rewrite Ed. apply lookup_insert_eq.
Defined.
