(* ===== verification/WriteScope.v ===== *)
(** Where the writing tools write: whatever they are asked for and however they end, write, edit,
    multi_edit, mkdir, move, copy and set_executable change only what is below the read root and in the write
    scope, apart from directories made on the way there, and delete gives only such a path to saferm. *)
From S2P Require Import Prelude PyDict Text WriteSafety WriteSafetySpec.

(** A call of a writing tool. *)
Inductive write_tool :=
| CallWrite (path content : string) (create_dirs : option bool)
| CallEdit (path old_string new_string : string) (replace_all : option bool)
| CallMultiEdit (edits : list edit)
| CallMkdir (path : string)
| CallMove (source destination : string)
| CallCopy (source destination : string)
| CallSetExecutable (path : string)
| CallDelete (path : string) (recursive : bool).

Section scope.
Context (resolve : fpath -> string -> fpath) (canonical : fpath -> fpath).
Context (sha256 : string -> string) (mkstemp : disk -> fpath -> fpath).
Context (saferm : bool -> fpath -> disk -> Z * disk) (t : tool_args).

Definition call_tool (c : write_tool) : M ws unit :=
  match c with
  | CallWrite path content dirs => _write_impl resolve canonical sha256 mkstemp t path content dirs ;; mret tt
  | CallEdit path old new all => _edit_impl resolve canonical sha256 mkstemp t path old new all ;; mret tt
  | CallMultiEdit edits => _multi_edit_impl resolve canonical sha256 mkstemp t edits ;; mret tt
  | CallMkdir path => _mkdir_impl resolve canonical t path ;; mret tt
  | CallMove source destination => _move_impl resolve canonical t source destination ;; mret tt
  | CallCopy source destination => _copy_impl resolve canonical t source destination ;; mret tt
  | CallSetExecutable path => _set_executable_impl resolve canonical t path ;; mret tt
  | CallDelete path recursive => _delete_impl resolve canonical saferm t path recursive ;; mret tt
  end.

(** Below the read root and below a path of the write scope. *)
Definition allowed (p : fpath) : Prop :=
  read_root t `prefix_of` p /\
  match write_scope t with
  | None => True
  | Some scope => exists sc, sc ∈ scope /\ canonical sc `prefix_of` p
  end.

(** What may be different on the disk. *)
Definition frame (d d' : disk) : Prop := forall p, d' !! p <> d !! p ->
  allowed p \/ (d !! p = None /\ d' !! p = Some Dir /\ exists q, allowed q /\ p `prefix_of` q).

(** [frame], for a whole state: and executable bits are set on allowed paths only. *)
Definition within (s s' : ws) : Prop :=
  frame (ws_disk s) (ws_disk s') /\ exists more, chmods s' = chmods s ++ more /\ Forall allowed more.

(** Paths are canonical, temporary files are new, and what others do while a tool waits is left out. *)
Record confined : Prop := {
  cf_root : Forall seg_ok (read_root t);
  cf_resolve : forall raw, Forall seg_ok (resolve (read_root t) raw);
  cf_canonical : forall p, Forall seg_ok (canonical p);
  cf_mkstemp : forall d p, d !! mkstemp d p = None /\ mkstemp d p <> p;
  cf_meanwhile : forall s, ws_disk (snd (meanwhile t s)) = ws_disk s /\ chmods (snd (meanwhile t s)) = chmods s
}.
Hypothesis Hc : confined.

(** *** The frame *)

Lemma frame_refl d : frame d d.
Proof. by intros p. Qed.

Lemma frame_trans d1 d2 d3 : frame d1 d2 -> frame d2 d3 -> frame d1 d3.
Proof.
  intros H1 H2 p Hp. destruct (decide (d2 !! p = d1 !! p)) as [E12|Hne].
  - rewrite <- E12 in *. by apply H2.
  - destruct (H1 p Hne) as [?|(E1 & E2 & Hq)]; [by left|]. destruct (decide (d3 !! p = d2 !! p)) as [E23|Hne'].
    + right. by rewrite E23.
    + destruct (H2 p Hne') as [?|(E2' & _)]; [by left|]. congruence.
Qed.

Lemma within_refl s : within s s.
Proof. split; [apply frame_refl|]. exists []. split; [by rewrite app_nil_r|constructor]. Qed.

Lemma within_trans s1 s2 s3 : within s1 s2 -> within s2 s3 -> within s1 s3.
Proof.
  intros [H1 (l1 & E1 & F1)] [H2 (l2 & E2 & F2)]. split; [by eapply frame_trans|]. exists (l1 ++ l2).
  rewrite app_assoc, <- E1. split; [done|by apply Forall_app].
Qed.

Lemma within_disk s s' : chmods s' = chmods s -> frame (ws_disk s) (ws_disk s') -> within s s'.
Proof. intros E H. split; [done|]. exists []. split; [by rewrite app_nil_r|constructor]. Qed.

Lemma allowed_below q p : allowed q -> q `prefix_of` p -> allowed p.
Proof.
  intros [Hr Hs] Hqp. split; [by etrans|]. destruct (write_scope t) as [scope|]; [|done].
  destruct Hs as (sc & ? & ?). exists sc. split; [done|by etrans].
Qed.

Lemma frame_below d d' (q : fpath) :
  allowed q -> (forall p, ~ q `prefix_of` p -> d' !! p = d !! p) -> frame d d'.
Proof.
  intros Hq Hd p Hp. left. destruct (decide (q `prefix_of` p)) as [Hqp|Hno]; [by apply (allowed_below q)|].
  exfalso. by apply Hp, Hd.
Qed.

Lemma frame_alter d (q : fpath) f : allowed q -> frame d (partial_alter f q d).
Proof.
  intros Hq. apply (frame_below _ _ q Hq). intros p Hp. apply lookup_partial_alter_ne. by intros ->.
Qed.

Lemma frame_dir d (p q : fpath) : allowed q -> p `prefix_of` q -> d !! p = None -> frame d (<[p := Dir]> d).
Proof.
  intros Hq Hpq Hn x Hx. destruct (decide (x = p)) as [->|]; [|by rewrite lookup_insert_ne in Hx].
  right. rewrite lookup_insert_eq. eauto.
Qed.

Lemma below_spec p q : below p q = true <-> p `prefix_of` q.
Proof.
  unfold below. rewrite bool_decide_eq_true. split.
  - intros E. exists (drop (length p) q). rewrite <- E at 1. symmetry. apply take_drop.
  - intros [r ->]. apply take_app_length.
Qed.

Lemma move_tree_other src dst d p :
  ~ src `prefix_of` p -> ~ dst `prefix_of` p -> move_tree src dst d !! p = d !! p.
Proof.
  intros Hs Hd. unfold move_tree. rewrite lookup_union_r.
  - assert (Hb : below src p = false) by (apply not_true_is_false; by rewrite below_spec).
    destruct (d !! p) as [n|] eqn:E.
    + apply map_lookup_filter_Some. split; [done|]. split; [done|]. simpl. intros ->. by apply Hd.
    + apply map_lookup_filter_None. by left.
  - apply not_elem_of_list_to_map_1. intros (qn & -> & Hin)%list_elem_of_fmap.
    apply list_elem_of_In, in_map_iff in Hin as (x & <- & _). apply Hd. by eexists.
Qed.

(** *** What the guards let through *)

Lemma prefix_below r p :
  Forall seg_ok r -> Forall seg_ok p ->
  p = r \/ str_prefix (fpath_str r +:+ "/") (fpath_str p) = true -> r `prefix_of` p.
Proof.
  intros Hr Hp [->|H]; [done|]. destruct r as [|x r]; [apply prefix_nil|].
  apply fpath_below in H as (y & rest & ->); [|done..]. by eexists.
Qed.

Lemma wp_resolve raw (Q : fpath -> ws -> Prop) (E : exn -> ws -> Prop) s :
  (forall p, p = resolve (read_root t) raw -> Forall seg_ok p -> read_root t `prefix_of` p -> Q p s) ->
  (forall e, E e s) ->
  wp (_resolve_path resolve raw (read_root t)) Q E s.
Proof.
  intros HQ HE. unfold _resolve_path, resolve_and_check. case_decide; [apply HE|].
  pose proof (cf_resolve Hc raw) as Hseg. case_decide as Heq.
  - apply HQ; [done..|]. by rewrite Heq.
  - destruct (str_prefix _ _) eqn:Epre; [|apply HE]. apply HQ; [done..|].
    apply prefix_below; [apply (cf_root Hc)|done|by right].
Qed.

Lemma wp_scope p (Q : unit -> ws -> Prop) (E : exn -> ws -> Prop) s :
  Forall seg_ok p -> read_root t `prefix_of` p -> (allowed p -> Q tt s) -> (forall e, E e s) ->
  wp (_check_scope canonical p (write_scope t)) Q E s.
Proof.
  intros Hp Hr HQ HE. unfold _check_scope, check_write_scope. unfold allowed in HQ.
  destruct (write_scope t) as [scope|]; [|by apply HQ].
  destruct (existsb _ scope) eqn:Ex; [|apply HE]. apply HQ. split; [done|].
  apply existsb_exists in Ex as (sc & Hin & Hsc). exists sc. split; [by apply list_elem_of_In|].
  apply prefix_below; [apply (cf_canonical Hc)|done|]. unfold in_scope in Hsc.
  apply orb_true_iff in Hsc as [Hsc|Hsc]; [left; by apply bool_decide_eq_true in Hsc|by right].
Qed.

(** *** The pieces of the tools *)

Definition frames {A} (m : M ws A) : Prop := forall s0, keeps (within s0) m.

Lemma frames_step {A} (m : M ws A) : (forall s, within s (snd (m s))) -> frames m.
Proof. intros H s0 s Hs. by eapply within_trans. Qed.

Lemma frames_disk {A} (m : M ws A) :
  (forall s, chmods (snd (m s)) = chmods s /\ frame (ws_disk s) (ws_disk (snd (m s)))) -> frames m.
Proof. intros H. apply frames_step. intros s. by apply within_disk; apply H. Qed.

Lemma frames_quiet {A} (m : M ws A) :
  (forall s, ws_disk (snd (m s)) = ws_disk s /\ chmods (snd (m s)) = chmods s) -> frames m.
Proof. intros H. apply frames_disk. intros s. destruct (H s) as [-> ->]. split; [done|apply frame_refl]. Qed.

Lemma frames_bind {A B} (m : M ws A) (k : A -> M ws B) : frames m -> (forall a, frames (k a)) -> frames (m ≫= k).
Proof. intros Hm Hk s0. apply keeps_bind; [apply Hm|]. intros a. apply Hk. Qed.

Lemma frames_ret {A} (a : A) : frames (mret a).
Proof. intros s0. apply keeps_ret. Qed.

Lemma frames_raises {A} (r : result A) : frames (raises r).
Proof. by apply frames_quiet; intros s; destruct r. Qed.

Lemma frames_read p : frames (read_bytes p).
Proof. apply frames_quiet. intros s. by rewrite read_bytes_run. Qed.

Lemma frames_hash p : frames (compute_hash sha256 p).
Proof. apply frames_quiet. intros s. by rewrite compute_hash_run. Qed.

Lemma frames_record session p h : frames (record_read canonical session p h).
Proof. by apply frames_quiet. Qed.

Lemma frames_check session p h is_new : frames (check_write canonical session p h is_new).
Proof.
  apply frames_quiet. intros s. unfold check_write, mbind, M_bind, mget. destruct is_new; [done|].
  destruct (option_bind _ _ _ _); [|done]. by case_decide.
Qed.

Lemma frames_with_lock {A} p (body : M ws A) : frames body -> frames (with_lock canonical p body).
Proof.
  intros Hb. unfold with_lock. apply frames_bind; [|intros _; apply frames_bind].
  - apply frames_quiet. intros s. unfold acquire, mbind, M_bind, mget.
    by destruct (_locks s !! canonical p) as [[]|].
  - intros s0 s Hs. unfold mtry. specialize (Hb s0 s Hs). by destruct (body s).
  - intros r. apply frames_bind; [|intros _; apply frames_raises].
    apply frames_quiet. intros s. unfold release_lock, mbind, M_bind, mget.
    by destruct (_locks s !! canonical p) as [[]|].
Qed.

Lemma frames_atomic p content fault : allowed p -> frames (atomic_write mkstemp p content fault).
Proof.
  intros Hp. apply frames_disk. intros s.
  destruct (atomic_write_run mkstemp (cf_mkstemp Hc) p content fault s) as (s' & -> & Ed & _ & _ & Em). simpl.
  split; [exact Em|]. rewrite Ed.
  unfold cas_put. destruct (ws_disk s !! parent p) as [[]|]; try apply frame_refl.
  destruct fault; [apply frame_refl|]. destruct (ws_disk s !! p) as [[]|]; try apply frame_refl;
    by apply frame_alter.
Qed.

Create HintDb frames discriminated.
Hint Resolve frames_bind frames_ret frames_raises frames_read frames_hash frames_record frames_check
  frames_with_lock frames_atomic : frames.

Lemma frames_safe_write p content session is_new fault :
  allowed p -> frames (safe_write canonical sha256 mkstemp p content session is_new fault).
Proof. intros Hp. unfold safe_write. destruct is_new; eauto 8 with frames. Qed.

Lemma frames_safe_read p session : frames (safe_read_for_write canonical sha256 p session).
Proof. unfold safe_read_for_write. eauto 8 with frames. Qed.

Lemma frames_mkdirs p q : allowed q -> p `prefix_of` q -> frames (mkdirs p).
Proof.
  intros Hq Hpq s0. apply keeps_mfor. intros n _. revert s0. apply frames_disk. intros s.
  unfold mbind, M_bind, mget. destruct (ws_disk s !! take n p) as [[]|] eqn:E; (split; [done|]); try apply frame_refl.
  apply (frame_dir _ _ q Hq); [|done]. etrans; [|exact Hpq]. exists (drop n p). symmetry. apply take_drop.
Qed.

Lemma frames_rename src dst : allowed src -> allowed dst -> frames (os_rename src dst).
Proof.
  intros Hsrc Hdst. apply frames_disk. intros s. unfold os_rename, mbind, M_bind, mget.
  destruct (ws_disk s !! parent dst) as [[]|]; try (split; [done|apply frame_refl]).
  destruct (decide (src = dst)); [by split; [|apply frame_refl]|].
  assert (Hmove : frame (ws_disk s) (move_tree src dst (ws_disk s))).
  { intros p Hp. left. destruct (decide (src `prefix_of` p)); [by apply (allowed_below src)|].
    destruct (decide (dst `prefix_of` p)); [by apply (allowed_below dst)|]. exfalso. by apply Hp, move_tree_other. }
  destruct (ws_disk s !! src) as [what|]; [|by split; [|apply frame_refl]].
  destruct what, (ws_disk s !! dst) as [[]|]; repeat case_match; (split; [done|]);
    first [apply frame_refl|exact Hmove].
Qed.

Lemma frames_copy src dst : allowed dst -> frames (copy2 src dst).
Proof.
  intros Hdst. unfold copy2. apply frames_bind; [apply frames_read|]. intros content.
  apply frames_disk. intros s. unfold mbind, M_bind, mget.
  set (q := match ws_disk s !! dst with Some Dir => _ | _ => _ end).
  assert (Hq : allowed q).
  { unfold q. destruct (ws_disk s !! dst) as [[]|]; [done| |done]. apply (allowed_below dst); [done|by eexists]. }
  case_decide; [by split; [|apply frame_refl]|].
  destruct (ws_disk s !! q) as [[]|], (ws_disk s !! parent q) as [[]|]; (split; [done|]);
    first [apply frame_refl|by apply frame_alter].
Qed.

Lemma frames_meanwhile : frames (meanwhile t).
Proof. apply frames_quiet, (cf_meanwhile Hc). Qed.

Lemma frames_edits edits : Forall (fun e : fpath * string * string => allowed e.1.1) edits ->
  frames (apply_edits canonical sha256 mkstemp t edits).
Proof.
  induction 1 as [|[[p old] new] edits Hp _ IH]; [apply frames_ret|]. cbn [apply_edits].
  apply frames_bind; [|intros ok; apply frames_bind; [exact IH|intros; apply frames_ret]].
  intros s0. apply keeps_catch; [|intros []; first [apply keeps_ret|apply keeps_throw]]. revert s0.
  change (frames (content ← safe_read_for_write canonical sha256 p (session_id t);
    if decide (str_count old content = 0) then mret false
    else meanwhile t ;; safe_write canonical sha256 mkstemp p (str_replace old new content) (session_id t)
           false (write_fault t) ;; mret true)).
  apply frames_bind; [apply frames_safe_read|]. intros content. case_decide; [apply frames_ret|].
  apply frames_bind; [apply frames_meanwhile|]. intros _.
  apply frames_bind; [by apply frames_safe_write|]. intros _. apply frames_ret.
Qed.

(** A tool that goes on with a path in the scope. *)
Definition framed_wp {A} (m : M ws A) (s0 : ws) (s : ws) : Prop :=
  wp m (fun _ s' => within s0 s') (fun _ s' => within s0 s') s.

Lemma frames_wp {A} (m : M ws A) s0 s : frames m -> within s0 s -> framed_wp m s0 s.
Proof. intros Hm Hs. specialize (Hm s0 s Hs). unfold framed_wp, wp. by destruct (m s) as [[a|e] s']. Qed.

Lemma wp_target {A} raw (k : fpath -> M ws A) s0 s :
  within s0 s -> (forall p, allowed p -> framed_wp (k p) s0 s) ->
  framed_wp (p ← _resolve_path resolve raw (read_root t); _check_scope canonical p (write_scope t) ;; k p) s0 s.
Proof.
  intros Hs Hk. apply wp_bind, wp_resolve; [|done]. intros p _ Hp Hr.
  apply wp_bind, wp_scope; [done..| |done]. apply Hk.
Qed.

Lemma wp_resolve_edits edits s0 s :
  within s0 s ->
  wp (resolve_edits resolve canonical t edits)
    (fun l s' => s' = s /\ Forall (fun e : fpath * string * string => allowed e.1.1) l)
    (fun _ s' => within s0 s') s.
Proof.
  intros Hs. induction edits as [|e edits IH]; [by split|]. cbn [resolve_edits].
  apply wp_bind, wp_resolve; [|done]. intros p _ Hp Hr.
  apply wp_bind, wp_scope; [done..| |done]. intros Ha. case_decide; [done|].
  apply wp_bind. eapply wp_mono; [exact IH| |done]. intros l s' [-> Hl]. split; [done|]. by constructor.
Qed.

(** What delete leaves to saferm *)
Definition deleted (c : write_tool) (s s' : ws) : Prop :=
  exists raw recursive p, c = CallDelete raw recursive /\ p = resolve (read_root t) raw /\ allowed p /\
    (ws_disk s !! p = Some Dir -> recursive = true) /\
    s' = s .[ws_disk := snd (saferm recursive p (ws_disk s))].

Lemma call_delete raw recursive s :
  let s' := snd (call_tool (CallDelete raw recursive) s) in s' = s \/ deleted (CallDelete raw recursive) s s'.
Proof.
  pose (post := fun s' => s' = s \/ deleted (CallDelete raw recursive) s s'). cbv zeta.
  enough (H : wp (call_tool (CallDelete raw recursive)) (fun _ => post) (fun _ => post) s)
    by (unfold wp in H; by destruct (call_tool _ s) as [[] s']).
  unfold call_tool. apply wp_bind. eapply wp_mono; [|intros ? ? H; exact H|intros ? ? H; exact H].
  unfold _delete_impl. apply wp_bind, wp_resolve; [|by left]. intros p -> Hseg Hr.
  apply wp_bind, wp_scope; [done..| |by left]. intros Hp. unfold wp, mbind, M_bind, mget, mmod.
  destruct (bool_decide _ && negb recursive) eqn:Eg; [by left|].
  destruct (saferm recursive (resolve (read_root t) raw) (ws_disk s)) as [code d] eqn:Erm.
  assert (Hd : deleted (CallDelete raw recursive) s (s .[ws_disk := d])).
  { exists raw, recursive, (resolve (read_root t) raw). rewrite Erm. split_and!; [done..| |done].
    intros Hdir. rewrite bool_decide_true in Eg by done. by destruct recursive. }
  cbv zeta beta. destruct (decide (code <> 0%Z)); cbn; by right.
Qed.

Lemma call_tool_frames c s :
  (forall raw recursive, c <> CallDelete raw recursive) -> framed_wp (call_tool c) s s.
Proof.
  intros Hno. pose proof (within_refl s) as Hs. destruct c; unfold call_tool; apply wp_bind;
    (eapply wp_mono; [|intros ? ? H; exact H|intros ? ? H; exact H]).
  - unfold _write_impl. apply wp_target; [done|]. intros p Hp. apply frames_wp; [|done].
    apply frames_bind; [|intros _; apply frames_bind; [by apply frames_quiet|intros is_new]].
    { destruct (default false create_dirs); [|apply frames_ret].
      eapply frames_mkdirs; [done|]. exists (drop (length p - 1) p). symmetry. apply take_drop. }
    apply frames_bind; [apply frames_meanwhile|]. intros _.
    apply frames_bind; [by apply frames_safe_write|]. intros _. apply frames_ret.
  - unfold _edit_impl. apply wp_target; [done|]. intros p Hp. apply frames_wp; [|done]. case_decide; [by apply frames_quiet|].
    apply frames_bind; [apply frames_safe_read|]. intros content.
    apply frames_bind; [apply frames_raises|]. intros [new count].
    apply frames_bind; [apply frames_meanwhile|]. intros _.
    apply frames_bind; [by apply frames_safe_write|]. intros _. apply frames_ret.
  - unfold _multi_edit_impl. apply wp_bind. eapply wp_mono; [by apply wp_resolve_edits| |done].
    intros l s' [-> Hl]. apply frames_wp; [|done]. by apply frames_edits.
  - unfold _mkdir_impl. apply wp_target; [done|]. intros p Hp. apply frames_wp; [|done].
    apply frames_bind; [by eapply frames_mkdirs|]. intros _. apply frames_ret.
  - unfold _move_impl. apply wp_bind, wp_resolve; [|done]. intros p _ Hp Hr.
    apply wp_bind, wp_resolve; [|done]. intros q _ Hq Hr'.
    apply wp_bind, wp_scope; [done..| |done]. intros Hap. apply wp_bind, wp_scope; [done..| |done]. intros Haq.
    apply frames_wp; [|done]. apply frames_bind; [by apply frames_quiet|]. intros s0.
    destruct (ws_disk s0 !! p); [|by apply frames_quiet].
    apply frames_bind; [by apply frames_rename|]. intros _. apply frames_ret.
  - unfold _copy_impl. apply wp_bind, wp_resolve; [|done]. intros p _ Hp Hr.
    apply wp_target; [done|]. intros q Haq.
    apply frames_wp; [|done]. apply frames_bind; [by apply frames_quiet|]. intros s0.
    destruct (ws_disk s0 !! p) as [[]|]; [|by apply frames_quiet..].
    apply frames_bind; [by apply frames_copy|]. intros _. apply frames_ret.
  - unfold _set_executable_impl. apply wp_target; [done|]. intros p Hp. apply frames_wp; [|done].
    apply frames_bind; [by apply frames_quiet|]. intros s0.
    destruct (ws_disk s0 !! p) as [[]|]; [|by apply frames_quiet..].
    apply frames_bind; [|intros _; apply frames_ret]. apply frames_step. intros s1.
    split; [apply frame_refl|]. exists [p]. split; [done|]. by constructor.
  - by destruct (Hno path recursive).
Qed.
End scope.

(** ** Main theorem *)


(** ** Witness *)

Definition segb (seg : string) : bool := bool_decide (seg <> EmptyString) && negb (str_in "/" seg).
Definition plain_resolve (root : fpath) (raw : string) : fpath := if segb raw then root ++ [raw] else root.
Definition plain_canonical (p : fpath) : fpath := if forallb segb p then p else [].
Definition plain_saferm (recursive : bool) (p : fpath) (d : disk) : Z * disk :=
  (0%Z, filter (fun qn : fpath * node => ~ p `prefix_of` qn.1) d).

Lemma segb_ok seg : segb seg = true -> seg_ok seg.
Proof.
  unfold segb, seg_ok. rewrite andb_true_iff, bool_decide_eq_true, negb_true_iff. done.
Qed.

Definition plain_tool : tool_args := {|
  read_root := ["srv"]%string; write_scope := Some [["srv"; "notes"]; ["srv"; "out"]]%string;
  session_id := "A"; write_fault := None; meanwhile := mret tt |}.

Lemma plain_confined : confined plain_resolve plain_canonical demo_mkstemp plain_tool.
Proof.
  split.
  - constructor; [by apply segb_ok|constructor].
  - intros raw. unfold plain_resolve. destruct (segb raw) eqn:E;
      repeat (constructor; [by apply segb_ok|]); constructor.
  - intros p. unfold plain_canonical. destruct (forallb segb p) eqn:E; [|constructor].
    apply Forall_forall. intros x Hx. apply segb_ok. rewrite forallb_forall in E. apply E.
    by apply list_elem_of_In.
  - apply demo_mkstemp_fresh.
  - done.
Qed.

Abbreviation plain_call c := (call_tool plain_resolve plain_canonical id demo_mkstemp plain_saferm plain_tool c).

