(* ===== verification/Types.v ===== *)
(** The shared vocabulary of [protocols/_types]: enumerations, checks and executions, task
    specifications, dispatch records.

    [TaskSpec] and [Execution] are mutually recursive in the source; here [TaskSpec] carries its
    scalar fields in the record [TaskBase] and its recursive fields as constructor arguments, and a
    coercion lets every scalar field be read off a [TaskSpec]. *)
From S2P Require Import Prelude.

(** ** _enums.py *)

Inductive ConstraintTier := MECHANICAL | ADVISORY.

Inductive ConstraintKind :=
| TESTS_PASS | LINT_CLEAN | NO_REMOVED_EXPORTS | NO_CHANGED_SIGNATURES | NO_NEW_DEPENDENCIES
| NO_NEW_FILES_OUTSIDE.

#[export] Instance ConstraintKind_eq_dec : EqDecision ConstraintKind.
Proof. solve_decision. Defined.

Definition ConstraintKind_value (k : ConstraintKind) : string :=
  match k with
  | TESTS_PASS => "tests_pass"
  | LINT_CLEAN => "lint_clean"
  | NO_REMOVED_EXPORTS => "no_removed_exports"
  | NO_CHANGED_SIGNATURES => "no_changed_signatures"
  | NO_NEW_DEPENDENCIES => "no_new_dependencies"
  | NO_NEW_FILES_OUTSIDE => "no_new_files_outside"
  end.

Definition ConstraintKinds : list ConstraintKind :=
  [TESTS_PASS; LINT_CLEAN; NO_REMOVED_EXPORTS; NO_CHANGED_SIGNATURES; NO_NEW_DEPENDENCIES;
   NO_NEW_FILES_OUTSIDE].

(** [ConstraintKind(s)]: the member with that value, or [ValueError]. *)
Definition ConstraintKind_of (s : string) : option ConstraintKind :=
  head (filter (fun k => ConstraintKind_value k = s) ConstraintKinds).

Definition EXPENSIVE_CONSTRAINTS : list ConstraintKind := [TESTS_PASS; LINT_CLEAN].

Inductive ErrorCategory :=
| INFRA | CONTEXT_LIMIT | PARSE | FLAKY | BUILD_ENV | LOGIC | UNCLASSIFIED.

Inductive Severity := CRITICAL | MAJOR | MINOR | NIT.

#[export] Instance Severity_eq_dec : EqDecision Severity.
Proof. solve_decision. Defined.

Definition SEVERITY_ORDER (s : Severity) : Z :=
  match s with CRITICAL => 4 | MAJOR => 3 | MINOR => 2 | NIT => 1 end.

(** ** _task.py and _checks.py *)

Inductive TaskState :=
| CREATED | PRECHECKING | ACTIVE | SUSPENDED | POSTCHECKING | COMPLETED | PRECHECK_FAILED
| POSTCHECK_FAILED | ESCALATED | CANCELLED.

#[export] Instance TaskState_eq_dec : EqDecision TaskState.
Proof. solve_decision. Defined.

Definition TaskState_value (s : TaskState) : string :=
  match s with
  | CREATED => "created"
  | PRECHECKING => "prechecking"
  | ACTIVE => "active"
  | SUSPENDED => "suspended"
  | POSTCHECKING => "postchecking"
  | COMPLETED => "completed"
  | PRECHECK_FAILED => "precheck_failed"
  | POSTCHECK_FAILED => "postcheck_failed"
  | ESCALATED => "escalated"
  | CANCELLED => "cancelled"
  end.

#[export] Instance TaskState_value_inj : Inj (=) (=) TaskState_value.
Proof. intros [] [] H; first [reflexivity | discriminate H]. Qed.

(** scheduler/_types.py *)
Inductive EscalationPolicy := CONTINUE_INDEPENDENT | HALT | ABORT_ALL.

(** A long-running process declared by a workflow; [ready_timeout] is in seconds. *)
Record ServiceConfig := {
  sv_name : string;
  sv_start_command : string;
  sv_health_check_command : option string;
  sv_stop_command : string;
  sv_port : option Z;
  sv_ready_timeout : Z
}.

Inductive BudgetExhaustionPolicy := BLOCK_NEW | CANCEL_ALL | TIMEOUT_GRACE | UNLIMITED.

Record TaskBase := {
  ts_name : string;
  ts_agent : option string;
  ts_task_prompt : option string;
  ts_callable : option string;
  ts_wait_for : option string;
  ts_decision_point : option bool;
  ts_orchestrator : option bool;
  ts_variables : list string;
  ts_depends_on : option (list string);
  ts_category : option string;
  ts_timeout : option Z;
  ts_context_refinement : option bool;
  ts_retry : Z;
  ts_retry_resume : option bool;
  ts_retry_inject_failure : option bool;
  ts_for_each : option string;
  ts_for_each_abort_on_failure : option bool;
  ts_max_concurrency : option Z;
  ts_output_schema : option string;
  ts_budget : option decimal;
  ts_execution_target : option string;
  ts_write_paths : option (list string);
  ts_on_success : option string;
  ts_pre_retry : option string
}.

(** [TaskSpec(name=...)] with every other field at its default. *)
Definition TaskBase_default (name : string) : TaskBase := {|
  ts_name := name; ts_agent := None; ts_task_prompt := None; ts_callable := None;
  ts_wait_for := None; ts_decision_point := None; ts_orchestrator := None; ts_variables := [];
  ts_depends_on := None; ts_category := None; ts_timeout := None; ts_context_refinement := None;
  ts_retry := 0; ts_retry_resume := None; ts_retry_inject_failure := None; ts_for_each := None;
  ts_for_each_abort_on_failure := None; ts_max_concurrency := None; ts_output_schema := None;
  ts_budget := None; ts_execution_target := None; ts_write_paths := None; ts_on_success := None;
  ts_pre_retry := None
|}.

#[export] Instance eta_TaskBase : Eta TaskBase := fun t => {|
  ts_name := ts_name t; ts_agent := ts_agent t; ts_task_prompt := ts_task_prompt t;
  ts_callable := ts_callable t; ts_wait_for := ts_wait_for t;
  ts_decision_point := ts_decision_point t; ts_orchestrator := ts_orchestrator t;
  ts_variables := ts_variables t; ts_depends_on := ts_depends_on t; ts_category := ts_category t;
  ts_timeout := ts_timeout t; ts_context_refinement := ts_context_refinement t;
  ts_retry := ts_retry t; ts_retry_resume := ts_retry_resume t;
  ts_retry_inject_failure := ts_retry_inject_failure t; ts_for_each := ts_for_each t;
  ts_for_each_abort_on_failure := ts_for_each_abort_on_failure t;
  ts_max_concurrency := ts_max_concurrency t; ts_output_schema := ts_output_schema t;
  ts_budget := ts_budget t; ts_execution_target := ts_execution_target t;
  ts_write_paths := ts_write_paths t; ts_on_success := ts_on_success t;
  ts_pre_retry := ts_pre_retry t
|}.

#[warnings="-register-all"]
Inductive Execution :=
| ScriptExecution (callable : string)
| AgentExecution (agent task : string) (block_threshold : Severity) (variables : list string)
| WorkflowExecution (name description : string) (tasks : list TaskSpec)
    (postchecks : list Execution) (budget : option decimal)
with TaskSpec :=
| mkTaskSpec (base : TaskBase) (prechecks postchecks : list Execution)
    (subtasks : option (list TaskSpec)).

Definition ts_base (t : TaskSpec) : TaskBase := let 'mkTaskSpec b _ _ _ := t in b.
Definition ts_prechecks (t : TaskSpec) : list Execution := let 'mkTaskSpec _ p _ _ := t in p.
Definition ts_postchecks (t : TaskSpec) : list Execution := let 'mkTaskSpec _ _ p _ := t in p.
Definition ts_subtasks (t : TaskSpec) : option (list TaskSpec) := let 'mkTaskSpec _ _ _ s := t in s.
Coercion ts_base : TaskSpec >-> TaskBase.

Record CheckIssue := {
  ci_severity : Severity;
  ci_file : option string;
  ci_line_range : option (Z * Z);
  ci_description : string;
  ci_blocking : bool
}.

Record CriterionReview := { cr_criterion : string; cr_met : bool; cr_evidence : string }.

Record CheckVerdict := {
  cv_verdict : string;
  cv_issues : list CheckIssue;
  cv_criteria_review : list CriterionReview;
  cv_summary : string
}.

(** The shapes of [details] the code builds. *)
Inductive CheckDetails :=
| DError (error : string)
| DVerdict (issues : list CheckIssue) (criteria_review : list CriterionReview)
| DRaw (raw_response : string).

(** [fix] is the repair callback, named by what it is looked up under. *)
Record CheckResult := {
  passed : bool;
  message : string;
  details : option CheckDetails;
  fix_cb : option uuid
}.

Definition check_result (p : bool) (m : string) : CheckResult :=
  {| passed := p; message := m; details := None; fix_cb := None |}.

Record CheckContext := {
  cc_variables : list (string * string);
  cc_agent_output : option string;
  cc_run_id : uuid;
  cc_session_id : option string;
  cc_task_name : string;
  cc_task_id : uuid;
  cc_attempt : Z;
  cc_parent_task_id : option uuid
}.

Record TaskResult := {
  tr_output : option string;
  tr_structured_output : option value;
  tr_check_results : list CheckResult
}.

(** [all(cr.passed for cr in crs)] *)
Definition all_passed (crs : list CheckResult) : bool := forallb passed crs.

(** ** _actions.py: the action union *)

Inductive Action :=
| ScriptAction (callable : string)
| LogAction (message level : string)
| WorkflowAction (workflow_path : string) (config : value)
| EventAction (event_type : string) (data : value) (source : string)
| NotifyAction (target_principal_id : uuid) (source_ref : string) (payload : value).

(** ** _dispatch.py *)

Record FilterPredicate := {
  fp_event_types : option (list string);
  fp_sources : option (list string);
  fp_principal_id : option uuid;
  fp_data_predicates : option value
}.

Record Subscription := {
  sub_id : uuid;
  sub_filter : FilterPredicate;
  sub_enabled : bool;
  sub_storage : string;
  sub_principal_id : uuid;
  sub_created_at : time
}.

#[export] Instance eta_Subscription : Eta Subscription := fun s => {|
  sub_id := sub_id s; sub_filter := sub_filter s; sub_enabled := sub_enabled s;
  sub_storage := sub_storage s; sub_principal_id := sub_principal_id s;
  sub_created_at := sub_created_at s
|}.

(** The keys [_buffer_or_flush] reads of an action's [accumulator_config] dict; a missing key reads
    as 0. *)
Record AccumulatorConfig := { acc_threshold : Z; acc_flush_interval_s : Z }.

Record SubscriptionAction := {
  sa_id : uuid;
  sa_subscription_id : uuid;
  sa_position : Z;
  sa_action : Action;
  sa_accumulator_config : option AccumulatorConfig;
  sa_created_at : time
}.

Record Source := {
  src_id : uuid;
  src_slug : string;
  src_name : string;
  src_credential_id : option uuid;
  src_config : option value;
  src_created_by : uuid;
  src_created_at : time
}.

Record AccumulatorEntry := {
  ae_id : uuid;
  ae_subscription_action_id : uuid;
  ae_event_id : uuid;
  ae_created_at : time
}.
