(* ===== verification/Transitions.v ===== *)
(** trace/_transitions.py: the task and run state machines, over the state names the code uses. *)
From S2P Require Import Prelude Types.

Definition TASK_TRANSITIONS : list (string * list string) :=
  [ ("created", ["prechecking"]);
    ("prechecking", ["active"; "precheck_failed"]);
    ("active", ["postchecking"; "suspended"; "completed"]);
    ("postchecking", ["completed"; "postcheck_failed"]);
    ("postcheck_failed", ["active"; "escalated"]);
    ("suspended", ["active"]) ]%string.

Definition TASK_TERMINAL_STATES : list string :=
  ["completed"; "cancelled"; "escalated"; "precheck_failed"]%string.

Definition RUN_TRANSITIONS : list (string * list string) :=
  [ ("created", ["running"]);
    ("running", ["paused"; "completed"; "failed"; "aborted"]);
    ("paused", ["running"; "aborted"]) ]%string.

Definition RUN_TERMINAL_STATES : list string := ["completed"; "failed"; "aborted"]%string.

(** [validate_task_transition(old, new)]: [None] when it returns, the exception when it raises. *)
Definition validate_task_transition (old new : string) : option exn :=
  if decide (new = "cancelled"%string) then None
  else if decide (old ∈ TASK_TERMINAL_STATES) then Some (InvalidTransitionError old new)
  else match assoc old TASK_TRANSITIONS with
       | None => Some (InvalidTransitionError old new)
       | Some allowed =>
           if decide (new ∈ allowed) then None else Some (InvalidTransitionError old new)
       end.

Definition validate_run_transition (old new : string) : option exn :=
  if decide (old ∈ RUN_TERMINAL_STATES) then Some (InvalidTransitionError old new)
  else match assoc old RUN_TRANSITIONS with
       | None => Some (InvalidTransitionError old new)
       | Some allowed =>
           if decide (new ∈ allowed) then None else Some (InvalidTransitionError old new)
       end.

(** ** The machines as relations *)

Definition task_step (old new : string) : Prop := validate_task_transition old new = None.
Definition run_step (old new : string) : Prop := validate_run_transition old new = None.

Definition task_legal (old new : TaskState) : bool :=
  bool_decide (new = CANCELLED) ||
  match old, new with
  | CREATED, PRECHECKING
  | PRECHECKING, ACTIVE | PRECHECKING, PRECHECK_FAILED
  | ACTIVE, POSTCHECKING | ACTIVE, SUSPENDED | ACTIVE, COMPLETED
  | POSTCHECKING, COMPLETED | POSTCHECKING, POSTCHECK_FAILED
  | POSTCHECK_FAILED, ACTIVE | POSTCHECK_FAILED, ESCALATED
  | SUSPENDED, ACTIVE => true
  | _, _ => false
  end.

(** On the members of [TaskState] the string tables are the machine [task_legal]. *)
Lemma task_step_legal (old new : TaskState) :
  task_step (TaskState_value old) (TaskState_value new) <-> task_legal old new = true.
Proof. by destruct old, new; split; intros H; vm_compute in H |- *. Qed.

Lemma validate_task_raises old new e :
  validate_task_transition old new = Some e -> e = InvalidTransitionError old new.
Proof. unfold validate_task_transition. repeat case_match; naive_solver. Qed.

Lemma task_step_cancel old : task_step old "cancelled".
Proof. unfold task_step, validate_task_transition. by case_decide. Qed.

Lemma task_step_terminal old new :
  old ∈ TASK_TERMINAL_STATES -> task_step old new -> new = "cancelled"%string.
Proof. unfold task_step, validate_task_transition. intros H. by repeat case_decide. Qed.

Lemma run_step_terminal old new : old ∈ RUN_TERMINAL_STATES -> ~ run_step old new.
Proof. unfold run_step, validate_run_transition. intros H. by repeat case_decide. Qed.

Lemma elem_of_string_list (x : string) (l : list string) :
  x ∈ l <-> bool_decide (x ∈ l) = true.
Proof. by rewrite bool_decide_eq_true. Qed.
