(* ===== verification/Trace.v ===== *)
(** trace/_memory_backend.py, the write side: the state of [InMemoryBackend] and every method that
    changes it.

    Each dict of the class is a [dict] (insertion ordered), each list a list, each row dict a
    record whose fields are the row's keys.  A fresh [uuid6.uuid7()] and the clock readings
    [_now()] of a call are arguments of the definition that models the call. *)
From S2P Require Import Prelude PyDict Types Transitions.

(** A JSON column: a Python object, or the text [json.dumps] made of it. *)
Inductive jcol :=
| JObj (v : value)
| JText (v : value).

Definition jcol_loads (c : jcol) : value := match c with JObj v | JText v => v end.

Record task_row := {
  t_id : uuid; t_run_id : uuid; t_parent_task_id : option uuid; t_name : string;
  t_task_type : string; t_config : jcol; t_status : string; t_created_at : time
}.
#[export] Instance eta_task_row : Eta task_row := fun r => {|
  t_id := t_id r; t_run_id := t_run_id r; t_parent_task_id := t_parent_task_id r;
  t_name := t_name r; t_task_type := t_task_type r; t_config := t_config r;
  t_status := t_status r; t_created_at := t_created_at r |}.

Record attempt_row := {
  ta_id : uuid; ta_task_id : uuid; ta_attempt : Z; ta_status : string;
  ta_agent_output : option string; ta_structured_output : option value;
  ta_check_result : option value; ta_check_verdict : option string; ta_session_id : option uuid;
  ta_input_tokens : Z; ta_output_tokens : Z; ta_reasoning_tokens : Z;
  ta_cache_read_tokens : Z; ta_cache_write_tokens : Z; ta_cost_usd : decimal;
  ta_duration_seconds : option time
}.

Record iteration_row := {
  it_id : uuid; it_task_id : uuid; it_index : Z; it_item_value : jcol; it_status : string;
  it_output : option string; it_structured_output : option value;
  it_check_results : option (list value); it_started_at : time; it_finished_at : option time
}.
#[export] Instance eta_iteration_row : Eta iteration_row := fun r => {|
  it_id := it_id r; it_task_id := it_task_id r; it_index := it_index r;
  it_item_value := it_item_value r; it_status := it_status r; it_output := it_output r;
  it_structured_output := it_structured_output r; it_check_results := it_check_results r;
  it_started_at := it_started_at r; it_finished_at := it_finished_at r |}.

(** [ev_idempotency_key] is [None] both for a [None] value and for the rows that lack the key. *)
Record event_row := {
  ev_id : uuid; ev_run_id : option uuid; ev_task_id : option uuid; ev_principal_id : uuid;
  ev_type : string; ev_data : value; ev_idempotency_key : option string; ev_created_at : time
}.

Record transcript_row := {
  tx_id : uuid; tx_session_id : uuid; tx_run_id : uuid; tx_turn : Z; tx_role : string;
  tx_content : string; tx_tool_calls : option value; tx_tokens : option value;
  tx_created_at : time
}.

Record run_row := {
  r_id : uuid; r_intent : string; r_config_snapshot : jcol; r_autonomy_level : string;
  r_created_by : uuid; r_status : string; r_created_at : time; r_finished_at : option time;
  r_coherence_summary : option string; r_total_input_tokens : Z; r_total_output_tokens : Z;
  r_total_reasoning_tokens : Z; r_total_cache_read_tokens : Z; r_total_cache_write_tokens : Z;
  r_total_cost_usd : decimal
}.
#[export] Instance eta_run_row : Eta run_row := fun r => {|
  r_id := r_id r; r_intent := r_intent r; r_config_snapshot := r_config_snapshot r;
  r_autonomy_level := r_autonomy_level r; r_created_by := r_created_by r;
  r_status := r_status r; r_created_at := r_created_at r; r_finished_at := r_finished_at r;
  r_coherence_summary := r_coherence_summary r;
  r_total_input_tokens := r_total_input_tokens r;
  r_total_output_tokens := r_total_output_tokens r;
  r_total_reasoning_tokens := r_total_reasoning_tokens r;
  r_total_cache_read_tokens := r_total_cache_read_tokens r;
  r_total_cache_write_tokens := r_total_cache_write_tokens r;
  r_total_cost_usd := r_total_cost_usd r |}.

Record decision_row := {
  d_id : uuid; d_run_id : uuid; d_decision_type : string; d_choice : string;
  d_rationale : option string; d_created_at : time
}.
Record constraint_row := {
  c_id : uuid; c_run_id : uuid; c_text : string; c_tier : string; c_kind : string;
  c_args : option value; c_active : bool; c_created_at : time
}.
Record assumption_row := {
  a_id : uuid; a_run_id : uuid; a_text : string; a_scope : string; a_status : string;
  a_inbox_item_id : option uuid; a_created_at : time
}.
Record lesson_row := {
  l_id : uuid; l_run_id : uuid; l_text : string; l_relevance_tags : list string;
  l_permanent : bool; l_source_files : option (list string); l_source_file : option string;
  l_created_at : time
}.
Record context_diff_row := {
  cd_id : uuid; cd_attempt_id : uuid; cd_pre_refinement : string; cd_refinement_diff : string
}.
Record workflow_status_row := {
  w_workflow_id : uuid; w_current_step : string; w_health : string; w_updated_at : time
}.

Record inbox_row := {
  i_id : uuid; i_run_id : uuid; i_status : string; i_decision_type : string;
  i_question : string; i_options : list value; i_assumed_option : option string;
  i_work_proceeding : option string; i_contradiction_impact : option string;
  i_tags : list string; i_deadline : option time; i_answer : option string;
  i_answer_event : option string; i_rejection_reason : option string;
  i_answered_at : option time; i_resolved_by : option uuid; i_created_at : time
}.
#[export] Instance eta_inbox_row : Eta inbox_row := fun r => {|
  i_id := i_id r; i_run_id := i_run_id r; i_status := i_status r;
  i_decision_type := i_decision_type r; i_question := i_question r; i_options := i_options r;
  i_assumed_option := i_assumed_option r; i_work_proceeding := i_work_proceeding r;
  i_contradiction_impact := i_contradiction_impact r; i_tags := i_tags r;
  i_deadline := i_deadline r; i_answer := i_answer r; i_answer_event := i_answer_event r;
  i_rejection_reason := i_rejection_reason r; i_answered_at := i_answered_at r;
  i_resolved_by := i_resolved_by r; i_created_at := i_created_at r |}.

Record notepad_row := {
  n_id : uuid; n_run_id : uuid; n_task_name : string; n_agent_name : string;
  n_entry_type : string; n_text : string; n_created_at : time
}.

(** A run-control callback, named by the object it is a method of. *)
Abbreviation callback := uuid.

(** ** The object's state *)

Record backend := {
  _runs : dict uuid run_row;
  _tasks : dict uuid task_row;
  _task_attempts : dict uuid attempt_row;
  _events : list event_row;
  _transcripts : list transcript_row;
  _notepad_entries : list notepad_row;
  _inbox_items : dict uuid inbox_row;
  _decisions : list decision_row;
  _constraints : list constraint_row;
  _assumptions : list assumption_row;
  _lessons : list lesson_row;
  _context_diffs : list context_diff_row;
  _workflow_status : dict uuid workflow_status_row;
  _iterations : dict uuid iteration_row;
  _run_locks : dict uuid bool;
  _heartbeats : dict uuid time;
  _control_callbacks : dict uuid callback;
  _knowledge_hashes : dict uuid (dict string string);
  _idempotency_index : dict string uuid
}.
#[export] Instance eta_backend : Eta backend := fun b => {|
  _runs := _runs b; _tasks := _tasks b; _task_attempts := _task_attempts b;
  _events := _events b; _transcripts := _transcripts b; _notepad_entries := _notepad_entries b;
  _inbox_items := _inbox_items b; _decisions := _decisions b; _constraints := _constraints b;
  _assumptions := _assumptions b; _lessons := _lessons b; _context_diffs := _context_diffs b;
  _workflow_status := _workflow_status b; _iterations := _iterations b;
  _run_locks := _run_locks b; _heartbeats := _heartbeats b;
  _control_callbacks := _control_callbacks b; _knowledge_hashes := _knowledge_hashes b;
  _idempotency_index := _idempotency_index b |}.

Definition _INMEMORY_SYSTEM_PRINCIPAL_ID : uuid := 0x11111111111111111111111111111111.

(** [InMemoryBackend()] *)
Definition backend_init : backend := {|
  _runs := ∅; _tasks := ∅; _task_attempts := ∅; _events := []; _transcripts := [];
  _notepad_entries := []; _inbox_items := ∅; _decisions := []; _constraints := [];
  _assumptions := []; _lessons := []; _context_diffs := []; _workflow_status := ∅;
  _iterations := ∅; _run_locks := ∅; _heartbeats := ∅; _control_callbacks := ∅;
  _knowledge_hashes := ∅; _idempotency_index := ∅ |}.

(** A row of the event log as the backend's own methods write it (no idempotency key). *)
Definition mk_event (id : uuid) (run_id task_id : option uuid) (principal_id : uuid)
    (event_type : string) (data : value) (now : time) : event_row := {|
  ev_id := id; ev_run_id := run_id; ev_task_id := task_id; ev_principal_id := principal_id;
  ev_type := event_type; ev_data := data; ev_idempotency_key := None; ev_created_at := now |}.

Definition vopt_str (o : option string) : value :=
  match o with Some s => VStr s | None => VNone end.

(** ** TaskStorage *)

Definition create_task (task_id : uuid) (now : time) (run_id : uuid)
    (parent_task_id : option uuid) (name task_type : string) (config : option value) :
    M backend uuid :=
  mmod (fun b => b .[_tasks ::= <[task_id := {|
    t_id := task_id; t_run_id := run_id; t_parent_task_id := parent_task_id; t_name := name;
    t_task_type := task_type; t_config := JText (default (VDict []) config);
    t_status := "created"; t_created_at := now |}]>]) ;;
  mret task_id.

Definition task_transition_data (task_id : uuid) (old_status new_status : string)
    (reason : option string) : value :=
  VDict [ ("task_id", VUuidStr task_id); ("old_status", VStr old_status);
          ("new_status", VStr new_status); ("reason", vopt_str reason) ]%string.

Definition transition_task (event_id : uuid) (now : time) (task_id : uuid) (new_status : string)
    (reason : option string) (principal_id : uuid) : M backend unit :=
  b ← mget;
  match _tasks b !! task_id with
  | None => mthrow (ValueError "task not found")
  | Some task =>
      let old_status := t_status task in
      match validate_task_transition old_status new_status with
      | Some e => mthrow e
      | None =>
          mmod (fun b => b .[_tasks ::= <[task_id := task .[t_status := new_status]]>]) ;;
          mmod (fun b => b .[_events ::= fun evs => evs ++
            [mk_event event_id (Some (t_run_id task)) (Some task_id) principal_id
               "task_transition" (task_transition_data task_id old_status new_status reason) now]])
      end
  end.

Definition create_task_attempt (attempt_id : uuid) (task_id : uuid) (attempt : Z) :
    M backend uuid :=
  mmod (fun b => b .[_task_attempts ::= <[attempt_id := {|
    ta_id := attempt_id; ta_task_id := task_id; ta_attempt := attempt; ta_status := "running";
    ta_agent_output := None; ta_structured_output := None; ta_check_result := None;
    ta_check_verdict := None; ta_session_id := None; ta_input_tokens := 0; ta_output_tokens := 0;
    ta_reasoning_tokens := 0; ta_cache_read_tokens := 0; ta_cache_write_tokens := 0;
    ta_cost_usd := decimal_Z 0; ta_duration_seconds := None |}]>]) ;;
  mret attempt_id.

Record token_counts := {
  k_input : Z; k_output : Z; k_reasoning : Z; k_cache_read : Z; k_cache_write : Z
}.

Definition complete_task_attempt (attempt_id : uuid) (agent_output : string)
    (structured_output check_result : option value) (check_verdict : option string)
    (session_id : option uuid) (k : token_counts) (cost_usd : decimal) (duration_seconds : time) :
    M backend unit :=
  b ← mget;
  match _task_attempts b !! attempt_id with
  | None => mthrow (KeyError "attempt_id")
  | Some att => mmod (fun b => b .[_task_attempts ::= <[attempt_id := {|
      ta_id := ta_id att; ta_task_id := ta_task_id att; ta_attempt := ta_attempt att;
      ta_status := "completed"; ta_agent_output := Some agent_output;
      ta_structured_output := structured_output; ta_check_result := check_result;
      ta_check_verdict := check_verdict; ta_session_id := session_id;
      ta_input_tokens := k_input k; ta_output_tokens := k_output k;
      ta_reasoning_tokens := k_reasoning k; ta_cache_read_tokens := k_cache_read k;
      ta_cache_write_tokens := k_cache_write k; ta_cost_usd := cost_usd;
      ta_duration_seconds := Some duration_seconds |}]>])
  end.

Definition fail_task_attempt (attempt_id : uuid) (error : string) (session_id : option uuid)
    (k : token_counts) (cost_usd : decimal) (duration_seconds : time) : M backend unit :=
  b ← mget;
  match _task_attempts b !! attempt_id with
  | None => mthrow (KeyError "attempt_id")
  | Some att => mmod (fun b => b .[_task_attempts ::= <[attempt_id := {|
      ta_id := ta_id att; ta_task_id := ta_task_id att; ta_attempt := ta_attempt att;
      ta_status := "failed"; ta_agent_output := Some error;
      ta_structured_output := ta_structured_output att; ta_check_result := ta_check_result att;
      ta_check_verdict := ta_check_verdict att; ta_session_id := session_id;
      ta_input_tokens := k_input k; ta_output_tokens := k_output k;
      ta_reasoning_tokens := k_reasoning k; ta_cache_read_tokens := k_cache_read k;
      ta_cache_write_tokens := k_cache_write k; ta_cost_usd := cost_usd;
      ta_duration_seconds := Some duration_seconds |}]>])
  end.

Definition create_iteration (iteration_id : uuid) (now : time) (task_id : uuid) (index : Z)
    (item_value : value) : M backend uuid :=
  mmod (fun b => b .[_iterations ::= <[iteration_id := {|
    it_id := iteration_id; it_task_id := task_id; it_index := index;
    it_item_value := JText item_value; it_status := "running"; it_output := None;
    it_structured_output := None; it_check_results := None; it_started_at := now;
    it_finished_at := None |}]>]) ;;
  mret iteration_id.

Definition complete_iteration (now : time) (iteration_id : uuid) (output : option string)
    (structured_output : option value) (check_results : option (list value)) : M backend unit :=
  b ← mget;
  match _iterations b !! iteration_id with
  | None => mthrow (KeyError "iteration_id")
  | Some it => mmod (fun b => b .[_iterations ::= <[iteration_id :=
      it .[it_status := "completed"%string] .[it_output := output]
         .[it_structured_output := structured_output] .[it_check_results := check_results]
         .[it_finished_at := Some now]]>])
  end.

Definition fail_iteration (now : time) (iteration_id : uuid) (error : string) : M backend unit :=
  b ← mget;
  match _iterations b !! iteration_id with
  | None => mthrow (KeyError "iteration_id")
  | Some it => mmod (fun b => b .[_iterations ::= <[iteration_id :=
      it .[it_status := "failed"%string] .[it_output := Some error]
         .[it_finished_at := Some now]]>])
  end.

(** ** EventStorage *)

Definition write_event (event_id : uuid) (now : time) (run_id : option uuid)
    (event_type : string) (data : value) (task_id : option uuid) (principal_id : uuid)
    (idempotency_key : option string) : M backend (uuid * bool) :=
  b ← mget;
  match (key ← idempotency_key; _idempotency_index b !! key) with
  | Some existing => mret (existing, false)
  | None =>
      mmod (fun b => b .[_events ::= fun evs => evs ++ [{|
        ev_id := event_id; ev_run_id := run_id; ev_task_id := task_id;
        ev_principal_id := principal_id; ev_type := event_type; ev_data := data;
        ev_idempotency_key := idempotency_key; ev_created_at := now |}]]) ;;
      match idempotency_key with
      | Some key => mmod (fun b => b .[_idempotency_index ::= <[key := event_id]>])
      | None => mret tt
      end ;;
      mret (event_id, true)
  end.

Definition write_transcript_entry (id : uuid) (now : time) (session_id run_id : uuid) (turn : Z)
    (role content : string) (tool_calls tokens : option value) : M backend unit :=
  mmod (fun b => b .[_transcripts ::= fun l => l ++ [{|
    tx_id := id; tx_session_id := session_id; tx_run_id := run_id; tx_turn := turn;
    tx_role := role; tx_content := content; tx_tool_calls := tool_calls; tx_tokens := tokens;
    tx_created_at := now |}]]).

(** ** RunStorage *)

Definition create_run (now : time) (intent : string) (config : value) (autonomy_level : string)
    (run_id created_by : uuid) : M backend uuid :=
  b ← mget;
  match _runs b !! run_id with
  | Some _ => mthrow (ValueError "run already exists")
  | None =>
      mmod (fun b => b .[_runs ::= <[run_id := {|
        r_id := run_id; r_intent := intent; r_config_snapshot := JObj config;
        r_autonomy_level := autonomy_level; r_created_by := created_by; r_status := "created";
        r_created_at := now; r_finished_at := None; r_coherence_summary := None;
        r_total_input_tokens := 0; r_total_output_tokens := 0; r_total_reasoning_tokens := 0;
        r_total_cache_read_tokens := 0; r_total_cache_write_tokens := 0;
        r_total_cost_usd := decimal_Z 0 |}]>]) ;;
      mret run_id
  end.

Definition run_transition_data (old_status new_status : string) (reason : option string) : value :=
  VDict [ ("old_status", VStr old_status); ("new_status", VStr new_status);
          ("reason", vopt_str reason) ]%string.

(** [transition_run] up to its last statement; returns the control callback that statement awaits,
    if there is one. *)
Definition transition_run_row (event_id : uuid) (now now' : time) (run_id : uuid)
    (new_status : string) (reason : option string) (principal_id : uuid) :
    M backend (option callback) :=
  b ← mget;
  match _runs b !! run_id with
  | None => mthrow (ValueError "run not found")
  | Some run =>
      let old_status := r_status run in
      match validate_run_transition old_status new_status with
      | Some e => mthrow e
      | None =>
          mmod (fun b => b .[_runs ::= <[run_id :=
            let run' := run .[r_status := new_status] in
            if decide (new_status ∈ ["completed"; "failed"; "aborted"]%string)
            then run' .[r_finished_at := Some now] else run']>]) ;;
          mmod (fun b => b .[_events ::= fun evs => evs ++
            [mk_event event_id (Some run_id) None principal_id "run_transition"
               (run_transition_data old_status new_status reason) now']]) ;;
          b' ← mget;
          mret (_control_callbacks b' !! run_id)
      end
  end.

Section with_callbacks.
(** [call cb run_id status] runs the registered callback [cb]: code outside the backend, on a
    state [W] the backend is part of. *)
Context {W : Type} (get_b : W -> backend) (put_b : backend -> W -> W).
Context (call : callback -> uuid -> string -> M W unit).

Definition transition_run (event_id : uuid) (now now' : time) (run_id : uuid)
    (new_status : string) (reason : option string) (principal_id : uuid) : M W unit :=
  cb ← zoom get_b put_b
         (transition_run_row event_id now now' run_id new_status reason principal_id);
  match cb with
  | Some cb => call cb run_id new_status
  | None => mret tt
  end.

(** ** RunControlStorage *)

Definition subscribe_run_control (run_id : uuid) (cb : callback) : M W unit :=
  zoom get_b put_b (mmod (fun b => b .[_control_callbacks ::= <[run_id := cb]>])) ;;
  b ← zoom get_b put_b mget;
  match _runs b !! run_id with
  | Some run =>
      if decide (r_status run ∈ ["paused"; "aborted"]%string)
      then call cb run_id (r_status run) else mret tt
  | None => mret tt
  end.
End with_callbacks.

Definition unsubscribe_run_control (run_id : uuid) : M backend unit :=
  mmod (fun b => b .[_control_callbacks ::= delete run_id]).

Definition write_coherence_summary (run_id : uuid) (summary : string) : M backend unit :=
  b ← mget;
  match _runs b !! run_id with
  | Some run =>
      mmod (fun b => b .[_runs ::= <[run_id := run .[r_coherence_summary := Some summary]]>])
  | None => mret tt
  end.

(** ** OverseerStorage *)

Definition write_decision (decision_id : uuid) (now : time) (run_id : uuid)
    (decision_type choice : string) (rationale : option string) : M backend uuid :=
  mmod (fun b => b .[_decisions ::= fun l => l ++ [{|
    d_id := decision_id; d_run_id := run_id; d_decision_type := decision_type;
    d_choice := choice; d_rationale := rationale; d_created_at := now |}]]) ;;
  mret decision_id.

Definition write_constraint (constraint_id : uuid) (now : time) (run_id : uuid)
    (text tier kind : string) (args : option value) : M backend uuid :=
  mmod (fun b => b .[_constraints ::= fun l => l ++ [{|
    c_id := constraint_id; c_run_id := run_id; c_text := text; c_tier := tier; c_kind := kind;
    c_args := args; c_active := true; c_created_at := now |}]]) ;;
  mret constraint_id.

Definition write_assumption (assumption_id : uuid) (now : time) (run_id : uuid)
    (text scope : string) (inbox_item_id : option uuid) : M backend uuid :=
  mmod (fun b => b .[_assumptions ::= fun l => l ++ [{|
    a_id := assumption_id; a_run_id := run_id; a_text := text; a_scope := scope;
    a_status := "active"; a_inbox_item_id := inbox_item_id; a_created_at := now |}]]) ;;
  mret assumption_id.

Definition write_lesson (lesson_id : uuid) (now : time) (run_id : uuid) (text : string)
    (relevance_tags : list string) (permanent : bool) (source_files : option (list string)) :
    M backend uuid :=
  mmod (fun b => b .[_lessons ::= fun l => l ++ [{|
    l_id := lesson_id; l_run_id := run_id; l_text := text; l_relevance_tags := relevance_tags;
    l_permanent := permanent; l_source_files := source_files;
    l_source_file := source_files ≫= head; l_created_at := now |}]]) ;;
  mret lesson_id.

Definition update_workflow_status (now : time) (workflow_id : uuid)
    (current_step health : string) : M backend unit :=
  mmod (fun b => b .[_workflow_status ::= <[workflow_id := {|
    w_workflow_id := workflow_id; w_current_step := current_step; w_health := health;
    w_updated_at := now |}]>]).

Definition write_context_diff (id : uuid) (attempt_id : uuid)
    (pre_refinement refinement_diff : string) : M backend unit :=
  mmod (fun b => b .[_context_diffs ::= fun l => l ++ [{|
    cd_id := id; cd_attempt_id := attempt_id; cd_pre_refinement := pre_refinement;
    cd_refinement_diff := refinement_diff |}]]).

(** ** InboxStorage *)

Definition create_inbox_item (item_id : uuid) (now : time) (run_id : uuid)
    (decision_type question : string) (options : list value)
    (assumed_option work_proceeding contradiction_impact : option string)
    (tags : option (list string)) (deadline : option time) (answer_event : option string) :
    M backend uuid :=
  mmod (fun b => b .[_inbox_items ::= <[item_id := {|
    i_id := item_id; i_run_id := run_id; i_status := "pending";
    i_decision_type := decision_type; i_question := question; i_options := options;
    i_assumed_option := assumed_option; i_work_proceeding := work_proceeding;
    i_contradiction_impact := contradiction_impact; i_tags := default [] tags;
    i_deadline := deadline; i_answer := None; i_answer_event := answer_event;
    i_rejection_reason := None; i_answered_at := None; i_resolved_by := None;
    i_created_at := now |}]>]) ;;
  mret item_id.

(** The guard the four resolving methods share: the item must exist and be pending. *)
Definition pending_item (item_id : uuid) (new_status : string) : M backend inbox_row :=
  b ← mget;
  match _inbox_items b !! item_id with
  | Some item =>
      if decide (i_status item = "pending"%string) then mret item
      else mthrow (InvalidTransitionError (i_status item) new_status)
  | None => mthrow (InvalidTransitionError "None" new_status)
  end.

Definition answer_inbox_item (now : time) (item_id : uuid) (answer : string)
    (resolved_by : uuid) : M backend unit :=
  item ← pending_item item_id "answered";
  mmod (fun b => b .[_inbox_items ::= <[item_id :=
    item .[i_status := "answered"%string] .[i_answer := Some answer]
         .[i_answered_at := Some now] .[i_resolved_by := Some resolved_by]]>]).

Definition skip_inbox_item (item_id : uuid) (resolved_by : uuid) : M backend unit :=
  item ← pending_item item_id "skipped";
  mmod (fun b => b .[_inbox_items ::= <[item_id :=
    item .[i_status := "skipped"%string] .[i_resolved_by := Some resolved_by]]>]).

Definition reject_inbox_item (item_id : uuid) (reason : string) (resolved_by : uuid) :
    M backend unit :=
  item ← pending_item item_id "rejected";
  mmod (fun b => b .[_inbox_items ::= <[item_id :=
    item .[i_status := "rejected"%string] .[i_rejection_reason := Some reason]
         .[i_resolved_by := Some resolved_by]]>]).

Definition expire_inbox_item (item_id : uuid) (resolved_by : uuid) : M backend unit :=
  item ← pending_item item_id "expired";
  mmod (fun b => b .[_inbox_items ::= <[item_id :=
    item .[i_status := "expired"%string] .[i_resolved_by := Some resolved_by]]>]).

(** The test of [expire_due_inbox_items]: pending, with a deadline before [now]. *)
Definition inbox_due (now : time) (item : inbox_row) : bool :=
  bool_decide (i_status item = "pending"%string) &&
  match i_deadline item with Some dl => (dl <? now)%Z | None => false end.

Definition expire_due_inbox_items (now : time) : M backend Z :=
  b ← mget;
  let count := Z.of_nat (length (filter (inbox_due now) (dvalues (_inbox_items b)))) in
  mmod (fun b => b .[_inbox_items ::= dmap (fun item =>
    if inbox_due now item
    then item .[i_status := "expired"%string]
              .[i_resolved_by := Some _INMEMORY_SYSTEM_PRINCIPAL_ID]
    else item)]) ;;
  mret count.

(** ** NotepadStorage *)

Definition write_notepad_entry (id : uuid) (now : time) (run_id : uuid)
    (task_name agent_name entry_type text : string) : M backend unit :=
  mmod (fun b => b .[_notepad_entries ::= fun l => l ++ [{|
    n_id := id; n_run_id := run_id; n_task_name := task_name; n_agent_name := agent_name;
    n_entry_type := entry_type; n_text := text; n_created_at := now |}]]).

(** ** StorageLock *)

Definition run_locked (b : backend) (run_id : uuid) : bool := default false (_run_locks b !! run_id).

Definition acquire_run_lock (run_id : uuid) : M backend unit :=
  b ← mget;
  if run_locked b run_id then mthrow (RunLockError run_id)
  else mmod (fun b => b .[_run_locks ::= <[run_id := true]>]).

Definition release_run_lock (run_id : uuid) : M backend unit :=
  mmod (fun b => b .[_run_locks ::= delete run_id]).

(** [now] is [time.monotonic()]. *)
Definition update_heartbeat (now : time) (run_id : uuid) : M backend unit :=
  mmod (fun b => b .[_heartbeats ::= <[run_id := now]>]).

Definition is_lock_stale (now : time) (run_id : uuid) (threshold_seconds : time) :
    M backend bool :=
  b ← mget;
  match _heartbeats b !! run_id with
  | None => mret true
  | Some last => mret (threshold_seconds <? now - last)%Z
  end.

(** ** RecoveryOperations

    The loops over a snapshot of the rows are recursions over the list of keys and rows; each event
    they append takes the next of the fresh ids [ids]. *)

Definition recovery_data (action : string) : value := VDict [("action", VStr action)]%string.

Definition task_interrupted (task : task_row) : bool :=
  bool_decide (t_status task ∈ ["active"; "prechecking"; "postchecking"]%string).

Fixpoint reclaim_loop (ids : list uuid) (now : time) (rows : list (uuid * task_row))
    (reclaimed : Z) : M backend Z :=
  match rows with
  | [] => mret reclaimed
  | (key, task) :: rows' =>
      if task_interrupted task then
        mmod (fun b => b .[_tasks ::= <[key := task .[t_status := "cancelled"%string]]>]) ;;
        mmod (fun b => b .[_events ::= fun evs => evs ++
          [mk_event (default 0%Z (head ids)) (Some (t_run_id task)) (Some (t_id task))
             _INMEMORY_SYSTEM_PRINCIPAL_ID "crash_recovery"
             (recovery_data "reclaim_interrupted") now]]) ;;
        reclaim_loop (tail ids) now rows' (reclaimed + 1)%Z
      else reclaim_loop ids now rows' reclaimed
  end.

Definition reclaim_interrupted (ids : list uuid) (now : time) : M backend Z :=
  b ← mget;
  reclaim_loop ids now (ditems (_tasks b)) 0.

(** The tasks [reevaluate_blocked] returns: created, with no parent or a completed one. *)
Definition task_unblocked (b : backend) (task : task_row) : bool :=
  bool_decide (t_status task = "created"%string) &&
  match t_parent_task_id task with
  | None => true
  | Some parent_id =>
      match _tasks b !! parent_id with
      | Some parent => bool_decide (t_status parent = "completed"%string)
      | None => false
      end
  end.

Definition reevaluate_blocked : M backend (list uuid) :=
  mgets (fun b => t_id <$> filter (task_unblocked b) (dvalues (_tasks b))).

Definition run_orphaned (b : backend) (run : run_row) : bool :=
  bool_decide (r_status run ∈ ["running"; "paused"]%string) && negb (run_locked b (r_id run)).

Fixpoint clean_loop (ids : list uuid) (now now' : time) (rows : list (uuid * run_row))
    (cleaned : Z) : M backend Z :=
  match rows with
  | [] => mret cleaned
  | (key, run) :: rows' =>
      b ← mget;
      if run_orphaned b run then
        mmod (fun b => b .[_runs ::= <[key :=
          run .[r_status := "failed"%string] .[r_finished_at := Some now]]>]) ;;
        mmod (fun b => b .[_events ::= fun evs => evs ++
          [mk_event (default 0%Z (head ids)) (Some (r_id run)) None _INMEMORY_SYSTEM_PRINCIPAL_ID
             "crash_recovery" (recovery_data "clean_orphaned") now']]) ;;
        clean_loop (tail ids) now now' rows' (cleaned + 1)%Z
      else clean_loop ids now now' rows' cleaned
  end.

Definition clean_orphaned (ids : list uuid) (now now' : time) : M backend Z :=
  b ← mget;
  clean_loop ids now now' (ditems (_runs b)) 0.

(** ** KnowledgeHashStorage *)

Definition write_knowledge_hash (run_id : uuid) (path file_hash : string) : M backend unit :=
  mmod (fun b => b .[_knowledge_hashes ::= fun h =>
    <[run_id := <[path := file_hash]> (default ∅ (h !! run_id))]> h]).

Definition read_knowledge_hashes (b : backend) (run_id : uuid) : dict string string :=
  default ∅ (_knowledge_hashes b !! run_id).
