(* ===== verification/TraceReader.v ===== *)
(** trace/_memory_backend.py, the read side: the queries of [InMemoryBackend], as functions of its
    state.  [model_validate] of a row is the row itself: the rows of [Trace] are already typed. *)
From S2P Require Import Prelude PyDict Types Transitions Trace.

Record TaskSummary := {
  sm_id : uuid; sm_name : string; sm_status : string; sm_task_type : string;
  sm_parent_task_id : option uuid; sm_attempt_count : Z
}.

Record RunSummary := {
  rs_id : uuid; rs_intent : string; rs_status : string; rs_created_at : time;
  rs_finished_at : option time; rs_created_by : uuid
}.

Record RunReport := {
  rr_run : run_row; rr_config_snapshot : value; rr_tasks : list TaskSummary;
  rr_decisions : list decision_row; rr_constraints : list constraint_row;
  rr_assumptions : list assumption_row
}.

Record NotepadEntry := {
  ne_run_id : uuid; ne_task_name : string; ne_agent_name : string; ne_entry_type : string;
  ne_text : string; ne_created_at : time
}.

Record TranscriptEntry := {
  te_turn : Z; te_role : string; te_content : string; te_tool_calls : option value;
  te_tokens : option value; te_created_at : time
}.

Record DecisionView := {
  dv_id : uuid; dv_decision_type : string; dv_choice : string; dv_rationale : option string;
  dv_created_at : time
}.

Record ConstraintView := {
  cw_id : uuid; cw_text : string; cw_tier : string; cw_active : bool; cw_created_at : time
}.

Record AssumptionView := {
  av_id : uuid; av_text : string; av_status : string; av_scope : string;
  av_inbox_item_id : option uuid; av_created_at : time
}.

Record LessonView := {
  lv_id : uuid; lv_text : string; lv_relevance_tags : list string; lv_permanent : bool;
  lv_source_file : option string; lv_created_at : time
}.

Definition lesson_view (l : lesson_row) : LessonView := {|
  lv_id := l_id l; lv_text := l_text l; lv_relevance_tags := l_relevance_tags l;
  lv_permanent := l_permanent l; lv_source_file := l_source_file l;
  lv_created_at := l_created_at l |}.

Section reader.
Variable b : backend.

Definition attempts_of (task_id : uuid) : list attempt_row :=
  filter (fun a => ta_task_id a = task_id) (dvalues (_task_attempts b)).

Definition list_tasks (run_id : uuid) : list TaskSummary :=
  (fun task => {|
     sm_id := t_id task; sm_name := t_name task; sm_status := t_status task;
     sm_task_type := t_task_type task; sm_parent_task_id := t_parent_task_id task;
     sm_attempt_count := Z.of_nat (length (attempts_of (t_id task))) |}) <$>
  filter (fun task => t_run_id task = run_id) (dvalues (_tasks b)).

Definition read_task_attempt (task_id : uuid) (attempt : Z) : option attempt_row :=
  head (filter (fun a => ta_task_id a = task_id /\ ta_attempt a = attempt)
          (dvalues (_task_attempts b))).

(** [max(rows, key=...)]: the first row with the largest key. *)
Fixpoint max_attempt (best : attempt_row) (l : list attempt_row) : attempt_row :=
  match l with
  | [] => best
  | a :: l' => max_attempt (if decide (ta_attempt best < ta_attempt a)%Z then a else best) l'
  end.

Definition read_latest_attempt (task_id : uuid) : option attempt_row :=
  match attempts_of task_id with
  | [] => None
  | a :: l => Some (max_attempt a l)
  end.

Definition list_iterations (task_id : uuid) : list iteration_row :=
  sort_by it_index (filter (fun it => it_task_id it = task_id) (dvalues (_iterations b))).

Definition transcript_entry (t : transcript_row) : TranscriptEntry := {|
  te_turn := tx_turn t; te_role := tx_role t; te_content := tx_content t;
  te_tool_calls := tx_tool_calls t; te_tokens := tx_tokens t;
  te_created_at := tx_created_at t |}.

Definition read_transcript (session_id : uuid) : list TranscriptEntry :=
  transcript_entry <$> filter (fun t => tx_session_id t = session_id) (_transcripts b).

Definition search_transcript (session_id : uuid) (query : string) : list TranscriptEntry :=
  let query_lower := str_lower query in
  transcript_entry <$>
    filter (fun t => bool_decide (tx_session_id t = session_id) &&
                     str_in query_lower (str_lower (tx_content t))) (_transcripts b).

Definition read_run_report (run_id : uuid) : option RunReport :=
  run ← _runs b !! run_id;
  Some {| rr_run := run;
          rr_config_snapshot := jcol_loads (r_config_snapshot run);
          rr_tasks := list_tasks run_id;
          rr_decisions := filter (fun d => d_run_id d = run_id) (_decisions b);
          rr_constraints := filter (fun c => c_run_id c = run_id) (_constraints b);
          rr_assumptions := filter (fun a => a_run_id a = run_id) (_assumptions b) |}.

Definition list_runs : list RunSummary :=
  (fun run => {|
     rs_id := r_id run; rs_intent := r_intent run; rs_status := r_status run;
     rs_created_at := r_created_at run; rs_finished_at := r_finished_at run;
     rs_created_by := r_created_by run |}) <$> reverse (dvalues (_runs b)).

Definition read_inbox (run_id : uuid) (status : option string) : list inbox_row :=
  sort_by i_created_at
    (filter (fun item => bool_decide (i_run_id item = run_id) &&
                         opt_ok (fun s => bool_decide (i_status item = s)) status)
       (dvalues (_inbox_items b))).

Definition read_notepad (run_id : uuid) : list NotepadEntry :=
  (fun e => {|
     ne_run_id := n_run_id e; ne_task_name := n_task_name e; ne_agent_name := n_agent_name e;
     ne_entry_type := n_entry_type e; ne_text := n_text e; ne_created_at := n_created_at e |}) <$>
  filter (fun e => n_run_id e = run_id) (_notepad_entries b).

Definition read_active_constraints (run_id : uuid) : list constraint_row :=
  filter (fun c => c_run_id c = run_id) (_constraints b).

Definition read_task_attempts (task_id : uuid) : list attempt_row :=
  sort_by ta_attempt (attempts_of task_id).

(** The loop of [query_events]: it tests the limit after it appends, so it returns at least one
    matching event whatever the limit. *)
Fixpoint query_loop (keep : event_row -> bool) (limit : Z) (evs results : list event_row) :
    list event_row :=
  match evs with
  | [] => results
  | ev :: evs' =>
      if keep ev then
        let results' := results ++ [ev] in
        if decide (limit <= Z.of_nat (length results'))%Z then results'
        else query_loop keep limit evs' results'
      else query_loop keep limit evs' results
  end.

Definition query_match (run_id : uuid) (event_type : option string) (since : option time)
    (ev : event_row) : bool :=
  bool_decide (ev_run_id ev = Some run_id) &&
  opt_ok (fun ty => bool_decide (ev_type ev = ty)) event_type &&
  opt_ok (fun s => negb (ev_created_at ev <? s)%Z) since.

Definition query_events (run_id : uuid) (event_type : option string) (since : option time)
    (limit : Z) : list event_row :=
  query_loop (query_match run_id event_type since) limit (_events b) [].

Definition read_inbox_item (item_id : uuid) : option inbox_row := _inbox_items b !! item_id.

Definition read_run_config (run_id : uuid) : option value :=
  run ← _runs b !! run_id;
  Some (jcol_loads (r_config_snapshot run)).

Definition read_session_token_counts (session_id : uuid) : list value :=
  omap tx_tokens (filter (fun t => tx_session_id t = session_id) (_transcripts b)).

Definition read_session_turn_count (session_id : uuid) : Z :=
  Z.of_nat (length (filter (fun t => tx_session_id t = session_id) (_transcripts b))).

(** [tag_set & set(lesson_tags)] is not empty. *)
Definition tags_meet (tags lesson_tags : list string) : bool :=
  existsb (fun t => bool_decide (t ∈ lesson_tags)) tags.

Definition query_relevant_lessons (tags : list string) : list LessonView :=
  lesson_view <$> filter (fun l => tags_meet tags (l_relevance_tags l)) (reverse (_lessons b)).

Definition read_decisions (run_id : uuid) (limit : Z) : list DecisionView :=
  (fun d => {|
     dv_id := d_id d; dv_decision_type := d_decision_type d; dv_choice := d_choice d;
     dv_rationale := d_rationale d; dv_created_at := d_created_at d |}) <$>
  py_take limit (reverse (filter (fun d => d_run_id d = run_id) (_decisions b))).

Definition read_constraints (run_id : uuid) (active_only : bool) : list ConstraintView :=
  (fun c => {|
     cw_id := c_id c; cw_text := c_text c; cw_tier := c_tier c; cw_active := c_active c;
     cw_created_at := c_created_at c |}) <$>
  filter (fun c => bool_decide (c_run_id c = run_id) && (negb active_only || c_active c))
    (reverse (_constraints b)).

Definition read_assumptions (run_id : uuid) (status : option string) : list AssumptionView :=
  (fun a => {|
     av_id := a_id a; av_text := a_text a; av_status := a_status a; av_scope := a_scope a;
     av_inbox_item_id := a_inbox_item_id a; av_created_at := a_created_at a |}) <$>
  filter (fun a => bool_decide (a_run_id a = run_id) &&
                   opt_ok (fun s => bool_decide (a_status a = s)) status)
    (reverse (_assumptions b)).

Definition query_lessons (run_id : option uuid) (tags : option (list string))
    (permanent_only : bool) : list LessonView :=
  lesson_view <$> filter (fun l =>
            opt_ok (fun r => bool_decide (l_run_id l = r)) run_id &&
            (negb permanent_only || l_permanent l) &&
            opt_ok (fun ts => tags_meet ts (l_relevance_tags l)) tags)
    (reverse (_lessons b)).

Definition read_workflow_status (workflow_id : uuid) : option workflow_status_row :=
  _workflow_status b !! workflow_id.

Definition replay_match (event_types : option (list string)) (principal_id : option uuid)
    (since_id : option uuid) (ev : event_row) : bool :=
  opt_ok (fun ts => bool_decide (ev_type ev ∈ ts)) event_types &&
  opt_ok (fun p => bool_decide (ev_principal_id ev = p)) principal_id &&
  opt_ok (fun s => negb (ev_id ev <=? s)%Z) since_id.

Definition replay (event_types : option (list string)) (principal_id since_id : option uuid)
    (limit : Z) : list event_row :=
  py_take limit
    (sort_by ev_id (filter (replay_match event_types principal_id since_id) (_events b))).
End reader.
