(* ===== verification/TraceSpec.v ===== *)
(** What the trace backend promises: the store as a transition system, the event log as the history
    of every task and run, resolved inbox items and finished runs as final, crash recovery as one
    idempotent sweep. *)
From S2P Require Import Prelude PyDict Types Transitions Trace TraceReader.

(** ** The store as a transition system

    One constructor per method that writes; the state after a method that raises is a step too.
    A created task has an id [uuid7] has not handed out before; a client's own events do not use
    the event types the store reserves for its log. *)

Definition reserved_event_types : list string :=
  ["task_transition"; "run_transition"; "crash_recovery"]%string.

Inductive step (b : backend) : backend -> Prop :=
| step_create_task id now run parent name ty config :
    _tasks b !! id = None ->
    step b (snd (create_task id now run parent name ty config b))
| step_transition_task ev now id status reason p :
    step b (snd (transition_task ev now id status reason p b))
| step_create_task_attempt id task n :
    step b (snd (create_task_attempt id task n b))
| step_complete_task_attempt id out so cr cv sid k cost dur :
    step b (snd (complete_task_attempt id out so cr cv sid k cost dur b))
| step_fail_task_attempt id err sid k cost dur :
    step b (snd (fail_task_attempt id err sid k cost dur b))
| step_create_iteration id now task index item :
    step b (snd (create_iteration id now task index item b))
| step_complete_iteration now id out so cr :
    step b (snd (complete_iteration now id out so cr b))
| step_fail_iteration now id err :
    step b (snd (fail_iteration now id err b))
| step_write_event id now run ty data task p key :
    ty ∉ reserved_event_types ->
    step b (snd (write_event id now run ty data task p key b))
| step_write_transcript_entry id now sid run turn role content tc tk :
    step b (snd (write_transcript_entry id now sid run turn role content tc tk b))
| step_create_run now intent config level run by_ :
    step b (snd (create_run now intent config level run by_ b))
| step_transition_run ev now now' run status reason p :
    step b (snd (transition_run_row ev now now' run status reason p b))
| step_write_coherence_summary run summary :
    step b (snd (write_coherence_summary run summary b))
| step_unsubscribe run :
    step b (snd (unsubscribe_run_control run b))
| step_subscribe run cb :
    step b (b .[_control_callbacks ::= <[run := cb]>])
| step_write_decision id now run ty choice rationale :
    step b (snd (write_decision id now run ty choice rationale b))
| step_write_constraint id now run text tier kind args :
    step b (snd (write_constraint id now run text tier kind args b))
| step_write_assumption id now run text scope item :
    step b (snd (write_assumption id now run text scope item b))
| step_write_lesson id now run text tags permanent files :
    step b (snd (write_lesson id now run text tags permanent files b))
| step_update_workflow_status now wf current health :
    step b (snd (update_workflow_status now wf current health b))
| step_write_context_diff id attempt pre diff :
    step b (snd (write_context_diff id attempt pre diff b))
| step_create_inbox_item id now run ty q opts ao wp ci tags deadline ae :
    _inbox_items b !! id = None ->
    step b (snd (create_inbox_item id now run ty q opts ao wp ci tags deadline ae b))
| step_answer_inbox_item now id answer by_ :
    step b (snd (answer_inbox_item now id answer by_ b))
| step_skip_inbox_item id by_ :
    step b (snd (skip_inbox_item id by_ b))
| step_reject_inbox_item id reason by_ :
    step b (snd (reject_inbox_item id reason by_ b))
| step_expire_inbox_item id by_ :
    step b (snd (expire_inbox_item id by_ b))
| step_expire_due now :
    step b (snd (expire_due_inbox_items now b))
| step_write_notepad_entry id now run task agent ty text :
    step b (snd (write_notepad_entry id now run task agent ty text b))
| step_acquire_run_lock run :
    step b (snd (acquire_run_lock run b))
| step_release_run_lock run :
    step b (snd (release_run_lock run b))
| step_update_heartbeat now run :
    step b (snd (update_heartbeat now run b))
| step_reclaim ids now :
    step b (snd (reclaim_interrupted ids now b))
| step_clean ids now now' :
    step b (snd (clean_orphaned ids now now' b))
| step_write_knowledge_hash run path hash :
    step b (snd (write_knowledge_hash run path hash b)).

Definition reachable (b : backend) : Prop := rtc step backend_init b.

(** ** The event log as history *)

(** What one event says about the status of task [tid]. *)
Definition apply_task_event (tid : uuid) (status : string) (ev : event_row) : string :=
  if decide (ev_task_id ev = Some tid) then
    if decide (ev_type ev = "task_transition"%string)
    then default status (vstr (vget "new_status" (ev_data ev)))
    else if decide (ev_type ev = "crash_recovery"%string) then "cancelled"%string else status
  else status.

Definition replay_task (tid : uuid) (evs : list event_row) : string :=
  foldl (apply_task_event tid) "created"%string evs.

(** Every transition of [tid] the log records starts where the log had got to, and is one the state
    machine allows. *)
Definition task_log_legal (tid : uuid) (evs : list event_row) : Prop :=
  forall pre ev post, evs = pre ++ ev :: post -> ev_task_id ev = Some tid ->
    ev_type ev = "task_transition"%string ->
    vget "old_status" (ev_data ev) = Some (VStr (replay_task tid pre)) /\
    task_step (replay_task tid pre) (replay_task tid (pre ++ [ev])).

(** The reserved events of a task: the ones [replay_task] reads. *)
Definition task_event_of (tid : uuid) (ev : event_row) : bool :=
  bool_decide (ev_task_id ev = Some tid) &&
  bool_decide (ev_type ev ∈ ["task_transition"; "crash_recovery"]%string).

Definition task_log_inv (b : backend) : Prop :=
  (forall tid row, _tasks b !! tid = Some row ->
     t_id row = tid /\ t_status row = replay_task tid (_events b) /\
     task_log_legal tid (_events b)) /\
  (forall tid, _tasks b !! tid = None -> Forall (fun ev => task_event_of tid ev = false) (_events b)).

Definition dicts_wf (b : backend) : Prop :=
  dwf (_tasks b) /\ dwf (_runs b) /\ dwf (_inbox_items b) /\
  (forall rid run, _runs b !! rid = Some run -> r_id run = rid).

(** ** Recovery as a sweep *)

Definition cancel_interrupted (task : task_row) : task_row :=
  if task_interrupted task then task .[t_status := "cancelled"%string] else task.

Fixpoint reclaim_events (ids : list uuid) (now : time) (rows : list task_row) : list event_row :=
  match rows with
  | [] => []
  | task :: rows' =>
      mk_event (default 0%Z (head ids)) (Some (t_run_id task)) (Some (t_id task))
        _INMEMORY_SYSTEM_PRINCIPAL_ID "crash_recovery" (recovery_data "reclaim_interrupted") now
      :: reclaim_events (tail ids) now rows'
  end.

Definition reclaimed (ids : list uuid) (now : time) (b : backend) : backend :=
  b .[_tasks := dmap cancel_interrupted (_tasks b)]
    .[_events := _events b ++
        reclaim_events ids now (filter task_interrupted (dvalues (_tasks b)))].

Definition fail_orphan (b : backend) (now : time) (run : run_row) : run_row :=
  if run_orphaned b run
  then run .[r_status := "failed"%string] .[r_finished_at := Some now] else run.

Fixpoint clean_events (ids : list uuid) (now : time) (rows : list run_row) : list event_row :=
  match rows with
  | [] => []
  | run :: rows' =>
      mk_event (default 0%Z (head ids)) (Some (r_id run)) None
        _INMEMORY_SYSTEM_PRINCIPAL_ID "crash_recovery" (recovery_data "clean_orphaned") now
      :: clean_events (tail ids) now rows'
  end.

Definition cleaned (ids : list uuid) (now now' : time) (b : backend) : backend :=
  b .[_runs := dmap (fail_orphan b now) (_runs b)]
    .[_events := _events b ++
        clean_events ids now' (filter (run_orphaned b) (dvalues (_runs b)))].

(** ** Automation *)

(** Run a method: unfold the monad and split on what it tests. *)
Ltac mrun :=
  unfold mbind, M_bind, mret, M_ret, mthrow, M_throw, mget, mmod, mgets in *; simpl in *;
  repeat (case_match; simpl in * ); simplify_eq/=.

Ltac step_unfold :=
  unfold create_task, transition_task, create_task_attempt, complete_task_attempt,
    fail_task_attempt, create_iteration, complete_iteration, fail_iteration, write_event,
    write_transcript_entry, create_run, transition_run_row, write_coherence_summary,
    unsubscribe_run_control, write_decision, write_constraint, write_assumption, write_lesson,
    update_workflow_status, write_context_diff, create_inbox_item, answer_inbox_item,
    skip_inbox_item, reject_inbox_item, expire_inbox_item, pending_item, expire_due_inbox_items,
    write_notepad_entry, acquire_run_lock, release_run_lock, update_heartbeat,
    write_knowledge_hash.

(** ** Recovery computes the sweep *)

Lemma assoc_set_middle {K V} `{EqDecision K} (k : K) (v v' : V) pre post :
  k ∉ pre.*1 -> assoc_set k v (pre ++ (k, v') :: post) = pre ++ (k, v) :: post.
Proof.
  induction pre as [|[k1 v1] pre IH]; simpl; [by case_decide|].
  intros [Hne Hin]%not_elem_of_cons. case_decide; [done|]. by rewrite IH.
Qed.

Lemma reclaim_loop_spec ids now rows pre n b :
  _tasks b = Dict (pre ++ rows) -> NoDup (pre ++ rows).*1 ->
  reclaim_loop ids now rows n b =
    (Ok (n + Z.of_nat (length (filter task_interrupted rows.*2)))%Z,
     b .[_tasks := Dict (pre ++ ditems (dmap cancel_interrupted (Dict rows)))]
       .[_events := _events b ++ reclaim_events ids now (filter task_interrupted rows.*2)]).
Proof.
  revert ids pre n b. induction rows as [|[key task] rows IH]; intros ids pre n b Hb Hnd; csimpl.
  - rewrite !app_nil_r. unfold mret, M_ret. rewrite Z.add_0_r. f_equal.
    destruct b; simpl in *. rewrite app_nil_r in Hb. by subst.
  - assert (Hkey : key ∉ pre.*1).
    { rewrite fmap_app in Hnd. apply NoDup_app in Hnd as (_ & Hd & _).
      intros Hin. apply (Hd _ Hin). left. }
    assert (Happ : forall t, (pre ++ [(key, t)]) ++ rows = pre ++ (key, t) :: rows).
    { intros t. by rewrite <- app_assoc. }
    rewrite filter_cons. destruct (task_interrupted task) eqn:Hi; csimpl.
    + unfold mbind, M_bind; simpl.
      rewrite (IH (tail ids) (pre ++ [(key, task .[t_status := "cancelled"%string])])); simpl.
      * f_equal; [f_equal; lia|]. destruct b; simpl in *. subst.
        f_equal; [|by rewrite <- app_assoc].
        unfold cancel_interrupted at 2. by rewrite Hi, <- app_assoc.
      * rewrite Hb. unfold insert, dict_insert; simpl. by rewrite assoc_set_middle, Happ.
      * rewrite Happ, fmap_app. by rewrite fmap_app in Hnd.
    + rewrite (IH ids (pre ++ [(key, task)])); simpl.
      * f_equal. destruct b; simpl in *. subst. f_equal.
        unfold cancel_interrupted at 2. by rewrite Hi, <- app_assoc.
      * by rewrite Happ.
      * by rewrite Happ.
Qed.

Lemma reclaim_interrupted_spec ids now b :
  dwf (_tasks b) ->
  reclaim_interrupted ids now b =
    (Ok (Z.of_nat (length (filter task_interrupted (dvalues (_tasks b))))), reclaimed ids now b).
Proof.
  intros Hwf. unfold reclaim_interrupted, mbind, M_bind; simpl.
  rewrite (reclaim_loop_spec _ _ _ []); [|by destruct (_tasks b)|exact Hwf].
  unfold reclaimed. f_equal.
Qed.

Lemma clean_loop_spec ids now now' rows pre n b :
  _runs b = Dict (pre ++ rows) -> NoDup (pre ++ rows).*1 ->
  clean_loop ids now now' rows n b =
    (Ok (n + Z.of_nat (length (filter (run_orphaned b) rows.*2)))%Z,
     b .[_runs := Dict (pre ++ ditems (dmap (fail_orphan b now) (Dict rows)))]
       .[_events := _events b ++ clean_events ids now' (filter (run_orphaned b) rows.*2)]).
Proof.
  revert ids pre n b. induction rows as [|[key run] rows IH]; intros ids pre n b Hb Hnd; csimpl.
  - rewrite !app_nil_r. unfold mret, M_ret. rewrite Z.add_0_r. f_equal.
    destruct b; simpl in *. rewrite app_nil_r in Hb. by subst.
  - assert (Hkey : key ∉ pre.*1).
    { rewrite fmap_app in Hnd. apply NoDup_app in Hnd as (_ & Hd & _).
      intros Hin. apply (Hd _ Hin). left. }
    assert (Happ : forall t, (pre ++ [(key, t)]) ++ rows = pre ++ (key, t) :: rows).
    { intros t. by rewrite <- app_assoc. }
    unfold mbind, M_bind; simpl.
    rewrite filter_cons. destruct (run_orphaned b run) eqn:Hi; csimpl.
    + unfold mbind, M_bind; simpl.
      rewrite (IH (tail ids) (pre ++ [(key, run .[r_status := "failed"%string]
                                                .[r_finished_at := Some now])])); simpl.
      * f_equal; [f_equal; change (filter (run_orphaned _) rows.*2)
                    with (filter (run_orphaned b) rows.*2); lia|].
        destruct b; simpl in *. subst.
        f_equal; [|by rewrite <- app_assoc].
        unfold fail_orphan at 2. by rewrite Hi, <- app_assoc.
      * rewrite Hb. unfold insert, dict_insert; simpl. by rewrite assoc_set_middle, Happ.
      * rewrite Happ, fmap_app. by rewrite fmap_app in Hnd.
    + rewrite (IH ids (pre ++ [(key, run)])); simpl.
      * f_equal. destruct b; simpl in *. subst. f_equal.
        unfold fail_orphan at 2. by rewrite Hi, <- app_assoc.
      * by rewrite Happ.
      * by rewrite Happ.
Qed.

Lemma clean_orphaned_spec ids now now' b :
  dwf (_runs b) ->
  clean_orphaned ids now now' b =
    (Ok (Z.of_nat (length (filter (run_orphaned b) (dvalues (_runs b))))), cleaned ids now now' b).
Proof.
  intros Hwf. unfold clean_orphaned, mbind, M_bind; simpl.
  rewrite (clean_loop_spec _ _ _ _ []); [|by destruct (_runs b)|exact Hwf].
  unfold cleaned. f_equal.
Qed.

(** ** The dicts stay well formed *)

Lemma dvalues_forall {K V} `{EqDecision K} (P : V -> Prop) (d : dict K V) :
  (forall k v, d !! k = Some v -> P v) -> dwf d -> Forall P (dvalues d).
Proof.
  intros H Hwf. apply Forall_forall. intros v Hv.
  destruct (dict_value_lookup v d Hwf Hv) as [k Hk]. eauto.
Qed.

Lemma dicts_wf_init : dicts_wf backend_init.
Proof. repeat split; try apply dwf_empty. done. Qed.

Lemma runs_id_insert rid run (d : dict uuid run_row) :
  (forall k r, d !! k = Some r -> r_id r = k) -> r_id run = rid ->
  forall k r, <[rid := run]> d !! k = Some r -> r_id r = k.
Proof. intros Hd Hr k r. rewrite dict_lookup_insert. case_decide; [|by apply Hd]. naive_solver. Qed.

Lemma dicts_wf_step b b' : dicts_wf b -> step b b' -> dicts_wf b'.
Proof.
  intros (Ht & Hr & Hi & Hid) Hs. destruct Hs;
    try (step_unfold; mrun; split_and!; simpl; auto with pydb;
         try (apply runs_id_insert; by eauto); fail).
  - unfold transition_run_row; mrun; split_and!; simpl; auto with pydb; apply runs_id_insert;
      simpl; eauto.
  - unfold write_coherence_summary; mrun; split_and!; simpl; auto with pydb; apply runs_id_insert;
      simpl; eauto.
  - rewrite reclaim_interrupted_spec by done. split_and!; simpl; auto with pydb.
  - rewrite clean_orphaned_spec by done. split_and!; simpl; auto with pydb.
    intros rid run. rewrite dict_lookup_dmap. intros (r & Hl & ->)%fmap_Some.
    unfold fail_orphan. case_match; simpl; eauto.
Qed.

Lemma dicts_wf_steps b b' : dicts_wf b -> rtc step b b' -> dicts_wf b'.
Proof. intros H. apply rtc_inv; [apply dicts_wf_step|done]. Qed.

Lemma reachable_wf b : reachable b -> dicts_wf b.
Proof. apply dicts_wf_steps, dicts_wf_init. Qed.

(** ** The task log *)

Lemma replay_task_app tid l1 l2 :
  replay_task tid (l1 ++ l2) = foldl (apply_task_event tid) (replay_task tid l1) l2.
Proof. apply foldl_app. Qed.

Lemma apply_task_event_irrelevant tid s ev :
  task_event_of tid ev = false -> apply_task_event tid s ev = s.
Proof.
  unfold task_event_of, apply_task_event. intros [H|H]%andb_false_iff;
    apply bool_decide_eq_false in H; repeat case_decide; try done; set_solver.
Qed.

Lemma foldl_irrelevant tid s evs :
  Forall (fun ev => task_event_of tid ev = false) evs -> foldl (apply_task_event tid) s evs = s.
Proof.
  intros H. revert s. induction H as [|ev evs Hev _ IH]; intros s; simpl; [done|].
  by rewrite apply_task_event_irrelevant.
Qed.

Lemma task_log_legal_snoc tid evs ev :
  task_log_legal tid evs ->
  (ev_task_id ev = Some tid -> ev_type ev = "task_transition"%string ->
   vget "old_status" (ev_data ev) = Some (VStr (replay_task tid evs)) /\
   task_step (replay_task tid evs) (replay_task tid (evs ++ [ev]))) ->
  task_log_legal tid (evs ++ [ev]).
Proof.
  intros Hl Hev pre e post E. destruct post as [|x post _] using rev_ind.
  - apply app_inj_tail in E as [-> ->]. auto.
  - rewrite app_comm_cons, app_assoc in E. apply app_inj_tail in E as [E _]. by apply (Hl _ _ post).
Qed.

Lemma task_log_legal_app tid evs evs' :
  task_log_legal tid evs ->
  Forall (fun ev => ev_task_id ev = Some tid -> ev_type ev <> "task_transition"%string) evs' ->
  task_log_legal tid (evs ++ evs').
Proof.
  intros Hl Hf. revert evs Hl. induction Hf as [|ev evs' Hev _ IH]; intros evs Hl.
  - by rewrite app_nil_r.
  - rewrite cons_middle, app_assoc. apply IH. apply task_log_legal_snoc; [done|].
    intros Ht Hy. by destruct (Hev Ht).
Qed.

Lemma not_transition_of tid ev :
  task_event_of tid ev = false -> ev_task_id ev = Some tid -> ev_type ev <> "task_transition"%string.
Proof.
  unfold task_event_of. intros [H|H]%andb_false_iff; apply bool_decide_eq_false in H; set_solver.
Qed.

(** A write that leaves the tasks alone and logs nothing about any of them. *)
Lemma task_log_inv_frame b b' evs :
  task_log_inv b -> _tasks b' = _tasks b -> _events b' = _events b ++ evs ->
  (forall tid, Forall (fun ev => task_event_of tid ev = false) evs) -> task_log_inv b'.
Proof.
  intros [H1 H2] Et Ee Hf. split; rewrite Et, Ee.
  - intros tid row Hrow. destruct (H1 tid row Hrow) as (Hid & Hst & Hl). split_and!; [done| |].
    + by rewrite replay_task_app, foldl_irrelevant.
    + apply task_log_legal_app; [done|]. eapply Forall_impl; [apply (Hf tid)|].
      intros ev. apply not_transition_of.
  - intros tid Hn. apply Forall_app; auto.
Qed.

Lemma task_log_inv_create b id now run parent name ty config :
  task_log_inv b -> _tasks b !! id = None ->
  task_log_inv (snd (create_task id now run parent name ty config b)).
Proof.
  intros [H1 H2] Hfresh. split; simpl.
  - intros tid row. rewrite dict_lookup_insert. case_decide as E; [|apply H1].
    intros [= <-]. subst. split_and!; simpl; [done|symmetry; by apply foldl_irrelevant, H2|].
    pose proof (H2 _ Hfresh) as Hf. intros pre ev post Ev Ht Hy. exfalso.
    rewrite Ev in Hf. apply Forall_app in Hf as [_ [Hf _]%Forall_cons]. by apply not_transition_of in Hf.
  - intros tid. rewrite dict_lookup_insert. case_decide; [done|apply H2].
Qed.

Lemma task_log_inv_transition b ev now id status reason p :
  task_log_inv b -> task_log_inv (snd (transition_task ev now id status reason p b)).
Proof.
  intros Hinv. pose proof Hinv as [H1 H2].
  unfold transition_task, mbind, M_bind; simpl. destruct (_tasks b !! id) as [task|] eqn:Hid; [|done].
  destruct (validate_task_transition (t_status task) status) eqn:Hv; [done|]. simpl.
  destruct (H1 _ _ Hid) as (Hi & Hst & Hl). split; simpl.
  - intros tid row. rewrite dict_lookup_insert, replay_task_app. case_decide as E.
    + intros [= <-]. subst tid. simpl. split_and!; [done| |].
      * unfold apply_task_event; simpl. by rewrite decide_True.
      * apply task_log_legal_snoc; [done|]. intros _ _. rewrite replay_task_app, <- Hst. simpl.
        split; [done|]. unfold apply_task_event; simpl. by rewrite decide_True.
    + intros Hrow. destruct (H1 _ _ Hrow) as (? & Hst' & Hl'). split_and!; [done| |].
      * unfold apply_task_event; simpl. by rewrite decide_False by congruence.
      * apply task_log_legal_snoc; [done|]. simpl. intros; congruence.
  - intros tid. rewrite dict_lookup_insert. case_decide as E; [done|]. intros Hn.
    apply Forall_app; split; [by apply H2|]. constructor; [|done].
    unfold task_event_of; simpl. by rewrite bool_decide_false by congruence.
Qed.

Lemma replay_reclaim tid s ids now rows :
  foldl (apply_task_event tid) s (reclaim_events ids now rows) =
  if decide (tid ∈ t_id <$> rows) then "cancelled"%string else s.
Proof.
  revert ids s. induction rows as [|row rows IH]; intros ids s; csimpl; [done|].
  rewrite IH. unfold apply_task_event; simpl.
  destruct (decide (tid = t_id row)) as [->|Hne].
  - rewrite (decide_True (P := _ = _)) by done.
    rewrite (decide_True (P := _ ∈ t_id row :: _)) by left. by case_decide.
  - rewrite (decide_False (P := Some _ = _)) by congruence.
    apply decide_ext. rewrite elem_of_cons. naive_solver.
Qed.

Lemma reclaim_events_type ids now rows :
  Forall (fun ev => ev_type ev = "crash_recovery"%string) (reclaim_events ids now rows).
Proof. revert ids. induction rows; intros ids; simpl; by constructor. Qed.

Lemma reclaim_events_task ids now rows :
  Forall (fun ev => exists row, row ∈ rows /\ ev_task_id ev = Some (t_id row))
    (reclaim_events ids now rows).
Proof.
  revert ids. induction rows as [|row rows IH]; intros ids; simpl; constructor.
  - exists row. split; [left|done].
  - eapply Forall_impl; [apply IH|]. intros ev (r & ? & ?). exists r. split; [by right|done].
Qed.

Lemma task_log_inv_reclaim b ids now :
  dwf (_tasks b) -> task_log_inv b -> task_log_inv (reclaimed ids now b).
Proof.
  intros Hwf [H1 H2]. split; simpl.
  - intros tid row. rewrite dict_lookup_dmap. intros (task & Htask & ->)%fmap_Some.
    destruct (H1 _ _ Htask) as (Hid & Hst & Hl). split_and!.
    + unfold cancel_interrupted. by case_match.
    + rewrite replay_task_app, replay_reclaim, <- Hst. unfold cancel_interrupted.
      destruct (task_interrupted task) eqn:Hi; simpl.
      * rewrite decide_True; [done|]. apply list_elem_of_fmap. exists task. split; [done|].
        apply list_elem_of_filter. split; [by rewrite Hi|]. by eapply dict_lookup_Some_value.
      * rewrite decide_False; [done|].
        intros (row & Hrid & [Hri Hrow]%list_elem_of_filter)%list_elem_of_fmap.
        destruct (dict_value_lookup _ _ Hwf Hrow) as [k Hk].
        destruct (H1 _ _ Hk) as (Hkid & _). assert (k = tid) as -> by congruence.
        simplify_eq. by rewrite Hi in Hri.
    + apply task_log_legal_app; [done|]. eapply Forall_impl; [apply reclaim_events_type|].
      simpl. by intros ev ->.
  - intros tid. rewrite dict_lookup_dmap. intros Hn%fmap_None. apply Forall_app; split; [by apply H2|].
    eapply Forall_impl; [apply reclaim_events_task|]. intros ev (row & [_ Hrow]%list_elem_of_filter & Ht).
    unfold task_event_of. rewrite bool_decide_false; [done|]. rewrite Ht. intros [= E].
    destruct (dict_value_lookup _ _ Hwf Hrow) as [k Hk]. destruct (H1 _ _ Hk) as (Hkid & _). congruence.
Qed.

Lemma clean_events_frame tid ids now rows :
  Forall (fun ev => task_event_of tid ev = false) (clean_events ids now rows).
Proof. revert ids. induction rows; intros ids; simpl; by constructor. Qed.

Lemma task_log_inv_step b b' : dicts_wf b -> task_log_inv b -> step b b' -> task_log_inv b'.
Proof.
  intros (Hwf & Hwr & _) Hinv Hs. destruct Hs;
    try (eapply (task_log_inv_frame b _ []); [done|step_unfold; by mrun| |by constructor];
         rewrite app_nil_r; step_unfold; by mrun).
  - by apply task_log_inv_create.
  - by apply task_log_inv_transition.
  - unfold write_event; mrun; try done;
      (eapply (task_log_inv_frame b); [done|done|simpl; reflexivity|]; intros tid;
       constructor; [|done]; unfold task_event_of; simpl; apply andb_false_intro2;
       apply bool_decide_false; unfold reserved_event_types in *; set_solver).
  - unfold transition_run_row; mrun; try done;
      (eapply (task_log_inv_frame b); [done|done|simpl; reflexivity|]; intros tid; by constructor).
  - rewrite reclaim_interrupted_spec by done. by apply task_log_inv_reclaim.
  - rewrite clean_orphaned_spec by done.
    eapply (task_log_inv_frame b); [done|done|simpl; reflexivity|]. intros tid. apply clean_events_frame.
Qed.

Lemma reachable_log b : reachable b -> task_log_inv b.
Proof.
  intros Hr. assert (dicts_wf b /\ task_log_inv b) as [_ ?]; [|done].
  eapply (rtc_inv step (fun b => dicts_wf b /\ task_log_inv b)); [|split; [apply dicts_wf_init|by split]|exact Hr].
  intros a c [? ?] ?. split; [by eapply dicts_wf_step|by eapply task_log_inv_step].
Qed.

(** ** Final rows and idempotency keys *)

(** A finished run keeps its status and its finish time. *)
Definition run_final (rid : uuid) (status : string) (fin : option time) (b : backend) : Prop :=
  exists run, _runs b !! rid = Some run /\ r_status run = status /\ r_finished_at run = fin.

Lemma run_final_step rid status fin b b' :
  status ∈ RUN_TERMINAL_STATES -> dicts_wf b -> run_final rid status fin b -> step b b' ->
  run_final rid status fin b'.
Proof.
  intros Hterm (Hwt & Hwr & _) Hf Hs. pose proof Hf as (run & Hl & Hst & Hfin). destruct Hs;
    try (step_unfold; mrun; exact Hf).
  - unfold create_run; mrun; [done|]. exists run. split; [|done]. simpl.
    rewrite dict_lookup_insert_ne; [done|congruence].
  - unfold transition_run_row; mrun; try done;
      (destruct (decide (run0 = rid)) as [->|Hne];
       [exfalso; simplify_eq; eapply run_step_terminal; [exact Hterm|eassumption]|exists run; split; [|done]; simpl;
          by rewrite dict_lookup_insert_ne]).
  - unfold write_coherence_summary; mrun; [|done]. unfold run_final; simpl.
    destruct (decide (run0 = rid)) as [->|Hne].
    + simplify_eq. rewrite dict_lookup_insert_eq. eexists; split; [done|]. by simpl.
    + rewrite dict_lookup_insert_ne by done. eauto.
  - rewrite reclaim_interrupted_spec by done. exact Hf.
  - rewrite clean_orphaned_spec by done. unfold run_final; simpl.
    rewrite dict_lookup_dmap, Hl. simpl. exists run. split; [|done].
    unfold fail_orphan, run_orphaned. rewrite Hst.
    unfold RUN_TERMINAL_STATES in Hterm. elem_of_cases Hterm; done.
Qed.

Lemma run_final_steps rid status fin b b' :
  status ∈ RUN_TERMINAL_STATES -> dicts_wf b -> run_final rid status fin b -> rtc step b b' ->
  run_final rid status fin b'.
Proof.
  intros Ht Hwf Hf Hs. assert (dicts_wf b' /\ run_final rid status fin b') as [_ ?]; [|done].
  revert Hs. eapply (rtc_inv step (fun b => dicts_wf b /\ run_final rid status fin b)); [|done].
  intros a c [? ?] ?. split; [by eapply dicts_wf_step|by eapply run_final_step].
Qed.

Lemma pending_item_run {A} id new (k : inbox_row -> M backend A) b :
  (exists item, _inbox_items b !! id = Some item /\ i_status item = "pending"%string /\
     (pending_item id new ≫= k) b = k item b) \/
  (exists old, (forall item, _inbox_items b !! id = Some item -> i_status item <> "pending"%string) /\
     (pending_item id new ≫= k) b = (Raise (InvalidTransitionError old new), b)).
Proof.
  unfold pending_item, mbind, M_bind; simpl.
  destruct (_inbox_items b !! id) as [item|]; [|by right; eexists].
  case_decide; [left; by eexists|right; eexists; split; [|done]; naive_solver].
Qed.

Lemma inbox_resolved_step id item b b' :
  i_status item <> "pending"%string -> dicts_wf b -> _inbox_items b !! id = Some item -> step b b' ->
  _inbox_items b' !! id = Some item.
Proof.
  intros Hres (Hwt & Hwr & _) Hl Hs. destruct Hs; try (step_unfold; mrun; done);
    try (step_unfold; mrun; try done; rewrite dict_lookup_insert; case_decide; congruence).
  1-4: unfold answer_inbox_item, skip_inbox_item, reject_inbox_item, expire_inbox_item;
    match goal with |- context [(pending_item ?i ?n ≫= ?k) ?s] =>
      destruct (pending_item_run i n k s) as [(it & Hit & Hp & ->)|(old & _ & ->)] end; simpl;
    [rewrite dict_lookup_insert; case_decide; congruence|done].
  - unfold expire_due_inbox_items; simpl. rewrite dict_lookup_dmap, Hl. simpl. f_equal.
    unfold inbox_due. by rewrite bool_decide_false.
  - rewrite reclaim_interrupted_spec by done. exact Hl.
  - rewrite clean_orphaned_spec by done. exact Hl.
Qed.

Lemma inbox_resolved_steps id item b b' :
  i_status item <> "pending"%string -> dicts_wf b -> _inbox_items b !! id = Some item ->
  rtc step b b' -> _inbox_items b' !! id = Some item.
Proof.
  intros Hres Hwf Hl Hs. assert (dicts_wf b' /\ _inbox_items b' !! id = Some item) as [_ ?]; [|done].
  revert Hs. eapply (rtc_inv step (fun b => dicts_wf b /\ _inbox_items b !! id = Some item)); [|done].
  intros a c [? ?] ?. split; [by eapply dicts_wf_step|by eapply inbox_resolved_step].
Qed.

Definition keyed_events (key : string) (evs : list event_row) : list event_row :=
  filter (fun ev => ev_idempotency_key ev = Some key) evs.

(** The idempotency index is the log: a key in the index names the one event that carries it. *)
Definition idempotency_inv (b : backend) : Prop :=
  forall key, match _idempotency_index b !! key with
              | Some id => exists ev, keyed_events key (_events b) = [ev] /\ ev_id ev = id
              | None => keyed_events key (_events b) = []
              end.

Lemma keyed_events_app key l1 l2 :
  keyed_events key (l1 ++ l2) = keyed_events key l1 ++ keyed_events key l2.
Proof. apply list.filter_app. Qed.

Lemma keyed_events_none key evs :
  Forall (fun ev => ev_idempotency_key ev = None) evs -> keyed_events key evs = [].
Proof.
  induction 1 as [|ev evs He _ IH]; [done|].
  unfold keyed_events. rewrite filter_cons, decide_False by (by rewrite He). exact IH.
Qed.

Lemma idempotency_inv_frame b b' evs :
  idempotency_inv b -> _idempotency_index b' = _idempotency_index b ->
  _events b' = _events b ++ evs -> Forall (fun ev => ev_idempotency_key ev = None) evs ->
  idempotency_inv b'.
Proof.
  intros Hinv Ei Ee Hf key. rewrite Ei, Ee, keyed_events_app, (keyed_events_none key evs), app_nil_r
    by done. apply Hinv.
Qed.

Lemma idempotency_inv_write b id now run ty data task p key :
  idempotency_inv b -> idempotency_inv (snd (write_event id now run ty data task p key b)).
Proof.
  intros Hinv. unfold write_event. destruct key as [key|].
  - unfold mbind at 1, M_bind at 1. simpl.
    destruct (_idempotency_index b !! key) as [old|] eqn:Hk; simpl; [done|].
    intros key'. simpl. rewrite dict_lookup_insert, keyed_events_app. case_decide as E.
    + subst. specialize (Hinv key). rewrite Hk in Hinv. rewrite Hinv. simpl.
      unfold keyed_events. rewrite filter_cons, decide_True by done. simpl. eexists; split; done.
    + unfold keyed_events at 2 4. rewrite filter_cons, decide_False by (simpl; congruence).
      rewrite filter_nil, app_nil_r. apply Hinv.
  - simpl. eapply (idempotency_inv_frame b); [done|done|simpl; reflexivity|]. by constructor.
Qed.

Lemma reclaim_events_key ids now rows :
  Forall (fun ev => ev_idempotency_key ev = None) (reclaim_events ids now rows).
Proof. revert ids. induction rows; intros ids; simpl; by constructor. Qed.
Lemma clean_events_key ids now rows :
  Forall (fun ev => ev_idempotency_key ev = None) (clean_events ids now rows).
Proof. revert ids. induction rows; intros ids; simpl; by constructor. Qed.

Lemma idempotency_inv_step b b' : dicts_wf b -> idempotency_inv b -> step b b' -> idempotency_inv b'.
Proof.
  intros (Hwt & Hwr & _) Hinv Hs. destruct Hs;
    try (step_unfold; mrun; exact Hinv);
    try (by apply idempotency_inv_write);
    try (step_unfold; mrun; try exact Hinv;
         (eapply (idempotency_inv_frame b); [done|done|simpl; reflexivity|by constructor])).
  - rewrite reclaim_interrupted_spec by done.
    eapply (idempotency_inv_frame b); [done|done|simpl; reflexivity|apply reclaim_events_key].
  - rewrite clean_orphaned_spec by done.
    eapply (idempotency_inv_frame b); [done|done|simpl; reflexivity|apply clean_events_key].
Qed.

Lemma idempotency_inv_steps b b' :
  dicts_wf b -> idempotency_inv b -> rtc step b b' -> idempotency_inv b'.
Proof.
  intros Hwf Hi Hs. assert (dicts_wf b' /\ idempotency_inv b') as [_ ?]; [|done].
  revert Hs. eapply (rtc_inv step (fun b => dicts_wf b /\ idempotency_inv b)); [|done].
  intros a c [? ?] ?. split; [by eapply dicts_wf_step|by eapply idempotency_inv_step].
Qed.

Lemma reachable_idempotency b : reachable b -> idempotency_inv b.
Proof. apply idempotency_inv_steps; [apply dicts_wf_init|done]. Qed.

(** No method takes a key out of the index. *)
Lemma index_step key id b b' :
  dicts_wf b -> _idempotency_index b !! key = Some id -> step b b' ->
  _idempotency_index b' !! key = Some id.
Proof.
  intros (Hwt & Hwr & _) Hk Hs. destruct Hs; try (step_unfold; mrun; exact Hk).
  - unfold write_event. destruct key0 as [key0|]; [|exact Hk].
    unfold mbind at 1, M_bind at 1. simpl.
    destruct (_idempotency_index b !! key0) as [old|] eqn:Hk0; simpl; [done|].
    rewrite dict_lookup_insert_ne; [done|congruence].
  - by rewrite reclaim_interrupted_spec.
  - by rewrite clean_orphaned_spec.
Qed.

Lemma index_steps key id b b' :
  dicts_wf b -> _idempotency_index b !! key = Some id -> rtc step b b' ->
  _idempotency_index b' !! key = Some id.
Proof.
  intros Hwf Hk Hs.
  assert (dicts_wf b' /\ _idempotency_index b' !! key = Some id) as [_ ?]; [|done].
  revert Hs.
  eapply (rtc_inv step (fun b => dicts_wf b /\ _idempotency_index b !! key = Some id)); [|done].
  intros a c [? ?] ?. split; [by eapply dicts_wf_step|by eapply index_step].
Qed.

(** ** Main theorems *)

(** C9. Event sourcing of task status.  In every state the store can reach - any interleaving of its
    writers, crash recovery included - the status column of a task is exactly what replaying the
    event log from "created" gives, and every transition the log records starts where the log had
    got to and is one the task state machine allows. *)
Theorem task_status_is_log_replay b tid row :
  reachable b -> _tasks b !! tid = Some row ->
  t_status row = replay_task tid (_events b) /\ task_log_legal tid (_events b).
Proof. intros Hr Hrow. by destruct (proj1 (reachable_log b Hr) tid row Hrow) as (_ & ? & ?). Qed.

(** A run of the store the witnesses share. *)
Definition demo0 : backend :=
  snd (create_run 0 "intent" (VDict []) "autonomous" 1 9 backend_init).
Definition demo1 : backend := snd (create_task 7 1 1 None "build" "agent" None demo0).
Definition demo2 : backend := snd (transition_task 20 2 7 "prechecking" None 9 demo1).
Definition demo3 : backend := snd (transition_task 21 3 7 "active" None 9 demo2).
Definition demo4 : backend :=
  snd (create_inbox_item 30 4 1 "choice" "which?" [] None None None None None None demo3).
Definition demo5 : backend := snd (answer_inbox_item 5 30 "left" 9 demo4).
Definition demo6 : backend := snd (transition_run_row 22 6 6 1 "running" None 9 demo5).
Definition demo7 : backend := snd (transition_run_row 23 8 8 1 "completed" None 9 demo6).

Lemma demo6_reachable : reachable demo6.
Proof.
  eapply rtc_r; [|apply step_transition_run]. eapply rtc_r; [|apply step_answer_inbox_item].
  eapply rtc_r; [|by apply step_create_inbox_item]. eapply rtc_r; [|apply step_transition_task].
  eapply rtc_r; [|apply step_transition_task]. eapply rtc_r; [|by apply step_create_task].
  eapply rtc_r; [|apply step_create_run]. apply rtc_refl.
Qed.

Lemma demo7_reachable : reachable demo7.
Proof. eapply rtc_r; [apply demo6_reachable|apply step_transition_run]. Qed.

Lemma task_status_is_log_replay_witness :
  exists row, _tasks demo6 !! 7%Z = Some row /\ t_status row = "active"%string /\
    t_status row = replay_task 7 (_events demo6) /\ task_log_legal 7 (_events demo6).
Proof.
  eexists. split; [vm_compute; reflexivity|]. split; [reflexivity|].
  apply (task_status_is_log_replay demo6 7); [apply demo6_reachable|vm_compute; reflexivity].
Defined.

(** The transition of a task's status, on every branch: for a task the store has, [transition_task]
    succeeds exactly when the machine of the task states allows the move; it then changes the status of
    that task alone and appends one event that records the move.  Otherwise it raises
    [InvalidTransitionError] and changes nothing. *)
Theorem transition_task_behaviour ev now tid (old new : TaskState) reason p b row :
  _tasks b !! tid = Some row -> t_status row = TaskState_value old ->
  if task_legal old new
  then exists b', transition_task ev now tid (TaskState_value new) reason p b = (Ok tt, b') /\
       (forall k, _tasks b' !! k = if decide (k = tid)
                                  then Some (row .[t_status := TaskState_value new]) else _tasks b !! k) /\
       _events b' = _events b ++ [mk_event ev (Some (t_run_id row)) (Some tid) p "task_transition"
         (task_transition_data tid (TaskState_value old) (TaskState_value new) reason) now] /\
       _runs b' = _runs b /\ _inbox_items b' = _inbox_items b
  else transition_task ev now tid (TaskState_value new) reason p b =
       (Raise (InvalidTransitionError (TaskState_value old) (TaskState_value new)), b).
Proof.
  intros Hrow Hst. unfold transition_task, mbind, M_bind; simpl. rewrite Hrow, Hst.
  destruct (task_legal old new) eqn:Hl.
  - apply task_step_legal in Hl. rewrite Hl. eexists. split; [reflexivity|]. split_and!; try done.
    intros k. simpl. by rewrite dict_lookup_insert.
  - destruct (validate_task_transition _ _) as [e|] eqn:Hv.
    + by rewrite (validate_task_raises _ _ _ Hv).
    + apply task_step_legal in Hv. by rewrite Hv in Hl.
Qed.

Lemma transition_task_behaviour_witness :
  transition_task 24 9 7 "completed" None 9 demo6 =
    (Ok tt, snd (transition_task 24 9 7 "completed" None 9 demo6)) /\
  transition_task 24 9 7 "prechecking" None 9 demo6 =
    (Raise (InvalidTransitionError "active" "prechecking"), demo6).
Proof.
  split.
  - destruct (transition_task_behaviour 24 9 7 ACTIVE COMPLETED None 9 demo6 _
      ltac:(vm_compute; reflexivity) eq_refl) as (b' & E & _).
    exact (eq_trans E (f_equal (fun r => (Ok tt, snd r)) (eq_sym E))).
  - apply (transition_task_behaviour 24 9 7 ACTIVE PRECHECKING None 9 demo6 _
      ltac:(vm_compute; reflexivity) eq_refl).
Defined.

(** A run that completed, failed or was aborted is final: whatever the store does afterwards - later
    transitions, crash recovery, a second [create_run] with the same id - its status and its finish
    time never change. *)
Theorem finished_run_is_final b b' rid run :
  reachable b -> _runs b !! rid = Some run -> r_status run ∈ RUN_TERMINAL_STATES -> rtc step b b' ->
  exists run', _runs b' !! rid = Some run' /\ r_status run' = r_status run /\
               r_finished_at run' = r_finished_at run.
Proof.
  intros Hr Hrun Hterm Hs.
  by apply (run_final_steps rid (r_status run) (r_finished_at run) b b' Hterm (reachable_wf b Hr));
    [exists run|].
Qed.

Lemma finished_run_is_final_witness :
  exists run, _runs (snd (clean_orphaned [40%Z] 9 9 demo7)) !! 1%Z = Some run /\
    r_status run = "completed"%string /\ r_finished_at run = Some 8%Z.
Proof.
  destruct (finished_run_is_final demo7 (snd (clean_orphaned [40%Z] 9 9 demo7)) 1
    (default (Build_run_row 0 "" (JObj VNone) "" 0 "" 0 None None 0 0 0 0 0 (decimal_Z 0))
       (_runs demo7 !! 1%Z)) demo7_reachable) as (run & H1 & H2 & H3).
  - vm_compute. reflexivity.
  - refine (bool_decide_eq_true_1 _ _). vm_compute. reflexivity.
  - apply rtc_once, step_clean.
  - exists run. split; [exact H1|]. rewrite H2, H3. vm_compute. split; reflexivity.
Defined.

(** A resolved inbox item is immutable: once it is answered, skipped, rejected or expired, no later
    operation of the store changes any column of it. *)
Theorem resolved_inbox_item_is_final b b' id item :
  reachable b -> _inbox_items b !! id = Some item -> i_status item <> "pending"%string ->
  rtc step b b' -> _inbox_items b' !! id = Some item.
Proof. intros Hr Hi Hres. apply (inbox_resolved_steps id item b b' Hres (reachable_wf b Hr) Hi). Qed.

Lemma resolved_inbox_item_is_final_witness :
  exists item, _inbox_items demo6 !! 30%Z = Some item /\
    _inbox_items (snd (answer_inbox_item 50 30 "right" 9 demo6)) !! 30%Z = Some item.
Proof.
  eexists. split; [vm_compute; reflexivity|].
  apply (resolved_inbox_item_is_final demo6 _ 30 _ demo6_reachable).
  - vm_compute. reflexivity.
  - intros H. discriminate H.
  - apply rtc_once, step_answer_inbox_item.
Defined.

(** An idempotency key writes at most one event.  Whenever a write with a key has returned an event
    id, every later write with that key - after any other operations - returns the same id with
    [False] and changes nothing, and the log holds exactly one event with that key. *)
Theorem write_event_idempotent b b1 b2 id1 now1 run1 ty1 data1 task1 p1 key id fresh
    id2 now2 run2 ty2 data2 task2 p2 :
  reachable b -> ty1 ∉ reserved_event_types ->
  write_event id1 now1 run1 ty1 data1 task1 p1 (Some key) b = (Ok (id, fresh), b1) ->
  rtc step b1 b2 ->
  write_event id2 now2 run2 ty2 data2 task2 p2 (Some key) b2 = (Ok (id, false), b2) /\
  exists ev, keyed_events key (_events b2) = [ev] /\ ev_id ev = id.
Proof.
  intros Hr Hty Hw Hs.
  assert (Hr1 : reachable b1).
  { eapply rtc_r; [exact Hr|]. pose proof (step_write_event b id1 now1 run1 ty1 data1 task1 p1 (Some key) Hty) as H.
    by rewrite Hw in H. }
  assert (Hk : _idempotency_index b1 !! key = Some id).
  { revert Hw. unfold write_event, mbind, M_bind; simpl.
    destruct (_idempotency_index b !! key) eqn:E; simpl; intros [= <- <- <-]; [done|].
    simpl. by rewrite dict_lookup_insert_eq. }
  pose proof (index_steps key id b1 b2 (reachable_wf b1 Hr1) Hk Hs) as Hk2. split.
  - unfold write_event, mbind, M_bind; simpl. by rewrite Hk2.
  - assert (Hr2 : reachable b2) by (unfold reachable in *; by etransitivity).
    pose proof (reachable_idempotency b2 Hr2 key) as Hi. by rewrite Hk2 in Hi.
Qed.

Lemma write_event_idempotent_witness :
  let b1 := snd (write_event 41 9 (Some 1%Z) "note" VNone None 9 (Some "k"%string) demo6) in
  write_event 42 10 (Some 1%Z) "note" VNone None 9 (Some "k"%string) b1 = (Ok (41%Z, false), b1).
Proof.
  intros b1. apply (write_event_idempotent demo6 b1 b1 41 9 (Some 1%Z) "note" VNone None 9 "k" 41 true).
  - apply demo6_reachable.
  - refine (bool_decide_eq_false_1 _ _). vm_compute. reflexivity.
  - reflexivity.
  - apply rtc_refl.
Defined.

(** *** Crash recovery *)

Lemma filter_fmap_none {A} (P : A -> bool) (f : A -> A) (l : list A) :
  (forall x, P (f x) = false) -> filter P (f <$> l) = [].
Proof.
  intros H. induction l as [|x l IH]; [done|]. rewrite fmap_cons, filter_cons, H. exact IH.
Qed.

Lemma dmap_id {K V} (f : V -> V) (d : dict K V) :
  Forall (fun v => f v = v) (dvalues d) -> dmap f d = d.
Proof.
  destruct d as [l]. unfold dmap, dvalues; simpl. intros H. f_equal.
  induction l as [|[k v] l IH]; [done|]. apply Forall_cons in H as [Hv H]. simpl in Hv.
  csimpl. by rewrite Hv, IH.
Qed.

Lemma task_interrupted_cancel task : task_interrupted (cancel_interrupted task) = false.
Proof. unfold cancel_interrupted. by destruct (task_interrupted task) eqn:E. Qed.

Lemma run_orphaned_fail b b' now run :
  _run_locks b' = _run_locks b -> run_orphaned b' (fail_orphan b now run) = false.
Proof.
  intros El. unfold fail_orphan. destruct (run_orphaned b run) eqn:E; [done|].
  revert E. unfold run_orphaned, run_locked. by rewrite El.
Qed.

Lemma cancel_interrupted_id task : task_interrupted task = false -> cancel_interrupted task = task.
Proof. unfold cancel_interrupted. by intros ->. Qed.
Lemma fail_orphan_id b now run : run_orphaned b run = false -> fail_orphan b now run = run.
Proof. unfold fail_orphan. by intros ->. Qed.

Lemma filter_none_forall {A} (P : A -> bool) l :
  filter P l = [] -> Forall (fun x => P x = false) l.
Proof.
  intros H. apply Forall_forall. intros x Hx. destruct (P x) eqn:E; [|done].
  exfalso. apply (not_elem_of_nil x). rewrite <- H. apply list_elem_of_filter. by rewrite E.
Qed.

(** A sweep that finds nothing is the identity. *)
Lemma reclaimed_id ids now b :
  filter task_interrupted (dvalues (_tasks b)) = [] -> reclaimed ids now b = b.
Proof.
  intros H. unfold reclaimed. rewrite H. simpl. rewrite dmap_id.
  - destruct b; simpl. by rewrite app_nil_r.
  - eapply Forall_impl; [by apply filter_none_forall in H|]. apply cancel_interrupted_id.
Qed.

Lemma cleaned_id ids now now' b :
  filter (run_orphaned b) (dvalues (_runs b)) = [] -> cleaned ids now now' b = b.
Proof.
  intros H. unfold cleaned. rewrite H. simpl. rewrite dmap_id.
  - destruct b; simpl. by rewrite app_nil_r.
  - eapply Forall_impl; [by apply filter_none_forall in H|]. intros run. apply fail_orphan_id.
Qed.

(** Task recovery after a crash is one idempotent sweep: from any reachable state
    [reclaim_interrupted] succeeds and returns how many tasks a crash left in an executing status; it
    turns exactly those into cancelled, keeping every other column and every other task, and logs one
    event for each; running it again does nothing. *)
Theorem reclaim_interrupted_sweep ids now ids' now' b :
  reachable b ->
  exists b', reclaim_interrupted ids now b =
    (Ok (Z.of_nat (length (filter task_interrupted (dvalues (_tasks b))))), b') /\
  (forall tid, _tasks b' !! tid =
     (fun task => if task_interrupted task then task .[t_status := "cancelled"%string] else task)
       <$> _tasks b !! tid) /\
  length (_events b') = length (_events b) + length (filter task_interrupted (dvalues (_tasks b))) /\
  reclaim_interrupted ids' now' b' = (Ok 0%Z, b').
Proof.
  intros Hr. pose proof (reachable_wf b Hr) as (Hwf & _).
  exists (reclaimed ids now b). rewrite reclaim_interrupted_spec by done. split_and!; [done| | |].
  - intros tid. simpl. apply dict_lookup_dmap.
  - simpl. rewrite length_app. f_equal. generalize (filter task_interrupted (dvalues (_tasks b))).
    intros l. revert ids. induction l; intros ids; simpl; [done|by f_equal].
  - assert (Hn : filter task_interrupted (dvalues (_tasks (reclaimed ids now b))) = []).
    { simpl. rewrite dvalues_dmap. apply filter_fmap_none, task_interrupted_cancel. }
    rewrite reclaim_interrupted_spec by by apply dwf_dmap. rewrite Hn. by rewrite reclaimed_id.
Qed.

Lemma reclaim_interrupted_sweep_witness :
  exists b', reclaim_interrupted [60%Z] 9 demo6 = (Ok 1%Z, b') /\
    reclaim_interrupted [61%Z] 10 b' = (Ok 0%Z, b').
Proof.
  destruct (reclaim_interrupted_sweep [60%Z] 9 [61%Z] 10 demo6 demo6_reachable)
    as (b' & H1 & _ & _ & H2).
  exists b'. split; [exact H1|exact H2].
Defined.

(** Run recovery never touches a run that is alive: [clean_orphaned] fails exactly the running or
    paused runs nobody holds the lock of; a run whose lock is held, or that is not running, keeps its
    row; running it again does nothing. *)
Theorem clean_orphaned_sweep ids now1 now2 ids' now1' now2' b :
  reachable b ->
  exists b', clean_orphaned ids now1 now2 b =
    (Ok (Z.of_nat (length (filter (run_orphaned b) (dvalues (_runs b))))), b') /\
  (forall rid run, _runs b !! rid = Some run ->
     _runs b' !! rid = Some (
       if bool_decide (r_status run ∈ ["running"; "paused"]%string) && negb (run_locked b rid)
       then run .[r_status := "failed"%string] .[r_finished_at := Some now1] else run)) /\
  _tasks b' = _tasks b /\
  clean_orphaned ids' now1' now2' b' = (Ok 0%Z, b').
Proof.
  intros Hr. pose proof (reachable_wf b Hr) as (_ & Hwf & _ & Hid).
  exists (cleaned ids now1 now2 b). rewrite clean_orphaned_spec by done. split_and!; [done| |done|].
  - intros rid run Hrun. simpl. rewrite dict_lookup_dmap, Hrun. simpl.
    pose proof (Hid _ _ Hrun) as E. subst rid. done.
  - assert (Hn : filter (run_orphaned (cleaned ids now1 now2 b))
                   (dvalues (_runs (cleaned ids now1 now2 b))) = []).
    { unfold cleaned at 2. simpl. rewrite dvalues_dmap. apply filter_fmap_none.
      intros run. by apply run_orphaned_fail. }
    rewrite clean_orphaned_spec by by apply dwf_dmap. rewrite Hn. by rewrite cleaned_id.
Qed.

Lemma clean_orphaned_sweep_witness :
  exists b', clean_orphaned [60%Z] 9 9 demo6 = (Ok 1%Z, b') /\
    clean_orphaned [61%Z] 10 10 b' = (Ok 0%Z, b').
Proof.
  destruct (clean_orphaned_sweep [60%Z] 9 9 [61%Z] 10 10 demo6 demo6_reachable)
    as (b' & H1 & _ & _ & H2).
  exists b'. split; [exact H1|exact H2].
Defined.

(** *** Reading the log back *)


Lemma filter_filter_and {A} (P Q : A -> bool) (l : list A) :
  filter P (filter Q l) = filter (fun x => Q x && P x) l.
Proof.
  induction l as [|x l IH]; [done|]. rewrite !filter_cons.
  destruct (Q x); simpl; [rewrite filter_cons|]; destruct (P x); simpl; by rewrite IH.
Qed.

Lemma filter_false_app {A} (P : A -> bool) (l1 l2 : list A) :
  Forall (fun x => P x = false) l1 -> Forall (fun x => P x = true) l2 -> filter P (l1 ++ l2) = l2.
Proof.
  intros H1 H2. rewrite list.filter_app.
  assert (filter P l1 = []) as ->.
  { induction H1 as [|x l Hx _ IH]; [done|]. rewrite filter_cons, Hx. exact IH. }
  simpl. induction H2 as [|x l Hx _ IH]; [done|]. rewrite filter_cons, Hx. simpl. by rewrite IH.
Qed.

Lemma replay_match_since types p s0 ev x :
  (forall s, s0 = Some s -> (s < ev_id x)%Z) ->
  replay_match types p s0 ev && negb (ev_id ev <=? ev_id x)%Z =
  replay_match types p (Some (ev_id x)) ev.
Proof.
  intros Hs. unfold replay_match. destruct s0 as [s|]; simpl.
  - specialize (Hs s eq_refl).
    destruct (Z.leb_spec (ev_id ev) s), (Z.leb_spec (ev_id ev) (ev_id x)); simpl;
      rewrite ?andb_true_r, ?andb_false_r; try done. lia.
  - by rewrite andb_true_r.
Qed.

(** The events after the last one of a first page are the rest of the sorted list. *)
Lemma sorted_rest (l1 l2 : list event_row) x :
  StronglySorted (key_le ev_id) ((l1 ++ [x]) ++ l2) -> NoDup (ev_id <$> ((l1 ++ [x]) ++ l2)) ->
  filter (fun ev => negb (ev_id ev <=? ev_id x)%Z) ((l1 ++ [x]) ++ l2) = l2.
Proof.
  intros Hs Hnd. apply strongly_sorted_app in Hs as (Hs1 & _ & H12).
  apply strongly_sorted_app in Hs1 as (_ & _ & H1x).
  apply filter_false_app.
  - apply Forall_app; split.
    + eapply Forall_impl; [exact H1x|]. intros y [Hy _]%Forall_cons. unfold key_le in Hy.
      by apply negb_false_iff, Z.leb_le.
    + constructor; [|done]. apply negb_false_iff, Z.leb_le. lia.
  - apply Forall_app in H12 as [_ [Hx _]%Forall_cons]. apply Forall_forall. intros y Hy.
    rewrite Forall_forall in Hx. specialize (Hx y Hy). unfold key_le in Hx.
    apply negb_true_iff, Z.leb_gt. assert (ev_id y <> ev_id x); [|lia].
    intros E. rewrite !fmap_app in Hnd. apply NoDup_app in Hnd as (_ & Hd & _).
    apply (Hd (ev_id x)); [set_solver|]. rewrite <- E. by apply list_elem_of_fmap_2.
Qed.

(** Paging through the log by cursor loses nothing and repeats nothing: with distinct event ids, a
    page of [n1] events followed by the page of [n2] events since the last id of the first is the page
    of [n1 + n2] events; and an empty page means nothing is left. *)
Theorem replay_pages types p s0 n1 n2 b :
  NoDup (ev_id <$> _events b) -> (0 < n1)%Z -> (0 <= n2)%Z ->
  match last (replay b types p s0 n1) with
  | Some ev => replay b types p s0 (n1 + n2)%Z =
               replay b types p s0 n1 ++ replay b types p (Some (ev_id ev)) n2
  | None => replay b types p s0 (n1 + n2)%Z = []
  end.
Proof.
  intros Hnd H1 H2. unfold replay at 1 2 3 5. set (L := sort_by ev_id (filter (replay_match types p s0) (_events b))).
  rewrite !py_take_nonneg by lia. rewrite Z2Nat.inj_add, <- take_take_drop by lia.
  destruct (last (take (Z.to_nat n1) L)) as [x|] eqn:Hl.
  2: { apply last_None in Hl. rewrite Hl. destruct L as [|y L']; [by rewrite drop_nil, take_nil|].
       destruct (Z.to_nat n1) eqn:E; [lia|discriminate Hl]. }
  f_equal. unfold replay. rewrite py_take_nonneg by lia. f_equal.
  apply last_Some in Hl as [l1 Hl].
  assert (HL : L = (l1 ++ [x]) ++ drop (Z.to_nat n1) L) by (rewrite <- Hl; symmetry; apply take_drop).
  assert (Hx : x ∈ L) by (rewrite HL; set_solver).
  assert (Hrest : drop (Z.to_nat n1) L = filter (fun ev => negb (ev_id ev <=? ev_id x)%Z) L).
  { rewrite HL at 2. symmetry. apply sorted_rest; rewrite <- HL; [apply sort_by_sorted|].
    unfold L. rewrite sort_by_perm. by apply fmap_filter_NoDup. }
  rewrite Hrest. unfold L. rewrite sort_by_filter, filter_filter_and.
  f_equal. apply list_filter_iff. intros ev. rewrite replay_match_since; [done|].
  intros s ->. apply elem_of_sort_by, list_elem_of_filter in Hx as [Hm _].
  unfold replay_match in Hm. simpl in Hm. destruct (Z.leb_spec (ev_id x) s); [|done].
  rewrite andb_false_r in Hm. done.
Qed.

Lemma replay_pages_witness :
  replay demo7 None None None 3 =
    replay demo7 None None None 1 ++ replay demo7 None None (Some 20%Z) 2.
Proof.
  apply (replay_pages None None None 1 2 demo7).
  - refine (bool_decide_eq_true_1 _ _). vm_compute. reflexivity.
  - lia.
  - lia.
Defined.

Lemma query_loop_take keep limit evs results :
  (Z.of_nat (length results) < Z.max 1 limit)%Z ->
  query_loop keep limit evs results =
    take (Z.to_nat (Z.max 1 limit)) (results ++ filter keep evs).
Proof.
  revert results. induction evs as [|ev evs IH]; intros results Hlen; simpl.
  - rewrite app_nil_r, take_ge by lia. done.
  - rewrite filter_cons. destruct (keep ev); simpl; [|by apply IH].
    rewrite length_app; simpl. case_decide as Hle.
    + replace (results ++ ev :: filter keep evs) with ((results ++ [ev]) ++ filter keep evs)
        by (by rewrite <- app_assoc).
      rewrite take_app_le by (rewrite length_app; simpl; lia).
      rewrite take_ge; [done|]. rewrite length_app; simpl. lia.
    + rewrite IH, <- app_assoc by (rewrite length_app; simpl; lia). done.
Qed.

(** [query_events] is the first [max 1 limit] matching events in the order they were written: it
    drops none before the limit, and a limit of zero or less still returns one event. *)
Theorem query_events_spec b run_id ty since limit :
  query_events b run_id ty since limit =
    take (Z.to_nat (Z.max 1 limit)) (filter (query_match run_id ty since) (_events b)).
Proof. unfold query_events. rewrite query_loop_take; [done|]. simpl. lia. Qed.
