(* ===== verification/Graph.v ===== *)
(** scheduler/_graph.py: the dependency graph of a task list, Kahn's topological sort, the cycle it
    reports, and the groups of tasks that may run in parallel.

    A Python [set] of names is a list without duplicates, in the order the set iterates in; no
    theorem depends on that order. *)
From S2P Require Import Prelude PyDict Types.

Abbreviation graph_t := (dict string (list string)).

Definition build_graph (tasks : list TaskSpec) (dependencies : dict string (list string)) : graph_t :=
  foldl (fun g '(task_name, deps) => <[task_name := py_set deps]> g)
    (foldl (fun g (task : TaskSpec) => <[ts_name task := []]> g) ∅ tasks)
    (ditems dependencies).

(** ** topological_sort *)

(** The first two loops: the in-degree of every node and the list of its dependents. *)
Definition add_edges (st : dict string Z * dict string (list string)) (nd : string * list string) :
    result (dict string Z * dict string (list string)) :=
  let '(node, deps) := nd in
  let in_degree := <[node := Z.of_nat (length deps)]> st.1 in
  reverse_adj ← rfold (fun (ra : dict string (list string)) dep =>
      l ← or_raise (ra !! dep) (KeyError dep);
      Ok (<[dep := l ++ [node]]> ra)) st.2 deps;
  Ok (in_degree, reverse_adj).

(** The inner loop of the main loop: one dependency of each dependent is done. *)
Definition relax (st : dict string Z * list string) (dependent : string) :
    result (dict string Z * list string) :=
  n ← or_raise (st.1 !! dependent) (KeyError dependent);
  let in_degree := <[dependent := (n - 1)%Z]> st.1 in
  Ok (in_degree, if decide (n - 1 = 0)%Z then st.2 ++ [dependent] else st.2).

(** [while queue]: the fuel bounds the number of nodes taken from the queue. *)
Fixpoint kahn (fuel : nat) (reverse_adj : dict string (list string)) (in_degree : dict string Z)
    (queue result_ : list string) : result (list string) :=
  match queue with
  | [] => Ok result_
  | node :: queue' =>
      match fuel with
      | O => Raise (OtherError "out of fuel")
      | S fuel' =>
          dependents ← or_raise (reverse_adj !! node) (KeyError node);
          st ← rfold relax (in_degree, queue') dependents;
          kahn fuel' reverse_adj st.1 st.2 (result_ ++ [node])
      end
  end.

(** ** _find_cycle *)

Record dfs_state := { visited : list string; path : list string }.

(** [path.index(node)] *)
Fixpoint index_of (node : string) (p : list string) : nat :=
  match p with
  | [] => 0
  | x :: p' => if decide (x = node) then 0 else S (index_of node p')
  end.

(** The loop of [dfs] over the dependencies of a node; [rec] is the recursive call. *)
Fixpoint dfs_deps (rec : string -> dfs_state -> option (list string) * dfs_state)
    (remaining deps : list string) (st : dfs_state) : option (list string) * dfs_state :=
  match deps with
  | [] => (None, st)
  | dep :: deps' =>
      if decide (dep ∈ remaining) then
        match rec dep st with
        | (Some found, st') => (Some found, st')
        | (None, st') => dfs_deps rec remaining deps' st'
        end
      else dfs_deps rec remaining deps' st
  end.

(** [dfs(node)]; [path_set] always holds the elements of [path]. *)
Fixpoint dfs (fuel : nat) (graph : graph_t) (remaining : list string) (node : string)
    (st : dfs_state) : option (list string) * dfs_state :=
  match fuel with
  | O => (None, st)
  | S fuel' =>
      if decide (node ∈ path st) then
        (Some (drop (index_of node (path st)) (path st) ++ [node]), st)
      else if decide (node ∈ visited st) then (None, st)
      else
        match dfs_deps (dfs fuel' graph remaining) remaining (default [] (graph !! node))
                {| visited := visited st ++ [node]; path := path st ++ [node] |} with
        | (Some found, st') => (Some found, st')
        | (None, st') => (None, {| visited := visited st';
                                   path := take (length (path st') - 1) (path st') |})
        end
  end.

Fixpoint dfs_roots (fuel : nat) (graph : graph_t) (remaining roots : list string) (st : dfs_state) :
    option (list string) :=
  match roots with
  | [] => None
  | node :: roots' =>
      match dfs fuel graph remaining node st with
      | (Some cycle, _) => Some cycle
      | (None, st') => dfs_roots fuel graph remaining roots' st'
      end
  end.

(** The depth of the recursion is at most one more than the nodes that can be visited. *)
Definition _find_cycle (graph : graph_t) (remaining : list string) : list string :=
  default remaining
    (dfs_roots (S (length remaining)) graph remaining remaining {| visited := []; path := [] |}).

Definition topological_sort (graph : graph_t) : result (list string) :=
  match ditems graph with
  | [] => Ok []
  | _ =>
      let in_degree := Dict ((fun node => (node, 0%Z)) <$> dkeys graph) in
      let reverse_adj := Dict ((fun node => (node, [])) <$> dkeys graph) in
      st ← rfold add_edges (in_degree, reverse_adj) (ditems graph);
      let queue := fst <$> filter (fun nd => nd.2 = 0%Z) (ditems st.1) in
      order ← kahn (length (ditems graph)) st.2 st.1 queue [];
      if decide (length order <> length (ditems graph)) then
        let remaining := filter (fun n => n ∉ order) (dkeys graph) in
        Raise (CycleError (_find_cycle graph remaining))
      else Ok order
  end.

(** ** find_parallel_groups *)

Definition py_max (l : list Z) : Z := foldr Z.max 0%Z l.

Definition add_depth (graph : graph_t) (depth : dict string Z) (node : string) :
    result (dict string Z) :=
  match default [] (graph !! node) with
  | [] => Ok (<[node := 0%Z]> depth)
  | deps =>
      ds ← rfold (fun acc dep => d ← or_raise (depth !! dep) (KeyError dep); Ok (acc ++ [d])) [] deps;
      Ok (<[node := (py_max ds + 1)%Z]> depth)
  end.

Definition find_parallel_groups (graph : graph_t) (order : list string) :
    result (list (list string)) :=
  match order with
  | [] => Ok []
  | _ =>
      depth ← rfold (add_depth graph) ∅ order;
      let max_depth := py_max (dvalues depth) in
      Ok ((fun d => fst <$> filter (fun nd => nd.2 = Z.of_nat d) (ditems depth))
            <$> seq 0 (S (Z.to_nat max_depth)))
  end.

(** ** What the functions promise *)

Definition deps_of (graph : graph_t) (node : string) : list string := default [] (graph !! node).

Definition graph_wf (graph : graph_t) : Prop :=
  dwf graph /\ forall node, NoDup (deps_of graph node).

(** Every dependency is a node. *)
Definition closed (graph : graph_t) : Prop :=
  forall node dep, dep ∈ deps_of graph node -> dep ∈ dkeys graph.

(** Every node comes after its dependencies. *)
Definition topo_order (graph : graph_t) (order : list string) : Prop :=
  forall pre node post, order = pre ++ node :: post -> forall dep, dep ∈ deps_of graph node -> dep ∈ pre.

(** A walk along dependencies. *)
Definition walk (graph : graph_t) (p : list string) : Prop :=
  forall pre a b post, p = pre ++ a :: b :: post -> b ∈ deps_of graph a.

Definition is_cycle (graph : graph_t) (c : list string) : Prop :=
  exists node p, c = node :: p ++ [node] /\ walk graph c.

(** ** The in-degrees and the dependents *)

Lemma reverse_fold_spec node deps (ra : dict string (list string)) :
  NoDup deps -> (forall dep, dep ∈ deps -> is_Some (ra !! dep)) ->
  exists ra', rfold (fun (ra : dict string (list string)) dep =>
      l ← or_raise (ra !! dep) (KeyError dep); Ok (<[dep := l ++ [node]]> ra)) ra deps = Ok ra' /\
    forall d, ra' !! d = if decide (d ∈ deps) then (.++ [node]) <$> ra !! d else ra !! d.
Proof.
  revert ra. induction deps as [|dep deps IH]; intros ra Hnd Hs; simpl; [by exists ra|].
  apply NoDup_cons in Hnd as [Hn Hnd].
  destruct (Hs dep) as [l Hl]; [left|]. rewrite Hl. simpl.
  destruct (IH (<[dep := l ++ [node]]> ra) Hnd) as (ra' & -> & Hra').
  { intros d Hd. rewrite dict_lookup_insert. case_decide; [done|]. apply Hs. by right. }
  exists ra'. split; [done|]. intros d. rewrite Hra', dict_lookup_insert.
  destruct (decide (d = dep)) as [->|Hne].
  - rewrite decide_False, decide_True by (done || left). by rewrite Hl.
  - apply decide_ext. rewrite elem_of_cons. naive_solver.
Qed.

(** After the items [done], the dependents of [d] are the nodes of [done] that depend on it. *)
Definition edges_inv (keys : list string) (done : list (string * list string))
    (st : dict string Z * dict string (list string)) : Prop :=
  dkeys st.1 = keys /\
  (forall node deps, (node, deps) ∈ done -> st.1 !! node = Some (Z.of_nat (length deps))) /\
  (forall d, st.2 !! d = if decide (d ∈ keys)
                         then Some (fst <$> filter (fun nd => d ∈ nd.2) done) else None).

Lemma add_edges_spec keys done node deps st :
  edges_inv keys done st -> node ∈ keys -> node ∉ done.*1 -> NoDup deps ->
  (forall dep, dep ∈ deps -> dep ∈ keys) ->
  exists st', add_edges st (node, deps) = Ok st' /\ edges_inv keys (done ++ [(node, deps)]) st'.
Proof.
  intros (Hk & Hdeg & Hra) Hin Hnew Hnd Hcl. unfold add_edges.
  destruct (reverse_fold_spec node deps st.2 Hnd) as (ra' & -> & Hra').
  { intros dep Hdep. rewrite Hra, decide_True by auto. done. }
  eexists. split; [done|]. split_and!; simpl.
  - rewrite dkeys_insert. destruct (st.1 !! node) eqn:E; [done|].
    apply dict_lookup_None_key in E. by rewrite Hk in E.
  - intros n ds. rewrite elem_of_app, list_elem_of_singleton, dict_lookup_insert. intros [Hd|[= -> ->]].
    + rewrite decide_False; [by apply Hdeg|]. intros ->. apply Hnew.
      apply list_elem_of_fmap. by exists (node, ds).
    + by rewrite decide_True.
  - intros d. rewrite Hra', Hra, list.filter_app, fmap_app.
    rewrite filter_cons, filter_nil. simpl. destruct (decide (d ∈ deps)) as [Hd|Hd].
    + by rewrite !(decide_True (P := d ∈ keys)) by auto.
    + case_decide; [|done]. simpl. by rewrite app_nil_r.
Qed.

Lemma add_edges_fold keys done rest st :
  edges_inv keys done st -> NoDup (done ++ rest).*1 -> (forall n, n ∈ rest.*1 -> n ∈ keys) ->
  (forall node deps, (node, deps) ∈ rest -> NoDup deps /\ forall dep, dep ∈ deps -> dep ∈ keys) ->
  exists st', rfold add_edges st rest = Ok st' /\ edges_inv keys (done ++ rest) st'.
Proof.
  revert done st. induction rest as [|[node deps] rest IH]; intros done st Hinv Hnd Hk Hd.
  - exists st. by rewrite app_nil_r.
  - rewrite fmap_app in Hnd. pose proof (proj1 (NoDup_app _ _) Hnd) as (_ & Hdis & Hnd').
    destruct (Hd node deps) as [Hdn Hdc]; [left|].
    destruct (add_edges_spec keys done node deps st Hinv) as (st1 & E1 & Hinv1); try done.
    { apply Hk. left. }
    { intros H. apply (Hdis _ H). left. }
    destruct (IH (done ++ [(node, deps)]) st1 Hinv1) as (st2 & E2 & Hinv2).
    { rewrite <- app_assoc. simpl. by rewrite fmap_app. }
    { intros n Hn. apply Hk. by right. }
    { intros n ds Hin. apply (Hd n ds). by right. }
    exists st2. cbn [rfold]. rewrite E1. simpl. split; [exact E2|]. by rewrite <- app_assoc in Hinv2.
Qed.

(** ** Kahn's loop *)

(** The dependencies of [node] not yet done. *)
Definition pending (graph : graph_t) (res : list string) (node : string) : list string :=
  filter (fun d => d ∉ res) (deps_of graph node).

Lemma pending_snoc graph res x node :
  pending graph (res ++ [x]) node = filter (fun d => d <> x) (pending graph res node).
Proof.
  unfold pending. induction (deps_of graph node) as [|d l IH]; [done|].
  rewrite !filter_cons. destruct (decide (d ∉ res)) as [Hn|Hn].
  - rewrite filter_cons. destruct (decide (d ∉ res ++ [x])), (decide (d <> x));
      rewrite ?IH; try done; set_solver.
  - rewrite decide_False by set_solver. exact IH.
Qed.

Lemma filter_ne_length (x : string) l :
  NoDup l -> length l = length (filter (fun d => d <> x) l) + (if decide (x ∈ l) then 1 else 0).
Proof.
  induction l as [|d l IH]; intros Hnd; [done|].
  apply NoDup_cons in Hnd as [Hn Hnd]. rewrite filter_cons. specialize (IH Hnd). simpl.
  destruct (decide (d <> x)) as [Hne|Heq].
  - simpl. rewrite IH. assert (x ∈ d :: l <-> x ∈ l) as Hiff by (rewrite elem_of_cons; naive_solver).
    rewrite (decide_ext _ _ _ _ Hiff). lia.
  - apply dec_stable in Heq. subst x. rewrite (decide_True (P := d ∈ d :: l)) by left.
    rewrite (decide_False (P := d ∈ l)) in IH by done. lia.
Qed.

Lemma relax_one deg queue d n :
  deg !! d = Some n ->
  relax (deg, queue) d =
    Ok (<[d := (n - 1)%Z]> deg, if decide (n - 1 = 0)%Z then queue ++ [d] else queue).
Proof. intros Hd. unfold relax; simpl. by rewrite Hd. Qed.

Lemma relax_spec ds deg queue :
  NoDup ds -> (forall x, x ∈ ds -> is_Some (deg !! x)) ->
  exists deg', rfold relax (deg, queue) ds =
      Ok (deg', queue ++ filter (fun x => deg !! x = Some 1%Z) ds) /\
    forall x, deg' !! x = if decide (x ∈ ds) then Z.pred <$> deg !! x else deg !! x.
Proof.
  revert deg queue. induction ds as [|d ds IH]; intros deg queue Hnd Hs.
  - exists deg. simpl. by rewrite app_nil_r.
  - apply NoDup_cons in Hnd as [Hn Hnd]. destruct (Hs d) as [n Hd]; [left|].
    destruct (IH (<[d := (n - 1)%Z]> deg)
                 (if decide (n - 1 = 0)%Z then queue ++ [d] else queue) Hnd) as (deg' & E & Hdeg').
    { intros x Hx. rewrite dict_lookup_insert. case_decide; [done|]. apply Hs. by right. }
    exists deg'. split.
    + cbn [rfold]. rewrite (relax_one deg queue d n Hd). simpl. rewrite E. f_equal. f_equal.
      rewrite filter_cons.
      assert (filter (fun x => <[d:=(n - 1)%Z]> deg !! x = Some 1%Z) ds =
              filter (fun x => deg !! x = Some 1%Z) ds) as ->.
      { apply filter_ext_in. intros x Hx. by rewrite dict_lookup_insert_ne by congruence. }
      rewrite Hd. destruct (decide (n = 1)%Z) as [->|Hn1].
      * rewrite !decide_True by done. by rewrite <- app_assoc.
      * rewrite !decide_False by (congruence || lia). done.
    + intros x. rewrite Hdeg', dict_lookup_insert. destruct (decide (x = d)) as [->|Hne].
      * rewrite decide_False, decide_True by (done || left). rewrite Hd. done.
      * apply decide_ext. rewrite elem_of_cons. naive_solver.
Qed.

Section kahn.
Context (graph : graph_t) (Hwf : graph_wf graph).

(** [reverse_adj] lists, for every node, the nodes that depend on it. *)
Definition dependents_ok (ra : dict string (list string)) : Prop :=
  forall d, d ∈ dkeys graph -> exists l, ra !! d = Some l /\ NoDup l /\
    forall x, x ∈ l <-> x ∈ dkeys graph /\ d ∈ deps_of graph x.

Record kahn_inv (deg : dict string Z) (queue res : list string) : Prop := {
  kn_nodup : NoDup (res ++ queue);
  kn_keys : forall n, n ∈ res ++ queue -> n ∈ dkeys graph;
  kn_deg : forall n, n ∈ dkeys graph ->
             deg !! n = Some (Z.of_nat (length (pending graph res n)));
  kn_ready : forall n, n ∈ dkeys graph -> (n ∈ res ++ queue <-> pending graph res n = []);
  kn_topo : topo_order graph res
}.

Lemma pending_nodup res n : NoDup (pending graph res n).
Proof. apply NoDup_filter. apply Hwf. Qed.

Lemma pending_nil res n :
  pending graph res n = [] <-> forall d, d ∈ deps_of graph n -> d ∈ res.
Proof.
  split.
  - intros H d Hd. apply dec_stable. intros Hn. apply (not_elem_of_nil d). rewrite <- H.
    by apply list_elem_of_filter.
  - intros H. apply list_eq_nil. intros d [Hn Hd]%list_elem_of_filter. by apply Hn, H.
Qed.

Lemma topo_order_snoc res n :
  topo_order graph res -> pending graph res n = [] -> topo_order graph (res ++ [n]).
Proof.
  intros Ht Hp pre x post E. rewrite pending_nil in Hp. destruct post as [|y post _] using rev_ind.
  - apply app_inj_tail in E as [-> ->]. exact Hp.
  - rewrite app_comm_cons, app_assoc in E. apply app_inj_tail in E as [E _]. by apply (Ht _ _ post).
Qed.

Lemma kahn_inv_step ra deg node queue res :
  dependents_ok ra -> kahn_inv deg (node :: queue) res ->
  exists ds deg' queue', ra !! node = Some ds /\ rfold relax (deg, queue) ds = Ok (deg', queue') /\
    kahn_inv deg' queue' (res ++ [node]).
Proof.
  intros Hra [Hnd Hk Hdeg Hready Htopo].
  assert (Hnode : node ∈ dkeys graph) by (apply Hk; set_solver).
  destruct (Hra node Hnode) as (ds & Hds & Hdsnd & Hdsin).
  destruct (relax_spec ds deg queue Hdsnd) as (deg' & E & Hdeg').
  { intros x [Hx _]%Hdsin. rewrite Hdeg; [by eexists|done]. }
  assert (Hnres : node ∉ res) by (apply NoDup_app in Hnd as (_ & Hd & _); set_solver).
  assert (Hlen : forall n, n ∈ dkeys graph -> length (pending graph res n) =
            length (pending graph (res ++ [node]) n) + (if decide (n ∈ ds) then 1 else 0)).
  { intros n Hn. rewrite pending_snoc, (filter_ne_length node) by apply pending_nodup.
    f_equal. apply decide_ext. rewrite Hdsin. unfold pending. rewrite list_elem_of_filter. naive_solver. }
  exists ds, deg', (queue ++ filter (fun x => deg !! x = Some 1%Z) ds). split_and!; [done|done|].
  assert (Hready' : forall n, n ∈ dkeys graph ->
    (n ∈ (res ++ [node]) ++ queue ++ filter (fun x => deg !! x = Some 1%Z) ds <->
     pending graph (res ++ [node]) n = [])).
  { intros n Hn. rewrite <- app_assoc. simpl. rewrite app_comm_cons, app_assoc, elem_of_app.
    rewrite (Hready n Hn), list_elem_of_filter, Hdeg by done. specialize (Hlen n Hn).
    rewrite <- !length_zero_iff_nil. destruct (decide (n ∈ ds)) as [Hin|Hin]; split.
    - intros [H|[[= H] _]]; lia.
    - intros H. right. split; [f_equal; lia|done].
    - intros [H|[_ H]]; [lia|done].
    - intros H. left. lia. }
  split; [| | |exact Hready'|].
  - rewrite <- app_assoc. simpl. rewrite app_comm_cons, app_assoc. apply NoDup_app.
    split_and!; [done| |by apply NoDup_filter].
    intros x Hx [Hd Hxds]%list_elem_of_filter.
    apply Hready in Hx; [|by apply Hk]. rewrite Hdeg in Hd by (by apply Hdsin). by rewrite Hx in Hd.
  - intros n. rewrite <- app_assoc. simpl. rewrite app_comm_cons, app_assoc, elem_of_app.
    intros [Hn|[_ Hn%Hdsin]%list_elem_of_filter]; [by apply Hk|by apply Hn].
  - intros n Hn. rewrite Hdeg', Hdeg by done. specialize (Hlen n Hn).
    case_decide; simpl; f_equal; lia.
  - apply topo_order_snoc; [done|]. apply Hready; [done|set_solver].
Qed.

Lemma kahn_spec ra fuel deg queue res :
  dependents_ok ra -> kahn_inv deg queue res -> length (dkeys graph) <= fuel + length res ->
  exists order deg', kahn fuel ra deg queue res = Ok order /\ kahn_inv deg' [] order.
Proof.
  intros Hra. revert deg queue res. induction fuel as [|fuel IH]; intros deg queue res Hinv Hf.
  - destruct queue as [|node queue]; [by exists res, deg|exfalso].
    assert (Hl : length (res ++ node :: queue) <= length (dkeys graph)).
    { apply submseteq_length, NoDup_submseteq; apply Hinv. }
    rewrite length_app in Hl. simpl in Hl. lia.
  - destruct queue as [|node queue]; [by exists res, deg|].
    destruct (kahn_inv_step ra deg node queue res Hra Hinv) as (ds & deg' & queue' & E1 & E2 & Hinv').
    simpl. rewrite E1. simpl. rewrite E2. simpl. apply (IH _ _ _ Hinv').
    rewrite length_app. simpl. lia.
Qed.
End kahn.

Lemma dict_lookup_const {V} (keys : list string) (v : V) k :
  (Dict ((fun node => (node, v)) <$> keys)) !! k = if decide (k ∈ keys) then Some v else None.
Proof.
  unfold lookup, dict_lookup; simpl. induction keys as [|x keys IH]; csimpl; [done|].
  destruct (decide (k = x)) as [->|Hne]; [by rewrite decide_True by left|].
  rewrite IH. apply decide_ext. rewrite elem_of_cons. naive_solver.
Qed.

Lemma dkeys_const {V} (keys : list string) (v : V) : dkeys (Dict ((fun node => (node, v)) <$> keys)) = keys.
Proof. unfold dkeys; simpl. rewrite <- list_fmap_compose. apply list_fmap_id. Qed.

Lemma deps_of_item graph node deps :
  dwf graph -> (node, deps) ∈ ditems graph -> deps_of graph node = deps.
Proof. intros Hwf Hin. unfold deps_of. by rewrite (dict_in_lookup node deps). Qed.

Lemma item_deps_of graph node :
  node ∈ dkeys graph -> (node, deps_of graph node) ∈ ditems graph.
Proof.
  intros Hn. unfold deps_of. destruct (graph !! node) as [deps|] eqn:E; simpl.
  - by apply dict_lookup_Some_in.
  - by apply dict_lookup_None_key in E.
Qed.

Section start.
Context (graph : graph_t) (Hwf : graph_wf graph).
Context (st : dict string Z * dict string (list string)).
Context (Hst : edges_inv (dkeys graph) (ditems graph) st).

Lemma edges_degree n : n ∈ dkeys graph -> st.1 !! n = Some (Z.of_nat (length (deps_of graph n))).
Proof. intros Hn. apply Hst. by apply item_deps_of. Qed.

Lemma pending_start n : pending graph [] n = deps_of graph n.
Proof.
  unfold pending. induction (deps_of graph n) as [|d l IH]; [done|].
  rewrite filter_cons, decide_True by apply not_elem_of_nil. by rewrite IH.
Qed.

Lemma edges_dependents : dependents_ok graph st.2.
Proof.
  destruct Hst as (_ & _ & Hra), Hwf as [Hd _]. intros d Hk. eexists.
  split; [by rewrite Hra, decide_True|]. split; [by apply fmap_filter_NoDup|].
  intros x. rewrite list_elem_of_fmap. split.
  - intros ([y ds] & -> & [Hin Hit]%list_elem_of_filter). simpl in *.
    rewrite (deps_of_item _ _ _ Hd Hit). split; [|done].
    unfold dkeys. apply list_elem_of_fmap. by exists (y, ds).
  - intros [Hx Hdep]. exists (x, deps_of graph x). split; [done|].
    apply list_elem_of_filter. split; [done|]. by apply item_deps_of.
Qed.

Lemma start_queue n :
  n ∈ fst <$> filter (fun nd => nd.2 = 0%Z) (ditems st.1) <->
  n ∈ dkeys graph /\ deps_of graph n = [].
Proof.
  assert (Hwf1 : dwf st.1) by (unfold dwf; rewrite (proj1 Hst); apply Hwf).
  rewrite list_elem_of_fmap. split.
  - intros ([y z] & -> & [Hz Hin]%list_elem_of_filter). simpl in *. subst.
    apply dict_in_lookup in Hin; [|done].
    assert (Hy : y ∈ dkeys graph).
    { rewrite <- (proj1 Hst). apply dec_stable. intros Hn%dict_lookup_None_key. congruence. }
    split; [done|]. rewrite edges_degree in Hin by done. apply length_zero_iff_nil.
    injection Hin. lia.
  - intros [Hn Hnil]. exists (n, 0%Z). split; [done|]. apply list_elem_of_filter.
    split; [done|]. apply dict_lookup_Some_in. rewrite edges_degree by done. simpl. by rewrite Hnil.
Qed.

Lemma kahn_inv_start :
  kahn_inv graph st.1 (fst <$> filter (fun nd => nd.2 = 0%Z) (ditems st.1)) [].
Proof.
  assert (Hwf1 : dwf st.1) by (unfold dwf; rewrite (proj1 Hst); apply Hwf).
  split; simpl.
  - by apply fmap_filter_NoDup.
  - intros n Hn. by destruct (proj1 (start_queue n) Hn).
  - intros n Hn. rewrite pending_start. by apply edges_degree.
  - intros n Hn. rewrite start_queue, pending_start. naive_solver.
  - intros [|? ?] n post E'; discriminate E'.
Qed.
End start.

(** The sort before its test: Kahn's loop ends, with an invariant state and an empty queue. *)
Lemma topological_sort_unfold graph :
  graph_wf graph -> closed graph ->
  exists order deg, kahn_inv graph deg [] order /\
    topological_sort graph =
      if decide (length order <> length (ditems graph))
      then Raise (CycleError (_find_cycle graph (filter (fun n => n ∉ order) (dkeys graph))))
      else Ok order.
Proof.
  intros Hwf Hcl. pose proof Hwf as [Hd Hnd].
  destruct (add_edges_fold (dkeys graph) [] (ditems graph)
    (Dict ((fun node => (node, 0%Z)) <$> dkeys graph), Dict ((fun node => (node, [])) <$> dkeys graph)))
    as (st & E & Hst).
  - split_and!; simpl; [apply dkeys_const|by intros n ds ?%not_elem_of_nil|].
    intros d. apply dict_lookup_const.
  - exact Hd.
  - done.
  - intros n ds Hin. pose proof (deps_of_item _ _ _ Hd Hin) as <-. split; [apply Hnd|].
    intros dep. apply Hcl.
  - destruct (kahn_spec graph Hwf st.2 (length (ditems graph)) st.1 _ []
      (edges_dependents graph Hwf st Hst) (kahn_inv_start graph Hwf st Hst))
      as (order & deg' & E' & Hinv).
    { unfold dkeys. rewrite length_fmap. simpl. lia. }
    exists order, deg'. split; [done|]. unfold topological_sort. rewrite E. simpl. rewrite E'. simpl.
    destruct (ditems graph) as [|it items] eqn:Hit; [|done].
    destruct order as [|n order]; [done|].
    destruct (not_elem_of_nil n). pose proof (kn_keys _ _ _ _ Hinv n) as Hn.
    unfold dkeys in Hn. rewrite Hit in Hn. apply Hn. left.
Qed.

(** ** The reported cycle *)

Lemma walk_snoc graph p a b : walk graph (p ++ [a]) -> b ∈ deps_of graph a -> walk graph (p ++ [a; b]).
Proof.
  intros Hw Hb pre x y post E. destruct post as [|z post _] using rev_ind.
  - replace (pre ++ [x; y]) with ((pre ++ [x]) ++ [y]) in E by (by rewrite <- app_assoc).
    replace (p ++ [a; b]) with ((p ++ [a]) ++ [b]) in E by (by rewrite <- app_assoc).
    apply app_inj_tail in E as [E ->]. apply app_inj_tail in E as [_ ->]. done.
  - replace (p ++ [a; b]) with ((p ++ [a]) ++ [b]) in E by (by rewrite <- app_assoc).
    rewrite !app_comm_cons, app_assoc in E. apply app_inj_tail in E as [E _].
    apply (Hw pre x y post). by rewrite E.
Qed.

Lemma walk_drop graph n p : walk graph p -> walk graph (drop n p).
Proof.
  intros Hw pre a b post E. apply (Hw (take n p ++ pre) a b post).
  by rewrite <- app_assoc, <- E, take_drop.
Qed.

Lemma walk_app_l graph p q : walk graph (p ++ q) -> walk graph p.
Proof. intros Hw pre a b post E. apply (Hw pre a b (post ++ q)). rewrite E. by rewrite <- app_assoc. Qed.

Lemma index_of_drop node p :
  node ∈ p -> exists rest, drop (index_of node p) p = node :: rest.
Proof.
  induction p as [|x p IH]; simpl; [by intros ?%not_elem_of_nil|].
  case_decide as E; [subst; by eexists|]. intros [->|H]%elem_of_cons; [done|]. by apply IH.
Qed.

(** A search that found nothing left the path as it was. *)
Lemma dfs_deps_path rec remaining deps st st' :
  (forall n s s', rec n s = (None, s') -> path s' = path s) ->
  dfs_deps rec remaining deps st = (None, st') -> path st' = path st.
Proof.
  intros Hrec. revert st. induction deps as [|dep deps IH]; intros st; simpl; [by intros [= <-]|].
  case_decide; [|by apply IH]. destruct (rec dep st) as [[c|] s] eqn:E; [done|].
  intros H'%IH. rewrite H'. by eapply Hrec.
Qed.

Lemma dfs_path fuel graph remaining node st st' :
  dfs fuel graph remaining node st = (None, st') -> path st' = path st.
Proof.
  revert node st st'. induction fuel as [|fuel IH]; intros node st st'; simpl; [by intros [= <-]|].
  case_decide; [done|]. case_decide; [by intros [= <-]|].
  destruct (dfs_deps _ _ _ _) as [[c|] s] eqn:E; [done|]. intros [= <-]. simpl.
  apply dfs_deps_path in E; [|exact IH]. rewrite E. simpl. rewrite length_app. simpl.
  rewrite Nat.add_sub, take_app_le, take_ge by done. done.
Qed.

Lemma index_of_le node p : node ∈ p -> index_of node p <= length p.
Proof.
  induction p as [|x p IH]; simpl; [lia|]. case_decide; [lia|].
  intros [->|Hin]%elem_of_cons; [done|]. specialize (IH Hin). lia.
Qed.

(** What [dfs] returns is a cycle: the path it is on is a walk, and [node] follows its last element. *)
Lemma dfs_sound fuel graph remaining node st c st' :
  walk graph (path st ++ [node]) -> dfs fuel graph remaining node st = (Some c, st') ->
  is_cycle graph c.
Proof.
  revert node st c st'. induction fuel as [|fuel IH]; intros node st c st' Hw; simpl; [done|].
  case_decide as Hin.
  - intros [= <- _]. destruct (index_of_drop node (path st) Hin) as [rest E].
    exists node, rest. split; [by rewrite E|].
    pose proof (walk_drop graph (index_of node (path st)) _ Hw) as H'.
    by rewrite drop_app_le in H' by by apply index_of_le.
  - case_decide as Hv; [done|].
    assert (Hloop : forall deps s c s', (forall d, d ∈ deps -> d ∈ deps_of graph node) ->
      path s = path st ++ [node] ->
      dfs_deps (dfs fuel graph remaining) remaining deps s = (Some c, s') -> is_cycle graph c).
    { induction deps as [|dep deps IHd]; intros s c0 s' Hd Hp; simpl; [done|].
      assert (Hd' : forall d, d ∈ deps -> d ∈ deps_of graph node) by (intros d ?; apply Hd; by right).
      case_decide; [|by apply IHd].
      destruct (dfs fuel graph remaining dep s) as [[c1|] s1] eqn:E.
      - intros [= <- _]. eapply IH; [|exact E]. rewrite Hp, <- app_assoc. apply walk_snoc; [done|].
        apply Hd. left.
      - apply IHd; [done|]. by rewrite (dfs_path _ _ _ _ _ _ E). }
    destruct (dfs_deps _ _ _ _) as [[c1|] s1] eqn:E; [|done].
    intros [= <- _]. by eapply Hloop; [| |exact E].
Qed.

(** When every remaining node has a remaining dependency the search never has to go back. *)
Lemma dfs_complete fuel graph remaining node st :
  (forall n, n ∈ remaining -> exists d, d ∈ deps_of graph n /\ d ∈ remaining) ->
  node ∈ remaining -> visited st = path st -> NoDup (path st) ->
  (forall n, n ∈ path st -> n ∈ remaining) -> length remaining < fuel + length (path st) ->
  exists c st', dfs fuel graph remaining node st = (Some c, st').
Proof.
  intros Hrem. revert node st. induction fuel as [|fuel IH]; intros node st Hn Hv Hnd Hp Hf; simpl.
  - exfalso. assert (length (path st) <= length remaining); [|lia].
    by apply submseteq_length, NoDup_submseteq.
  - case_decide as Hin; [by eexists _, _|]. rewrite decide_False by by rewrite Hv.
    set (st1 := {| visited := _; path := _ |}).
    assert (Hrec : forall d, d ∈ remaining -> exists c st', dfs fuel graph remaining d st1 = (Some c, st')).
    { intros d Hd. apply IH; simpl; [done|by rewrite Hv| | |rewrite length_app; simpl; lia].
      - apply NoDup_app. split_and!; [done|set_solver|apply NoDup_singleton].
      - intros n [Hn'| ->%list_elem_of_singleton]%elem_of_app; auto. }
    destruct (Hrem node Hn) as (d & Hd & Hdr). fold (deps_of graph node).
    assert (Hloop : forall deps, d ∈ deps ->
      exists c st', dfs_deps (dfs fuel graph remaining) remaining deps st1 = (Some c, st')).
    { induction deps as [|dep deps IHd]; simpl; [by intros ?%not_elem_of_nil|].
      intros Hdd. case_decide as Hr.
      - destruct (Hrec dep Hr) as (c & st' & ->). by eexists _, _.
      - apply IHd. apply elem_of_cons in Hdd as [->|?]; done. }
    destruct (Hloop _ Hd) as (c & st' & ->). by eexists _, _.
Qed.

Lemma find_cycle_spec graph remaining :
  remaining <> [] ->
  (forall n, n ∈ remaining -> exists d, d ∈ deps_of graph n /\ d ∈ remaining) ->
  is_cycle graph (_find_cycle graph remaining).
Proof.
  intros Hne Hrem. unfold _find_cycle. destruct remaining as [|r rs]; [done|].
  set (remaining := r :: rs) in *. change (dfs_roots _ graph remaining remaining _) with
    (dfs_roots (S (length remaining)) graph remaining (r :: rs) {| visited := []; path := [] |}).
  cbn [dfs_roots].
  destruct (dfs_complete (S (length remaining)) graph remaining r {| visited := []; path := [] |})
    as (c & st' & E); try done.
  - left.
  - apply NoDup_nil_2.
  - by intros n ?%not_elem_of_nil.
  - simpl. lia.
  - rewrite E. simpl. eapply dfs_sound; [|exact E]. simpl.
    intros [|? [|? ?]] a b post E'; discriminate E'.
Qed.

(** ** Depths *)

Lemma collect_spec (depth : dict string Z) deps acc :
  (forall dep, dep ∈ deps -> is_Some (depth !! dep)) ->
  exists ds, rfold (fun acc dep => d ← or_raise (depth !! dep) (KeyError dep); Ok (acc ++ [d])) acc deps
      = Ok (acc ++ ds) /\ Forall2 (fun dep d => depth !! dep = Some d) deps ds.
Proof.
  revert acc. induction deps as [|dep deps IH]; intros acc Hs.
  - exists []. by rewrite app_nil_r.
  - destruct (Hs dep) as [d Hd]; [left|].
    destruct (IH (acc ++ [d])) as (ds & E & HF); [by intros x Hx; apply Hs; right|].
    exists (d :: ds). cbn [rfold]. rewrite Hd. simpl. rewrite E, <- app_assoc. split; [done|].
    by constructor.
Qed.

Lemma py_max_ge l x : x ∈ l -> (x <= py_max l)%Z.
Proof.
  induction l as [|y l IH]; simpl; [by intros ?%not_elem_of_nil|].
  intros [->|H]%elem_of_cons; [lia|]. specialize (IH H). lia.
Qed.

Lemma py_max_in l : Forall (fun x => 0 <= x)%Z l -> l <> [] -> py_max l ∈ l.
Proof.
  induction 1 as [|x l Hx Hl IH]; [done|]. intros _. simpl.
  destruct l as [|y l]; [simpl; rewrite Z.max_l by lia; left|].
  destruct (Z.max_spec x (py_max (y :: l))) as [[_ ->]|[_ ->]]; [right; by apply IH|left].
Qed.

Record depth_inv (graph : graph_t) (pre : list string) (depth : dict string Z) : Prop := {
  di_keys : dkeys depth = pre;
  di_depth : forall n, n ∈ pre -> exists d, depth !! n = Some d /\ (0 <= d)%Z /\
    (forall dep, dep ∈ deps_of graph n -> exists d', depth !! dep = Some d' /\ (0 <= d' < d)%Z) /\
    ((0 < d)%Z -> exists dep, dep ∈ deps_of graph n /\ depth !! dep = Some (d - 1)%Z)
}.

Lemma depth_inv_insert graph pre depth node d :
  depth_inv graph pre depth -> node ∉ pre -> (0 <= d)%Z ->
  (forall dep, dep ∈ deps_of graph node -> exists d', depth !! dep = Some d' /\ (0 <= d' < d)%Z) ->
  ((0 < d)%Z -> exists dep, dep ∈ deps_of graph node /\ depth !! dep = Some (d - 1)%Z) ->
  depth_inv graph (pre ++ [node]) (<[node := d]> depth).
Proof.
  intros [Hk Hd] Hn Hd0 Hlt Heq.
  assert (Hlook : depth !! node = None) by (apply dict_lookup_None_key; by rewrite Hk).
  assert (Hold : forall k v, depth !! k = Some v -> <[node := d]> depth !! k = Some v).
  { intros k v Hv. rewrite dict_lookup_insert_ne; [done|congruence]. }
  split; [by rewrite dkeys_insert, Hlook, Hk|].
  intros n [Hin| ->%list_elem_of_singleton]%elem_of_app.
  - destruct (Hd n Hin) as (dn & E & H0 & H1 & H2). exists dn. split_and!; [by apply Hold|done| |].
    + intros dep (d' & E' & ?)%H1. exists d'. split; [by apply Hold|done].
    + intros (dep & ? & E')%H2. exists dep. split; [done|by apply Hold].
  - exists d. split_and!; [apply dict_lookup_insert_eq|done| |].
    + intros dep (d' & E' & ?)%Hlt. exists d'. split; [by apply Hold|done].
    + intros (dep & ? & E')%Heq. exists dep. split; [done|by apply Hold].
Qed.

Lemma add_depth_spec graph pre depth node :
  depth_inv graph pre depth -> node ∉ pre -> (forall dep, dep ∈ deps_of graph node -> dep ∈ pre) ->
  exists depth', add_depth graph depth node = Ok depth' /\ depth_inv graph (pre ++ [node]) depth'.
Proof.
  intros Hinv Hn Hdeps. unfold add_depth. fold (deps_of graph node).
  destruct (deps_of graph node) as [|dep deps] eqn:E.
  - eexists. split; [done|]. apply depth_inv_insert; try done. rewrite E.
    by intros dep ?%not_elem_of_nil.
  - rewrite <- E in *. destruct (collect_spec depth (deps_of graph node) []) as (ds & Ec & HF).
    { intros d Hd%Hdeps. destruct (di_depth _ _ _ Hinv d Hd) as (? & ? & _). by eexists. }
    rewrite Ec. simpl. eexists. split; [done|].
    assert (Hds : forall d, d ∈ ds -> exists dep, dep ∈ deps_of graph node /\ depth !! dep = Some d).
    { intros d (i & Hi)%list_elem_of_lookup. destruct (Forall2_lookup_r _ _ _ _ _ HF Hi) as (x & Hx & ?).
      exists x. split; [by eapply list_elem_of_lookup_2|done]. }
    assert (Hds0 : Forall (fun d => 0 <= d)%Z ds).
    { apply Forall_forall. intros d (x & Hx & Ed)%Hds.
      destruct (di_depth _ _ _ Hinv x (Hdeps x Hx)) as (d' & E' & ? & _). congruence. }
    assert (Hne : ds <> []) by (intros ->; rewrite E in HF; by apply Forall2_nil_inv_r in HF).
    pose proof (py_max_in ds Hds0 Hne) as Hmax. rewrite Forall_forall in Hds0.
    apply depth_inv_insert; try done; [specialize (Hds0 _ Hmax); lia| |].
    + intros x (i & Hi)%list_elem_of_lookup. destruct (Forall2_lookup_l _ _ _ _ _ HF Hi) as (d & Hd & Ed).
      exists d. split; [done|]. apply list_elem_of_lookup_2 in Hd.
      pose proof (py_max_ge ds d Hd). specialize (Hds0 d Hd). lia.
    + intros _. rewrite Z.add_simpl_r. by apply Hds.
Qed.

Lemma add_depth_fold graph pre post depth :
  depth_inv graph pre depth -> NoDup (pre ++ post) -> topo_order graph (pre ++ post) ->
  exists depth', rfold (add_depth graph) depth post = Ok depth' /\ depth_inv graph (pre ++ post) depth'.
Proof.
  revert pre depth. induction post as [|node post IH]; intros pre depth Hinv Hnd Ht.
  - exists depth. by rewrite app_nil_r.
  - destruct (add_depth_spec graph pre depth node Hinv) as (d1 & E1 & Hinv1).
    + apply NoDup_app in Hnd as (_ & Hd & _). intros Hin. apply (Hd _ Hin). left.
    + by apply (Ht pre node post).
    + replace (pre ++ node :: post) with ((pre ++ [node]) ++ post) in * by (by rewrite <- app_assoc).
      destruct (IH _ _ Hinv1 Hnd Ht) as (d2 & E2 & Hinv2).
      exists d2. cbn [rfold]. rewrite E1. done.
Qed.

(** Splitting a list by a key in a range is a permutation of it. *)
Lemma concat_insert {A} (F : nat -> list A) (k0 : nat) (x : A) (ks : list nat) :
  NoDup ks -> k0 ∈ ks ->
  concat ((fun k => if decide (k0 = k) then x :: F k else F k) <$> ks) ≡ₚ x :: concat (F <$> ks).
Proof.
  induction ks as [|k ks IH]; intros Hnd Hin; [by apply not_elem_of_nil in Hin|].
  apply NoDup_cons in Hnd as [Hn Hnd]. csimpl. destruct (decide (k0 = k)) as [->|Hne].
  - rewrite (list_fmap_ext _ F ks); [done|]. intros i y Hy.
    rewrite decide_False; [done|]. intros ->. apply Hn. by eapply list_elem_of_lookup_2.
  - apply elem_of_cons in Hin as [->|Hin]; [done|]. rewrite IH by done.
    by rewrite Permutation_middle.
Qed.

Lemma split_by_perm {A B} (f : A -> B) (key : A -> Z) (l : list A) m :
  (forall x, x ∈ l -> (0 <= key x <= Z.of_nat m)%Z) ->
  concat ((fun d => f <$> filter (fun x => key x = Z.of_nat d) l) <$> seq 0 (S m)) ≡ₚ f <$> l.
Proof.
  induction l as [|x l IH]; intros Hk.
  - rewrite (list_fmap_ext _ (fun _ => [])) by done.
    generalize (seq 0 (S m)). intros ks. induction ks; [done|]. csimpl. done.
  - rewrite fmap_cons, <- IH by (intros y Hy; apply Hk; by right).
    rewrite <- (concat_insert _ (Z.to_nat (key x))); [|apply NoDup_seq|].
    + apply eq_subrelation; [typeclasses eauto|]. f_equal. apply list_fmap_ext. intros i d _.
      rewrite filter_cons.
      specialize (Hk x ltac:(left)). destruct (decide (key x = Z.of_nat d)) as [E|E].
      * by rewrite decide_True by lia.
      * by rewrite decide_False by lia.
    + apply elem_of_seq. specialize (Hk x ltac:(left)). lia.
Qed.

(** ** An order excludes a cycle *)

Lemma index_of_app_l x p q : x ∈ p -> index_of x (p ++ q) < length p.
Proof.
  induction p as [|y p IH]; simpl; [by intros ?%not_elem_of_nil|].
  intros [->|H]%elem_of_cons; case_decide; try lia; [done|]. specialize (IH H). lia.
Qed.

Lemma index_of_app_r x p q : x ∉ p -> index_of x (p ++ x :: q) = length p.
Proof.
  induction p as [|y p IH]; simpl; [by case_decide|].
  intros [Hne Hn]%not_elem_of_cons. case_decide; [congruence|]. by rewrite IH.
Qed.

Lemma topo_index graph order a b :
  topo_order graph order -> NoDup order -> a ∈ order -> b ∈ deps_of graph a ->
  index_of b order < index_of a order.
Proof.
  intros Ht Hnd (pre & post & ->)%list_elem_of_split Hb.
  pose proof (Ht pre a post eq_refl b Hb) as Hp.
  apply NoDup_app in Hnd as (_ & Hd & _).
  rewrite index_of_app_r; [by apply index_of_app_l|]. intros Ha. apply (Hd a Ha). left.
Qed.

Lemma walk_index graph order x p y :
  topo_order graph order -> NoDup order -> (forall n d, d ∈ deps_of graph n -> n ∈ order) ->
  walk graph (x :: p ++ [y]) -> index_of y order < index_of x order.
Proof.
  intros Ht Hnd Hin. revert x. induction p as [|z p IH]; intros x Hw.
  - pose proof (Hw [] x y [] eq_refl) as Hy. apply (topo_index graph); eauto.
  - pose proof (Hw [] x z (p ++ [y]) eq_refl) as Hz.
    assert (index_of z order < index_of x order) by (apply (topo_index graph); eauto).
    assert (index_of y order < index_of z order); [|lia].
    apply IH. intros pre a b post E. apply (Hw (x :: pre) a b post). simpl. by rewrite <- E.
Qed.

Lemma topo_no_cycle graph order c :
  topo_order graph order -> NoDup order -> (forall n d, d ∈ deps_of graph n -> n ∈ order) ->
  ~ is_cycle graph c.
Proof.
  intros Ht Hnd Hin (x & p & -> & Hw).
  pose proof (walk_index graph order x p x Ht Hnd Hin Hw). lia.
Qed.

Lemma deps_key graph n d : d ∈ deps_of graph n -> n ∈ dkeys graph.
Proof.
  intros Hd. apply dec_stable. intros Hn%dict_lookup_None_key. unfold deps_of in Hd.
  rewrite Hn in Hd. by apply not_elem_of_nil in Hd.
Qed.

Lemma topological_sort_spec graph :
  graph_wf graph -> closed graph ->
  match topological_sort graph with
  | Ok order => order ≡ₚ dkeys graph /\ topo_order graph order /\ forall c, ~ is_cycle graph c
  | Raise (CycleError c) => is_cycle graph c
  | Raise _ => False
  end.
Proof.
  intros Hwf Hcl. destruct (topological_sort_unfold graph Hwf Hcl) as (order & deg & Hinv & ->).
  pose proof (kn_nodup _ _ _ _ Hinv) as Hnd. rewrite app_nil_r in Hnd.
  assert (Hsub : order ⊆+ dkeys graph).
  { apply NoDup_submseteq; [done|]. intros n Hn. apply (kn_keys _ _ _ _ Hinv). by rewrite app_nil_r. }
  assert (Hlen : length (dkeys graph) = length (ditems graph)) by apply length_fmap.
  case_decide as Hl; simpl.
  - apply find_cycle_spec.
    + intros E. apply Hl. rewrite <- Hlen. apply Nat.le_antisymm; [by apply submseteq_length|].
      apply submseteq_length, NoDup_submseteq; [apply Hwf|]. intros n Hn. apply dec_stable.
      intros Hno. apply (not_elem_of_nil n). rewrite <- E. by apply list_elem_of_filter.
    + intros n [Hn Hk]%list_elem_of_filter.
      assert (Hp : pending graph order n <> []).
      { intros E. apply Hn. pose proof (proj2 (kn_ready _ _ _ _ Hinv n Hk) E) as H'.
        by rewrite app_nil_r in H'. }
      destruct (pending graph order n) as [|d l] eqn:E; [done|].
      assert (Hd : d ∈ pending graph order n) by (rewrite E; left).
      apply list_elem_of_filter in Hd as [Hdo Hdd]. exists d. split; [done|].
      apply list_elem_of_filter. split; [done|]. by apply (Hcl n).
  - assert (Hperm : order ≡ₚ dkeys graph).
    { apply submseteq_length_Permutation; [done|]. by rewrite Hl, Hlen. }
    split_and!; [done|by apply Hinv|]. intros c. eapply topo_no_cycle; [by apply Hinv|done|].
    intros n d Hd%deps_key. by rewrite Hperm.
Qed.

Definition spec_names (tasks : list TaskSpec) : list string :=
  (fun task : TaskSpec => ts_name task) <$> tasks.

(** ** The graph of a task list *)

Lemma fold_deps_lookup (items : list (string * list string)) (g : graph_t) n :
  NoDup items.*1 ->
  foldl (fun g '(task_name, deps) => <[task_name := py_set deps]> g) g items !! n =
    match assoc n items with Some deps => Some (py_set deps) | None => g !! n end.
Proof.
  revert g. induction items as [|[k d] items IH]; intros g Hnd; [done|].
  apply NoDup_cons in Hnd as [Hk Hnd]. simpl. rewrite IH by done. rewrite dict_lookup_insert.
  destruct (decide (n = k)) as [->|]; [|done].
  assert (assoc k items = None) as ->; [|done].
  by apply (dict_lookup_None_key k (Dict items)).
Qed.

Lemma fold_names_lookup (tasks : list TaskSpec) (g : graph_t) n :
  foldl (fun g (task : TaskSpec) => <[ts_name task := []]> g) g tasks !! n =
    if decide (n ∈ spec_names tasks) then Some [] else g !! n.
Proof.
  revert g. induction tasks as [|t tasks IH]; intros g; [done|].
  cbn [foldl]. rewrite IH, dict_lookup_insert. unfold spec_names. rewrite fmap_cons.
  destruct (decide (n ∈ (fun task : TaskSpec => ts_name task) <$> tasks)) as [H|H].
  - rewrite decide_True; [done|by right].
  - apply decide_ext. rewrite elem_of_cons. naive_solver.
Qed.

Section built.
Context (tasks : list TaskSpec) (dependencies : dict string (list string)) (Hwf : dwf dependencies).
Let graph := build_graph tasks dependencies.

Lemma built_lookup n :
  graph !! n = match dependencies !! n with
               | Some deps => Some (py_set deps)
               | None => if decide (n ∈ spec_names tasks) then Some [] else None
               end.
Proof.
  unfold graph, build_graph. rewrite fold_deps_lookup by exact Hwf.
  change (assoc n (ditems dependencies)) with (dependencies !! n).
  destruct (dependencies !! n); [done|].
  by rewrite fold_names_lookup, dict_lookup_empty.
Qed.

Lemma built_deps n dep :
  dep ∈ deps_of graph n <-> exists deps, dependencies !! n = Some deps /\ dep ∈ deps.
Proof.
  unfold deps_of. rewrite built_lookup. destruct (dependencies !! n) as [ds|]; simpl.
  - rewrite elem_of_py_set. naive_solver.
  - split; [|naive_solver]. case_decide; simpl; by intros ?%not_elem_of_nil.
Qed.

Lemma elem_of_dkeys {V} (d : dict string V) n : n ∈ dkeys d <-> d !! n <> None.
Proof.
  split.
  - intros Hn E. by apply dict_lookup_None_key in E.
  - intros H. apply dec_stable. intros Hn. by apply H, dict_lookup_None_key.
Qed.

Lemma built_keys n :
  n ∈ dkeys graph <-> n ∈ spec_names tasks \/ n ∈ dkeys dependencies.
Proof.
  rewrite !elem_of_dkeys, built_lookup.
  destruct (dependencies !! n); [naive_solver|]. case_decide; naive_solver.
Qed.

Lemma built_wf : graph_wf graph.
Proof.
  split.
  - unfold graph, build_graph. generalize (ditems dependencies).
    assert (H : dwf (foldl (fun (g : graph_t) (task : TaskSpec) => <[ts_name task := []]> g) ∅
                 tasks)).
    { generalize tasks, (dwf_empty (K := string) (V := list string)).
      generalize (∅ : graph_t). intros g l. revert g. induction l; intros g Hg; simpl; auto with pydb. }
    revert H. generalize (foldl (fun (g : graph_t) (task : TaskSpec) => <[ts_name task := []]> g) ∅
                 tasks).
    intros g Hg l. revert g Hg. induction l as [|[k d] l IH]; intros g Hg; simpl; auto with pydb.
  - intros n. unfold deps_of. rewrite built_lookup.
    destruct (dependencies !! n); simpl; [apply NoDup_py_set|].
    case_decide; simpl; constructor.
Qed.
End built.

Lemma find_parallel_groups_spec graph order :
  NoDup order -> topo_order graph order ->
  exists groups, find_parallel_groups graph order = Ok groups /\ concat groups ≡ₚ order /\
    forall i g n, groups !! i = Some g -> n ∈ g ->
      (forall dep, dep ∈ deps_of graph n -> exists j g', j < i /\ groups !! j = Some g' /\ dep ∈ g') /\
      (0 < i -> exists dep g', dep ∈ deps_of graph n /\ groups !! (i - 1) = Some g' /\ dep ∈ g').
Proof.
  intros Hnd Ht. unfold find_parallel_groups. destruct order as [|n0 order'].
  { exists []. by split_and!. }
  set (order := n0 :: order') in *.
  destruct (add_depth_fold graph [] order ∅) as (depth & E & [Hk Hd]); [|done|done|].
  { split; [done|]. by intros n ?%not_elem_of_nil. }
  change ([] ++ order) with order in *. rewrite E. eexists. split; [reflexivity|].
  assert (Hwf : dwf depth) by (unfold dwf; by rewrite Hk).
  assert (Hrange : forall nd, nd ∈ ditems depth ->
            (0 <= nd.2 <= Z.of_nat (Z.to_nat (py_max (dvalues depth))))%Z).
  { intros [n d] Hin. simpl. pose proof (py_max_ge (dvalues depth) d) as Hm.
    pose proof (dict_in_lookup n d depth Hwf Hin) as Hl.
    destruct (Hd n) as (d' & E' & ? & _); [|rewrite Hl in E'; simplify_eq].
    - rewrite <- Hk. apply dec_stable. intros Hn%dict_lookup_None_key. congruence.
    - specialize (Hm (dict_lookup_Some_value _ _ _ Hl)). lia. }
  split; [by rewrite (split_by_perm fst snd (ditems depth)), <- Hk|].
  set (m := Z.to_nat _) in *.
  assert (Hgroup : forall n d, depth !! n = Some d -> exists g,
    ((fun d => fst <$> filter (fun nd => nd.2 = Z.of_nat d) (ditems depth)) <$> seq 0 (S m)) !! Z.to_nat d
      = Some g /\ n ∈ g).
  { intros n d Hl%dict_lookup_Some_in. pose proof (Hrange _ Hl) as Hr. simpl in Hr.
    eexists. rewrite list_lookup_fmap, lookup_seq_lt by lia. split; [done|].
    apply list_elem_of_fmap. exists (n, d). split; [done|]. apply list_elem_of_filter.
    split; [simpl; lia|done]. }
  intros i g n. rewrite list_lookup_fmap. intros (d & [-> Hlt]%lookup_seq & ->)%fmap_Some.
  intros ([n' dn] & -> & [Hdn Hin]%list_elem_of_filter)%list_elem_of_fmap. simpl in *. subst dn.
  apply dict_in_lookup in Hin; [|done].
  destruct (Hd n') as (d & E' & _ & H1 & H2).
  { rewrite <- Hk. apply dec_stable. intros Hn%dict_lookup_None_key. congruence. }
  rewrite Hin in E'. injection E' as <-. split.
  - intros dep (d' & Hl & ?)%H1. destruct (Hgroup dep d' Hl) as (g & Hg & ?).
    exists (Z.to_nat d'), g. split; [lia|done].
  - intros Hi. destruct H2 as (dep & Hdep & Hl); [lia|].
    destruct (Hgroup dep _ Hl) as (g & Hg & ?). exists dep, g. split_and!; [done| |done].
    rewrite <- Hg. f_equal. lia.
Qed.

(** ** Main theorems *)

(** C11. The topological sort decides acyclicity.  On a graph whose dependencies are all nodes it
    always finishes: either it returns an ordering of exactly the nodes in which every node follows
    all its dependencies, and then the graph has no cycle; or it raises [CycleError] with a cycle
    that really is one: a closed walk along dependencies. *)
Theorem topological_sort_correct graph :
  graph_wf graph -> closed graph ->
  match topological_sort graph with
  | Ok order => order ≡ₚ dkeys graph /\ topo_order graph order /\ forall c, ~ is_cycle graph c
  | Raise (CycleError c) => is_cycle graph c
  | Raise _ => False
  end.
Proof. apply topological_sort_spec. Qed.

Definition demo_graph : graph_t :=
  Dict [("test", ["build"; "lint"]); ("build", []); ("lint", ["build"]); ("ship", ["test"])]%string.
Definition demo_loop : graph_t :=
  Dict [("s", []); ("a", ["s"; "c"]); ("b", ["a"]); ("c", ["b"]); ("d", ["a"])]%string.

(** A graph given as a literal: its two conditions by evaluation. *)
Lemma graph_wf_items (l : list (string * list string)) :
  NoDup l.*1 -> Forall (fun nd => NoDup nd.2) l -> graph_wf (Dict l).
Proof.
  intros H1 H2. split; [done|]. intros n. unfold deps_of.
  destruct (Dict l !! n) as [ds|] eqn:E; simpl; [|constructor].
  apply dict_lookup_Some_in in E. by rewrite Forall_forall in H2; apply (H2 (n, ds)).
Qed.
Lemma closed_items (l : list (string * list string)) :
  Forall (fun nd => Forall (fun d => d ∈ l.*1) nd.2) l -> closed (Dict l).
Proof.
  intros H2 n d. unfold deps_of. destruct (Dict l !! n) as [ds|] eqn:E; simpl.
  - apply dict_lookup_Some_in in E. rewrite Forall_forall in H2. specialize (H2 _ E). simpl in H2.
    rewrite Forall_forall in H2. apply H2.
  - by intros ?%not_elem_of_nil.
Qed.

Lemma topological_sort_correct_witness :
  topological_sort demo_graph = Ok ["build"; "lint"; "test"; "ship"]%string /\
  (forall c, ~ is_cycle demo_graph c) /\
  topological_sort demo_loop = Raise (CycleError ["a"; "c"; "b"; "a"]%string) /\
  is_cycle demo_loop ["a"; "c"; "b"; "a"]%string.
Proof.
  split; [reflexivity|]. split; [|split; [reflexivity|]].
  - assert (H1 : graph_wf demo_graph).
    { apply graph_wf_items; refine (bool_decide_eq_true_1 _ _); vm_compute; reflexivity. }
    assert (H2 : closed demo_graph).
    { apply closed_items. refine (bool_decide_eq_true_1 _ _). vm_compute. reflexivity. }
    exact (proj2 (proj2 (topological_sort_correct demo_graph H1 H2))).
  - assert (H1 : graph_wf demo_loop).
    { apply graph_wf_items; refine (bool_decide_eq_true_1 _ _); vm_compute; reflexivity. }
    assert (H2 : closed demo_loop).
    { apply closed_items. refine (bool_decide_eq_true_1 _ _). vm_compute. reflexivity. }
    exact (topological_sort_correct demo_loop H1 H2).
Defined.

(** The parallel groups are a schedule.  For an order the sort returned, every task is in exactly
    one group, all its dependencies are in strictly earlier groups - so running the groups one after
    the other, each in parallel, respects every dependency - and a task is never later than it has to
    be: past the first group it has a dependency in the group just before its own. *)
Theorem find_parallel_groups_correct graph order :
  NoDup order -> topo_order graph order ->
  exists groups, find_parallel_groups graph order = Ok groups /\ concat groups ≡ₚ order /\
    forall i g n, groups !! i = Some g -> n ∈ g ->
      (forall dep, dep ∈ deps_of graph n -> exists j g', j < i /\ groups !! j = Some g' /\ dep ∈ g') /\
      (0 < i -> exists dep g', dep ∈ deps_of graph n /\ groups !! (i - 1) = Some g' /\ dep ∈ g').
Proof. apply find_parallel_groups_spec. Qed.

(** A literal order is topological by evaluation. *)
Fixpoint topo_check (graph : graph_t) (pre post : list string) : bool :=
  match post with
  | [] => true
  | n :: post' => forallb (fun d => bool_decide (d ∈ pre)) (deps_of graph n) &&
                  topo_check graph (pre ++ [n]) post'
  end.

Lemma topo_check_sound graph pre post : topo_check graph pre post = true ->
  forall l n r, post = l ++ n :: r -> forall d, d ∈ deps_of graph n -> d ∈ pre ++ l.
Proof.
  revert pre. induction post as [|x post IH]; intros pre Hc l n r E d Hd; [by destruct l|].
  apply andb_true_iff in Hc as [Hx Hc]. destruct l as [|y l]; injection E as -> E.
  - rewrite app_nil_r. rewrite forallb_forall in Hx. apply list_elem_of_In in Hd.
    by eapply bool_decide_eq_true_1, Hx.
  - pose proof (IH _ Hc l n r E d Hd) as H'. by rewrite <- app_assoc in H'.
Qed.

Lemma topo_check_order graph order : topo_check graph [] order = true -> topo_order graph order.
Proof. intros Hc pre n post E d. by apply (topo_check_sound graph [] order Hc pre n post). Qed.

Lemma find_parallel_groups_correct_witness :
  exists groups, find_parallel_groups demo_graph ["build"; "lint"; "test"; "ship"]%string = Ok groups /\
    groups = [["build"]; ["lint"]; ["test"]; ["ship"]]%string /\
    concat groups ≡ₚ ["build"; "lint"; "test"; "ship"]%string.
Proof.
  destruct (find_parallel_groups_correct demo_graph ["build"; "lint"; "test"; "ship"]%string)
    as (groups & E & Hp & _).
  - refine (bool_decide_eq_true_1 _ _). vm_compute. reflexivity.
  - apply topo_check_order. reflexivity.
  - exists groups. split; [exact E|]. split; [|exact Hp]. injection E as <-. reflexivity.
Defined.

(** Adding edges either meets only nodes or stops at the first dependency that is none. *)
Lemma reverse_fold_or (keys : list string) node deps (ra : dict string (list string)) :
  dkeys ra = keys ->
  match rfold (fun (ra : dict string (list string)) dep =>
      l ← or_raise (ra !! dep) (KeyError dep); Ok (<[dep := l ++ [node]]> ra)) ra deps with
  | Ok ra' => dkeys ra' = keys /\ Forall (fun dep => dep ∈ keys) deps
  | Raise e => exists k, e = KeyError k /\ k ∉ keys
  end.
Proof.
  revert ra. induction deps as [|dep deps IH]; intros ra Hk; simpl; [done|].
  destruct (ra !! dep) as [l|] eqn:E; simpl.
  - specialize (IH (<[dep := l ++ [node]]> ra)). rewrite dkeys_insert, E in IH. specialize (IH Hk).
    destruct (rfold _ _ deps); [|done]. destruct IH as [? ?]. split; [done|]. constructor; [|done].
    rewrite <- Hk. apply dec_stable. intros Hn%dict_lookup_None_key. congruence.
  - exists dep. split; [done|]. apply dict_lookup_None_key in E. by rewrite Hk in E.
Qed.

Lemma add_edges_or (keys : list string) nd st :
  dkeys st.2 = keys ->
  match add_edges st nd with
  | Ok st' => dkeys st'.2 = keys /\ Forall (fun dep => dep ∈ keys) nd.2
  | Raise e => exists k, e = KeyError k /\ k ∉ keys
  end.
Proof.
  destruct nd as [node deps]. intros Hk. pose proof (reverse_fold_or keys node deps st.2 Hk) as Hr.
  unfold add_edges. by destruct (rfold _ st.2 deps).
Qed.

Lemma add_edges_fold_or (keys : list string) items st :
  dkeys st.2 = keys ->
  match rfold add_edges st items with
  | Ok st' => Forall (fun nd => Forall (fun dep => dep ∈ keys) nd.2) items
  | Raise e => exists k, e = KeyError k /\ k ∉ keys
  end.
Proof.
  revert st. induction items as [|nd items IH]; intros st Hk; cbn [rfold]; [done|].
  pose proof (add_edges_or keys nd st Hk) as Hr.
  destruct (add_edges st nd) as [st1|e]; simpl; [|exact Hr]. destruct Hr as [Hk' Hf].
  specialize (IH st1 Hk'). unfold mbind, result_bind.
  destruct (rfold add_edges st1 items); [by constructor|done].
Qed.

Lemma topological_sort_unknown graph node dep :
  dwf graph -> dep ∈ deps_of graph node -> dep ∉ dkeys graph ->
  exists k, topological_sort graph = Raise (KeyError k) /\ k ∉ dkeys graph.
Proof.
  intros Hwf Hdep Hno. pose proof (deps_key _ _ _ Hdep) as Hn.
  pose proof (item_deps_of _ _ Hn) as Hin.
  unfold topological_sort. destruct (ditems graph) as [|it items] eqn:E; [by apply not_elem_of_nil in Hin|].
  rewrite <- E in *. clear E it items.
  pose proof (add_edges_fold_or (dkeys graph) (ditems graph)
    (Dict ((fun node => (node, 0%Z)) <$> dkeys graph), Dict ((fun node => (node, [])) <$> dkeys graph))
    (dkeys_const _ _)) as Hf.
  destruct (rfold add_edges _ _) as [st|e].
  - exfalso. rewrite Forall_forall in Hf. specialize (Hf _ Hin). simpl in Hf.
    rewrite Forall_forall in Hf. by apply Hno, Hf.
  - destruct Hf as (k & -> & Hk). by exists k.
Qed.

(** A dependency on a task that does not exist is not reported as a validation error: the sort
    raises [KeyError] for such a name, whatever the rest of the graph is. *)
Theorem topological_sort_unknown_dependency graph node dep :
  dwf graph -> dep ∈ deps_of graph node -> dep ∉ dkeys graph ->
  exists k, topological_sort graph = Raise (KeyError k) /\ k ∉ dkeys graph.
Proof. apply topological_sort_unknown. Qed.

Lemma topological_sort_unknown_dependency_witness :
  exists k, topological_sort (Dict [("a", ["ghost"])]%string) = Raise (KeyError k) /\
    k ∉ dkeys (Dict [("a", ["ghost"])]%string).
Proof.
  apply (topological_sort_unknown_dependency _ "a" "ghost").
  - refine (bool_decide_eq_true_1 _ _). vm_compute. reflexivity.
  - refine (bool_decide_eq_true_1 _ _). vm_compute. reflexivity.
  - refine (bool_decide_eq_true_1 _ _). vm_compute. reflexivity.
Defined.
