(* ===== verification/Locks.v ===== *)
(** scheduler/_locks.py: which paths of two tasks overlap, and the registry of the paths each workflow
    may write. *)
From S2P Require Import Prelude PyDict.

(** [os.sep] *)
Definition sep : string := "/".

(** The path with a trailing separator. *)
Definition with_sep (a : string) : string := if str_suffix sep a then a else (a +:+ sep)%string.

Definition _paths_overlap (a b : string) : bool :=
  if decide (a = b) then true
  else
    let a_prefix := with_sep a in
    let b_prefix := with_sep b in
    str_prefix a_prefix b || str_prefix b_prefix a.

(** [FileLockRegistry._claims] *)
Abbreviation lock_registry := (dict uuid (list string)).

Definition claim_meets (paths claimed : list string) : bool :=
  existsb (fun new_path => existsb (fun claimed_path => _paths_overlap new_path claimed_path) claimed)
    paths.

Definition check_conflict (claims : lock_registry) (paths : list string) : option uuid :=
  fst <$> head (filter (fun wc => claim_meets paths wc.2) (ditems claims)).

Definition claim (workflow_id : uuid) (paths : list string) : M lock_registry unit :=
  claims ← mget;
  match check_conflict claims paths with
  | Some conflict => mthrow (ValueError "Paths conflict with workflow")
  | None => mmod <[workflow_id := py_set paths]>
  end.

Definition release (workflow_id : uuid) : M lock_registry unit := mmod (delete workflow_id).

(** ** The registry as a transition system *)

Inductive lock_step (c : lock_registry) : lock_registry -> Prop :=
| lock_claim wf paths : lock_step c (snd (claim wf paths c))
| lock_release wf : lock_step c (snd (release wf c)).

(** No two workflows hold overlapping paths. *)
Definition exclusive (c : lock_registry) : Prop :=
  forall w1 w2 ps1 ps2 p1 p2, c !! w1 = Some ps1 -> c !! w2 = Some ps2 -> w1 <> w2 ->
    p1 ∈ ps1 -> p2 ∈ ps2 -> _paths_overlap p1 p2 = false.

Lemma str_suffix_sep_app s : str_suffix sep (s +:+ sep) = true.
Proof. induction s as [|a s IH]; [done|]. rewrite str_app_cons. simpl. by rewrite IH, orb_true_r. Qed.

Lemma with_sep_suffix a : str_suffix sep (with_sep a) = true.
Proof. unfold with_sep. destruct (str_suffix sep a) eqn:E; [done|apply str_suffix_sep_app]. Qed.

Lemma with_sep_prefix a b :
  str_prefix (with_sep a) (with_sep b) = true ->
  a = b \/ str_prefix (with_sep a) b = true \/ str_prefix (with_sep b) a = true.
Proof.
  intros H. unfold with_sep in H at 2. destruct (str_suffix sep b) eqn:Eb; [by right; left|].
  apply str_prefix_snoc in H as [H|H]; [by right; left|].
  assert (Eb' : with_sep b = (b +:+ sep)%string) by (unfold with_sep; by rewrite Eb).
  unfold with_sep in H. destruct (str_suffix sep a) eqn:Ea.
  - right; right. rewrite Eb', H. apply str_prefix_spec. exists ""%string.
    by rewrite str_app_nil_r.
  - apply str_app_snoc_inj in H as [-> _]. by left.
Qed.

Lemma paths_overlap_sym a b : _paths_overlap a b = _paths_overlap b a.
Proof.
  unfold _paths_overlap. rewrite (decide_ext (a = b) (b = a)) by done.
  case_decide; [done|apply orb_comm].
Qed.

Lemma check_conflict_None c paths :
  check_conflict c paths = None <-> forall w ps, (w, ps) ∈ ditems c -> claim_meets paths ps = false.
Proof.
  unfold check_conflict. split.
  - intros H w ps Hin. destruct (claim_meets paths ps) eqn:E; [|done]. exfalso.
    assert (Hf : (w, ps) ∈ filter (fun wc : uuid * list string => claim_meets paths wc.2) (ditems c)).
    { apply list_elem_of_filter. simpl. by rewrite E. }
    destruct (filter _ (ditems c)); [by apply not_elem_of_nil in Hf|done].
  - intros H. rewrite (list_eq_nil (filter _ (ditems c))); [done|].
    intros [w ps] [Hm Hin]%list_elem_of_filter. simpl in Hm. by rewrite (H w ps Hin) in Hm.
Qed.

Lemma claim_meets_false paths ps p q :
  claim_meets paths ps = false -> p ∈ paths -> q ∈ ps -> _paths_overlap p q = false.
Proof.
  intros H Hp Hq. destruct (_paths_overlap p q) eqn:E; [|done].
  rewrite <- H. symmetry. apply existsb_exists. exists p. split; [by apply list_elem_of_In|].
  apply existsb_exists. exists q. split; [by apply list_elem_of_In|done].
Qed.

Lemma exclusive_step c c' : exclusive c -> lock_step c c' -> exclusive c'.
Proof.
  intros Hex Hs. destruct Hs as [wf paths|wf].
  - unfold claim, mbind, M_bind; simpl. destruct (check_conflict c paths) eqn:E; [done|]. simpl.
    pose proof (proj1 (check_conflict_None c paths) E) as Hno.
    intros w1 w2 ps1 ps2 p1 p2. rewrite !dict_lookup_insert.
    destruct (decide (w1 = wf)) as [->|H1], (decide (w2 = wf)) as [->|H2]; [done| | |by apply Hex].
    + intros [= <-] Hl _ Hp1 Hp2.
      rewrite elem_of_py_set in Hp1.
      apply (claim_meets_false paths ps2); [by eapply Hno, dict_lookup_Some_in|done|done].
    + intros Hl [= <-] _ Hp1 Hp2. rewrite elem_of_py_set in Hp2. rewrite paths_overlap_sym.
      apply (claim_meets_false paths ps1); [by eapply Hno, dict_lookup_Some_in|done|done].
  - intros w1 w2 ps1 ps2 p1 p2. simpl. rewrite !dict_lookup_delete.
    repeat case_decide; try done. apply Hex.
Qed.

(** ** Main theorems *)

(** Path overlap is containment of directories: two paths overlap exactly when, each written with
    a trailing separator, one is a prefix of the other.  So it does not matter whether a directory is
    written with its separator, and /src/a does not meet /src/abc. *)
Theorem paths_overlap_containment a b :
  _paths_overlap a b = str_prefix (with_sep a) (with_sep b) || str_prefix (with_sep b) (with_sep a).
Proof.
  assert (Hext : forall x y, str_prefix x y = true -> str_prefix x (with_sep y) = true).
  { intros x y H. unfold with_sep. case_match; [done|]. by apply str_prefix_app. }
  apply eq_bool_prop_intro. unfold _paths_overlap. case_decide as E; rewrite !Is_true_true.
  - subst. split; [|done]. intros _. apply orb_true_iff. left. apply str_prefix_spec.
    exists EmptyString. by rewrite str_app_nil_r.
  - rewrite !orb_true_iff. split.
    + intros [H|H]; [left|right]; by apply Hext.
    + intros [[->|[H|H]]%with_sep_prefix|[->|[H|H]]%with_sep_prefix]; auto; done.
Qed.

(** C21. Exclusive write scopes.  After any sequence of claims (accepted or refused) and releases, no two
    workflows hold overlapping paths; and from such a registry a claim is granted - recording exactly
    the claimed set - when no claimed path overlaps a held one, and otherwise raises [ValueError] and
    changes nothing. *)
Theorem claims_exclusive c wf paths :
  rtc lock_step ∅ c ->
  exclusive c /\
  match claim wf paths c with
  | (Ok _, c') => (forall w ps p q, (w, ps) ∈ ditems c -> p ∈ paths -> q ∈ ps -> _paths_overlap p q = false)
                  /\ c' = <[wf := py_set paths]> c /\ exclusive c'
  | (Raise e, c') => (exists w ps p q, (w, ps) ∈ ditems c /\ p ∈ paths /\ q ∈ ps /\ _paths_overlap p q = true)
                     /\ c' = c
  end.
Proof.
  intros Hr. assert (Hex : exclusive c).
  { revert Hr. generalize c. apply (rtc_ind_r exclusive); [by intros ? ? ? ? ? ?|].
    intros; by eapply exclusive_step. }
  split; [done|]. pose proof (exclusive_step _ _ Hex (lock_claim c wf paths)) as Hex'.
  revert Hex'. unfold claim, mbind, M_bind; simpl. destruct (check_conflict c paths) as [w|] eqn:E; simpl.
  - intros _. split; [|done]. unfold check_conflict in E.
    destruct (filter _ (ditems c)) as [|[w' ps] l] eqn:Ef; [done|].
    assert (Hin : (w', ps) ∈ filter (fun wc : uuid * list string => claim_meets paths wc.2) (ditems c)).
    { rewrite Ef. left. }
    apply list_elem_of_filter in Hin as [Hm Hin]. simpl in Hm. apply Is_true_true in Hm.
    apply existsb_exists in Hm as (p & Hp & (q & Hq & Ho)%existsb_exists).
    exists w', ps, p, q. split_and!; [done|by apply list_elem_of_In|by apply list_elem_of_In|done].
  - intros Hex'. split_and!; [|done|done]. intros w ps p q Hin.
    apply claim_meets_false. by eapply check_conflict_None.
Qed.

Lemma claims_exclusive_witness :
  exclusive (snd (claim 1 ["/src/a"%string] ∅)) /\
  claim 2 ["/src/abc"%string] (snd (claim 1 ["/src/a"%string] ∅)) =
    (Ok tt, Dict [(1%Z, ["/src/a"%string]); (2%Z, ["/src/abc"%string])]) /\
  claim 2 ["/src/a/b"%string] (snd (claim 1 ["/src/a"%string] ∅)) =
    (Raise (ValueError "Paths conflict with workflow"), snd (claim 1 ["/src/a"%string] ∅)).
Proof.
  split; [|split; reflexivity].
  apply (claims_exclusive _ 2 ["/src/abc"%string]). apply rtc_once, lock_claim.
Defined.
