(* ===== verification/Validator.v ===== *)
(** scheduler/_validator.py: the validation of a workflow configuration.

    The functions append to a list of messages, as in the source; [Raise] is an exception that escapes
    them. *)
From S2P Require Import Prelude PyDict Types Graph.

(** scheduler/_types.py *)
Record WorkflowConfig := {
  wc_name : string;
  wc_description : string;
  wc_tasks : list TaskSpec;
  wc_dependencies : dict string (list string);
  wc_escalation_policy : EscalationPolicy;
  wc_services : list ServiceConfig
}.

Definition _OUTPUT_SUFFIXES : list string := ["_output"; "_text"; "_result"]%string.

Definition not_none {A} (o : option A) : bool := match o with Some _ => true | None => false end.
Definition truthy (o : option bool) : bool := default false o.

Definition _count_execution_modes (task : TaskSpec) : Z :=
  ((if not_none (ts_agent task) || not_none (ts_task_prompt task) then 1 else 0)
   + (if not_none (ts_callable task) then 1 else 0)
   + (if not_none (ts_subtasks task) then 1 else 0)
   + (if not_none (ts_wait_for task) then 1 else 0)
   + (if not_none (ts_decision_point task) then 1 else 0))%Z.

Definition _has_agent_mode (task : TaskSpec) : bool :=
  not_none (ts_agent task) && not_none (ts_task_prompt task).

(** [if c: errors.append(msg)] *)
Definition err_if (c : bool) (msg : string) (errors : list string) : list string :=
  if c then errors ++ [msg] else errors.

Definition _validate_agent_fields (task : TaskSpec) (errors : list string) : list string :=
  let errors := err_if (not_none (ts_agent task) && negb (not_none (ts_task_prompt task)))
    ("Task '" +:+ ts_name task +:+ "' has 'agent' but missing 'task_prompt'")%string errors in
  let errors := err_if (not_none (ts_task_prompt task) && negb (not_none (ts_agent task)))
    ("Task '" +:+ ts_name task +:+ "' has 'task_prompt' but missing 'agent'")%string errors in
  if _has_agent_mode task then
    let errors := err_if (negb (not_none (ts_timeout task)))
      ("Agent task '" +:+ ts_name task +:+ "' missing 'timeout'")%string errors in
    err_if (negb (not_none (ts_context_refinement task)))
      ("Agent task '" +:+ ts_name task +:+ "' missing 'context_refinement'")%string errors
  else errors.

Definition _validate_conditional_fields (task : TaskSpec) (errors : list string) : list string :=
  let errors :=
    if (0 <? ts_retry task)%Z then
      let errors := err_if (negb (not_none (ts_retry_resume task)))
        ("Task '" +:+ ts_name task +:+ "' has retry > 0 but missing 'retry_resume'")%string errors in
      err_if (negb (not_none (ts_retry_inject_failure task)))
        ("Task '" +:+ ts_name task +:+ "' has retry > 0 but missing 'retry_inject_failure'")%string
        errors
    else errors in
  if not_none (ts_for_each task) then
    let errors := err_if (negb (not_none (ts_for_each_abort_on_failure task)))
      ("Task '" +:+ ts_name task +:+ "' has 'for_each' but missing 'for_each_abort_on_failure'")%string
      errors in
    err_if (negb (not_none (ts_max_concurrency task)))
      ("Task '" +:+ ts_name task +:+ "' has 'for_each' but missing 'max_concurrency'")%string errors
  else errors.

(** The checks of [_validate_task] on the task itself, up to the recursion. *)
Definition validate_fields (headless : bool) (task : TaskSpec) (errors : list string) : list string :=
  let mode_count := _count_execution_modes task in
  let errors :=
    if decide (mode_count = 0%Z) then
      errors ++ [("Task '" +:+ ts_name task +:+ "' has no execution mode")%string]
    else err_if (1 <? mode_count)%Z
      ("Task '" +:+ ts_name task +:+ "' has multiple execution modes")%string errors in
  let errors := _validate_agent_fields task errors in
  let errors := _validate_conditional_fields task errors in
  if headless then
    let errors := err_if (truthy (ts_context_refinement task))
      ("Task '" +:+ ts_name task +:+
       "' has context_refinement=True but no Overseer is configured")%string errors in
    err_if (truthy (ts_decision_point task))
      ("Task '" +:+ ts_name task +:+
       "' is a decision point but no Overseer is configured")%string errors
  else errors.

(** [_validate_task(task, errors, seen_names)]: the errors and the names after it. *)
Fixpoint _validate_task (headless : bool) (task : TaskSpec) (errors seen_names : list string) :
    list string * list string :=
  match task with
  | mkTaskSpec base pre post subtasks =>
      let errors := validate_fields headless (mkTaskSpec base pre post subtasks) errors in
      let errors := err_if (bool_decide (ts_name base ∈ seen_names))
        ("Duplicate task name '" +:+ ts_name base +:+ "'")%string errors in
      let seen_names := seen_names ++ [ts_name base] in
      match subtasks with
      | None => (errors, seen_names)
      | Some subs =>
          let fix go (subs : list TaskSpec) (errors sub_names : list string) : list string :=
            match subs with
            | [] => errors
            | sub :: subs' =>
                let '(errors', sub_names') := _validate_task headless sub errors sub_names in
                go subs' errors' sub_names'
            end in
          (go subs errors [], seen_names)
      end
  end.

(** The same loop over the tasks of the configuration. *)
Fixpoint validate_tasks (headless : bool) (tasks : list TaskSpec) (errors seen_names : list string) :
    list string :=
  match tasks with
  | [] => errors
  | task :: tasks' =>
      let '(errors', seen_names') := _validate_task headless task errors seen_names in
      validate_tasks headless tasks' errors' seen_names'
  end.

Definition task_names (config : WorkflowConfig) : list string :=
  (fun task : TaskSpec => ts_name task) <$> wc_tasks config.

Definition dependency_errors (names : list string) (sd : string * list string)
    (errors : list string) : list string :=
  let errors := err_if (negb (bool_decide (sd.1 ∈ names)))
    ("Dependency source '" +:+ sd.1 +:+ "' not found in tasks")%string errors in
  errors ++ ((fun dep => ("Dependency target '" +:+ dep +:+ "' not found in tasks")%string)
               <$> filter (fun dep => dep ∉ names) sd.2).

(** [' -> '.join(cycle)] *)
Fixpoint join_arrow (l : list string) : string :=
  match l with
  | [] => ""
  | [x] => x
  | x :: l' => x +:+ " -> " +:+ join_arrow l'
  end.

Definition _validate_dependencies (config : WorkflowConfig) (errors : list string) :
    result (list string) :=
  let errors := foldl (fun errors sd => dependency_errors (task_names config) sd errors) errors
                  (ditems (wc_dependencies config)) in
  match topological_sort (build_graph (wc_tasks config) (wc_dependencies config)) with
  | Ok _ => Ok errors
  | Raise (CycleError cycle) => Ok (errors ++ [("Dependency cycle: " +:+ join_arrow cycle)%string])
  | Raise e => Raise e
  end.

Definition output_vars (config : WorkflowConfig) : list string :=
  mbind (fun task : TaskSpec => (fun suffix => (ts_name task +:+ suffix)%string) <$> _OUTPUT_SUFFIXES)
    (wc_tasks config).

Definition workflow_vars (config : WorkflowConfig) : list string :=
  mbind (fun task : TaskSpec => ts_variables task) (wc_tasks config).

(** [sorted(...)] on strings *)
Fixpoint insert_str (x : string) (l : list string) : list string :=
  match l with
  | [] => [x]
  | y :: l' => if String.leb x y then x :: l else y :: insert_str x l'
  end.
Definition sorted_str (l : list string) : list string := foldr insert_str [] l.

Definition _validate_variable_collisions (config : WorkflowConfig) (errors : list string) :
    list string :=
  let collisions := filter (fun v => v ∈ workflow_vars config) (py_set (output_vars config)) in
  errors ++ ((fun var => ("Variable name collision: '" +:+ var +:+
                "' is both a task output and a workflow variable")%string) <$> sorted_str collisions).

Definition validate_task_tree (config : WorkflowConfig) (headless : bool) : result (list string) :=
  let errors := validate_tasks headless (wc_tasks config) [] [] in
  errors ← _validate_dependencies config errors;
  Ok (_validate_variable_collisions config errors).

(** ** What a valid configuration is *)

Definition fields_valid (headless : bool) (task : TaskSpec) : Prop :=
  _count_execution_modes task = 1%Z /\
  (ts_agent task = None <-> ts_task_prompt task = None) /\
  (ts_agent task <> None -> ts_timeout task <> None /\ ts_context_refinement task <> None) /\
  ((0 < ts_retry task)%Z -> ts_retry_resume task <> None /\ ts_retry_inject_failure task <> None) /\
  (ts_for_each task <> None ->
     ts_for_each_abort_on_failure task <> None /\ ts_max_concurrency task <> None) /\
  (headless = true ->
     ts_context_refinement task <> Some true /\ ts_decision_point task <> Some true).

(** A task is valid when its fields are, its subtasks have distinct names and are valid. *)
Inductive task_valid (headless : bool) : TaskSpec -> Prop :=
| task_valid_intro task :
    fields_valid headless task ->
    (forall subs, ts_subtasks task = Some subs ->
       NoDup ((fun sub : TaskSpec => ts_name sub) <$> subs) /\ Forall (task_valid headless) subs) ->
    task_valid headless task.

Definition config_valid (headless : bool) (config : WorkflowConfig) : Prop :=
  NoDup (task_names config) /\
  Forall (task_valid headless) (wc_tasks config) /\
  (forall source deps, (source, deps) ∈ ditems (wc_dependencies config) ->
     source ∈ task_names config /\ forall dep, dep ∈ deps -> dep ∈ task_names config) /\
  (forall c, ~ is_cycle (build_graph (wc_tasks config) (wc_dependencies config)) c) /\
  (forall (t1 t2 : TaskSpec) suffix, t1 ∈ wc_tasks config -> t2 ∈ wc_tasks config -> suffix ∈ _OUTPUT_SUFFIXES ->
     (ts_name t1 +:+ suffix)%string ∉ ts_variables t2).

(** [f] appends messages, and none exactly when [P]. *)
Definition appends (f : list string -> list string) (P : Prop) : Prop :=
  exists msgs, (forall errors, f errors = errors ++ msgs) /\ (msgs = [] <-> P).

Lemma appends_id : appends (fun e => e) True.
Proof. exists []. split; [intros; by rewrite app_nil_r|done]. Qed.

Lemma appends_err_if c msg : appends (err_if c msg) (c = false).
Proof.
  exists (if c then [msg] else []). split; [|by destruct c].
  intros e. destruct c; simpl; [done|by rewrite app_nil_r].
Qed.

Lemma appends_comp f g P Q : appends f P -> appends g Q -> appends (fun e => g (f e)) (P /\ Q).
Proof.
  intros (m1 & H1 & E1) (m2 & H2 & E2). exists (m1 ++ m2). split.
  - intros e. by rewrite H1, H2, app_assoc.
  - rewrite <- E1, <- E2. split; [intros [-> ->]%app_nil; done|by intros [-> ->]].
Qed.

Lemma appends_if (c : bool) f P : (c = true -> appends f P) ->
  appends (fun e => if c then f e else e) (c = true -> P).
Proof.
  destruct c; intros H.
  - destruct (H eq_refl) as (m & Hm & E). exists m. split; [done|]. rewrite E. naive_solver.
  - exists []. split; [intros; by rewrite app_nil_r|done].
Qed.

Lemma appends_iff f P Q : appends f P -> (P <-> Q) -> appends f Q.
Proof. intros (m & H & E) HPQ. exists m. split; [done|]. by rewrite E. Qed.

Lemma not_none_false {A} (o : option A) : not_none o = false <-> o = None.
Proof. by destruct o. Qed.
Lemma not_none_true {A} (o : option A) : not_none o = true <-> o <> None.
Proof. by destruct o. Qed.

Lemma appends_agent_fields task :
  appends (_validate_agent_fields task)
    ((ts_agent task = None <-> ts_task_prompt task = None) /\
     (ts_agent task <> None /\ ts_task_prompt task <> None ->
      ts_timeout task <> None /\ ts_context_refinement task <> None)).
Proof.
  eapply appends_iff.
  { unfold _validate_agent_fields.
    refine (appends_comp _ _ _ _ (appends_comp _ _ _ _ (appends_err_if _ _) (appends_err_if _ _))
              (appends_if _ _ _ (fun _ => appends_comp _ _ _ _ (appends_err_if _ _) (appends_err_if _ _)))). }
  unfold _has_agent_mode.
  destruct (ts_agent task), (ts_task_prompt task), (ts_timeout task), (ts_context_refinement task);
    simpl; naive_solver.
Qed.

Lemma appends_conditional_fields task :
  appends (_validate_conditional_fields task)
    (((0 < ts_retry task)%Z -> ts_retry_resume task <> None /\ ts_retry_inject_failure task <> None) /\
     (ts_for_each task <> None ->
        ts_for_each_abort_on_failure task <> None /\ ts_max_concurrency task <> None)).
Proof.
  eapply appends_iff.
  { unfold _validate_conditional_fields.
    refine (appends_comp _ _ _ _
              (appends_if _ _ _ (fun _ => appends_comp _ _ _ _ (appends_err_if _ _) (appends_err_if _ _)))
              (appends_if _ _ _ (fun _ => appends_comp _ _ _ _ (appends_err_if _ _) (appends_err_if _ _)))). }
  rewrite Z.ltb_lt, not_none_true.
  destruct (ts_retry_resume task), (ts_retry_inject_failure task), (ts_for_each_abort_on_failure task),
    (ts_max_concurrency task); simpl; naive_solver.
Qed.

Lemma appends_modes task :
  appends (fun errors =>
    if decide (_count_execution_modes task = 0%Z) then
      errors ++ [("Task '" +:+ ts_name task +:+ "' has no execution mode")%string]
    else err_if (1 <? _count_execution_modes task)%Z
      ("Task '" +:+ ts_name task +:+ "' has multiple execution modes")%string errors)
    (_count_execution_modes task = 1%Z).
Proof.
  assert (Hc : (0 <= _count_execution_modes task)%Z).
  { unfold _count_execution_modes. repeat case_match; lia. }
  destruct (decide (_count_execution_modes task = 0%Z)) as [E|E].
  - eexists. split; [done|]. rewrite E. done.
  - eapply appends_iff; [apply appends_err_if|]. rewrite Z.ltb_ge. lia.
Qed.

Lemma truthy_false o : truthy o = false <-> o <> Some true.
Proof. destruct o as [[]|]; naive_solver. Qed.

Lemma appends_fields headless task :
  appends (validate_fields headless task) (fields_valid headless task).
Proof.
  eapply appends_iff.
  { unfold validate_fields.
    refine (appends_comp _ _ _ _ (appends_comp _ _ _ _ (appends_comp _ _ _ _ (appends_modes task)
              (appends_agent_fields task)) (appends_conditional_fields task))
              (appends_if _ _ _ (fun _ => appends_comp _ _ _ _ (appends_err_if _ _) (appends_err_if _ _)))). }
  rewrite !truthy_false. unfold fields_valid.
  destruct (ts_agent task), (ts_task_prompt task); naive_solver.
Qed.

(** ** Tasks *)

Definition task_ok (headless : bool) (task : TaskSpec) : Prop :=
  forall seen, exists f, (forall errors, _validate_task headless task errors seen =
      (f errors, seen ++ [ts_name task])) /\
    appends f ((ts_name task ∉ seen) /\ task_valid headless task).

Lemma appends_ext f g P : appends f P -> (forall e, g e = f e) -> appends g P.
Proof. intros (m & H & E) Hfg. exists m. split; [|done]. intros e. by rewrite Hfg, H. Qed.

(** The loop over a list of tasks, once each of its tasks is understood. *)
Lemma validate_tasks_appends headless tasks :
  Forall (task_ok headless) tasks -> forall seen,
  appends (fun errors => validate_tasks headless tasks errors seen)
    ((forall n, n ∈ spec_names tasks -> n ∉ seen) /\ NoDup (spec_names tasks) /\
     Forall (task_valid headless) tasks).
Proof.
  induction 1 as [|task tasks Htask _ IH]; intros seen.
  - eapply appends_iff; [apply appends_id|]. split; [intros _|done].
    split_and!; [by intros n ?%not_elem_of_nil|constructor|constructor].
  - destruct (Htask seen) as (f & Hf & Happ).
    eapply appends_iff.
    { eapply appends_ext; [exact (appends_comp _ _ _ _ Happ (IH (seen ++ [ts_name task])))|].
      intros e. simpl. by rewrite Hf. }
    rewrite Forall_cons. unfold spec_names. rewrite fmap_cons, NoDup_cons. split.
    + intros ((Hn & Hv) & Hd & Hnd & Hvs). split_and!; try done.
      * intros n [->|Hin]%elem_of_cons; [done|]. intros Hs. apply (Hd n Hin). set_solver.
      * intros Hin. apply (Hd _ Hin). set_solver.
    + intros (Hd & (Hn & Hnd) & Hv & Hvs). split_and!; try done; [apply Hd; left|].
      intros n Hin [Hs| ->%list_elem_of_singleton]%elem_of_app; [|done]. apply (Hd n); [by right|done].
Qed.

(** The recursion of [_validate_task] over the subtasks is the loop over a list of tasks. *)
Lemma validate_task_unfold headless base pre post subtasks errors seen :
  _validate_task headless (mkTaskSpec base pre post subtasks) errors seen =
  (let e := err_if (bool_decide (ts_name base ∈ seen))
       ("Duplicate task name '" +:+ ts_name base +:+ "'")%string
       (validate_fields headless (mkTaskSpec base pre post subtasks) errors) in
   match subtasks with Some subs => validate_tasks headless subs e [] | None => e end,
   seen ++ [ts_name base]).
Proof.
  cbn [_validate_task]. destruct subtasks as [subs|]; [|done]. cbn zeta. f_equal.
  generalize (err_if (bool_decide (ts_name base ∈ seen))
       ("Duplicate task name '" +:+ ts_name base +:+ "'")%string
       (validate_fields headless (mkTaskSpec base pre post (Some subs)) errors)) as e.
  generalize (@nil string). induction subs as [|sub subs IH]; intros names e; [done|].
  simpl. destruct (_validate_task headless sub e names) as [e' n']. apply IH.
Qed.

Lemma task_ok_intro headless base pre post subtasks :
  (forall subs, subtasks = Some subs -> Forall (task_ok headless) subs) ->
  task_ok headless (mkTaskSpec base pre post subtasks).
Proof.
  intros Hsubs seen. eexists. split; [intros e; rewrite validate_task_unfold; reflexivity|].
  set (task := mkTaskSpec base pre post subtasks).
  pose proof (appends_comp _ _ _ _ (appends_fields headless task)
    (appends_err_if (bool_decide (ts_name base ∈ seen))
       ("Duplicate task name '" +:+ ts_name base +:+ "'")%string)) as Hown.
  destruct subtasks as [subs|].
  - eapply appends_iff.
    { exact (appends_comp _ _ _ _ Hown (validate_tasks_appends headless subs (Hsubs subs eq_refl) [])). }
    rewrite bool_decide_eq_false. split.
    + intros ((Hf & Hn) & _ & Hnd & Hvs). split; [done|]. constructor; [done|].
      by intros ? [= <-].
    + intros (Hn & Hv). inversion Hv as [t Hf Hs Et]. destruct (Hs subs eq_refl).
      split_and!; try done. by intros n _ ?%not_elem_of_nil.
  - eapply appends_iff; [exact Hown|]. rewrite bool_decide_eq_false. split.
    + intros (Hf & Hn). split; [done|]. by constructor.
    + intros (Hn & Hv). by inversion Hv.
Qed.

Lemma task_ok_all headless task : task_ok headless task.
Proof.
  revert task. fix IH 1. intros [base pre post subtasks]. apply task_ok_intro.
  destruct subtasks as [subs|]; [|done]. intros ? [= <-].
  induction subs as [|sub subs IHs]; constructor; [apply IH|exact IHs].
Qed.

(** ** Dependencies and variables *)

Lemma appends_dependency names source deps :
  appends (dependency_errors names (source, deps))
    (source ∈ names /\ forall dep, dep ∈ deps -> dep ∈ names).
Proof.
  unfold dependency_errors; simpl. eapply appends_iff.
  { eapply (appends_comp _ (fun e => e ++ _)); [apply appends_err_if|]. eexists. split; [done|]. reflexivity. }
  rewrite negb_false_iff, bool_decide_eq_true.
  assert (forall (l : list string) (f : string -> string), f <$> l = [] <-> l = []) as ->
    by (by intros []).
  split; intros [H1 H2]; (split; [done|]).
  - intros dep Hd. apply dec_stable. intros Hn. apply (not_elem_of_nil dep). rewrite <- H2.
    by apply list_elem_of_filter.
  - apply list_eq_nil. intros dep [Hn Hd]%list_elem_of_filter. by apply Hn, H2.
Qed.

Lemma appends_dependencies names items :
  appends (fun errors => foldl (fun errors sd => dependency_errors names sd errors) errors items)
    (forall source deps, (source, deps) ∈ items ->
       source ∈ names /\ forall dep, dep ∈ deps -> dep ∈ names).
Proof.
  induction items as [|[source deps] items IH]; simpl.
  - eapply appends_iff; [apply appends_id|]. split; [|done]. by intros _ s d ?%not_elem_of_nil.
  - eapply appends_iff; [exact (appends_comp _ _ _ _ (appends_dependency names source deps) IH)|].
    split.
    + intros [H1 H2] s d [[= -> ->]|H]%elem_of_cons; [done|by apply H2].
    + intros H. split; [apply H; left|]. intros s d Hin. apply H. by right.
Qed.

Lemma insert_str_perm x l : insert_str x l ≡ₚ x :: l.
Proof.
  induction l as [|y l IH]; simpl; [done|]. case_match; [done|]. rewrite IH. apply Permutation_swap.
Qed.
Lemma sorted_str_perm l : sorted_str l ≡ₚ l.
Proof. induction l as [|x l IH]; simpl; [done|]. by rewrite insert_str_perm, IH. Qed.

Lemma appends_collisions config :
  appends (_validate_variable_collisions config)
    (forall (t1 t2 : TaskSpec) suffix, t1 ∈ wc_tasks config -> t2 ∈ wc_tasks config ->
       suffix ∈ _OUTPUT_SUFFIXES -> (ts_name t1 +:+ suffix)%string ∉ ts_variables t2).
Proof.
  eexists. split; [by unfold _validate_variable_collisions|].
  assert (forall (l : list string) (f : string -> string), f <$> l = [] <-> l = []) as ->
    by (by intros []).
  assert (Hin : forall v, v ∈ sorted_str (filter (fun v => v ∈ workflow_vars config)
                   (py_set (output_vars config))) <->
     exists (t1 t2 : TaskSpec) suffix, t1 ∈ wc_tasks config /\ t2 ∈ wc_tasks config /\
       suffix ∈ _OUTPUT_SUFFIXES /\ v = (ts_name t1 +:+ suffix)%string /\ v ∈ ts_variables t2).
  { intros v. rewrite sorted_str_perm, list_elem_of_filter, elem_of_py_set.
    unfold workflow_vars, output_vars. rewrite !list_elem_of_bind. setoid_rewrite list_elem_of_fmap. split.
    - intros ((t2 & Hv & H2) & (t1 & (suffix & -> & Hs) & H1)). by exists t1, t2, suffix.
    - intros (t1 & t2 & suffix & H1 & H2 & Hs & -> & Hv). split; [by exists t2|].
      exists t1. split; [by exists suffix|done]. }
  split.
  - intros E t1 t2 suffix H1 H2 Hs Hv. apply (not_elem_of_nil (ts_name t1 +:+ suffix)%string).
    rewrite <- E. apply Hin. by exists t1, t2, suffix.
  - intros H. apply list_eq_nil. intros v (t1 & t2 & suffix & H1 & H2 & Hs & -> & Hv)%Hin.
    by apply (H t1 t2 suffix).
Qed.

Lemma validate_tree_unfold headless config :
  exists m, (m = [] <-> NoDup (task_names config) /\ Forall (task_valid headless) (wc_tasks config) /\
     (forall source deps, (source, deps) ∈ ditems (wc_dependencies config) ->
       source ∈ task_names config /\ forall dep, dep ∈ deps -> dep ∈ task_names config)) /\
  exists m', (m' = [] <-> forall (t1 t2 : TaskSpec) suffix, t1 ∈ wc_tasks config -> t2 ∈ wc_tasks config ->
       suffix ∈ _OUTPUT_SUFFIXES -> (ts_name t1 +:+ suffix)%string ∉ ts_variables t2) /\
  validate_task_tree config headless =
    match topological_sort (build_graph (wc_tasks config) (wc_dependencies config)) with
    | Ok _ => Ok (m ++ m')
    | Raise (CycleError cycle) => Ok ((m ++ [("Dependency cycle: " +:+ join_arrow cycle)%string]) ++ m')
    | Raise e => Raise e
    end.
Proof.
  destruct (appends_comp _ _ _ _
    (validate_tasks_appends headless (wc_tasks config)
       (proj2 (Forall_forall _ _) (fun t _ => task_ok_all headless t)) [])
    (appends_dependencies (task_names config) (ditems (wc_dependencies config)))) as (m & Hm & Em).
  destruct (appends_collisions config) as (m' & Hm' & Em').
  exists m. split.
  { rewrite Em. split; [intros ((_ & Hnd & Hv) & Hd); done|intros (Hnd & Hv & Hd)].
    split_and!; try done. by intros n _ ?%not_elem_of_nil. }
  exists m'. split; [done|]. unfold validate_task_tree, _validate_dependencies.
  rewrite (Hm []). simpl. destruct (topological_sort _) as [o|e]; simpl; [by rewrite Hm'|].
  destruct e; simpl; try done. by rewrite Hm'.
Qed.

(** ** Main theorems *)

(** C12. Validation accepts exactly the valid configurations: the list of messages is empty if and only
    if sibling tasks have distinct names at every level, every task at every depth has exactly one
    execution mode and the fields that mode needs (and nothing an overseer would be needed for when
    headless), every dependency joins two declared tasks, the dependency graph has no cycle, and no
    task output has the name of a workflow variable. *)
Theorem validate_task_tree_sound_complete headless config :
  dwf (wc_dependencies config) ->
  validate_task_tree config headless = Ok [] <-> config_valid headless config.
Proof.
  intros Hwf. destruct (validate_tree_unfold headless config) as (m & Em & m' & Em' & ->).
  set (graph := build_graph _ _).
  assert (Hclosed : m = [] -> closed graph).
  { intros (_ & _ & Hd)%Em n dep (ds & Hl & Hin)%built_deps; [|done].
    apply built_keys; [done|]. left. apply dict_lookup_Some_in in Hl. by eapply Hd. }
  pose proof (topological_sort_spec graph (built_wf _ _ Hwf)) as Hts. split.
  - intros E. assert (m = [] /\ m' = [] /\ exists o, topological_sort graph = Ok o) as (Hm & Hm' & o & Ho).
    { destruct (topological_sort graph) as [o|[]]; try discriminate E; injection E as E.
      - apply app_nil in E as [-> ->]. eauto.
      - apply app_nil in E as [E _]. by apply app_nil in E as [_ E]. }
    specialize (Hts (Hclosed Hm)). rewrite Ho in Hts. destruct Hts as (_ & _ & Hac).
    destruct (proj1 Em Hm) as (? & ? & ?). pose proof (proj1 Em' Hm'). by split_and!.
  - intros (Hnd & Hv & Hd & Hac & Hc). assert (Hm : m = []) by (by apply Em).
    specialize (Hts (Hclosed Hm)). pose proof (proj2 Em' Hc). subst m m'.
    destruct (topological_sort graph) as [o|[]]; try done. by destruct (Hac cycle).
Qed.

Definition demo_task (name : string) (vars : list string) : TaskSpec :=
  mkTaskSpec ((TaskBase_default name) .[ts_callable := Some "m:f"%string] .[ts_variables := vars]) [] [] None.
Definition demo_config : WorkflowConfig := {|
  wc_name := "demo"; wc_description := "Two tasks.";
  wc_tasks := [demo_task "a" []; demo_task "b" ["x"%string]];
  wc_dependencies := Dict [("b", ["a"])]%string;
  wc_escalation_policy := CONTINUE_INDEPENDENT; wc_services := [] |}.

Lemma validate_task_tree_sound_complete_witness :
  validate_task_tree demo_config false = Ok [] /\ config_valid false demo_config.
Proof.
  split; [reflexivity|].
  apply (validate_task_tree_sound_complete false demo_config).
  - refine (bool_decide_eq_true_1 _ _). vm_compute. reflexivity.
  - reflexivity.
Defined.

(** A dependency on a name that is neither a task nor a dependency source is not reported in the
    list: [validate_task_tree] raises [KeyError] and the messages collected so far are lost. *)
Theorem validate_unknown_target_raises headless config source deps dep :
  dwf (wc_dependencies config) ->
  wc_dependencies config !! source = Some deps -> dep ∈ deps ->
  dep ∉ task_names config -> dep ∉ dkeys (wc_dependencies config) ->
  exists k, validate_task_tree config headless = Raise (KeyError k).
Proof.
  intros Hwf Hl Hin Hn Hk. destruct (validate_tree_unfold headless config) as (m & _ & m' & _ & ->).
  destruct (topological_sort_unknown (build_graph (wc_tasks config) (wc_dependencies config)) source dep)
    as (k & -> & _).
  - by apply built_wf.
  - apply built_deps; [done|]. by exists deps.
  - rewrite built_keys by done. naive_solver.
  - by exists k.
Qed.

Definition ghost_config : WorkflowConfig := {|
  wc_name := "demo"; wc_description := "A dependency on no task."; wc_tasks := [demo_task "a" []];
  wc_dependencies := Dict [("a", ["ghost"])]%string;
  wc_escalation_policy := CONTINUE_INDEPENDENT; wc_services := [] |}.

Lemma validate_unknown_target_raises_witness :
  exists k, validate_task_tree ghost_config false = Raise (KeyError k).
Proof.
  apply (validate_unknown_target_raises false ghost_config "a" ["ghost"%string] "ghost").
  - refine (bool_decide_eq_true_1 _ _). vm_compute. reflexivity.
  - reflexivity.
  - left.
  - refine (bool_decide_eq_true_1 _ _). vm_compute. reflexivity.
  - refine (bool_decide_eq_true_1 _ _). vm_compute. reflexivity.
Defined.
