(* ===== verification/Verify.v ===== *)
(** verify/_execution.py and verify/_runner.py: running the checks of a task.

    The world [W] the checks act on, the Python modules script checks are loaded from, the agents that
    review, the workflow runner and the repair callbacks are parameters: code outside this component.
    The traceback a failed script check carries in its details is not modelled. *)
From Stdlib Require Import Ascii.
From S2P Require Import Prelude Types.

Section verify.
Context {W : Type}.

(** What [importlib.import_module] and [getattr] find. *)
Inductive loaded :=
| ImportFailed (error : string)
| NoAttribute
| Loaded (func : CheckContext -> M W CheckResult).

Context (load : string -> string -> loaded).
(** [CheckExecutor], pydantic's parser of the verdict, a repair callback, [str(e)] and [repr(s)]. *)
Context (run_consult : string -> string -> list (string * string) -> M W string).
Context (run_workflow_check : Execution -> M W CheckResult).
Context (model_validate_json : string -> result CheckVerdict).
Context (run_fix : uuid -> CheckContext -> M W unit).
Context (exn_str : exn -> string) (repr : string -> string) (str_int : Z -> string).

Definition _format_mechanical_results (results : list CheckResult) : string :=
  match results with
  | [] => "No mechanical check results."
  | _ => String.concat (String "010" "")
           ((fun r => ("- [" +:+ (if passed r then "PASS" else "FAIL") +:+ "] " +:+ message r)%string)
              <$> results)
  end.

Definition _run_script (callable : string) (ctx : CheckContext) : M W CheckResult :=
  match split_colon callable with
  | [module_path; func_name] =>
      match load module_path func_name with
      | ImportFailed e =>
          mret {| passed := false; message := ("Module not found: " +:+ repr module_path)%string;
                  details := Some (DError e); fix_cb := None |}
      | NoAttribute =>
          mret (check_result false ("Function " +:+ repr func_name +:+ " not found in module " +:+
                                    repr module_path)%string)
      | Loaded func =>
          mcatch (func ctx) (fun e =>
            mret {| passed := false; message := ("Script check raised " +:+ exn_str e)%string;
                    details := Some (DError (exn_str e)); fix_cb := None |})
      end
  | _ => mret (check_result false ("Invalid callable path: " +:+ repr callable +:+
                                   " (expected 'module:function')")%string)
  end.

(** The issue with [blocking] derived from its severity. *)
Definition derive_issue (block_threshold : Severity) (issue : CheckIssue) : CheckIssue := {|
  ci_severity := ci_severity issue; ci_file := ci_file issue; ci_line_range := ci_line_range issue;
  ci_description := ci_description issue;
  ci_blocking := (SEVERITY_ORDER block_threshold <=? SEVERITY_ORDER (ci_severity issue))%Z |}.

Definition variable_values (task : string) (ctx : CheckContext)
    (mechanical_results : list CheckResult) : list (string * string) :=
  [ ("task", task); ("agent_output", default "" (cc_agent_output ctx));
    ("mechanical_results", _format_mechanical_results mechanical_results);
    ("task_name", cc_task_name ctx); ("attempt", str_int (cc_attempt ctx)); ("notepad", "") ]%string
  ++ ((fun kv => (("var_" +:+ kv.1)%string, kv.2)) <$> cc_variables ctx).

Definition _run_agent (agent task : string) (block_threshold : Severity) (ctx : CheckContext)
    (mechanical_results : list CheckResult) : M W CheckResult :=
  response ← run_consult agent task (variable_values task ctx mechanical_results);
  match model_validate_json response with
  | Raise e =>
      mret {| passed := false; message := ("Agent returned invalid verdict: " +:+ exn_str e)%string;
              details := Some (DRaw response); fix_cb := None |}
  | Ok verdict =>
      let derived_issues := derive_issue block_threshold <$> cv_issues verdict in
      let ok := negb (existsb ci_blocking derived_issues) in
      mret {| passed := ok; message := cv_summary verdict;
              details := Some (DVerdict derived_issues (cv_criteria_review verdict));
              fix_cb := None |}
  end.

Definition execute_check (execution : Execution) (ctx : CheckContext)
    (mechanical_results : list CheckResult) : M W CheckResult :=
  match execution with
  | ScriptExecution callable => _run_script callable ctx
  | AgentExecution agent task block_threshold _ =>
      _run_agent agent task block_threshold ctx mechanical_results
  | WorkflowExecution _ _ _ _ _ => run_workflow_check execution
  end.

(** The loop of [run_checks]; [results] is the list built so far. *)
Fixpoint check_loop (checks : list Execution) (ctx : CheckContext) (results : list CheckResult) :
    M W (list CheckResult) :=
  match checks with
  | [] => mret results
  | check :: checks' =>
      result ← execute_check check ctx results;
      if passed result then check_loop checks' ctx (results ++ [result])
      else
        match fix_cb result with
        | Some fix_ =>
            (* [try: await fix(ctx); except: append and return] *)
            fixed ← mcatch (run_fix fix_ ctx ;; mret true) (fun _ => mret false);
            if fixed : bool then
              rerun ← execute_check check ctx results;
              if negb (passed rerun) then mret (results ++ [rerun])
              else check_loop checks' ctx (results ++ [rerun])
            else mret (results ++ [result])
        | None => mret (results ++ [result])
        end
  end.

Definition run_checks (checks : list Execution) (ctx : CheckContext) : M W (list CheckResult) :=
  check_loop checks ctx [].

(** ** Lemmas *)

(** [r] is what [check] gave when the results before it were [before]. *)
Definition result_of (ctx : CheckContext) (check : Execution) (before : list CheckResult)
    (r : CheckResult) : Prop :=
  exists w1 w2, execute_check check ctx before w1 = (Ok r, w2).

(** [rs] are results of a prefix of [checks], all passed except perhaps the last; the last one failed
    if the prefix is proper. *)
Inductive check_trace (ctx : CheckContext) : list Execution -> list CheckResult -> list CheckResult -> Prop :=
| ct_done before : check_trace ctx [] before before
| ct_pass check checks before r rs :
    result_of ctx check before r -> passed r = true ->
    check_trace ctx checks (before ++ [r]) rs -> check_trace ctx (check :: checks) before rs
| ct_fail check checks before r :
    result_of ctx check before r -> passed r = false ->
    check_trace ctx (check :: checks) before (before ++ [r]).

Lemma check_loop_trace checks ctx before w rs w' :
  check_loop checks ctx before w = (Ok rs, w') -> check_trace ctx checks before rs.
Proof.
  revert before w. induction checks as [|check checks IH]; intros before w; cbn [check_loop].
  { intros [= -> ->]. constructor. }
  intros (r & w1 & E1 & H)%M_bind_inv_ok.
  assert (Hr : result_of ctx check before r) by (by exists w, w1).
  destruct (passed r) eqn:Ep; [by eapply ct_pass; eauto|].
  destruct (fix_cb r) as [fix_|]; [|injection H as <- _; by apply ct_fail].
  apply M_bind_inv_ok in H as (fixed & w2 & _ & H). destruct fixed.
  - apply M_bind_inv_ok in H as (r2 & w3 & E3 & H).
    assert (Hr2 : result_of ctx check before r2) by (by exists w2, w3).
    destruct (passed r2) eqn:Ep2; simpl in H; [by eapply ct_pass; eauto|].
    injection H as <- _. by apply ct_fail.
  - injection H as <- _. by apply ct_fail.
Qed.

Lemma check_trace_outcome ctx checks before rs :
  check_trace ctx checks before rs ->
  exists new, rs = before ++ new /\ length new <= length checks /\
    (forall i r, new !! i = Some r ->
       exists check, checks !! i = Some check /\ result_of ctx check (before ++ take i new) r) /\
    (all_passed new = true -> length new = length checks) /\
    (all_passed new = false -> exists ok r, new = ok ++ [r] /\ all_passed ok = true /\ passed r = false).
Proof.
  induction 1 as [before|check checks before r rs Hr Hp _ IH|check checks before r Hr Hp].
  - exists []. split; [by rewrite app_nil_r|]. by split_and!.
  - destruct IH as (new & -> & Hlen & Hat & Hall & Hfail). exists (r :: new).
    split; [by rewrite <- app_assoc|]. split; [simpl; lia|]. split_and!.
    + intros [|i] r'; simpl; [intros [= <-]; exists check; by rewrite app_nil_r|].
      intros (c & Hc & Hres)%Hat. exists c. split; [done|]. by rewrite <- app_assoc in Hres.
    + simpl. rewrite Hp. simpl. intros H%Hall. by rewrite H.
    + simpl. rewrite Hp. simpl. intros (ok & r' & -> & Hok & Hr')%Hfail.
      exists (r :: ok), r'. simpl. by rewrite Hp.
  - exists [r]. split; [done|]. split; [simpl; lia|]. split_and!.
    + intros [|i] r'; simpl; [|done]. intros [= <-]. exists check. by rewrite app_nil_r.
    + simpl. by rewrite Hp.
    + intros _. by exists [], r.
Qed.

Definition is_script (e : Execution) : bool :=
  match e with ScriptExecution _ => true | _ => false end.

Lemma run_script_ok callable ctx w : exists r w', _run_script callable ctx w = (Ok r, w').
Proof.
  unfold _run_script. destruct (split_colon callable) as [|m [|f [|]]]; try by eexists _, _.
  destruct (load m f) as [e| |func]; try by eexists _, _.
  unfold mcatch. destruct (func ctx w) as [[r|e] w']; by eexists _, _.
Qed.

Lemma mcatch_fix_ok fix_ ctx w :
  exists b w', mcatch (run_fix fix_ ctx ;; mret true) (fun _ => mret false) w = (Ok b, w').
Proof.
  unfold mcatch, mbind, M_bind. destruct (run_fix fix_ ctx w) as [[u|e] w']; by eexists _, _.
Qed.

Lemma check_loop_scripts checks ctx before w :
  forallb is_script checks = true -> exists rs w', check_loop checks ctx before w = (Ok rs, w').
Proof.
  revert before w. induction checks as [|check checks IH]; intros before w Hs; [by eexists _, _|].
  apply andb_true_iff in Hs as [Hc Hs]. destruct check as [callable| |]; try done.
  cbn [check_loop execute_check]. destruct (run_script_ok callable ctx w) as (r & w1 & E1).
  rewrite (M_bind_ok _ _ _ _ _ E1). destruct (passed r); [by apply IH|].
  destruct (fix_cb r) as [fix_|]; [|by eexists _, _].
  destruct (mcatch_fix_ok fix_ ctx w1) as (fixed & w2 & E2). rewrite (M_bind_ok _ _ _ _ _ E2).
  destruct fixed; [|by eexists _, _].
  destruct (run_script_ok callable ctx w2) as (r2 & w3 & E3). rewrite (M_bind_ok _ _ _ _ _ E3).
  destruct (passed r2); [by apply IH|by eexists _, _].
Qed.

Lemma derive_issue_blocking thr (issues : list CheckIssue) :
  existsb ci_blocking (derive_issue thr <$> issues) = false <->
  forall i, i ∈ issues -> (SEVERITY_ORDER (ci_severity i) < SEVERITY_ORDER thr)%Z.
Proof.
  induction issues as [|i issues IH].
  - split; [|done]. by intros _ i ?%not_elem_of_nil.
  - rewrite fmap_cons. cbn [existsb]. rewrite orb_false_iff, IH. simpl. rewrite Z.leb_gt. split.
    + intros [H1 H2] j [->|Hj]%elem_of_cons; auto.
    + intros H. split; [apply H; left|]. intros j Hj. apply H. by right.
Qed.

(** ** Main theorems *)

(** Checks run in order and stop at the first that fails: the results are results of the first
    checks of the list, each obtained with the results before it as its mechanical results; if all of
    them passed then every check was run, and otherwise exactly the last one failed.  So "all results
    passed" means that every check of the list passed, possibly after its repair. *)
Theorem run_checks_outcome checks ctx w rs w' :
  run_checks checks ctx w = (Ok rs, w') ->
  (forall i r, rs !! i = Some r ->
     exists check, checks !! i = Some check /\ result_of ctx check (take i rs) r) /\
  (all_passed rs = true -> length rs = length checks) /\
  (all_passed rs = false -> exists ok r, rs = ok ++ [r] /\ all_passed ok = true /\ passed r = false /\
     length rs <= length checks).
Proof.
  intros (new & -> & Hlen & Hat & Hall & Hf)%check_loop_trace%check_trace_outcome. simpl.
  split_and!; [done|done|]. intros (ok & r & -> & Hok & Hr)%Hf. by exists ok, r.
Qed.

(** The severities decide: when the reviewing agent's answer parses, the check passes exactly when
    no issue reaches the threshold, whatever the verdict itself claims ("verdict" and "blocking" are
    ignored); when it does not parse the check fails.  It raises only if the consultation does. *)
Theorem run_agent_severity agent task thr ctx mech w response w' :
  run_consult agent task (variable_values task ctx mech) w = (Ok response, w') ->
  exists r, _run_agent agent task thr ctx mech w = (Ok r, w') /\
    match model_validate_json response with
    | Ok verdict => passed r = true <->
        forall i, i ∈ cv_issues verdict -> (SEVERITY_ORDER (ci_severity i) < SEVERITY_ORDER thr)%Z
    | Raise _ => passed r = false
    end.
Proof.
  intros E. unfold _run_agent. rewrite (M_bind_ok _ _ _ _ _ E).
  destruct (model_validate_json response) as [verdict|e]; eexists; (split; [reflexivity|]); [|done].
  simpl. by rewrite negb_true_iff, derive_issue_blocking.
Qed.

(** A script check cannot crash its task: a bad callable path, a missing module or function, an
    exception in the check or in its repair all become failed results; a list of script checks always
    returns its results. *)
Theorem run_checks_scripts_total checks ctx w :
  forallb is_script checks = true -> exists rs w', run_checks checks ctx w = (Ok rs, w').
Proof. apply check_loop_scripts. Qed.
End verify.

(** ** Witnesses *)

(** A module with a check that passes and one that raises, and an agent that answers "ok" or "bad". *)
Definition demo_load (m f : string) : loaded (W := Z) :=
  if decide (f = "good"%string) then Loaded (fun _ => mret (check_result true "fine"))
  else if decide (f = "boom"%string) then Loaded (fun _ => mthrow (OtherError "boom"))
  else NoAttribute.
Definition demo_consult (agent q : string) (vs : list (string * string)) : M Z string := mret "bad"%string.
Definition demo_verdict (s : string) : result CheckVerdict :=
  if decide (s = "bad"%string) then
    Ok {| cv_verdict := "pass"; cv_issues := [{| ci_severity := MAJOR; ci_file := None;
            ci_line_range := None; ci_description := "d"; ci_blocking := false |}];
          cv_criteria_review := []; cv_summary := "s" |}
  else Raise (ValueError "json").
Definition demo_ctx : CheckContext := {|
  cc_variables := []; cc_agent_output := None; cc_run_id := 1; cc_session_id := None;
  cc_task_name := "t"; cc_task_id := 2; cc_attempt := 1; cc_parent_task_id := None |}.
Definition demo_checks : list Execution :=
  [ScriptExecution "m:good"; ScriptExecution "m:boom"; ScriptExecution "m:good"].
Definition demo_run (checks : list Execution) : M Z (list CheckResult) :=
  run_checks demo_load demo_consult (fun _ => mret (check_result true "wf")) demo_verdict
    (fun _ _ => mret tt) (fun _ => "e"%string) (fun s => s) (fun _ => "1"%string) checks demo_ctx.

Lemma run_checks_outcome_witness :
  exists rs, demo_run demo_checks 0%Z = (Ok rs, 0%Z) /\ length rs = 2 /\
    exists ok r, rs = ok ++ [r] /\ all_passed ok = true /\ passed r = false /\ length rs <= 3.
Proof.
  eexists. split; [vm_compute; reflexivity|]. split; [reflexivity|].
  eapply (run_checks_outcome demo_load demo_consult (fun _ => mret (check_result true "wf")) demo_verdict
    (fun _ _ => mret tt) (fun _ => "e"%string) (fun s => s) (fun _ => "1"%string) demo_checks demo_ctx 0%Z);
    [vm_compute; reflexivity|reflexivity].
Defined.

Lemma run_agent_severity_witness :
  exists r, _run_agent demo_consult demo_verdict (fun _ => "e"%string) (fun _ => "1"%string)
      "rev" "task" MAJOR demo_ctx [] 0%Z = (Ok r, 0%Z) /\
    (passed r = true <-> forall i, i ∈ [{| ci_severity := MAJOR; ci_file := None;
            ci_line_range := None; ci_description := "d"; ci_blocking := false |}] ->
       (SEVERITY_ORDER (ci_severity i) < SEVERITY_ORDER MAJOR)%Z).
Proof.
  exact (run_agent_severity demo_consult demo_verdict (fun _ => "e"%string) (fun _ => "1"%string)
    "rev" "task" MAJOR demo_ctx [] 0%Z "bad" 0%Z eq_refl).
Defined.

Lemma run_checks_scripts_total_witness :
  exists rs w', demo_run demo_checks 0%Z = (Ok rs, w').
Proof.
  apply (run_checks_scripts_total demo_load demo_consult (fun _ => mret (check_result true "wf"))
    demo_verdict (fun _ _ => mret tt) (fun _ => "e"%string) (fun s => s) (fun _ => "1"%string)).
  reflexivity.
Defined.
