(* ===== verification/Store.v ===== *)
(** The trace store as its clients in the scheduler see it: an interface with laws, and the in-memory
    backend of [Trace] as an instance.

    The scheduler calls [TraceWriter]/[StorageBackend] (trace/_protocols.py); what its own correctness
    needs of a store is only how it creates tasks and moves their status. *)
From S2P Require Import Prelude PyDict Types Transitions Trace.

(** The operations the scheduler's task handlers call.  [W] is the state the store is part of. *)
Class TraceStore (W : Type) := {
  ts_create_task : uuid -> option uuid -> string -> string -> option value -> M W uuid;
  ts_transition_task : uuid -> string -> option string -> uuid -> M W unit;
  (** the status column of a task, [None] when the store has no such task *)
  ts_status : W -> uuid -> option string;
  (** what the store keeps true of itself *)
  ts_inv : W -> Prop
}.

(** What a store promises: a created task is new and starts as "created"; a transition of a known task
    happens exactly when the task state machine allows it, touches that task only, and otherwise raises
    and changes no status. *)
Class TraceStoreLaws (W : Type) `{TraceStore W} := {
  ts_create_law run parent name ty config w :
    ts_inv w -> exists id w', ts_create_task run parent name ty config w = (Ok id, w') /\
      ts_inv w' /\ ts_status w id = None /\
      forall k, ts_status w' k = if decide (k = id) then Some "created"%string else ts_status w k;
  ts_transition_law id new reason p w old :
    ts_inv w -> ts_status w id = Some old ->
    match validate_task_transition old new with
    | None => exists w', ts_transition_task id new reason p w = (Ok tt, w') /\ ts_inv w' /\
        forall k, ts_status w' k = if decide (k = id) then Some new else ts_status w k
    | Some e => exists w', ts_transition_task id new reason p w = (Raise e, w') /\ ts_inv w' /\
        forall k, ts_status w' k = ts_status w k
    end
}.

(** ** The in-memory backend as a store

    [ms_next] stands for the clock and for [uuid7]: every call takes the next number, as the ids of one
    process increase. *)
Record mem_store := { ms_backend : backend; ms_next : Z }.
#[export] Instance eta_mem_store : Eta mem_store := fun s => {|
  ms_backend := ms_backend s; ms_next := ms_next s |}.

(** The next fresh number. *)
Definition fresh : M mem_store Z := fun s => (Ok (ms_next s), s .[ms_next ::= Z.succ]).

Definition in_backend {A} (m : M backend A) : M mem_store A :=
  zoom ms_backend (fun b s => s .[ms_backend := b]) m.

Definition mem_status (s : mem_store) (id : uuid) : option string :=
  t_status <$> _tasks (ms_backend s) !! id.

#[export] Instance mem_trace_store : TraceStore mem_store := {
  ts_create_task run parent name ty config :=
    id ← fresh; in_backend (create_task id id run parent name ty config);
  ts_transition_task id new reason p :=
    ev ← fresh; in_backend (transition_task ev ev id new reason p);
  ts_status := mem_status;
  ts_inv s := forall id, (ms_next s <= id)%Z -> _tasks (ms_backend s) !! id = None
}.

#[export] Instance mem_trace_store_laws : TraceStoreLaws mem_store.
Proof.
  split.
  - intros run parent name ty config w Hinv.
    exists (ms_next w). eexists. split; [reflexivity|]. simpl. split_and!.
    + intros id Hid. simpl. rewrite dict_lookup_insert_ne by lia. apply Hinv. lia.
    + unfold mem_status. by rewrite Hinv by lia.
    + intros k. unfold mem_status. simpl. rewrite dict_lookup_insert. by case_decide.
  - intros id new reason p w old Hinv Hst. unfold mem_status in Hst; simpl in Hst.
    apply fmap_Some in Hst as (task & Htask & ->).
    assert (E : ts_transition_task id new reason p w =
      (let '(r, b) := transition_task (ms_next w) (ms_next w) id new reason p (ms_backend w) in
       (r, {| ms_backend := b; ms_next := Z.succ (ms_next w) |}))).
    { simpl. unfold in_backend, zoom, fresh, mbind, M_bind; simpl. by case_match. }
    rewrite E. unfold transition_task, mbind, M_bind; simpl. rewrite Htask.
    destruct (validate_task_transition (t_status task) new) as [e|] eqn:Hv; simpl;
      eexists; (split; [reflexivity|]); split.
    + intros k Hk. apply Hinv. simpl in Hk. lia.
    + done.
    + intros k Hk. simpl in *. rewrite dict_lookup_insert_ne; [apply Hinv; lia|].
      intros ->. rewrite Hinv in Htask by lia. done.
    + intros k. unfold mem_status. simpl. rewrite dict_lookup_insert. by case_decide.
Qed.

(** ** The log the task executors write

    Attempts, iterations and events are records about tasks; the executors need that writing them leaves
    the tasks themselves alone. *)
Class TraceLog (W : Type) := {
  tl_write_event : option uuid -> string -> value -> option uuid -> uuid -> M W unit;
  tl_create_task_attempt : uuid -> Z -> M W uuid;
  tl_complete_task_attempt : uuid -> string -> option value -> option value -> option string ->
    option uuid -> token_counts -> decimal -> time -> M W unit;
  tl_fail_task_attempt : uuid -> string -> option uuid -> token_counts -> decimal -> time -> M W unit;
  tl_create_iteration : uuid -> Z -> value -> M W uuid;
  tl_complete_iteration : uuid -> option string -> option value -> option (list value) -> M W unit;
  tl_fail_iteration : uuid -> string -> M W unit
}.

(** The store may raise, but task statuses and its own invariant stay. *)
Definition status_quiet {W : Type} `{TraceStore W} {A} (m : M W A) : Prop :=
  forall w, (ts_inv w -> ts_inv (snd (m w))) /\ forall k, ts_status (snd (m w)) k = ts_status w k.

Class TraceLogLaws (W : Type) `{TraceStore W, TraceLog W} := {
  tl_write_event_law run ty data task p : status_quiet (tl_write_event run ty data task p);
  tl_create_task_attempt_law id n : status_quiet (tl_create_task_attempt id n);
  tl_complete_task_attempt_law id out so cr v se k c d :
    status_quiet (tl_complete_task_attempt id out so cr v se k c d);
  tl_fail_task_attempt_law id error se k c d : status_quiet (tl_fail_task_attempt id error se k c d);
  tl_create_iteration_law id n v : status_quiet (tl_create_iteration id n v);
  tl_complete_iteration_law id out so cr : status_quiet (tl_complete_iteration id out so cr);
  tl_fail_iteration_law id e : status_quiet (tl_fail_iteration id e)
}.

#[export] Instance mem_trace_log : TraceLog mem_store := {
  tl_write_event run ty data task p :=
    ev ← fresh; in_backend (write_event ev ev run ty data task p None) ;; mret tt;
  tl_create_task_attempt id n := a ← fresh; in_backend (create_task_attempt a id n);
  tl_complete_task_attempt id out so cr v se k c d :=
    in_backend (complete_task_attempt id out so cr v se k c d);
  tl_fail_task_attempt id error se k c d := in_backend (fail_task_attempt id error se k c d);
  tl_create_iteration id n v := i ← fresh; in_backend (create_iteration i i id n v);
  tl_complete_iteration id out so cr := now ← fresh; in_backend (complete_iteration now id out so cr);
  tl_fail_iteration id e := now ← fresh; in_backend (fail_iteration now id e)
}.

(** Code that leaves the tasks of the backend alone. *)
Lemma status_quiet_tasks {A} (m : M mem_store A) :
  (forall w, _tasks (ms_backend (snd (m w))) = _tasks (ms_backend w) /\ (ms_next w <= ms_next (snd (m w)))%Z) ->
  status_quiet m.
Proof.
  intros Hm w. destruct (Hm w) as [Et En]. split.
  - intros Hinv id Hid. rewrite Et. apply Hinv. lia.
  - intros k. simpl. unfold mem_status. by rewrite Et.
Qed.

#[export] Instance mem_trace_log_laws : TraceLogLaws mem_store.
Proof.
  split; intros; apply status_quiet_tasks; intros w; simpl;
    unfold in_backend, zoom, fresh, mbind, M_bind; simpl.
  - split; [done|lia].
  - split; [done|lia].
  - unfold complete_task_attempt, mbind, M_bind, mget; simpl.
    destruct (_task_attempts (ms_backend w) !! id); (split; [reflexivity|first [apply Z.le_refl|simpl; lia]]).
  - unfold fail_task_attempt, mbind, M_bind, mget; simpl.
    destruct (_task_attempts (ms_backend w) !! id); (split; [reflexivity|first [apply Z.le_refl|simpl; lia]]).
  - split; [done|lia].
  - unfold complete_iteration, mbind, M_bind, mget; simpl.
    destruct (_iterations (ms_backend w) !! id); (split; [reflexivity|first [apply Z.le_refl|simpl; lia]]).
  - unfold fail_iteration, mbind, M_bind, mget; simpl.
    destruct (_iterations (ms_backend w) !! id); (split; [reflexivity|first [apply Z.le_refl|simpl; lia]]).
Qed.

(** A store nothing was written to. *)
Definition mem_store_init : mem_store := {| ms_backend := backend_init; ms_next := 1 |}.

Lemma mem_store_init_inv : ts_inv mem_store_init.
Proof. intros id Hid. apply dict_lookup_empty. Qed.
