(* ===== verification/Scheduler.v ===== *)
(** The state of the scheduler (scheduler/_base.py, scheduler/_executor.py) and the operations on it
    that the task handlers and the task executors share: registering and completing tasks, scoped
    outputs, aborting, and the budget, check and constraint enforcement of
    scheduler/_enforcement.py. *)
From S2P Require Import Prelude PyDict Types Transitions Locks Store.
From Stdlib Require QArith Qcanon.

(** ** Configuration the scheduler is built with *)

(** agent/_types.py, the fields the scheduler reads *)
Record Agent := {
  ag_name : string; ag_category : option string; ag_provider : option string;
  ag_model : option string; ag_allow : list string; ag_budget : option decimal;
  ag_write_paths : option (list string); ag_timeout : option Z
}.

(** session/_pricing.py *)
Record TokenRates := {
  input_per_million : decimal; output_per_million : decimal; cache_read_per_million : decimal;
  cache_write_per_million : decimal; reasoning_per_million : decimal
}.

(** transport/_events.py *)
Record Usage := {
  u_input_tokens : Z; u_output_tokens : Z; u_reasoning_tokens : Z; u_cache_read_tokens : Z;
  u_cache_write_tokens : Z
}.

Definition rates_of (i o cr cw r : Z) : TokenRates :=
  (* thousandths of a dollar per million tokens *)
  let d n := decimal_of n 1000 in
  {| input_per_million := d i; output_per_million := d o; cache_read_per_million := d cr;
     cache_write_per_million := d cw; reasoning_per_million := d r |}.

Definition PRICING_TABLE : dict string TokenRates := Dict
  [ ("anthropic/claude-opus-4-6", rates_of 5000 25000 500 6250 60000);
    ("anthropic/claude-sonnet-4-6", rates_of 3000 15000 300 3750 20000);
    ("anthropic/claude-haiku-4-5", rates_of 1000 5000 100 1250 2000);
    ("openai/gpt-4o", rates_of 2500 10000 1250 2500 10000);
    ("openai/gpt-4o-mini", rates_of 150 600 75 150 600);
    ("google/gemini-2.5-flash", rates_of 300 2500 30 300 2500) ]%string.

Declare Scope dec_scope.
Delimit Scope dec_scope with dec.
Infix "+" := Qcanon.Qcplus : dec_scope.
Infix "*" := Qcanon.Qcmult : dec_scope.
Infix "-" := Qcanon.Qcminus : dec_scope.
Infix "/" := Qcanon.Qcdiv : dec_scope.

Definition dec_leb (a b : decimal) : bool := QArith_base.Qle_bool (Qcanon.this a) (Qcanon.this b).
Definition dec_ltb (a b : decimal) : bool := negb (dec_leb b a).

Definition _MILLION : decimal := decimal_Z 1000000.

Definition usage_cost (rates : TokenRates) (usage : Usage) : decimal :=
  ((input_per_million rates * decimal_Z (u_input_tokens usage)
    + output_per_million rates * decimal_Z (u_output_tokens usage)
    + reasoning_per_million rates * decimal_Z (u_reasoning_tokens usage)
    + cache_read_per_million rates * decimal_Z (u_cache_read_tokens usage)
    + cache_write_per_million rates * decimal_Z (u_cache_write_tokens usage)) / _MILLION)%dec.

Definition compute_cost_usd (model : string) (usage : Usage)
    (extra_rates : option (dict string TokenRates)) : result decimal :=
  let rates := extra_rates ≫= fun t => t !! model in
  let rates := match rates with Some r => Some r | None => PRICING_TABLE !! model end in
  match rates with
  | None => Raise (ValueError "Unknown model")
  | Some rates => Ok (usage_cost rates usage)
  end.

Record sched_config := {
  _run_id : uuid;
  _run_principal_id : uuid;
  _agents : dict string Agent;
  _categories : dict string string;
  _budget_exhaustion_policy : BudgetExhaustionPolicy;
  _pricing : option (dict string TokenRates);
  _mechanical_constraints : list (string * string)
}.

(** ** State *)

Record results_meta := { rm_passed : bool; rm_duration_seconds : time; rm_retries_used : Z }.

(** A structural advisory: the read-only task names its message lists. *)
Record advisory := { adv_task_names : list string }.

(** An [abort] the event loop was asked to run, now or after a delay in seconds. *)
Inductive scheduled := AbortSoon | AbortLater (seconds : Z).

(** A service started for the run (scheduler/_services.py), with its process. *)
Record ServiceInstance := {
  si_config : ServiceConfig; si_process : option uuid; si_port : option Z; si_work_dir : option string
}.

Record sched := {
  _active_tasks : dict string uuid;
  _task_states : dict uuid TaskState;
  _task_specs : dict uuid TaskSpec;
  _task_parents : dict uuid (option uuid);
  _task_children : dict uuid (list uuid);
  _task_outputs : dict (option uuid) (dict string (option string));
  _task_structured_outputs : dict (option uuid) (dict string (option value));
  _task_results_meta : dict (option uuid) (dict string results_meta);
  _task_costs : dict uuid decimal;
  _pending_end_task_message : dict uuid string;
  _file_lock_registry : lock_registry;
  _pending_advisories : list advisory;
  _pending_await : dict string uuid;
  _budget_threshold_events : list (uuid * string * decimal * decimal);
  _budget_exhausted_events : list (uuid * string * decimal * decimal);
  _budget_blocked : bool;
  _scheduled : list scheduled;
  (** the [asyncio.Event]: [true] when set, which is when the run is not paused *)
  _paused : bool;
  _task_sessions : dict uuid uuid;
  _session_mutations : dict string (list string);
  _service_instances : list ServiceInstance
}.
#[export] Instance eta_sched : Eta sched := fun s => {|
  _active_tasks := _active_tasks s; _task_states := _task_states s; _task_specs := _task_specs s;
  _task_parents := _task_parents s; _task_children := _task_children s;
  _task_outputs := _task_outputs s; _task_structured_outputs := _task_structured_outputs s;
  _task_results_meta := _task_results_meta s; _task_costs := _task_costs s;
  _pending_end_task_message := _pending_end_task_message s;
  _file_lock_registry := _file_lock_registry s; _pending_advisories := _pending_advisories s;
  _pending_await := _pending_await s; _budget_threshold_events := _budget_threshold_events s;
  _budget_exhausted_events := _budget_exhausted_events s; _budget_blocked := _budget_blocked s;
  _scheduled := _scheduled s; _paused := _paused s; _task_sessions := _task_sessions s;
  _session_mutations := _session_mutations s; _service_instances := _service_instances s |}.

Definition sched_init : sched := {|
  _active_tasks := ∅; _task_states := ∅; _task_specs := ∅; _task_parents := ∅; _task_children := ∅;
  _task_outputs := ∅; _task_structured_outputs := ∅; _task_results_meta := ∅; _task_costs := ∅;
  _pending_end_task_message := ∅; _file_lock_registry := ∅; _pending_advisories := [];
  _pending_await := ∅; _budget_threshold_events := []; _budget_exhausted_events := [];
  _budget_blocked := false; _scheduled := []; _paused := true;
  _task_sessions := ∅; _session_mutations := ∅; _service_instances := [] |}.

(** The scheduler and the store it writes to. *)
Record sys (W : Type) := Sys { sc : sched; store : W }.
Arguments Sys {W} _ _.
Arguments sc {W} _.
Arguments store {W} _.
#[export] Instance eta_sys {W} : Eta (sys W) := fun s => {| sc := sc s; store := store s |}.

Definition on_sched {W A} (m : M sched A) : M (sys W) A := zoom sc (fun x s => s .[sc := x]) m.
Definition on_store {W A} (m : M W A) : M (sys W) A := zoom store (fun x s => s .[store := x]) m.
Definition smod {W} (f : sched -> sched) : M (sys W) unit := mmod (fun s => s .[sc ::= f]).
Definition sget {W A} (f : sched -> A) : M (sys W) A := mgets (fun s => f (sc s)).

(** ** Task bookkeeping *)

Definition set_state {W} (task_id : uuid) (st : TaskState) : M (sys W) unit :=
  smod (fun s => s .[_task_states ::= <[task_id := st]>]).

Definition _init_task_state {W} (task_id : uuid) (task : TaskSpec) (parent : option uuid) :
    M (sys W) unit :=
  smod (fun s => s .[_task_states ::= <[task_id := CREATED]>] .[_task_specs ::= <[task_id := task]>]
                   .[_task_parents ::= <[task_id := parent]>] .[_task_children ::= <[task_id := []]>]
                   .[_task_costs ::= <[task_id := decimal_Z 0]>]).

(** [self._task_outputs.setdefault(parent_id, {})[name] = v] and its two siblings *)
Definition set_scoped {V} (parent_id : option uuid) (name : string) (v : V)
    (d : dict (option uuid) (dict string V)) : dict (option uuid) (dict string V) :=
  <[parent_id := <[name := v]> (default ∅ (d !! parent_id))]> d.

(** [self._task_parents.get(task_id)] *)
Definition parent_of (s : sched) (task_id : uuid) : option uuid :=
  _task_parents s !! task_id ≫= fun p => p.

Definition _complete_task {W} (task_id : uuid) (task_name : string) (output : option string)
    (structured : option value) (duration : time) (retries : Z) : M (sys W) unit :=
  set_state task_id COMPLETED ;;
  smod (fun s => s .[_file_lock_registry ::= delete task_id]) ;;
  parent_id ← sget (fun s => parent_of s task_id);
  smod (fun s => s .[_task_outputs ::= set_scoped parent_id task_name output]
                   .[_task_structured_outputs ::= set_scoped parent_id task_name structured]
                   .[_task_results_meta ::= set_scoped parent_id task_name
                       {| rm_passed := true; rm_duration_seconds := duration;
                          rm_retries_used := retries |}]).

Definition _ACTIVE_STATES : list TaskState := [ACTIVE; PRECHECKING; POSTCHECKING].

(** A string that counts as true: neither [None] nor empty. *)
Definition nonempty (o : option string) : option string :=
  match o with Some ""%string => None | o => o end.

Definition _task_type_for (task : TaskSpec) : string :=
  let set (o : option string) := match nonempty o with Some _ => true | None => false end in
  if default false (ts_decision_point task) then "decision_point"
  else if set (ts_agent task) then "agent"
  else if set (ts_callable task) then "callable"
  else if set (ts_wait_for task) then "wait_for"
  else "workflow".

Section scheduler.
Context {W : Type} `{TraceStore W}.
Context (cfg : sched_config).

Definition transition (task_id : uuid) (st : TaskState) : M (sys W) unit :=
  on_store (ts_transition_task task_id (TaskState_value st) None (_run_principal_id cfg)).

(** The tasks of the snapshot [abort] iterates over; the asyncio tasks it cancels and the services it
    stops are outside this state. *)
Fixpoint abort_loop (items : list (uuid * TaskState)) : M (sys W) unit :=
  match items with
  | [] => mret tt
  | (task_id, state) :: items' =>
      (if decide (state ∈ _ACTIVE_STATES) then
         set_state task_id CANCELLED ;;
         smod (fun s => s .[_file_lock_registry ::= delete task_id]) ;;
         transition task_id CANCELLED
       else mret tt) ;;
      abort_loop items'
  end.

Definition abort : M (sys W) unit :=
  items ← sget (fun s => ditems (_task_states s));
  abort_loop items.

(** ** Budgets *)

Definition _resolve_model_key (task : TaskSpec) : option string :=
  agent ← ts_agent task;
  agent_def ← _agents cfg !! agent;
  match ag_provider agent_def, ag_model agent_def with
  | Some provider, Some model => Some (provider +:+ "/" +:+ model)%string
  | _, _ =>
      category_str ← match nonempty (ts_category task) with
                     | Some c => Some c
                     | None => ag_category agent_def
                     end;
      _categories cfg !! category_str
  end.

(** The task's own budget, or the one of its agent. *)
Definition effective_budget (task : TaskSpec) : option decimal :=
  match ts_budget task with
  | Some b => Some b
  | None => agent ← nonempty (ts_agent task); agent_def ← _agents cfg !! agent; ag_budget agent_def
  end.

Definition budget_threshold : decimal := decimal_of 8 10.

Definition exhaust (s : sched) : sched :=
  match _budget_exhaustion_policy cfg with
  | BLOCK_NEW => s .[_budget_blocked := true]
  | CANCEL_ALL => s .[_scheduled ::= fun l => l ++ [AbortSoon]]
  | TIMEOUT_GRACE => s .[_budget_blocked := true] .[_scheduled ::= fun l => l ++ [AbortLater 60]]
  | UNLIMITED => s
  end.

Definition enforce_budget (task_id : uuid) (name : string) (budget spent cost : decimal)
    (s : sched) : sched :=
  let s := if dec_leb (budget * budget_threshold)%dec spent &&
              dec_ltb (spent - cost)%dec (budget * budget_threshold)%dec
           then s .[_budget_threshold_events ::= fun l => l ++ [(task_id, name, budget, spent)]]
           else s in
  if dec_leb budget spent
  then exhaust (s .[_budget_exhausted_events ::= fun l => l ++ [(task_id, name, budget, spent)]])
  else s.

Definition _accumulate_cost (task_id : uuid) (task : TaskSpec) (usage : Usage) : M sched unit :=
  match _resolve_model_key task with
  | None => mret tt
  | Some model_key =>
      match compute_cost_usd model_key usage (_pricing cfg) with
      | Raise e => mthrow e
      | Ok cost =>
          s ← mget;
          match _task_costs s !! task_id with
          | None => mthrow (KeyError "task_id")
          | Some before =>
              let spent := (before + cost)%dec in
              mmod (fun s => s .[_task_costs ::= <[task_id := spent]>]) ;;
              match effective_budget task with
              | None => mret tt
              | Some budget => mmod (enforce_budget task_id (ts_name task) budget spent cost)
              end
          end
      end
  end.

(** ** Budget events *)

Inductive budget_event :=
| BudgetThresholdCrossed (workflow_id : uuid) (budget_usd spent_usd : decimal)
| BudgetExhausted (workflow_id : uuid).

(** Handing an event to the overseer: code outside this component. *)
Context (send_overseer_event : budget_event -> M (sys W) unit).

Definition ev_task (e : uuid * string * decimal * decimal) : uuid := e.1.1.1.

Definition _send_budget_events (task_id : uuid) : M (sys W) unit :=
  crossed ← sget _budget_threshold_events;
  mfor crossed (fun e => let '(tid, _, budget, spent) := e in
    if decide (tid = task_id) then send_overseer_event (BudgetThresholdCrossed tid budget spent)
    else mret tt) ;;
  smod (fun s => s .[_budget_threshold_events ::= filter (fun e => ev_task e <> task_id)]) ;;
  exhausted ← sget _budget_exhausted_events;
  mfor exhausted (fun e => let '(tid, _, _, _) := e in
    if decide (tid = task_id) then send_overseer_event (BudgetExhausted tid) else mret tt) ;;
  smod (fun s => s .[_budget_exhausted_events ::= filter (fun e => ev_task e <> task_id)]).

(** ** Checks and constraints *)

(** [run_checks] of [Verify], with its parameters supplied. *)
Context (run_checks : list Execution -> CheckContext -> M (sys W) (list CheckResult)).
(** [_check_constraint]: subprocesses, git and the file system. *)
Context (check_constraint : ConstraintKind -> uuid -> string -> M (sys W) CheckResult).

Definition check_context (s : sched) (task : TaskSpec) (task_id : uuid) (output : option string) :
    CheckContext := {|
  cc_variables := []; cc_agent_output := output; cc_run_id := _run_id cfg; cc_session_id := None;
  cc_task_name := ts_name task; cc_task_id := task_id; cc_attempt := 1;
  cc_parent_task_id := parent_of s task_id |}.

Definition _run_postchecks (task : TaskSpec) (task_id : uuid) : M (sys W) (list CheckResult) :=
  match ts_postchecks task with
  | [] => mret [check_result true "No postchecks defined"]
  | checks =>
      message ← sget (fun s => default ""%string (_pending_end_task_message s !! task_id));
      ctx ← sget (fun s => check_context s task task_id (Some message));
      run_checks checks ctx
  end.

Definition _run_prechecks (task : TaskSpec) (task_id : uuid) : M (sys W) (list CheckResult) :=
  match ts_prechecks task with
  | [] => mret [check_result true "No prechecks defined"]
  | checks =>
      ctx ← sget (fun s => check_context s task task_id None);
      run_checks checks ctx
  end.

Fixpoint constraint_loop (has_subtasks : bool) (task_id : uuid) (constraints : list (string * string))
    (results : list CheckResult) : M (sys W) (list CheckResult) :=
  match constraints with
  | [] => mret results
  | (text, kind_str) :: constraints' =>
      match ConstraintKind_of kind_str with
      | None =>
          constraint_loop has_subtasks task_id constraints'
            (results ++ [check_result false ("Unknown constraint kind: " +:+ kind_str)%string])
      | Some kind =>
          if bool_decide (kind ∈ EXPENSIVE_CONSTRAINTS) && negb has_subtasks
          then constraint_loop has_subtasks task_id constraints' results
          else
            result ← check_constraint kind task_id text;
            constraint_loop has_subtasks task_id constraints' (results ++ [result])
      end
  end.

Definition _run_mechanical_constraints (task_id : uuid) : M (sys W) (list CheckResult) :=
  children ← sget (fun s => default [] (_task_children s !! task_id));
  constraint_loop (match children with [] => false | _ => true end) task_id
    (_mechanical_constraints cfg) [].

(** ** Structural advisories *)

Definition write_tools : list string :=
  ["write"; "edit"; "delete"; "move"; "copy"; "mkdir"; "set_executable"]%string.

Definition read_only_name (s : sched) (task_id : uuid) : option string :=
  match (_task_specs s !! task_id : option TaskSpec) with
  | None => None
  | Some spec =>
      agent ← ts_agent spec;
      agent_def ← _agents cfg !! agent;
      if existsb (fun t => bool_decide (t ∈ write_tools)) (ag_allow agent_def) then None
      else Some (ts_name spec)
  end.

Definition _analyze_structural_advisories (s : sched) (task_ids : list uuid) : list advisory :=
  match omap (read_only_name s) task_ids with
  | [] => []
  | names => [{| adv_task_names := names |}]
  end.
End scheduler.
