(* ===== verification/Lifecycle.v ===== *)
(** scheduler/_lifecycle_handlers.py: the tools an agent's session uses to start, end, create and await
    tasks.

    A task id arrives as text; [Some id] is a text [UUID(...)] parses.  Replies are a datatype with one
    constructor per sentence the handlers build. *)
From S2P Require Import Prelude PyDict Types Transitions Locks Store Scheduler.

(** protocols/_types/_actions.py *)
Record CreateTaskParams := {
  ct_name : string; ct_agent : string; ct_task_prompt : string; ct_prechecks : list Execution;
  ct_postchecks : list Execution; ct_timeout : Z; ct_context_refinement : bool;
  ct_budget : option decimal; ct_write_paths : option (list string); ct_category : option string;
  ct_retry : Z; ct_retry_resume : option bool; ct_retry_inject_failure : option bool
}.

Record CreateWorkflowParams := {
  cwf_name : string; cwf_description : string; cwf_goals : list string;
  cwf_postchecks : list Execution; cwf_budget : option decimal
}.

Record CreateWaitForParams := { cwt_name : string; cwt_event_name : string; cwt_timeout : Z }.

Inductive reply :=
| NowActive (task_id : uuid)
| PrechecksFailed (messages : list string)
| TaskCompleted (task_id : uuid)
| PostchecksFailed (messages : list string)
| ConstraintCheckFailed (messages : list string)
| TaskIdReply (task_id : uuid)
| Awaiting (task_id : uuid).

(** [[cr.message for cr in crs if not cr.passed]] *)
Definition failed_messages (crs : list CheckResult) : list string :=
  message <$> filter (fun cr => passed cr = false) crs.

(** [self._task_children.setdefault(parent_id, []).append(task_id)] *)
Definition add_child (parent_id task_id : uuid) (d : dict uuid (list uuid)) : dict uuid (list uuid) :=
  <[parent_id := default [] (d !! parent_id) ++ [task_id]]> d.

Definition create_task_spec (cfg : sched_config) (p : CreateTaskParams) : TaskSpec :=
  let agent_def := match ct_agent p with ""%string => None | a => _agents cfg !! a end in
  let or_default {A} (o : option A) (f : Agent -> option A) : option A :=
    match o with Some _ => o | None => agent_def ≫= f end in
  mkTaskSpec
    ((TaskBase_default (ct_name p))
       .[ts_agent := Some (ct_agent p)] .[ts_task_prompt := Some (ct_task_prompt p)]
       .[ts_timeout := or_default (Some (ct_timeout p)) ag_timeout]
       .[ts_context_refinement := Some (ct_context_refinement p)]
       .[ts_budget := or_default (ct_budget p) ag_budget]
       .[ts_write_paths := or_default (ct_write_paths p) ag_write_paths]
       .[ts_category := ct_category p] .[ts_retry := ct_retry p]
       .[ts_retry_resume := ct_retry_resume p]
       .[ts_retry_inject_failure := ct_retry_inject_failure p])
    (ct_prechecks p) (ct_postchecks p) None.

Definition create_workflow_spec (p : CreateWorkflowParams) : TaskSpec :=
  mkTaskSpec ((TaskBase_default (cwf_name p)) .[ts_budget := cwf_budget p]) [] (cwf_postchecks p) (Some []).

Definition create_wait_for_spec (p : CreateWaitForParams) : TaskSpec :=
  mkTaskSpec ((TaskBase_default (cwt_name p)) .[ts_wait_for := Some (cwt_event_name p)]
                .[ts_timeout := Some (cwt_timeout p)]) [] [] None.

Section handlers.
Context {W : Type} `{TraceStore W}.
Context (cfg : sched_config).

(** Code outside this component: the check runner and constraint checkers, the secret scrubber (the
    identity when there is no registry), the git commit at the end of a task, and the on_success
    callback. *)
Context (run_checks : list Execution -> CheckContext -> M (sys W) (list CheckResult)).
Context (check_constraint : ConstraintKind -> uuid -> string -> M (sys W) CheckResult).
Context (scrub_text : string -> string).
Context (_auto_commit : string -> string -> M (sys W) unit).
Context (call_on_success : string -> TaskSpec -> uuid -> M (sys W) unit).

Definition parse_uuid (task_id : option uuid) : M (sys W) uuid :=
  match task_id with
  | Some id => mret id
  | None => mthrow (ValueError "badly formed hexadecimal UUID string")
  end.

Definition check_active_task (session_id : string) : M (sys W) uuid :=
  task ← sget (fun s => _active_tasks s !! session_id);
  match task with
  | Some task_id => mret task_id
  | None => mthrow (ToolError "No active task for session")
  end.

(** [self._task_specs[task_id]] *)
Definition spec_of (task_id : uuid) : M (sys W) TaskSpec :=
  task ← sget (fun s => _task_specs s !! task_id);
  match task with
  | Some task => mret task
  | None => mthrow (KeyError "task_id")
  end.

Definition handle_start_task (session_id : string) (task_id : option uuid) : M (sys W) reply :=
  task_uuid ← parse_uuid task_id;
  state ← sget (fun s => _task_states s !! task_uuid);
  match state with
  | None => mthrow (ToolError "Task does not exist")
  | Some state =>
      if decide (state <> CREATED) then mthrow (ToolError "Task is not in state created")
      else
        set_state task_uuid PRECHECKING ;;
        transition cfg task_uuid PRECHECKING ;;
        '(task : TaskSpec) ← spec_of task_uuid;
        precheck_results ← _run_prechecks cfg run_checks task task_uuid;
        if negb (all_passed precheck_results) then
          set_state task_uuid PRECHECK_FAILED ;;
          transition cfg task_uuid PRECHECK_FAILED ;;
          mret (PrechecksFailed (failed_messages precheck_results))
        else
          set_state task_uuid ACTIVE ;;
          transition cfg task_uuid ACTIVE ;;
          smod (fun s => s .[_active_tasks ::= <[session_id := task_uuid]>]) ;;
          mret (NowActive task_uuid)
  end.

(** The children of [task_id] that are not completed. *)
Definition incomplete (s : sched) (task_id : uuid) : list uuid :=
  filter (fun cid => _task_states s !! cid <> Some COMPLETED)
    (default [] (_task_children s !! task_id)).

Definition handle_end_task (session_id : string) (msg : string) : M (sys W) reply :=
  task_id ← check_active_task session_id;
  '(task : TaskSpec) ← spec_of task_id;
  missing ← sget (fun s => incomplete s task_id);
  match missing with
  | _ :: _ => mthrow (ToolError "Cannot end task: subtask(s) not complete")
  | [] =>
      let msg := scrub_text msg in
      set_state task_id POSTCHECKING ;;
      transition cfg task_id POSTCHECKING ;;
      smod (fun s => s .[_pending_end_task_message ::= <[task_id := msg]>]) ;;
      _auto_commit session_id msg ;;
      check_results ← _run_postchecks cfg run_checks task task_id;
      if all_passed check_results then
        constraint_results ← _run_mechanical_constraints cfg check_constraint task_id;
        if negb (all_passed constraint_results) then
          set_state task_id POSTCHECK_FAILED ;;
          transition cfg task_id POSTCHECK_FAILED ;;
          mret (ConstraintCheckFailed (failed_messages constraint_results))
        else
          _complete_task task_id (ts_name task) (Some msg) None 0%Z 0%Z ;;
          transition cfg task_id COMPLETED ;;
          smod (fun s => s .[_active_tasks ::= delete session_id]) ;;
          match ts_on_success task with
          | Some callable =>
              (* [except Exception: log] *)
              mcatch (call_on_success callable task task_id) (fun _ => mret tt)
          | None => mret tt
          end ;;
          mret (TaskCompleted task_id)
      else
        set_state task_id POSTCHECK_FAILED ;;
        transition cfg task_id POSTCHECK_FAILED ;;
        mret (PostchecksFailed (failed_messages check_results))
  end.

(** Registering a created child under its parent; [children] is what the new task's own entry in
    [_task_children] becomes, if the handler makes one. *)
Definition register_child (parent_id task_id : uuid) (spec : TaskSpec) : M (sys W) unit :=
  smod (fun s => s .[_task_specs ::= <[task_id := spec]>]
                   .[_task_parents ::= <[task_id := Some parent_id]>]
                   .[_task_children ::= add_child parent_id task_id]
                   .[_task_costs ::= <[task_id := decimal_Z 0]>]).

(** [claim], its [ValueError] turned into a [ToolError] *)
Definition claim_paths (task_id : uuid) (paths : option (list string)) : M (sys W) unit :=
  match paths with
  | None | Some [] => mret tt
  | Some paths =>
      mcatch (on_sched (zoom _file_lock_registry (fun r s => s .[_file_lock_registry := r])
                          (claim task_id paths)))
        (fun e => match e with
                  | ValueError w => mthrow (ToolError w)
                  | e => mthrow e
                  end)
  end.

Definition handle_create_task (session_id : string) (parsed : CreateTaskParams) :
    M (sys W) reply :=
  parent_id ← check_active_task session_id;
  blocked ← sget _budget_blocked;
  if blocked : bool then mthrow (ToolError "Budget exhausted: new task creation blocked")
  else
    task_id ← on_store (ts_create_task (_run_id cfg) (Some parent_id) (ct_name parsed) "agent" None);
    set_state task_id CREATED ;;
    let spec := create_task_spec cfg parsed in
    register_child parent_id task_id spec ;;
    claim_paths task_id (ts_write_paths spec) ;;
    smod (fun s => s .[_pending_advisories ::= fun l =>
      l ++ _analyze_structural_advisories cfg s (default [] (_task_children s !! parent_id))]) ;;
    mret (TaskIdReply task_id).

Definition handle_create_workflow (session_id : string) (parsed : CreateWorkflowParams) :
    M (sys W) reply :=
  parent_id ← check_active_task session_id;
  blocked ← sget _budget_blocked;
  if blocked : bool then mthrow (ToolError "Budget exhausted: new workflow creation blocked")
  else
    let config_data := VDict [("description", VStr (cwf_description parsed));
                              ("goals", VList (VStr <$> cwf_goals parsed))]%string in
    workflow_id ← on_store (ts_create_task (_run_id cfg) (Some parent_id) (cwf_name parsed)
                              "workflow" (Some config_data));
    set_state workflow_id CREATED ;;
    register_child parent_id workflow_id (create_workflow_spec parsed) ;;
    smod (fun s => s .[_task_children ::= <[workflow_id := []]>]) ;;
    mret (TaskIdReply workflow_id).

Definition handle_create_wait_for (session_id : string) (parsed : CreateWaitForParams) :
    M (sys W) reply :=
  parent_id ← check_active_task session_id;
  task_id ← on_store (ts_create_task (_run_id cfg) (Some parent_id) (cwt_name parsed) "wait_for" None);
  set_state task_id CREATED ;;
  register_child parent_id task_id (create_wait_for_spec parsed) ;;
  mret (TaskIdReply task_id).

Definition handle_await_task (session_id : string) (task_id : option uuid) : M (sys W) reply :=
  task_uuid ← parse_uuid task_id;
  state ← sget (fun s => _task_states s !! task_uuid);
  match state with
  | None => mthrow (ToolError "Task does not exist")
  | Some _ =>
      smod (fun s => s .[_pending_await ::= <[session_id := task_uuid]>]) ;;
      mret (Awaiting task_uuid)
  end.
End handlers.
