(* ===== verification/LifecycleSpec.v ===== *)
(** What the task handlers guarantee: the task tables stay well formed under any sequence of tool
    calls, completed means completed all the way down, and the scheduler's own view of a task's state
    is the store's. *)
From S2P Require Import Prelude PyDict Types Transitions Locks Store Scheduler Lifecycle.

Section spec.
Context {W : Type} `{TraceStoreLaws W}.
Context (cfg : sched_config).
Context (run_checks : list Execution -> CheckContext -> M (sys W) (list CheckResult)).
Context (check_constraint : ConstraintKind -> uuid -> string -> M (sys W) CheckResult).
Context (scrub_text : string -> string).
Context (_auto_commit : string -> string -> M (sys W) unit).
Context (call_on_success : string -> TaskSpec -> uuid -> M (sys W) unit).

(** ** Tool calls *)

(** Creating a task and its tables: the first part of [execute_task], and the loop of
    [_register_workflow_tasks]. *)
Definition register_task (task : TaskSpec) (parent : option uuid) : M (sys W) uuid :=
  task_id ← on_store (ts_create_task (_run_id cfg) parent (ts_name task) (_task_type_for task) None);
  _init_task_state task_id task parent ;;
  mret task_id.

Inductive call :=
| CallRegister (task : TaskSpec) (parent : option uuid)
| CallStart (session : string) (task_id : option uuid)
| CallEnd (session : string) (msg : string)
| CallCreateTask (session : string) (p : CreateTaskParams)
| CallCreateWorkflow (session : string) (p : CreateWorkflowParams)
| CallCreateWaitFor (session : string) (p : CreateWaitForParams)
| CallAwait (session : string) (task_id : option uuid).

Definition run_call (c : call) : M (sys W) reply :=
  match c with
  | CallRegister task parent => id ← register_task task parent; mret (TaskIdReply id)
  | CallStart session id => handle_start_task cfg run_checks session id
  | CallEnd session msg =>
      handle_end_task cfg run_checks check_constraint scrub_text _auto_commit call_on_success session msg
  | CallCreateTask session p => handle_create_task cfg session p
  | CallCreateWorkflow session p => handle_create_workflow cfg session p
  | CallCreateWaitFor session p => handle_create_wait_for cfg session p
  | CallAwait session id => handle_await_task session id
  end.

(** A sequence of calls; one that raises is a tool error, and the next call is served. *)
Fixpoint run_calls (cs : list call) (s : sys W) : sys W :=
  match cs with
  | [] => s
  | c :: cs' => run_calls cs' (snd (run_call c s))
  end.

(** ** Invariants *)

Definition state_of (s : sys W) (id : uuid) : option TaskState := _task_states (sc s) !! id.
Definition children_of (s : sys W) (id : uuid) : list uuid := default [] (_task_children (sc s) !! id).

Definition session_states : list TaskState := [ACTIVE; POSTCHECKING; POSTCHECK_FAILED].

Record tables_ok (s : sys W) : Prop := {
  to_store : ts_inv (store s);
  to_known : forall id st, state_of s id = Some st -> is_Some (ts_status (store s) id);
  to_specs : forall id st, state_of s id = Some st -> is_Some (_task_specs (sc s) !! id);
  to_active : forall session id, _active_tasks (sc s) !! session = Some id ->
                exists st, state_of s id = Some st /\ st ∈ session_states;
  to_owner : forall s1 s2 id, _active_tasks (sc s) !! s1 = Some id ->
               _active_tasks (sc s) !! s2 = Some id -> s1 = s2;
  to_done : forall id, state_of s id = Some COMPLETED ->
              forall c, c ∈ children_of s id -> state_of s c = Some COMPLETED
}.

(** The scheduler and the store agree on the state of every task the scheduler knows. *)
Definition agree (s : sys W) : Prop :=
  forall id st, state_of s id = Some st -> ts_status (store s) id = Some (TaskState_value st).

(** The scheduler's tables and the statuses in the store are the same. *)
Definition same_tables (s s' : sys W) : Prop :=
  _task_states (sc s') = _task_states (sc s) /\ _task_specs (sc s') = _task_specs (sc s) /\
  _active_tasks (sc s') = _active_tasks (sc s) /\ _task_children (sc s') = _task_children (sc s) /\
  (forall id, ts_status (store s') id = ts_status (store s) id) /\
  (ts_inv (store s) -> ts_inv (store s')).

(** Code that leaves the task tables alone, as check functions, reviewers, git and callbacks do. *)
Definition quiet {A} (m : M (sys W) A) : Prop := forall s, same_tables s (snd (m s)).

Lemma same_tables_refl s : same_tables s s.
Proof. by repeat split. Qed.
Lemma same_tables_trans s1 s2 s3 : same_tables s1 s2 -> same_tables s2 s3 -> same_tables s1 s3.
Proof.
  intros (A1 & B1 & C1 & D1 & E1 & F1) (A2 & B2 & C2 & D2 & E2 & F2).
  split_and!; try congruence. auto.
Qed.

Lemma tables_ok_same s s' : same_tables s s' -> tables_ok s -> tables_ok s'.
Proof.
  intros (E1 & E2 & E3 & E4 & E5 & E6) [H1 H2 H3 H4 H5 H6].
  split; unfold state_of, children_of in *; rewrite ?E1, ?E2, ?E3, ?E4; try done; [auto|].
  intros id st. rewrite E5. apply H2.
Qed.
Lemma agree_same s s' : same_tables s s' -> agree s -> agree s'.
Proof.
  intros (E1 & _ & _ & _ & E5 & _) Ha id st. unfold state_of. rewrite E1, E5. apply Ha.
Qed.

Lemma quiet_ret {A} (a : A) : quiet (mret a).
Proof. intros s. apply same_tables_refl. Qed.
Lemma quiet_mgets {A} (f : sys W -> A) : quiet (mgets f).
Proof. intros s. apply same_tables_refl. Qed.
Lemma quiet_bind {A B} (m : M (sys W) A) (k : A -> M (sys W) B) :
  quiet m -> (forall a, quiet (k a)) -> quiet (m ≫= k).
Proof.
  intros Hm Hk s. unfold mbind, M_bind. specialize (Hm s).
  destruct (m s) as [[a|e] s']; [|done]. eapply same_tables_trans; [exact Hm|apply Hk].
Qed.

Lemma wp_quiet {A} (m : M (sys W) A) Q E s :
  quiet m -> (forall a s', same_tables s s' -> Q a s') -> (forall e s', same_tables s s' -> E e s') ->
  wp m Q E s.
Proof. intros Hm HQ HE. unfold wp. specialize (Hm s). destruct (m s) as [[a|e] s']; auto. Qed.

(** ** Moving one task *)

(** [s'] is [s] with the tables changed for the state of [id] only. *)
Definition moved (s s' : sys W) (id : uuid) (st : TaskState) : Prop :=
  _task_states (sc s') = <[id := st]> (_task_states (sc s)) /\
  _task_specs (sc s') = _task_specs (sc s) /\ _active_tasks (sc s') = _active_tasks (sc s) /\
  _task_children (sc s') = _task_children (sc s).

Lemma moved_state s s' id st k :
  moved s s' id st -> state_of s' k = if decide (k = id) then Some st else state_of s k.
Proof. intros (E & _). unfold state_of. by rewrite E, dict_lookup_insert. Qed.

Lemma moved_children s s' id st k : moved s s' id st -> children_of s' k = children_of s k.
Proof. intros (_ & _ & _ & E). unfold children_of. by rewrite E. Qed.

Lemma tables_ok_moved s s' id old st :
  tables_ok s -> moved s s' id st -> ts_inv (store s') ->
  (forall k, is_Some (ts_status (store s) k) -> is_Some (ts_status (store s') k)) ->
  state_of s id = Some old -> old <> COMPLETED ->
  ((exists session, _active_tasks (sc s) !! session = Some id) -> st ∈ session_states) ->
  (st = COMPLETED -> forall c, c ∈ children_of s id -> c <> id -> state_of s c = Some COMPLETED) ->
  tables_ok s'.
Proof.
  intros [H1 H2 H3 H4 H5 H6] Hm Hinv Hst Hold Hnc Hact Hdone.
  pose proof Hm as (_ & Es & Ea & _). split.
  - done.
  - intros k x. rewrite (moved_state _ _ _ _ _ Hm). case_decide; [subst|]; eauto.
  - intros k x. rewrite (moved_state _ _ _ _ _ Hm), Es. case_decide; [subst|]; eauto.
  - intros session k. rewrite Ea. intros Hk. rewrite (moved_state _ _ _ _ _ Hm).
    case_decide; [subst; eauto|]. by apply (H4 session).
  - intros s1 s2 k. rewrite Ea. apply H5.
  - intros k. rewrite (moved_children _ _ _ _ _ Hm), (moved_state _ _ _ _ _ Hm).
    case_decide as E; intros Hk c Hc; rewrite (moved_state _ _ _ _ _ Hm).
    + subst k. injection Hk as ->. case_decide; [done|]. by apply Hdone.
    + case_decide; [subst c|by apply (H6 k)]. by rewrite (H6 k Hk id Hc) in Hold; congruence.
Qed.

Lemma wp_set_state id st Q E (s : sys W) :
  Q tt (s .[sc ::= fun x => x .[_task_states ::= <[id := st]>]]) -> wp (set_state id st) Q E s.
Proof. done. Qed.

(** The agreement of scheduler and store on every task but [id]. *)
Definition agree_but (id : uuid) (s : sys W) : Prop :=
  forall k st, k <> id -> state_of s k = Some st -> ts_status (store s) k = Some (TaskState_value st).

(** The transition in the store that follows the move in the tables.  With [l] the store's status of
    [id] is known and the move is legal: then it cannot raise.  With [b] scheduler and store agreed on
    the other tasks: then they agree on all. *)
Lemma wp_transition (b l : bool) id old st Q E s :
  ts_inv (store s) -> state_of s id = Some st -> is_Some (ts_status (store s) id) ->
  (b = true -> agree_but id s) ->
  (l = true -> ts_status (store s) id = Some (TaskState_value old) /\ task_legal old st = true) ->
  (forall w', ts_inv w' ->
     (forall k, is_Some (ts_status (store s) k) -> is_Some (ts_status w' k)) ->
     ts_status w' id = Some (TaskState_value st) ->
     (b = true -> agree (s .[store := w'])) -> Q tt (s .[store := w'])) ->
  (forall e w', l = false -> ts_inv w' -> (forall k, ts_status w' k = ts_status (store s) k) ->
     E e (s .[store := w'])) ->
  wp (transition cfg id st) Q E s.
Proof.
  intros Hinv Hst [cur Hcur] Hb Hl HQ HE.
  pose proof (ts_transition_law id (TaskState_value st) None (_run_principal_id cfg) (store s) cur Hinv Hcur)
    as Hlaw.
  unfold wp, transition, on_store, zoom.
  destruct (validate_task_transition cur (TaskState_value st)) as [e|] eqn:Hv;
    destruct Hlaw as (w' & -> & Hinv' & Hstat).
  - apply HE; [|done|done]. destruct l; [|done]. destruct (Hl eq_refl) as (Ho & Hleg).
    rewrite Hcur in Ho. injection Ho as ->. apply task_step_legal in Hleg. unfold task_step in Hleg. congruence.
  - apply HQ; [done| | |].
    + intros k Hk. rewrite Hstat. by case_decide.
    + rewrite Hstat. by case_decide.
    + intros Hbt k x Hk. simpl. rewrite Hstat. unfold state_of in Hk; simpl in Hk.
      case_decide; [subst k|by apply Hb]. unfold state_of in Hst. congruence.
Qed.

(** [set_state id st ;; transition id st], the pattern of every handler. *)
Lemma wp_move (b l : bool) id old st Q E s :
  tables_ok s -> state_of s id = Some old -> old <> COMPLETED ->
  ((exists session, _active_tasks (sc s) !! session = Some id) -> st ∈ session_states) ->
  st <> COMPLETED ->
  (b = true -> agree s) ->
  (l = true -> ts_status (store s) id = Some (TaskState_value old) /\ task_legal old st = true) ->
  (forall s', tables_ok s' -> (b = true -> agree s') -> moved s s' id st ->
     ts_status (store s') id = Some (TaskState_value st) -> Q tt s') ->
  (forall e s', l = false -> tables_ok s' -> E e s') ->
  wp (set_state id st ;; transition cfg id st) Q E s.
Proof.
  intros Hok Hst Hnc Hact Hns Hb Hl HQ HE. apply wp_bind, wp_set_state.
  set (s1 := s .[sc ::= fun x => x .[_task_states ::= <[id := st]>]]).
  assert (Hm : forall w', moved s (s1 .[store := w']) id st) by (by intros w').
  assert (Hst1 : state_of s1 id = Some st).
  { rewrite (moved_state s s1 id st id (Hm (store s))). by case_decide. }
  apply (wp_transition b l id old st); [apply Hok|done|by eapply (to_known s Hok)| |done| |].
  - intros Hbt k x Hne. rewrite (moved_state s s1 id st k (Hm (store s))).
    case_decide; [done|]. by apply Hb.
  - intros w' Hinv Hs Hid Ha. apply HQ; [|done|apply Hm|done].
    by eapply (tables_ok_moved s _ id old st Hok (Hm w')).
  - intros e w' Hbf Hinv Hs. apply HE; [done|].
    eapply (tables_ok_moved s _ id old st Hok (Hm w')); try done. intros k. simpl. by rewrite Hs.
Qed.

(** Reading two statements of a sequence as one. *)
Lemma wp_assoc {A B C} (m1 : M (sys W) A) (m2 : M (sys W) B) (k : M (sys W) C) Q E s :
  wp (m1 ;; m2) (fun _ => wp k Q E) E s -> wp (m1 ;; m2 ;; k) Q E s.
Proof.
  unfold wp, mbind, M_bind. destruct (m1 s) as [[a|e] s1]; [|done].
  by destruct (m2 s1) as [[c|e] s2].
Qed.

Lemma not_active s id st :
  tables_ok s -> state_of s id = Some st -> st ∉ session_states ->
  ~ exists session, _active_tasks (sc s) !! session = Some id.
Proof.
  intros Hok Hst Hns [session Hs]. destruct (to_active s Hok session id Hs) as (x & Hx & Hin). congruence.
Qed.

(** ** What the handlers keep *)

Definition safe (b : bool) (s : sys W) : Prop := tables_ok s /\ (b = true -> agree s).

Lemma safe_same b s s' : same_tables s s' -> safe b s -> safe b s'.
Proof. intros Hs [Ht Ha]. split; [by eapply tables_ok_same|]. intros E. eapply agree_same; eauto. Qed.

(** The tasks [s] knows are in [s'] as they were. *)
Record spared (s s' : sys W) : Prop := {
  sp_state k st : state_of s k = Some st -> state_of s' k = Some st;
  sp_status k : is_Some (state_of s k) -> ts_status (store s') k = ts_status (store s) k;
  sp_active session k : is_Some (state_of s k) ->
    _active_tasks (sc s') !! session = Some k <-> _active_tasks (sc s) !! session = Some k;
  sp_children k : is_Some (state_of s k) -> children_of s' k = children_of s k
}.

(** Code that may create tasks of its own, run them and end them, as a check that is a workflow does, but leaves
    those that exist alone and the tables well formed - with [b], in agreement with the store, too. *)
Definition considerate (b : bool) {A} (m : M (sys W) A) : Prop :=
  forall s, safe b s -> safe b (snd (m s)) /\ spared s (snd (m s)).

Lemma same_spared s s' : same_tables s s' -> spared s s'.
Proof.
  intros (E1 & _ & E3 & E4 & E5 & _).
  split; intros; unfold state_of, children_of in *; rewrite ?E1, ?E3, ?E4, ?E5; done.
Qed.
Lemma spared_trans s1 s2 s3 : spared s1 s2 -> spared s2 s3 -> spared s1 s3.
Proof.
  intros [A1 A2 A3 A4] [B1 B2 B3 B4].
  assert (Hk : forall k, is_Some (state_of s1 k) -> is_Some (state_of s2 k)).
  { intros k [st Hst]. exists st. by apply A1. }
  split; intros; [auto|..].
  - rewrite B2; auto.
  - rewrite B3; auto.
  - rewrite B4; auto.
Qed.
Lemma quiet_considerate b {A} (m : M (sys W) A) : quiet m -> considerate b m.
Proof. intros Hm s Hs. split; [by apply (safe_same b s)|by apply same_spared]. Qed.
Lemma considerate_ret b {A} (a : A) : considerate b (mret a).
Proof. by apply quiet_considerate, quiet_ret. Qed.
Lemma considerate_mgets b {A} (f : sys W -> A) : considerate b (mgets f).
Proof. by apply quiet_considerate, quiet_mgets. Qed.
Lemma considerate_bind b {A B} (m : M (sys W) A) (k : A -> M (sys W) B) :
  considerate b m -> (forall a, considerate b (k a)) -> considerate b (m ≫= k).
Proof.
  intros Hm Hk s Hs. destruct (Hm s Hs) as [Hs1 Hp1]. unfold mbind, M_bind.
  destruct (m s) as [[a|e] s1]; [|done]. destruct (Hk a s1 Hs1) as [Hs2 Hp2].
  split; [done|by eapply spared_trans].
Qed.
Lemma wp_considerate b {A} (m : M (sys W) A) Q E s :
  considerate b m -> safe b s -> (forall a s', safe b s' -> spared s s' -> Q a s') ->
  (forall e s', safe b s' -> E e s') -> wp m Q E s.
Proof.
  intros Hm Hs HQ HE. unfold wp. destruct (Hm s Hs). destruct (m s) as [[a|e] s']; auto.
Qed.

(** Running the checks of a task and the constraints of the configuration, for any kind of code that is closed
    under composition. *)
Section closed.
Context (K : forall A, M (sys W) A -> Prop).
Context (Kret : forall A (a : A), K A (mret a)) (Kget : forall A (f : sys W -> A), K A (mgets f)).
Context (Kbind : forall A B (m : M (sys W) A) (k : A -> M (sys W) B), K A m -> (forall a, K B (k a)) -> K B (m ≫= k)).
Context (Kchecks : forall checks ctx, K _ (run_checks checks ctx)).
Context (Kconstraint : forall kind id text, K _ (check_constraint kind id text)).

Lemma closed_prechecks task id : K _ (_run_prechecks cfg run_checks task id).
Proof using Kret Kget Kbind Kchecks.
  unfold _run_prechecks. destruct (ts_prechecks task); [apply Kret|].
  apply Kbind; [apply Kget|]. intros ctx. apply Kchecks.
Qed.
Lemma closed_postchecks task id : K _ (_run_postchecks cfg run_checks task id).
Proof using Kret Kget Kbind Kchecks.
  unfold _run_postchecks. destruct (ts_postchecks task); [apply Kret|].
  apply Kbind; [apply Kget|]. intros m. apply Kbind; [apply Kget|]. intros ctx. apply Kchecks.
Qed.
Lemma closed_constraint_loop has id cs results : K _ (constraint_loop check_constraint has id cs results).
Proof using Kret Kbind Kconstraint.
  revert results. induction cs as [|[text kind_str] cs IH]; intros results; [apply Kret|].
  cbn [constraint_loop]. destruct (ConstraintKind_of kind_str) as [kind|]; [|apply IH].
  case_match; [apply IH|]. apply Kbind; [apply Kconstraint|]. intros r. apply IH.
Qed.
Lemma closed_constraints id : K _ (_run_mechanical_constraints cfg check_constraint id).
Proof using Kret Kget Kbind Kconstraint.
  unfold _run_mechanical_constraints. apply Kbind; [apply Kget|]. intros c. apply closed_constraint_loop.
Qed.
End closed.

Section quiet_checks.
Context (Hchecks : forall checks ctx, quiet (run_checks checks ctx)).
Context (Hconstraint : forall kind id text, quiet (check_constraint kind id text)).

Lemma quiet_prechecks task id : quiet (_run_prechecks cfg run_checks task id).
Proof using Hchecks. apply (closed_prechecks (@quiet)); [apply @quiet_ret|apply @quiet_mgets|apply @quiet_bind|done]. Qed.
Lemma quiet_postchecks task id : quiet (_run_postchecks cfg run_checks task id).
Proof using Hchecks. apply (closed_postchecks (@quiet)); [apply @quiet_ret|apply @quiet_mgets|apply @quiet_bind|done]. Qed.
Lemma quiet_constraints id : quiet (_run_mechanical_constraints cfg check_constraint id).
Proof using Hconstraint. apply (closed_constraints (@quiet)); [apply @quiet_ret|apply @quiet_mgets|apply @quiet_bind|done]. Qed.
End quiet_checks.

Lemma wp_spec_of b id Q s :
  safe b s -> (forall task, _task_specs (sc s) !! id = Some task -> Q task s) ->
  wp (spec_of id) Q (fun _ => safe b) s.
Proof.
  intros Hs HQ. unfold wp, spec_of, mbind, M_bind, sget, mgets; simpl.
  destruct (_task_specs (sc s) !! id) as [task|] eqn:E; simpl; [by apply HQ|done].
Qed.

Lemma wp_check_active b session Q s :
  safe b s -> (forall id, _active_tasks (sc s) !! session = Some id -> Q id s) ->
  wp (check_active_task session) Q (fun _ => safe b) s.
Proof.
  intros Hs HQ. unfold wp, check_active_task, mbind, M_bind, sget, mgets; simpl.
  destruct (_active_tasks (sc s) !! session) as [id|] eqn:E; simpl; [by apply HQ|done].
Qed.

Lemma tables_ok_activate s session id :
  tables_ok s -> state_of s id = Some ACTIVE ->
  (~ exists session, _active_tasks (sc s) !! session = Some id) ->
  tables_ok (s .[sc ::= fun x => x .[_active_tasks ::= <[session := id]>]]).
Proof.
  intros [H1 H2 H3 H4 H5 H6] Hst Hno. split; try done.
  - intros se k. simpl. rewrite dict_lookup_insert. case_decide; [|apply H4].
    intros [= <-]. exists ACTIVE. split; [done|left].
  - intros s1 s2 k. simpl. rewrite !dict_lookup_insert.
    repeat case_decide; intros E1 E2; subst; try done; [| |by eapply H5].
    + injection E1 as ->. destruct Hno. by exists s2.
    + injection E2 as ->. destruct Hno. by exists s1.
Qed.

(** The handlers, when the checks of tasks, the constraint checkers, the commit and the callbacks are considerate. *)
Section considerate_checks.
Context (b : bool).
Context (Hchecks : forall checks ctx, considerate b (run_checks checks ctx)).
Context (Hconstraint : forall kind id text, considerate b (check_constraint kind id text)).
Context (Hcommit : forall session msg, considerate b (_auto_commit session msg)).
Context (Hcallback : forall callable task id, considerate b (call_on_success callable task id)).

Lemma considerate_prechecks task id : considerate b (_run_prechecks cfg run_checks task id).
Proof using Hchecks.
  apply (closed_prechecks (@considerate b)); [apply @considerate_ret|apply @considerate_mgets|apply @considerate_bind|done].
Qed.
Lemma considerate_postchecks task id : considerate b (_run_postchecks cfg run_checks task id).
Proof using Hchecks.
  apply (closed_postchecks (@considerate b)); [apply @considerate_ret|apply @considerate_mgets|apply @considerate_bind|done].
Qed.
Lemma considerate_constraints id : considerate b (_run_mechanical_constraints cfg check_constraint id).
Proof using Hconstraint.
  apply (closed_constraints (@considerate b)); [apply @considerate_ret|apply @considerate_mgets|apply @considerate_bind|done].
Qed.

Lemma start_safe session tid s :
  safe b s -> wp (handle_start_task cfg run_checks session tid) (fun _ => safe b) (fun _ => safe b) s.
Proof.
  intros Hs. unfold handle_start_task. apply wp_bind. destruct tid as [id|]; [|by apply wp_throw].
  apply wp_ret, wp_bind, wp_mgets. fold (state_of s id).
  destruct (state_of s id) as [st|] eqn:Hst; [|by apply wp_throw].
  case_decide as Hne; [by apply wp_throw|]. subst st.
  destruct Hs as [Hok Ha].
  assert (Hno : ~ exists session, _active_tasks (sc s) !! session = Some id).
  { eapply not_active; [done|exact Hst|]. by apply (bool_decide_eq_true_1 (CREATED ∉ session_states)). }
  apply wp_assoc, (wp_move b b id CREATED); try done.
  { intros Hb. split; [by apply Ha|done]. }
  2: { intros e s' -> Hok'. by split. }
  intros s1 Hok1 Ha1 Hm1 Hid1. apply wp_bind, (wp_spec_of b); [done|]. intros task _.
  assert (Hst1 : state_of s1 id = Some PRECHECKING).
  { rewrite (moved_state _ _ _ _ _ Hm1). by case_decide. }
  apply wp_bind, (wp_considerate b); [apply considerate_prechecks|done| |done].
  intros results s2 [Hok2 Ha2] Hsp. pose proof Hm1 as (_ & _ & Eact & _).
  pose proof (sp_state _ _ Hsp id _ Hst1) as Hst2.
  assert (Hno2 : ~ exists session, _active_tasks (sc s2) !! session = Some id).
  { intros [se Hse]. apply (sp_active _ _ Hsp) in Hse; [|by eexists]. rewrite Eact in Hse. by destruct Hno; exists se. }
  assert (Hid2 : ts_status (store s2) id = Some (TaskState_value PRECHECKING)).
  { by rewrite (sp_status _ _ Hsp); [|by eexists]. }
  destruct (negb (all_passed results)).
  - apply wp_assoc, (wp_move b true id PRECHECKING); try done.
  - apply wp_assoc, (wp_move b true id PRECHECKING); try done.
    intros s3 Hok3 Ha3 Hm3 _. apply wp_bind, wp_mmod, wp_ret. split; [|exact Ha3].
    apply tables_ok_activate; [done| |].
    + rewrite (moved_state _ _ _ _ _ Hm3). by case_decide.
    + destruct Hm3 as (_ & _ & -> & _). done.
Qed.

Lemma incomplete_nil (s : sys W) id :
  incomplete (sc s) id = [] -> forall c, c ∈ children_of s id -> state_of s c = Some COMPLETED.
Proof.
  intros E c Hc. apply dec_stable. intros Hn. apply (not_elem_of_nil c). rewrite <- E.
  unfold incomplete. by apply list_elem_of_filter.
Qed.

(** Completing a task whose children are done, and freeing its session. *)
Lemma tables_ok_complete s s' session id old :
  tables_ok s -> state_of s id = Some old -> old <> COMPLETED ->
  _active_tasks (sc s) !! session = Some id ->
  (forall c, c ∈ children_of s id -> c <> id -> state_of s c = Some COMPLETED) ->
  moved s s' id COMPLETED -> ts_inv (store s') ->
  (forall k, is_Some (ts_status (store s) k) -> is_Some (ts_status (store s') k)) ->
  tables_ok (s' .[sc ::= fun x => x .[_active_tasks ::= delete session]]).
Proof.
  intros [H1 H2 H3 H4 H5 H6] Hst Hnc Hact Hdone Hm Hinv Hk.
  set (s2 := s .[sc ::= fun x => x .[_active_tasks ::= delete session]]).
  assert (Hok2 : tables_ok s2).
  { split; try done.
    - intros se k. simpl. rewrite dict_lookup_delete. case_decide; [done|]. apply H4.
    - intros s1 s3 k. simpl. rewrite !dict_lookup_delete. repeat case_decide; try done. apply H5. }
  destruct Hm as (E1 & E2 & E3 & E4).
  eapply (tables_ok_moved s2 _ id old COMPLETED); try done.
  - split_and!; simpl; congruence.
  - intros [se Hse]. simpl in Hse. rewrite dict_lookup_delete in Hse. case_decide as Hne; [done|].
    by destruct Hne; apply (H5 _ _ id).
Qed.

Lemma wp_complete_task id name out structured d r Q E s :
  (forall s', moved s s' id COMPLETED -> store s' = store s -> Q tt s') ->
  wp (_complete_task id name out structured d r) Q E s.
Proof. intros HQ. unfold _complete_task. apply wp_bind, wp_set_state, wp_bind, wp_mmod, wp_bind, wp_mgets, wp_mmod. by apply HQ. Qed.

Lemma completed_not_session : COMPLETED ∉ session_states.
Proof. by apply (bool_decide_eq_true_1 (COMPLETED ∉ session_states)). Qed.

(** Where [handle_end_task] stands while the checks run. *)
Record posting (session : string) (id : uuid) (s : sys W) : Prop := {
  po_safe : safe b s;
  po_state : state_of s id = Some POSTCHECKING;
  po_active : _active_tasks (sc s) !! session = Some id;
  po_status : ts_status (store s) id = Some (TaskState_value POSTCHECKING);
  po_children : forall c, c ∈ children_of s id -> c <> id -> state_of s c = Some COMPLETED
}.

Lemma posting_spared session id s s' :
  safe b s' -> spared s s' -> posting session id s -> posting session id s'.
Proof.
  intros Hs [A1 A2 A3 A4] [H1 H2 H3 H4 H5]. assert (Hk : is_Some (state_of s id)) by by eexists.
  split; [done|by apply A1|by apply A3|by rewrite A2|].
  intros c. rewrite A4 by done. intros Hc Hne. by apply A1, H5.
Qed.

Lemma wp_posting {A} session id (m : M (sys W) A) Q s :
  posting session id s -> considerate b m ->
  (forall a s', posting session id s' -> Q a s') -> wp m Q (fun _ => safe b) s.
Proof.
  intros Hp Hm HQ. apply (wp_considerate b); [done|apply Hp| |done].
  intros a s' Hs Hsp. by apply HQ, (posting_spared _ _ s).
Qed.

(** After failed checks. *)
Lemma end_fail_safe session id (r : reply) s :
  posting session id s ->
  wp (set_state id POSTCHECK_FAILED ;; transition cfg id POSTCHECK_FAILED ;; mret r)
    (fun _ => safe b) (fun _ => safe b) s.
Proof.
  intros [[Hok Ha] Hst _ Hid _]. apply wp_assoc, (wp_move b true id POSTCHECKING); try done.
  intros _. by apply (bool_decide_eq_true_1 (POSTCHECK_FAILED ∈ session_states)).
Qed.

(** After the checks passed. *)
Lemma end_complete_safe session id (task : TaskSpec) msg s :
  posting session id s ->
  wp (_complete_task id (ts_name task) (Some msg) None 0%Z 0%Z ;;
      transition cfg id COMPLETED ;;
      smod (fun s => s .[_active_tasks ::= delete session]) ;;
      match ts_on_success task with
      | Some callable => mcatch (call_on_success callable task id) (fun _ => mret tt)
      | None => mret tt
      end ;;
      mret (TaskCompleted id)) (fun _ => safe b) (fun _ => safe b) s.
Proof.
  intros [[Hok Ha] Hst Hact Hid Hdone].
  apply wp_bind, wp_complete_task. intros s1 Hm1 Est.
  assert (Hst1 : state_of s1 id = Some COMPLETED).
  { rewrite (moved_state _ _ _ _ _ Hm1). by case_decide. }
  apply wp_bind, (wp_transition b true id POSTCHECKING COMPLETED).
  - rewrite Est. apply Hok.
  - done.
  - rewrite Est, Hid. by eexists.
  - intros Hb k x Hne. rewrite (moved_state _ _ _ _ _ Hm1), Est. case_decide; [done|]. by apply Ha.
  - intros _. by rewrite Est.
  - intros w' Hinv Hk Hid' Ha'. apply wp_bind, wp_mmod.
    assert (Hs : safe b (s1 .[store := w'] .[sc ::= fun x => x .[_active_tasks ::= delete session]])).
    { split.
      - rewrite Est in Hk. by eapply (tables_ok_complete s (s1 .[store := w']) session id POSTCHECKING).
      - intros Hb k x. by apply Ha'. }
    apply wp_bind. destruct (ts_on_success task) as [callable|]; [|by apply wp_ret, wp_ret].
    apply wp_catch, (wp_considerate b); [apply Hcallback|done| |].
    + intros u s' Hs' _. by apply wp_ret.
    + intros e s' Hs'. by apply wp_ret, wp_ret.
  - done.
Qed.

Lemma end_safe session msg s :
  safe b s ->
  (b = true -> forall id, _active_tasks (sc s) !! session = Some id -> state_of s id = Some ACTIVE) ->
  wp (handle_end_task cfg run_checks check_constraint scrub_text _auto_commit call_on_success session msg)
    (fun _ => safe b) (fun _ => safe b) s.
Proof.
  intros Hs Hb. unfold handle_end_task. apply wp_bind, (wp_check_active b); [done|]. intros id Hact.
  apply wp_bind, (wp_spec_of b); [done|]. intros task _. apply wp_bind, wp_mgets.
  destruct (incomplete (sc s) id) eqn:Hinc; [|by apply wp_throw].
  pose proof (incomplete_nil s id Hinc) as Hch. pose proof Hs as [Hok Ha].
  destruct (to_active s Hok session id Hact) as (old & Hold & Hin).
  assert (Hnc : old <> COMPLETED) by (intros ->; by apply completed_not_session).
  apply wp_assoc, (wp_move b b id old); try done.
  { intros _. by apply (bool_decide_eq_true_1 (POSTCHECKING ∈ session_states)). }
  { intros Hbt. assert (old = ACTIVE) as -> by (specialize (Hb Hbt id Hact); congruence).
    split; [by apply Ha|done]. }
  2: { intros e s' -> Hok'. by split. }
  intros s1 Hok1 Ha1 Hm1 Hid1.
  assert (Hp1 : posting session id s1).
  { pose proof Hm1 as (_ & _ & Eact & _). split; try done.
    - rewrite (moved_state _ _ _ _ _ Hm1). by case_decide.
    - by rewrite Eact.
    - intros c. rewrite (moved_children _ _ _ _ _ Hm1), (moved_state _ _ _ _ _ Hm1).
      intros Hc Hne. case_decide; [done|]. by apply Hch. }
  apply wp_bind, wp_mmod.
  assert (Hp2 : posting session id
    (s1 .[sc ::= fun x => x .[_pending_end_task_message ::= <[id := scrub_text msg]>]])).
  { apply (posting_spared session id s1); [by eapply safe_same, Hp1|by apply same_spared|done]. }
  apply wp_bind, (wp_posting session id); [done|apply Hcommit|]. intros u s2 Hp.
  apply wp_bind, (wp_posting session id); [done|apply considerate_postchecks|].
  intros results s3 Hp3. destruct (all_passed results); [|by apply (end_fail_safe session)].
  apply wp_bind, (wp_posting session id); [done|apply considerate_constraints|].
  intros cresults s4 Hp4. destruct (negb (all_passed cresults)).
  - by apply (end_fail_safe session).
  - by apply end_complete_safe.
Qed.

(** ** Creating *)

(** A task the store has just created enters the tables. *)
Lemma tables_ok_created s s' id spec parent :
  tables_ok s -> ts_status (store s) id = None -> ts_inv (store s') ->
  (forall k, ts_status (store s') k = if decide (k = id) then Some "created"%string else ts_status (store s) k) ->
  _task_states (sc s') = <[id := CREATED]> (_task_states (sc s)) ->
  _task_specs (sc s') = <[id := spec]> (_task_specs (sc s)) ->
  _active_tasks (sc s') = _active_tasks (sc s) ->
  (forall k, k <> id -> Some k <> parent -> children_of s' k = children_of s k) ->
  (forall p, parent = Some p -> exists session, _active_tasks (sc s) !! session = Some p) ->
  tables_ok s' /\ (agree s -> agree s').
Proof.
  intros [H1 H2 H3 H4 H5 H6] Hnew Hinv Hstat Est Esp Eact Hch Hpar.
  assert (Hno : state_of s id = None).
  { destruct (state_of s id) eqn:E; [|done]. destruct (H2 id _ E). congruence. }
  assert (Hstate : forall k, state_of s' k = if decide (k = id) then Some CREATED else state_of s k).
  { intros k. unfold state_of. by rewrite Est, dict_lookup_insert. }
  split; [split|].
  - done.
  - intros k st. rewrite Hstate, Hstat. case_decide; [by eexists|apply H2].
  - intros k st. rewrite Hstate, Esp, dict_lookup_insert. case_decide; [by eexists|apply H3].
  - intros session k. rewrite Eact, Hstate. intros Hk. case_decide; [|by apply (H4 session)].
    subst k. destruct (H4 session id Hk) as (x & Hx & _). congruence.
  - intros s1 s2 k. rewrite Eact. apply H5.
  - intros k. rewrite Hstate. case_decide as Hk; [done|]. intros Hc c.
    assert (Some k <> parent).
    { intros Ep. destruct (Hpar k (eq_sym Ep)) as [se Hse]. destruct (H4 se k Hse) as (x & Hx & Hin).
      apply completed_not_session. congruence. }
    rewrite Hch by done. intros Hin. rewrite Hstate. case_decide; [|by apply (H6 k)].
    subst c. rewrite (H6 k Hc id Hin) in Hno. done.
  - intros Ha k st. rewrite Hstate, Hstat. case_decide; [by intros [= <-]|apply Ha].
Qed.

Lemma wp_create run parent name ty config Q E s :
  ts_inv (store s) ->
  (forall id w', ts_inv w' -> ts_status (store s) id = None ->
     (forall k, ts_status w' k = if decide (k = id) then Some "created"%string else ts_status (store s) k) ->
     Q id (s .[store := w'])) ->
  wp (on_store (ts_create_task run parent name ty config)) Q E s.
Proof.
  intros Hinv HQ. destruct (ts_create_law run parent name ty config (store s) Hinv)
    as (id & w' & Er & Hinv' & Hn & Hs).
  unfold wp, on_store, zoom. rewrite Er. by apply HQ.
Qed.

Lemma wp_register_child parent_id id spec Q E (s : sys W) :
  Q tt (s .[sc ::= fun x => x .[_task_specs ::= <[id := spec]>]
                   .[_task_parents ::= <[id := Some parent_id]>]
                   .[_task_children ::= add_child parent_id id]
                   .[_task_costs ::= <[id := decimal_Z 0]>]]) ->
  wp (register_child parent_id id spec) Q E s.
Proof. done. Qed.

(** Creating a child of the session's active task and registering it. *)
Lemma wp_create_child {A} session parent_id name ty config (spec : TaskSpec) (k : uuid -> M (sys W) A) Q s :
  safe b s -> _active_tasks (sc s) !! session = Some parent_id ->
  (forall id s', safe b s' -> wp (k id) Q (fun _ => safe b) s') ->
  wp (id ← on_store (ts_create_task (_run_id cfg) (Some parent_id) name ty config);
      set_state id CREATED ;; register_child parent_id id spec ;; k id) Q (fun _ => safe b) s.
Proof.
  intros [Hok Ha] Hact Hk. apply wp_bind, wp_create; [apply Hok|]. intros id w' Hinv Hnew Hstat.
  apply wp_bind, wp_set_state, wp_bind, wp_register_child, Hk.
  match goal with |- safe b ?t => set (s' := t) end.
  destruct (tables_ok_created s s' id spec (Some parent_id)) as [Hok' Ha']; try done.
  - intros x Hne Hp. unfold children_of, s'. simpl. unfold add_child.
    rewrite dict_lookup_insert_ne; [done|congruence].
  - intros p [= <-]. by exists session.
  - split; auto.
Qed.

Lemma same_tables_intro (s s' : sys W) :
  _task_states (sc s') = _task_states (sc s) -> _task_specs (sc s') = _task_specs (sc s) ->
  _active_tasks (sc s') = _active_tasks (sc s) -> _task_children (sc s') = _task_children (sc s) ->
  store s' = store s -> same_tables s s'.
Proof. intros E1 E2 E3 E4 E5. split_and!; try done; by rewrite E5. Qed.

Lemma quiet_claim_paths id paths : quiet (claim_paths (W := W) id paths).
Proof.
  intros s. unfold claim_paths. destruct paths as [[|p ps]|]; try apply same_tables_refl.
  unfold mcatch, on_sched, zoom, claim, mbind, M_bind, mget; simpl.
  by destruct (check_conflict _ _) as [x|]; simpl; apply same_tables_intro.
Qed.

Lemma create_task_safe session p s :
  safe b s -> wp (handle_create_task cfg session p) (fun _ => safe b) (fun _ => safe b) s.
Proof.
  intros Hs. unfold handle_create_task. apply wp_bind, (wp_check_active b); [done|]. intros parent Hact.
  apply wp_bind, wp_mgets. destruct (_budget_blocked (sc s)); [by apply wp_throw|].
  apply (wp_create_child session parent _ _ _ (create_task_spec cfg p)); [done|done|].
  intros id s' Hs'. apply wp_bind, wp_quiet; [apply quiet_claim_paths| |].
  - intros u s2 Hs2. apply wp_bind, wp_mmod, wp_ret. eapply safe_same; [|by eapply safe_same].
    by apply same_tables_intro.
  - intros e s2 Hs2. by apply (safe_same _ _ _ Hs2).
Qed.

Lemma create_workflow_safe session p s :
  safe b s -> wp (handle_create_workflow cfg session p) (fun _ => safe b) (fun _ => safe b) s.
Proof.
  intros [Hok Ha]. unfold handle_create_workflow. apply wp_bind, (wp_check_active b); [done|].
  intros parent Hact. apply wp_bind, wp_mgets. destruct (_budget_blocked (sc s)); [by apply wp_throw|].
  apply wp_bind, wp_create; [apply Hok|]. intros id w' Hinv Hnew Hstat.
  apply wp_bind, wp_set_state, wp_bind, wp_register_child, wp_bind, wp_mmod, wp_ret.
  match goal with |- safe b ?t => set (s' := t) end.
  destruct (tables_ok_created s s' id (create_workflow_spec p) (Some parent)) as [Hok' Ha']; try done.
  - intros x Hne Hp. unfold children_of, s'. simpl. unfold add_child.
    rewrite !dict_lookup_insert_ne; [done|congruence|congruence].
  - intros q [= <-]. by exists session.
  - split; auto.
Qed.

Lemma create_wait_for_safe session p s :
  safe b s -> wp (handle_create_wait_for cfg session p) (fun _ => safe b) (fun _ => safe b) s.
Proof.
  intros Hs. unfold handle_create_wait_for. apply wp_bind, (wp_check_active b); [done|].
  intros parent Hact.
  apply (wp_create_child session parent _ _ _ (create_wait_for_spec p)); [done|done|]. done.
Qed.

Lemma await_safe session tid s :
  safe b s -> wp (handle_await_task session tid) (fun _ => safe b) (fun _ => safe b) s.
Proof.
  intros Hs. unfold handle_await_task. apply wp_bind. destruct tid as [id|]; [|by apply wp_throw].
  apply wp_ret, wp_bind, wp_mgets. destruct (_task_states (sc s) !! id); [|by apply wp_throw].
  apply wp_bind, wp_mmod, wp_ret. eapply safe_same; [|exact Hs]. by apply same_tables_intro.
Qed.

Lemma register_safe task parent s :
  safe b s -> wp (register_task task parent) (fun _ => safe b) (fun _ => safe b) s.
Proof.
  intros [Hok Ha]. unfold register_task. apply wp_bind, wp_create; [apply Hok|].
  intros id w' Hinv Hnew Hstat. apply wp_bind. unfold _init_task_state. apply wp_mmod, wp_ret.
  match goal with |- safe b ?t => set (s' := t) end.
  destruct (tables_ok_created s s' id task None) as [Hok' Ha']; try done; [|split; auto].
  intros x Hne Hp. unfold children_of, s'. simpl. by rewrite dict_lookup_insert_ne.
Qed.

(** The calls that do not end a task some check has already failed: the ones under which scheduler and
    store stay in step. *)
Definition in_step (c : call) (s : sys W) : Prop :=
  match c with
  | CallEnd session _ =>
      forall id, _active_tasks (sc s) !! session = Some id -> state_of s id = Some ACTIVE
  | _ => True
  end.

Lemma run_call_safe c s :
  safe b s -> (b = true -> in_step c s) -> safe b (snd (run_call c s)).
Proof.
  intros Hs Hstep. assert (Hwp : wp (run_call c) (fun _ => safe b) (fun _ => safe b) s).
  { destruct c; simpl in *.
    - apply wp_bind. eapply wp_mono; [by apply register_safe| |done]. intros id s' Hs'. by apply wp_ret.
    - by apply start_safe.
    - by apply end_safe.
    - by apply create_task_safe.
    - by apply create_workflow_safe.
    - by apply create_wait_for_safe.
    - by apply await_safe. }
  revert Hwp. unfold wp. by destruct (run_call c s) as [[r|e] s'].
Qed.

Fixpoint calls_in_step (cs : list call) (s : sys W) : Prop :=
  match cs with
  | [] => True
  | c :: cs' => in_step c s /\ calls_in_step cs' (snd (run_call c s))
  end.

Lemma run_calls_safe cs s :
  safe b s -> (b = true -> calls_in_step cs s) -> safe b (run_calls cs s).
Proof.
  revert s. induction cs as [|c cs IH]; intros s Hs Hstep; [done|]. apply IH.
  - apply run_call_safe; [done|]. intros Hb. by apply Hstep.
  - intros Hb. by apply Hstep.
Qed.

End considerate_checks.

Lemma safe_init b w :
  ts_inv w -> safe b (Sys sched_init w).
Proof.
  intros Hinv. split; [split; try done|done].
Qed.

(** The tasks below a task. *)
Definition child (s : sys W) (p c : uuid) : Prop := c ∈ children_of s p.

Lemma done_below s p c :
  tables_ok s -> state_of s p = Some COMPLETED -> rtc (child s) p c -> state_of s c = Some COMPLETED.
Proof. intros Hok Hp Hr. induction Hr as [p|p q c Hpq _ IH]; [done|]. apply IH. by apply (to_done s Hok p). Qed.

Lemma wp_spec_known id task Q E (s : sys W) :
  _task_specs (sc s) !! id = Some task -> Q task s -> wp (spec_of id) Q E s.
Proof.
  intros Ht HQ. unfold wp, spec_of, mbind, M_bind, sget, mgets; simpl. by rewrite Ht.
Qed.

Lemma not_created_active : CREATED ∉ session_states.
Proof. by apply (bool_decide_eq_true_1 (CREATED ∉ session_states)). Qed.

Lemma check_active_run session id (s : sys W) :
  _active_tasks (sc s) !! session = Some id -> check_active_task session s = (Ok id, s).
Proof. intros Hs. unfold check_active_task, mbind, M_bind, sget, mgets; simpl. by rewrite Hs. Qed.

Lemma claim_paths_conflict id path paths other (s : sys W) :
  check_conflict (_file_lock_registry (sc s)) (path :: paths) = Some other ->
  claim_paths id (Some (path :: paths)) s = (Raise (ToolError "Paths conflict with workflow"), s).
Proof.
  intros Hc. unfold claim_paths, mcatch, on_sched, zoom, claim, mbind, M_bind; simpl. rewrite Hc.
  by destruct s as [[] ?].
Qed.

(** The end of [handle_start_task], when the prechecks have given [results]. *)
Lemma start_finish session id results s :
  tables_ok s -> agree s -> state_of s id = Some PRECHECKING ->
  (~ exists session, _active_tasks (sc s) !! session = Some id) ->
  wp (if negb (all_passed results) then
        set_state id PRECHECK_FAILED ;;
        transition cfg id PRECHECK_FAILED ;;
        mret (PrechecksFailed (failed_messages results))
      else
        set_state id ACTIVE ;;
        transition cfg id ACTIVE ;;
        smod (fun s => s .[_active_tasks ::= <[session := id]>]) ;;
        mret (NowActive id))
    (fun r s' => agree s' /\ (forall k, k <> id -> state_of s' k = state_of s k) /\
       if all_passed results
       then r = NowActive id /\ state_of s' id = Some ACTIVE /\
            _active_tasks (sc s') = <[session := id]> (_active_tasks (sc s))
       else r = PrechecksFailed (failed_messages results) /\ state_of s' id = Some PRECHECK_FAILED /\
            _active_tasks (sc s') = _active_tasks (sc s)) (fun _ _ => False) s.
Proof.
  intros Hok Ha Hst Hno. destruct (all_passed results); cbn [negb].
  - apply wp_assoc, (wp_move true true id PRECHECKING); try done.
    { intros _. split; [by apply Ha|done]. }
    intros s3 _ Ha3 Hm3 _. apply wp_bind, wp_mmod, wp_ret. pose proof Hm3 as (_ & _ & Ea3 & _).
    split_and!; [by apply Ha3| |done| |by simpl; rewrite Ea3].
    + intros k Hne. change (state_of s3 k = state_of s k).
      by rewrite (moved_state _ _ _ _ _ Hm3), decide_False.
    + change (state_of s3 id = Some ACTIVE). rewrite (moved_state _ _ _ _ _ Hm3). by case_decide.
  - apply wp_assoc, (wp_move true true id PRECHECKING); try done.
    { intros _. split; [by apply Ha|done]. }
    intros s3 _ Ha3 Hm3 _. apply wp_ret. pose proof Hm3 as (_ & _ & Ea3 & _).
    split_and!; [by apply Ha3| |done| |done].
    + intros k Hne. by rewrite (moved_state _ _ _ _ _ Hm3), decide_False.
    + rewrite (moved_state _ _ _ _ _ Hm3). by case_decide.
Qed.

(** ** Main theorems *)



(** Ending a task again after its postchecks failed does not retry them: the store refuses the
    transition, the call raises [InvalidTransitionError], and the scheduler is left believing the task
    is being checked while the store still says its checks failed. *)
Theorem end_task_retry_diverges session msg s id :
  tables_ok s -> agree s -> _active_tasks (sc s) !! session = Some id ->
  state_of s id = Some POSTCHECK_FAILED -> incomplete (sc s) id = [] ->
  exists s', handle_end_task cfg run_checks check_constraint scrub_text _auto_commit call_on_success
      session msg s = (Raise (InvalidTransitionError "postcheck_failed" "postchecking"), s') /\
    state_of s' id = Some POSTCHECKING /\ ts_status (store s') id = Some "postcheck_failed"%string.
Proof.
  intros Hok Ha Hact Hst Hinc. destruct (to_specs s Hok id _ Hst) as [task Htask].
  pose proof (Ha id _ Hst) as Hstat. simpl in Hstat.
  unfold handle_end_task, check_active_task, spec_of.
  unfold mbind at 1, M_bind at 1. unfold mbind at 1, M_bind at 1. unfold sget at 1, mgets at 1.
  rewrite Hact. unfold mret at 1, M_ret at 1.
  unfold mbind at 1, M_bind at 1. unfold mbind at 1, M_bind at 1. unfold sget at 1, mgets at 1.
  rewrite Htask. unfold mret at 1, M_ret at 1.
  unfold mbind at 1, M_bind at 1. unfold sget at 1, mgets at 1. rewrite Hinc.
  unfold mbind at 1, M_bind at 1. unfold set_state at 1, smod at 1, mmod at 1.
  unfold mbind at 1, M_bind at 1. unfold transition, on_store, zoom.
  pose proof (ts_transition_law id "postchecking" None (_run_principal_id cfg) (store s) "postcheck_failed"
    (to_store s Hok) Hstat) as (w' & E & Hinv' & Hs').
  simpl. rewrite E. eexists. split; [reflexivity|]. split.
  - unfold state_of. simpl. by rewrite dict_lookup_insert_eq.
  - simpl. by rewrite Hs'.
Qed.

(** Starting a task, on every branch.  A task that is unknown or not freshly created is refused
    and nothing changes.  Otherwise its prechecks run while it is "prechecking"; if all pass it becomes
    active, in the scheduler and in the store, and the session owns it; if one fails it becomes
    "precheck_failed" in both, the reply lists the messages of the failed checks, and no session owns
    it.  If the checks raise it stays "prechecking" in both. *)
Theorem start_task_behaviour session id s :
  (forall checks ctx, quiet (run_checks checks ctx)) -> tables_ok s -> agree s ->
  match state_of s id with
  | Some CREATED =>
      wp (handle_start_task cfg run_checks session (Some id))
        (fun r s' => exists task results s1 s2,
           _task_specs (sc s) !! id = Some task /\
           _run_prechecks cfg run_checks task id s1 = (Ok results, s2) /\
           state_of s1 id = Some PRECHECKING /\
           (forall k, k <> id -> state_of s' k = state_of s k) /\ agree s' /\
           if all_passed results
           then r = NowActive id /\ state_of s' id = Some ACTIVE /\
                _active_tasks (sc s') = <[session := id]> (_active_tasks (sc s))
           else r = PrechecksFailed (failed_messages results) /\ state_of s' id = Some PRECHECK_FAILED /\
                _active_tasks (sc s') = _active_tasks (sc s))
        (fun e s' => state_of s' id = Some PRECHECKING /\ agree s' /\
                     _active_tasks (sc s') = _active_tasks (sc s)) s
  | _ => exists why, handle_start_task cfg run_checks session (Some id) s = (Raise (ToolError why), s)
  end.
Proof.
  intros Hchecks Hok Ha. destruct (state_of s id) as [st|] eqn:Hst.
  2: { unfold handle_start_task, mbind, M_bind; simpl. unfold state_of in Hst. rewrite Hst. by eexists. }
  destruct (decide (st = CREATED)) as [->|Hne].
  2: { destruct st; try done; unfold handle_start_task, mbind, M_bind; simpl;
       unfold state_of in Hst; rewrite Hst; by eexists. }
  pose proof (not_active s id CREATED Hok Hst not_created_active) as Hno.
  unfold handle_start_task. apply wp_bind, wp_ret, wp_bind, wp_mgets. fold (state_of s id).
  rewrite Hst, decide_False by (intros H'; by apply H').
  apply wp_assoc, (wp_move true true id CREATED); try done.
  { intros _. split; [by apply Ha|done]. }
  intros s1 Hok1 Ha1 Hm1 _. pose proof Hm1 as (_ & Es1 & Ea1 & _).
  assert (Hst1 : state_of s1 id = Some PRECHECKING).
  { rewrite (moved_state _ _ _ _ _ Hm1). by case_decide. }
  destruct (to_specs s Hok id _ Hst) as [task Htask].
  apply wp_bind, (wp_spec_known id task); [by rewrite Es1|].
  apply wp_bind. unfold wp at 1. pose proof (quiet_prechecks Hchecks task id s1) as Hq.
  destruct (_run_prechecks cfg run_checks task id s1) as [[results|e] s2] eqn:Er; simpl in Hq;
    pose proof Hq as (E1 & _ & E3 & _).
  2: { unfold state_of. rewrite E1, E3. split_and!; [done|apply (agree_same _ _ Hq); by apply Ha1|done]. }
  eapply wp_mono; [apply (start_finish session id results s2)| |done].
  - by apply (tables_ok_same _ _ Hq).
  - by apply (agree_same _ _ Hq), Ha1.
  - unfold state_of. by rewrite E1.
  - by rewrite E3, Ea1.
  - intros r s3 (Ha3 & Hk & Hr). exists task, results, s1, s2. rewrite E3, Ea1 in Hr.
    split_and!; try done. intros k Hne. rewrite Hk by done. unfold state_of. rewrite E1.
    fold (state_of s1 k). by rewrite (moved_state _ _ _ _ _ Hm1), decide_False.
Qed.

(** A claim conflict in [create_task] leaves an orphan.  When the write paths of the new task
    overlap another task's, the call raises [ToolError] and returns no id, but the child has already
    been created and registered: it stays "created" under the parent, and the session can then no
    longer end the parent task. *)
Theorem create_task_conflict_leaves_child session p s parent other path paths :
  tables_ok s -> _active_tasks (sc s) !! session = Some parent -> _budget_blocked (sc s) = false ->
  ts_write_paths (create_task_spec cfg p) = Some (path :: paths) ->
  check_conflict (_file_lock_registry (sc s)) (path :: paths) = Some other ->
  exists s' child why,
    handle_create_task cfg session p s = (Raise (ToolError why), s') /\
    state_of s child = None /\ state_of s' child = Some CREATED /\ child ∈ children_of s' parent /\
    forall msg, exists why', handle_end_task cfg run_checks check_constraint scrub_text _auto_commit
      call_on_success session msg s' = (Raise (ToolError why'), s').
Proof.
  intros Hok Hact Hbl Hpaths Hconf.
  destruct (ts_create_law (_run_id cfg) (Some parent) (ct_name p) "agent" None (store s) (to_store s Hok))
    as (id & w' & Er & Hinv & Hnew & Hstat).
  destruct (to_active s Hok session parent Hact) as (st & Hst & _).
  destruct (to_specs s Hok parent st Hst) as [ptask Hptask].
  assert (Hne : parent <> id).
  { intros ->. destruct (to_known s Hok id st Hst). congruence. }
  assert (Hrun : exists s', handle_create_task cfg session p s =
      (Raise (ToolError "Paths conflict with workflow"), s') /\
    _task_states (sc s') = <[id := CREATED]> (_task_states (sc s)) /\
    _task_specs (sc s') = <[id := create_task_spec cfg p]> (_task_specs (sc s)) /\
    _active_tasks (sc s') = _active_tasks (sc s) /\
    _task_children (sc s') = add_child parent id (_task_children (sc s))).
  { unfold handle_create_task. rewrite (M_bind_ok _ _ _ _ _ (check_active_run session parent s Hact)).
    rewrite (M_bind_ok (sget _) _ s _ s eq_refl), Hbl.
    rewrite (M_bind_ok _ _ s id (s .[store := w'])) by (unfold on_store, zoom; by rewrite Er).
    rewrite (M_bind_ok (set_state id CREATED) _ _ _ _ eq_refl).
    rewrite (M_bind_ok (register_child _ _ _) _ _ _ _ eq_refl), Hpaths.
    erewrite M_bind_raise by (apply (claim_paths_conflict id path paths other); exact Hconf).
    eexists. split; [reflexivity|]. done. }
  destruct Hrun as (s' & Erun & Est & Esp & Eact & Ech).
  assert (Hchild : id ∈ children_of s' parent).
  { unfold children_of. rewrite Ech. unfold add_child. rewrite dict_lookup_insert_eq. simpl. apply elem_of_app. right. left. }
  exists s', id, "Paths conflict with workflow"%string. split_and!; try done.
  - unfold state_of. destruct (_task_states (sc s) !! id) eqn:E; [|done].
    destruct (to_known s Hok id _ E). congruence.
  - unfold state_of. by rewrite Est, dict_lookup_insert_eq.
  - intros msg. unfold handle_end_task, check_active_task, spec_of, mbind, M_bind, sget, mgets; simpl.
    rewrite Eact, Hact. simpl. rewrite Esp, dict_lookup_insert_ne, Hptask by done. simpl.
    assert (Hin : id ∈ incomplete (sc s') parent).
    { unfold incomplete. apply list_elem_of_filter. split; [|exact Hchild].
      by rewrite Est, dict_lookup_insert_eq. }
    destruct (incomplete (sc s') parent); [by apply not_elem_of_nil in Hin|]. by eexists.
Qed.

(** The budget gate.  Once the budget is exhausted under a blocking policy, a session can create
    neither tasks nor workflows - the call raises and nothing changes, in the scheduler or the store -
    but a wait-for task is still created. *)
Theorem budget_gate session s parent :
  tables_ok s -> _active_tasks (sc s) !! session = Some parent -> _budget_blocked (sc s) = true ->
  (forall p, handle_create_task cfg session p s =
     (Raise (ToolError "Budget exhausted: new task creation blocked"), s)) /\
  (forall p, handle_create_workflow cfg session p s =
     (Raise (ToolError "Budget exhausted: new workflow creation blocked"), s)) /\
  (forall p, exists id s', handle_create_wait_for cfg session p s = (Ok (TaskIdReply id), s') /\
     state_of s id = None /\ state_of s' id = Some CREATED).
Proof.
  intros Hok Hact Hbl.
  split_and!; [intros p|intros p|intros p].
  - unfold handle_create_task, check_active_task, mbind, M_bind, sget, mgets; simpl.
    rewrite Hact. simpl. by rewrite Hbl.
  - unfold handle_create_workflow, check_active_task, mbind, M_bind, sget, mgets; simpl.
    rewrite Hact. simpl. by rewrite Hbl.
  - destruct (ts_create_law (_run_id cfg) (Some parent) (cwt_name p) "wait_for" None (store s)
      (to_store s Hok)) as (id & w' & Er & Hinv & Hnew & Hstat).
    unfold handle_create_wait_for, check_active_task, mbind, M_bind, sget, mgets; simpl.
    rewrite Hact. simpl. unfold on_store, zoom. rewrite Er. simpl.
    eexists id, _. split; [reflexivity|]. split.
    + unfold state_of. destruct (_task_states (sc s) !! id) eqn:E; [|done].
      destruct (to_known s Hok id _ E). congruence.
    + unfold state_of. simpl. by rewrite dict_lookup_insert_eq.
Qed.
End spec.

(** ** Witnesses

    A scheduler over the in-memory store, whose checks fail exactly when the message is "bad". *)

Definition demo_cfg : sched_config := {|
  _run_id := 100; _run_principal_id := 101; _agents := ∅; _categories := ∅;
  _budget_exhaustion_policy := BLOCK_NEW; _pricing := None; _mechanical_constraints := [] |}.

Definition demo_checks (checks : list Execution) (ctx : CheckContext) : M (sys mem_store) (list CheckResult) :=
  mret [check_result (negb (bool_decide (cc_agent_output ctx = Some "bad"%string))) "m"].
Definition demo_constraint (k : ConstraintKind) (id : uuid) (t : string) : M (sys mem_store) CheckResult :=
  mret (check_result true "m").
Definition demo_commit (session msg : string) : M (sys mem_store) unit := mret tt.
Definition demo_success (callable : string) (task : TaskSpec) (id : uuid) : M (sys mem_store) unit := mret tt.

Abbreviation demo_call :=
  (run_call demo_cfg demo_checks demo_constraint (fun m => m) demo_commit demo_success).
Abbreviation demo_calls :=
  (run_calls demo_cfg demo_checks demo_constraint (fun m => m) demo_commit demo_success).

Definition demo_parent : TaskSpec :=
  mkTaskSpec (TaskBase_default "p") [] [ScriptExecution "m:f"] (Some []).
Definition demo_params (paths : list string) : CreateTaskParams := {|
  ct_name := "c"; ct_agent := "a"; ct_task_prompt := "do"; ct_prechecks := []; ct_postchecks := [];
  ct_timeout := 10; ct_context_refinement := false; ct_budget := None; ct_write_paths := Some paths;
  ct_category := None; ct_retry := 0; ct_retry_resume := None; ct_retry_inject_failure := None |}.
Definition demo_wait : CreateWaitForParams := {|
  cwt_name := "w"; cwt_event_name := "e"; cwt_timeout := 5 |}.

Abbreviation demo_start := (Sys sched_init mem_store_init).

(** The parent (id 1) is started, gets a child (id 4), which is run; then the parent ends. *)
Definition demo_script : list call :=
  [CallRegister demo_parent None; CallStart "S" (Some 1%Z); CallCreateWaitFor "S" demo_wait;
   CallStart "T" (Some 4%Z); CallEnd "T" "ok"; CallEnd "S" "ok"].

Lemma demo_quiet {A} (a : A) : quiet (W := mem_store) (mret a).
Proof. apply quiet_ret. Qed.

Lemma demo_child : child (demo_calls demo_script demo_start) 1 4.
Proof.
  unfold child. assert (children_of (demo_calls demo_script demo_start) 1 = [4%Z]) as ->
    by (vm_compute; reflexivity). left.
Qed.



Definition demo_failed : sys mem_store :=
  demo_calls [CallRegister demo_parent None; CallStart "S" (Some 1%Z); CallEnd "S" "bad"] demo_start.

(** The same calls keep the tables well formed and in step. *)
Lemma demo_failed_safe : safe true demo_failed.
Proof.
  apply run_calls_safe; try (intros; apply considerate_ret).
  - apply safe_init, mem_store_init_inv.
  - intros _. vm_compute. split; [exact I|]. split; [exact I|]. split; [|exact I].
    intros id [= <-]. reflexivity.
Qed.

Lemma end_task_retry_diverges_witness :
  exists s', demo_call (CallEnd "S" "ok") demo_failed =
    (Raise (InvalidTransitionError "postcheck_failed" "postchecking"), s') /\
    state_of s' 1 = Some POSTCHECKING /\ ts_status (store s') 1 = Some "postcheck_failed"%string.
Proof.
  apply (end_task_retry_diverges demo_cfg demo_checks demo_constraint (fun m => m) demo_commit demo_success
    "S" "ok" demo_failed 1).
  - apply demo_failed_safe.
  - apply demo_failed_safe. reflexivity.
  - vm_compute. reflexivity.
  - vm_compute. reflexivity.
  - vm_compute. reflexivity.
Defined.

Definition demo_created : sys mem_store := demo_calls [CallRegister demo_parent None] demo_start.

Lemma demo_created_safe : safe true demo_created.
Proof.
  apply run_calls_safe; try (intros; apply considerate_ret); [apply safe_init, mem_store_init_inv|].
  intros _. vm_compute. by split.
Qed.

Lemma demo_created_state : state_of demo_created 1 = Some CREATED.
Proof. vm_compute. reflexivity. Qed.

Lemma start_task_behaviour_witness :
  fst (handle_start_task demo_cfg demo_checks "S" (Some 1%Z) demo_created) = Ok (NowActive 1) /\
  wp (handle_start_task demo_cfg demo_checks "S" (Some 1%Z)) (fun _ s' => agree s') (fun _ s' => agree s')
    demo_created.
Proof.
  split; [vm_compute; reflexivity|].
  pose proof (start_task_behaviour demo_cfg demo_checks "S" 1 demo_created
    (fun _ _ => demo_quiet _) (proj1 demo_created_safe) (proj2 demo_created_safe eq_refl)) as H.
  rewrite demo_created_state in H. eapply wp_mono; [exact H| |].
  - intros r s' (task & results & s1 & s2 & _ & _ & _ & _ & Ha & _). exact Ha.
  - intros e s' (_ & Ha & _). exact Ha.
Defined.

(** Two tasks claim the same path under one parent. *)
Definition demo_claimed : sys mem_store :=
  demo_calls [CallRegister demo_parent None; CallStart "S" (Some 1%Z);
              CallCreateTask "S" (demo_params ["/src/a"%string])] demo_start.

Lemma demo_claimed_safe : safe true demo_claimed.
Proof.
  apply run_calls_safe; try (intros; apply considerate_ret); [apply safe_init, mem_store_init_inv|].
  intros _. vm_compute. by repeat split.
Qed.

Lemma create_task_conflict_leaves_child_witness :
  exists s' child why,
    demo_call (CallCreateTask "S" (demo_params ["/src/a/b"%string])) demo_claimed = (Raise (ToolError why), s') /\
    state_of demo_claimed child = None /\ state_of s' child = Some CREATED /\ child ∈ children_of s' 1 /\
    forall msg, exists why', demo_call (CallEnd "S" msg) s' = (Raise (ToolError why'), s').
Proof.
  apply (create_task_conflict_leaves_child demo_cfg demo_checks demo_constraint (fun m => m) demo_commit
    demo_success "S" (demo_params ["/src/a/b"%string]) demo_claimed 1 4 "/src/a/b" []).
  - apply demo_claimed_safe.
  - vm_compute. reflexivity.
  - vm_compute. reflexivity.
  - vm_compute. reflexivity.
  - vm_compute. reflexivity.
Defined.

(** The budget of the parent's session is exhausted. *)
Definition demo_blocked : sys mem_store :=
  demo_calls [CallRegister demo_parent None; CallStart "S" (Some 1%Z)] demo_start
    .[sc ::= fun x => x .[_budget_blocked := true]].

Lemma demo_blocked_ok : tables_ok demo_blocked.
Proof.
  apply (tables_ok_same (demo_calls [CallRegister demo_parent None; CallStart "S" (Some 1%Z)] demo_start));
    [by apply same_tables_intro|].
  refine (proj1 (run_calls_safe demo_cfg demo_checks demo_constraint (fun m => m) demo_commit demo_success
    true (fun _ _ => considerate_ret _ _) (fun _ _ _ => considerate_ret _ _) (fun _ _ => considerate_ret _ _)
    (fun _ _ _ => considerate_ret _ _) [CallRegister demo_parent None; CallStart "S" (Some 1%Z)] demo_start
    (safe_init true mem_store_init mem_store_init_inv) _)).
  intros _. vm_compute. by repeat split.
Qed.

Lemma budget_gate_witness :
  demo_call (CallCreateTask "S" (demo_params [])) demo_blocked =
    (Raise (ToolError "Budget exhausted: new task creation blocked"), demo_blocked).
Proof.
  apply (budget_gate demo_cfg "S" demo_blocked 1 demo_blocked_ok); vm_compute; reflexivity.
Defined.
