(* ===== verification/Dispatch.v ===== *)
(** dispatch/_memory_backend.py and dispatch/_delivery.py: the dispatcher's storage (sources,
    subscriptions, actions, the accumulator buffer, cursors, completion records, the event queue), the
    matching of events against subscriptions, and the transient delivery of named events to waiters. *)
From S2P Require Import Prelude PyDict Types.

(** ** The in-memory backend *)

(** The keys the worker reads of an event dict. *)
Record dispatch_event := {
  de_id : uuid; de_event_type : string; de_principal_id : option uuid; de_data : option value
}.

Record InMemoryDispatchBackend := {
  _sources : dict uuid Source;
  _subscriptions : dict uuid Subscription;
  _actions : dict uuid SubscriptionAction;
  _accumulator : dict uuid AccumulatorEntry;
  _claimed : gset uuid;
  _cursors : dict string uuid;
  _completions : gset (uuid * uuid);
  _events : list dispatch_event
}.
#[export] Instance eta_InMemoryDispatchBackend : Eta InMemoryDispatchBackend := fun b => {|
  _sources := _sources b; _subscriptions := _subscriptions b; _actions := _actions b;
  _accumulator := _accumulator b; _claimed := _claimed b; _cursors := _cursors b;
  _completions := _completions b; _events := _events b |}.

Definition dispatch_init : InMemoryDispatchBackend := {|
  _sources := ∅; _subscriptions := ∅; _actions := ∅; _accumulator := ∅; _claimed := ∅;
  _cursors := ∅; _completions := ∅; _events := [] |}.

Abbreviation backend := InMemoryDispatchBackend.

(** *** Sources *)

Definition create_source (source : Source) : M backend uuid :=
  b ← mget;
  if existsb (fun s => bool_decide (src_slug s = src_slug source)) (dvalues (_sources b))
  then mthrow (ValueError "Source with this slug already exists")
  else mmod (fun b => b .[_sources ::= <[src_id source := source]>]) ;; mret (src_id source).

Definition get_source (b : backend) (source_id : uuid) : option Source := _sources b !! source_id.

Definition get_source_by_slug (b : backend) (slug : string) : option Source :=
  head (filter (fun s => src_slug s = slug) (dvalues (_sources b))).

Definition list_sources (b : backend) : list Source := dvalues (_sources b).

Definition delete_source (source_id : uuid) : M backend unit :=
  mmod (fun b => b .[_sources ::= delete source_id]).

(** *** Subscriptions *)

Definition create_subscription (subscription : Subscription) : M backend uuid :=
  mmod (fun b => b .[_subscriptions ::= <[sub_id subscription := subscription]>]) ;;
  mret (sub_id subscription).

Definition get_subscription (b : backend) (id : uuid) : option Subscription :=
  _subscriptions b !! id.

Definition list_subscriptions (b : backend) (enabled_only : bool) (principal_id : option uuid) :
    list Subscription :=
  let subs := dvalues (_subscriptions b) in
  let subs := if enabled_only then filter (fun s => sub_enabled s) subs else subs in
  match principal_id with
  | Some p => filter (fun s => sub_principal_id s = p) subs
  | None => subs
  end.

Definition update_subscription (id : uuid) (enabled : bool) : M backend unit :=
  b ← mget;
  match _subscriptions b !! id with
  | None => mthrow (KeyError "Subscription not found")
  | Some existing =>
      mmod (fun b => b .[_subscriptions ::= <[id := existing .[sub_enabled := enabled]]>])
  end.

Definition delete_subscription (id : uuid) : M backend unit :=
  mmod (fun b => b .[_subscriptions ::= delete id]).

(** *** Actions *)

Definition create_action (action : SubscriptionAction) : M backend uuid :=
  mmod (fun b => b .[_actions ::= <[sa_id action := action]>]) ;; mret (sa_id action).

Definition list_actions (b : backend) (sub : uuid) : list SubscriptionAction :=
  sort_by sa_position (filter (fun a => sa_subscription_id a = sub) (dvalues (_actions b))).

Definition delete_actions (sub : uuid) : M backend unit :=
  b ← mget;
  let to_remove := (fst <$> filter (fun kv => sa_subscription_id kv.2 = sub) (ditems (_actions b))) in
  mfor to_remove (fun aid => mmod (fun b => b .[_actions ::= delete aid])).

(** *** Accumulator *)

Definition buffer_event (entry : AccumulatorEntry) : M backend uuid :=
  mmod (fun b => b .[_accumulator ::= <[ae_id entry := entry]>]) ;; mret (ae_id entry).

Definition unclaimed (b : backend) (action_id : uuid) : list AccumulatorEntry :=
  filter (fun e => ae_subscription_action_id e = action_id /\ ae_id e ∉ _claimed b)
    (dvalues (_accumulator b)).

Definition claim_batch (action_id : uuid) (limit : Z) : M backend (list AccumulatorEntry) :=
  b ← mget;
  let batch := py_take limit (sort_by ae_created_at (unclaimed b action_id)) in
  mmod (fun b => b .[_claimed ::= fun c => list_to_set (ae_id <$> batch) ∪ c]) ;;
  mret batch.

Definition confirm_batch (entry_ids : list uuid) : M backend unit :=
  mfor entry_ids (fun eid =>
    mmod (fun b => b .[_accumulator ::= delete eid] .[_claimed ::= fun c => c ∖ {[eid]}])).

Definition pending_count (b : backend) (action_id : uuid) : Z :=
  Z.of_nat (length (filter (fun e => ae_subscription_action_id e = action_id)
                      (dvalues (_accumulator b)))).

(** *** Cursors and completions *)

Definition get_cursor_position (b : backend) (cursor_name : string) : option uuid :=
  _cursors b !! cursor_name.

Definition advance_cursor (cursor_name : string) (event_id : uuid) : M backend unit :=
  mmod (fun b => b .[_cursors ::= <[cursor_name := event_id]>]).

Definition is_action_completed (b : backend) (event_id action_id : uuid) : bool :=
  bool_decide ((event_id, action_id) ∈ _completions b).

Definition record_completion (event_id action_id : uuid) (result_status : string) : M backend unit :=
  mmod (fun b => b .[_completions ::= fun c => {[(event_id, action_id)]} ∪ c]).

(** *** Events *)

(** The loop of [poll_events_since]; [result] is the list built so far. *)
Fixpoint poll_loop (since_id : uuid) (limit : Z) (found : bool) (result : list dispatch_event)
    (events : list dispatch_event) : list dispatch_event :=
  match events with
  | [] => result
  | ev :: events' =>
      if found then
        let result := result ++ [ev] in
        if decide (limit <= Z.of_nat (length result))%Z then result
        else poll_loop since_id limit true result events'
      else poll_loop since_id limit (bool_decide (de_id ev = since_id)) result events'
  end.

Definition poll_events_since (b : backend) (since_id : option uuid) (limit : Z) :
    list dispatch_event :=
  match since_id with
  | None => py_take limit (_events b)
  | Some s => poll_loop s limit false [] (_events b)
  end.

Definition inject_event (event : dispatch_event) : M backend unit :=
  mmod (fun b => b .[_events ::= fun l => l ++ [event]]).

(** ** Matching *)

Section matching.
Context {W : Type}.
(** The source principals that slugs resolve to: the identity layer. *)
Context (resolve_source_principals : list string -> M W (list uuid)).

Definition match_subscription (event_type : string) (principal_id : option uuid)
    (data : option value) (filter_predicate : FilterPredicate) : M W bool :=
  if match fp_event_types filter_predicate with
     | Some tys => bool_decide (event_type ∉ tys)
     | None => false
     end then mret false
  else if match fp_principal_id filter_predicate with
          | Some p => bool_decide (principal_id <> Some p)
          | None => false
          end then mret false
  else match fp_sources filter_predicate with
       | None => mret true
       | Some slugs =>
           allowed ← resolve_source_principals slugs;
           mret (match principal_id with Some p => bool_decide (p ∈ allowed) | None => false end)
       end.
End matching.

(** ** Transient delivery

    [wait_for] creates a future, registers it and blocks until the future has a result or the deadline
    cancels it: two steps of the event loop, [wait_register] and, at the deadline, [wait_timeout].  The
    future then holds what [wait_for] returns. *)

Inductive future := Pending | Result (payload : option value) | Cancelled.

Record TransientEventDelivery := {
  _listeners : dict string (list uuid);
  (** the futures the event loop has created, by identity *)
  futures : dict uuid future
}.
#[export] Instance eta_TransientEventDelivery : Eta TransientEventDelivery := fun d => {|
  _listeners := _listeners d; futures := futures d |}.

Definition delivery_init : TransientEventDelivery := {| _listeners := ∅; futures := ∅ |}.

(** [if not fut.done(): fut.set_result(payload)] *)
Definition set_if_pending (payload : option value) (d : TransientEventDelivery) (fut : uuid) :
    TransientEventDelivery :=
  match futures d !! fut with
  | Some Pending => d .[futures ::= <[fut := Result payload]>]
  | _ => d
  end.

Definition fire (event_name : string) (payload : option value) : M TransientEventDelivery unit :=
  waiting ← mgets (fun d => default [] (_listeners d !! event_name));
  mmod (fun d => d .[_listeners ::= delete event_name]) ;;
  mmod (fun d => fold_left (set_if_pending payload) waiting d).

Definition wait_register (fut : uuid) (event_name : string) : M TransientEventDelivery unit :=
  mmod (fun d => d .[futures ::= <[fut := Pending]>]
                   .[_listeners ::= <[event_name := default [] (_listeners d !! event_name) ++ [fut]]>]).

Definition wait_timeout (fut : uuid) : M TransientEventDelivery unit :=
  mmod (fun d => match futures d !! fut with
                 | Some Pending => d .[futures ::= <[fut := Cancelled]>]
                 | _ => d
                 end).

(** What [wait_for] returns once its future is done. *)
Definition wait_result (f : future) : option (option value) :=
  match f with
  | Pending => None
  | Result payload => Some payload
  | Cancelled => Some None
  end.
