(* ===== verification/DispatchWorker.v ===== *)
(** dispatch/_action_executor.py and dispatch/_dispatch_worker.py: running the actions of a
    subscription, and the worker that polls the event queue, matches events against subscriptions,
    executes or buffers their actions, records completions and advances its cursor.

    The outside world [W] - script modules, the workflow executor, notifications, the trace store the
    fired events go to, the logging handlers, the identity layer, the stop flag - is a parameter.  The
    LISTEN connection only wakes the loop up and is left out. *)
From S2P Require Import Prelude PyDict Types Dispatch.

(** ** Actions *)

(** Whether a JSON value counts as true. *)
Definition value_truthy (v : value) : bool :=
  match v with
  | VNone => false
  | VBool b => b
  | VInt z => negb (z =? 0)%Z
  | VStr s => bool_decide (s <> ""%string)
  | VUuidStr _ => true
  | VList l => match l with [] => false | _ => true end
  | VDict d => match d with [] => false | _ => true end
  end.

(** [data or {}] and [data or None] *)
Definition or_empty (data : option value) : value :=
  match data with
  | Some v => if value_truthy v then v else VDict []
  | None => VDict []
  end.
Definition or_none (data : value) : option value := if value_truthy data then Some data else None.

Definition ascii_upper (a : Ascii.ascii) : Ascii.ascii :=
  let n := Ascii.nat_of_ascii a in
  if decide (97 <= n /\ n <= 122) then Ascii.ascii_of_nat (n - 32) else a.

Fixpoint str_upper (s : string) : string :=
  match s with
  | EmptyString => EmptyString
  | String a s' => String (ascii_upper a) (str_upper s')
  end.

(** [getattr(logging, level.upper(), logging.INFO)]: besides the levels, two attributes of the module
    have upper-case names, and [logger.log] refuses them for not being integers. *)
Definition log_level (level : string) : result Z :=
  match assoc (str_upper level)
          [("CRITICAL", Some 50); ("FATAL", Some 50); ("ERROR", Some 40); ("WARNING", Some 30);
           ("WARN", Some 30); ("INFO", Some 20); ("DEBUG", Some 10); ("NOTSET", Some 0);
           ("BASIC_FORMAT", None); ("_STYLES", None)]%Z%string with
  | Some (Some z) => Ok z
  | Some None => Raise (TypeError "level must be an integer")
  | None => Ok 20%Z
  end.

Section actions.
Context {W : Type}.

(** What [importlib.import_module] and [getattr] find. *)
Inductive script :=
| ModuleNotFound
| FunctionNotFound
| Script (func : list value -> M W unit).

Context (load_script : string -> string -> script).
(** The logging handlers. *)
Context (emit_log : Z -> string -> Z -> M W unit).

Definition _run_script (callable : string) (events : list value) : M W unit :=
  match split_colon callable with
  | [module_path; func_name] =>
      match load_script module_path func_name with
      | ModuleNotFound => mthrow (OtherError "ImportError: Module not found")
      | FunctionNotFound => mthrow (OtherError "AttributeError: Function not found")
      | Script func => func events
      end
  | _ => mthrow (ValueError "Invalid callable path")
  end.

Definition _run_log (message level : string) (events : list value) : M W unit :=
  match log_level level with
  | Raise e => mthrow e
  | Ok z => emit_log z message (Z.of_nat (length events))
  end.

Definition _run_workflow (workflow_path : string) (config : value) (events : list value)
    (executor : option (string -> value -> list value -> M W unit)) : M W unit :=
  match executor with
  | None => mthrow (RuntimeError "WorkflowAction requires an ActionExecutor but none was provided")
  | Some execute_workflow => execute_workflow workflow_path config events
  end.

Definition _run_event (event_type : string) (data : value)
    (callback : option (string -> option value -> M W unit)) : M W unit :=
  match callback with
  | None => mthrow (RuntimeError "EventAction requires an event_fire_callback but none was provided")
  | Some callback => callback event_type (or_none data)
  end.

Definition _run_notify (target_principal_id : uuid) (source_ref : string) (payload : value)
    (port : option (uuid -> string -> value -> M W uuid)) : M W unit :=
  match port with
  | None => mthrow (RuntimeError "NotifyAction requires a notification_port but none was provided")
  | Some create_delivery => create_delivery target_principal_id source_ref payload ;; mret tt
  end.

Definition execute_action (action : Action) (events : list value)
    (workflow_executor : option (string -> value -> list value -> M W unit))
    (event_fire_callback : option (string -> option value -> M W unit))
    (notification_port : option (uuid -> string -> value -> M W uuid)) : M W unit :=
  match action with
  | ScriptAction callable => _run_script callable events
  | LogAction message level => _run_log message level events
  | WorkflowAction workflow_path config => _run_workflow workflow_path config events workflow_executor
  | EventAction event_type data _ => _run_event event_type data event_fire_callback
  | NotifyAction target source_ref payload => _run_notify target source_ref payload notification_port
  end.
End actions.
Arguments script : clear implicits.

(** ** The worker *)

(** A flush the [FlushScheduler] was asked to run after a delay. *)
Record flush_request := {
  fr_deadline : Z; fr_sub_action : SubscriptionAction; fr_owner : uuid
}.

Record worker (W : Type) := Worker {
  wk_backend : InMemoryDispatchBackend;
  wk_ext : W;
  _last_expiry_sweep : time;
  wk_scheduled : list flush_request;
  (** the next number [uuid7] and the clock give *)
  wk_next : Z;
  (** which (event, action) pairs execution was begun for, in order: a history the code does not keep *)
  wk_history : list (uuid * uuid)
}.
Arguments Worker {W} _ _ _ _ _ _.
Arguments wk_backend {W} _.
Arguments wk_ext {W} _.
Arguments _last_expiry_sweep {W} _.
Arguments wk_scheduled {W} _.
Arguments wk_next {W} _.
Arguments wk_history {W} _.
#[export] Instance eta_worker {W} : Eta (worker W) := fun s => {|
  wk_backend := wk_backend s; wk_ext := wk_ext s; _last_expiry_sweep := _last_expiry_sweep s;
  wk_scheduled := wk_scheduled s; wk_next := wk_next s; wk_history := wk_history s |}.

Definition on_backend {W A} (m : M InMemoryDispatchBackend A) : M (worker W) A :=
  zoom wk_backend (fun b s => s .[wk_backend := b]) m.
Definition on_ext {W A} (m : M W A) : M (worker W) A := zoom wk_ext (fun w s => s .[wk_ext := w]) m.
Definition bget {W A} (f : InMemoryDispatchBackend -> A) : M (worker W) A :=
  mgets (fun s => f (wk_backend s)).
Definition wfresh {W} : M (worker W) Z := fun s => (Ok (wk_next s), s .[wk_next ::= Z.succ]).
Definition note {W} (pairs : list (uuid * uuid)) : M (worker W) unit :=
  mmod (fun s => s .[wk_history ::= fun l => l ++ pairs]).

(** The constructor's arguments, as operations on the outside world. *)
Record worker_config (W : Type) := {
  load_script : string -> string -> script W;
  emit_log : Z -> string -> Z -> M W unit;
  action_executor : string -> value -> list value -> M W unit;
  notification_port : option (uuid -> string -> value -> M W uuid);
  (** [TraceWriter(pool).write_event(None, event_type, data, principal_id=owner)] *)
  trace_write_event : string -> value -> uuid -> M W unit;
  (** [TraceWriter(pool).expire_due_inbox_items(now)] *)
  expire_due_items : time -> M W Z;
  resolve_source_principals : list string -> M W (list uuid);
  (** [json.loads] and [datetime.isoformat] *)
  json_loads : string -> result value;
  isoformat : time -> string;
  (** [self._stop_event.is_set()], and waiting for a wake-up, a stop or the poll interval *)
  stop_is_set : W -> bool;
  wait_for_wake : M W unit;
  _cursor_name : string;
  _batch_size : Z
}.
Arguments load_script {W} _ _ _.
Arguments emit_log {W} _ _ _ _.
Arguments action_executor {W} _ _ _ _.
Arguments notification_port {W} _.
Arguments trace_write_event {W} _ _ _ _.
Arguments expire_due_items {W} _ _.
Arguments resolve_source_principals {W} _ _.
Arguments json_loads {W} _ _.
Arguments isoformat {W} _ _.
Arguments stop_is_set {W} _ _.
Arguments wait_for_wake {W} _.
Arguments _cursor_name {W} _.
Arguments _batch_size {W} _.

(** One minute, in microseconds. *)
Definition _EXPIRY_SWEEP_INTERVAL : Z := 60000000.

(** The default [limit] of [claim_batch]. *)
Definition claim_limit : Z := 100.

Section worker.
Context {W : Type} (cfg : worker_config W).

Definition _make_event_fire_callback (owner_principal_id : uuid) (event_type : string)
    (data : option value) : M W unit :=
  trace_write_event cfg event_type (or_empty data) owner_principal_id.

(** The call of [execute_action] both users make. *)
Definition execute (action : Action) (events : list value) (owner_principal_id : uuid) :
    M (worker W) unit :=
  on_ext (execute_action (load_script cfg) (emit_log cfg) action events
            (Some (action_executor cfg)) (Some (_make_event_fire_callback owner_principal_id))
            (notification_port cfg)).

Definition _flush_action (sub_action : SubscriptionAction) (owner_principal_id : uuid) :
    M (worker W) unit :=
  batch ← on_backend (claim_batch (sa_id sub_action) claim_limit);
  match batch with
  | [] => mret tt
  | _ =>
      let events := (fun e => VDict [("entry_id", VUuidStr (ae_id e));
                                     ("event_id", VUuidStr (ae_event_id e));
                                     ("created_at", VStr (isoformat cfg (ae_created_at e)))]%string)
                      <$> batch in
      note ((fun e => (ae_event_id e, sa_id sub_action)) <$> batch) ;;
      ok ← mexcept (execute (sa_action sub_action) events owner_principal_id ;; mret true)
                   (fun _ => mret false);
      if ok : bool then on_backend (confirm_batch (ae_id <$> batch)) else mret tt
  end.

Definition _buffer_or_flush (sub_action : SubscriptionAction) (event_id owner_principal_id : uuid) :
    M (worker W) unit :=
  id ← wfresh;
  now ← wfresh;
  on_backend (buffer_event {| ae_id := id; ae_subscription_action_id := sa_id sub_action;
                              ae_event_id := event_id; ae_created_at := now |}) ;;
  let config := default {| acc_threshold := 0; acc_flush_interval_s := 0 |}
                  (sa_accumulator_config sub_action) in
  pending ← bget (fun b => pending_count b (sa_id sub_action));
  if decide (0 < acc_threshold config /\ acc_threshold config <= pending)%Z
  then _flush_action sub_action owner_principal_id
  else if decide (0 < acc_flush_interval_s config)%Z
  then mmod (fun s => s .[wk_scheduled ::= fun l =>
         l ++ [{| fr_deadline := acc_flush_interval_s config; fr_sub_action := sub_action;
                  fr_owner := owner_principal_id |}]])
  else mret tt.

Definition _execute_action_immediate (sub_action : SubscriptionAction) (event_id : uuid)
    (event_type : string) (principal_id : option uuid) (data : option value)
    (owner_principal_id : uuid) : M (worker W) unit :=
  let event_payload := VDict
    [ ("event_type", VStr event_type);
      ("principal_id", match principal_id with Some p => VUuidStr p | None => VStr "" end);
      ("data", or_empty data);
      ("event_id", VUuidStr event_id) ]%string in
  note [(event_id, sa_id sub_action)] ;;
  mexcept (execute (sa_action sub_action) [event_payload] owner_principal_id) (fun _ => mret tt).

(** The body of the loop over the actions of a matching subscription. *)
Definition process_action (event : dispatch_event) (data : option value) (sub : Subscription)
    (sub_action : SubscriptionAction) : M (worker W) unit :=
  completed ← bget (fun b => is_action_completed b (de_id event) (sa_id sub_action));
  if completed : bool then mret tt
  else
    match sa_accumulator_config sub_action with
    | Some _ => _buffer_or_flush sub_action (de_id event) (sub_principal_id sub)
    | None => _execute_action_immediate sub_action (de_id event) (de_event_type event)
                (de_principal_id event) data (sub_principal_id sub)
    end ;;
    on_backend (record_completion (de_id event) (sa_id sub_action) "success").

(** The body of the loop over the subscriptions. *)
Definition process_subscription (event : dispatch_event) (data : option value) (sub : Subscription) :
    M (worker W) unit :=
  matches ← on_ext (match_subscription (resolve_source_principals cfg) (de_event_type event)
                      (de_principal_id event) data (sub_filter sub));
  if negb matches then mret tt
  else
    actions ← bget (fun b => list_actions b (sub_id sub));
    mfor actions (process_action event data sub).

(** [json.loads] of string data. *)
Definition event_data (event : dispatch_event) : result (option value) :=
  match de_data event with
  | None => Ok None
  | Some (VStr raw) => v ← json_loads cfg raw; Ok (Some v)
  | Some v => Ok (Some v)
  end.

(** The body of the loop over the events. *)
Definition process_event (subscriptions : list Subscription) (event : dispatch_event) :
    M (worker W) unit :=
  match event_data event with
  | Raise e => mthrow e
  | Ok data =>
      mfor subscriptions (process_subscription event data) ;;
      on_backend (advance_cursor (_cursor_name cfg) (de_id event))
  end.

(** The loop over the events, which a stop request ends early; counts the events processed. *)
Fixpoint process_events (subscriptions : list Subscription) (events : list dispatch_event)
    (processed : Z) : M (worker W) Z :=
  match events with
  | [] => mret processed
  | event :: events' =>
      stop ← mgets (fun s => stop_is_set cfg (wk_ext s));
      if stop : bool then mret processed
      else process_event subscriptions event ;;
           process_events subscriptions events' (processed + 1)%Z
  end.

Definition _poll_and_process : M (worker W) Z :=
  cursor_pos ← bget (fun b => get_cursor_position b (_cursor_name cfg));
  events ← bget (fun b => poll_events_since b cursor_pos (_batch_size cfg));
  match events with
  | [] => mret 0%Z
  | _ =>
      subscriptions ← bget (fun b => list_subscriptions b true None);
      process_events subscriptions events 0%Z
  end.

Definition _maybe_sweep_expired_inbox : M (worker W) unit :=
  now ← wfresh;
  last ← mgets _last_expiry_sweep;
  if decide (now - last < _EXPIRY_SWEEP_INTERVAL)%Z then mret tt
  else
    mmod (fun s => s .[_last_expiry_sweep := now]) ;;
    mexcept (on_ext (expire_due_items cfg now) ;; mret tt) (fun _ => mret tt).

(** The main loop, for at most [fuel] rounds; [false] when it is still running. *)
Fixpoint run_loop (fuel : nat) : M (worker W) bool :=
  match fuel with
  | 0 => mret false
  | S fuel' =>
      stop ← mgets (fun s => stop_is_set cfg (wk_ext s));
      if stop : bool then mret true
      else
        processed ← _poll_and_process;
        _maybe_sweep_expired_inbox ;;
        (if decide (0 < processed)%Z then mret tt else on_ext (wait_for_wake cfg)) ;;
        run_loop fuel'
  end.

(** The flush scheduler runs the callback of a request. *)
Definition run_flush (r : flush_request) : M (worker W) unit :=
  _flush_action (fr_sub_action r) (fr_owner r).
End worker.

Definition worker_init {W} (b : InMemoryDispatchBackend) (w : W) : worker W :=
  Worker b w (-62135596800000000) [] 1 [].
