(* ===== verification/DispatchSpec.v ===== *)
(** What the dispatcher guarantees: each event reaches each action at most once and nothing completed
    is lost, the worker catches up with the event queue, batches are claimed oldest first, and what
    becomes of a waiter; and what a failed flush and an undecodable event do to the worker. *)
From S2P Require Import Prelude PyDict Types Dispatch DispatchWorker.

(** ** The ledger: completion records against deliveries and the buffer *)

(** The (event, action) pair a buffered entry stands for. *)
Definition entry_pair (e : AccumulatorEntry) : uuid * uuid :=
  (ae_event_id e, ae_subscription_action_id e).

(** The buffered entries no flush has claimed. *)
Definition waiting (b : InMemoryDispatchBackend) : list AccumulatorEntry :=
  filter (fun e => ae_id e ∉ _claimed b) (dvalues (_accumulator b)).

(** What was handed to the executor, and what waits in the buffer. *)
Definition accounted {W : Type} (s : worker W) : list (uuid * uuid) :=
  wk_history s ++ (entry_pair <$> waiting (wk_backend s)).

(** The accumulator is keyed by entry id, and ids are older than the next one. *)
Record buffer_ok (b : InMemoryDispatchBackend) (next : Z) : Prop := {
  bo_wf : dwf (_accumulator b);
  bo_ids k e : _accumulator b !! k = Some e -> ae_id e = k /\ (k < next)%Z;
  bo_claimed k : k ∈ _claimed b -> (k < next)%Z
}.

Record ledger {W : Type} (C : gset (uuid * uuid)) (s : worker W) : Prop := {
  lg_buffer : buffer_ok (wk_backend s) (wk_next s);
  lg_nodup : NoDup (accounted s);
  lg_completed p : p ∈ C <-> p ∈ accounted s
}.

Definition completions_of {W : Type} (s : worker W) : gset (uuid * uuid) := _completions (wk_backend s).
Definition balanced {W : Type} (s : worker W) : Prop := ledger (completions_of s) s.

(** Two workers with the same books. *)
Lemma ledger_same {W : Type} C (s s' : worker W) :
  ledger C s -> _accumulator (wk_backend s') = _accumulator (wk_backend s) ->
  _claimed (wk_backend s') = _claimed (wk_backend s) -> (wk_next s <= wk_next s')%Z ->
  wk_history s' = wk_history s -> ledger C s'.
Proof.
  intros [[Hwf Hids Hcl] Hnd HC] Ea Ec En Eh.
  assert (E : accounted s' = accounted s) by (unfold accounted, waiting; by rewrite Ea, Ec, Eh).
  split; [split|..]; rewrite ?E, ?Ea, ?Ec; try done.
  - intros k e Hk. destruct (Hids k e Hk). split; [done|lia].
  - intros k Hk. specialize (Hcl k Hk). lia.
Qed.

Lemma ledger_perm {W : Type} C C' (s s' : worker W) extra :
  ledger C s -> accounted s' ≡ₚ extra ++ accounted s -> buffer_ok (wk_backend s') (wk_next s') ->
  NoDup extra -> (forall p, p ∈ extra -> p ∉ C) -> (forall p, p ∈ C' <-> p ∈ extra \/ p ∈ C) ->
  ledger C' s'.
Proof.
  intros [_ Hnd HC] Ep Hb Hex Hnew HC'. split; [done|..].
  - rewrite Ep. apply NoDup_app. split_and!; [done| |done].
    intros p Hp Hin. apply (Hnew p Hp), HC, Hin.
  - intros p. by rewrite HC', Ep, elem_of_app, HC.
Qed.

(** Values of the accumulator are its entries. *)
Lemma entry_in b next e :
  buffer_ok b next -> e ∈ dvalues (_accumulator b) -> _accumulator b !! ae_id e = Some e.
Proof.
  intros Hb He. destruct (dict_value_lookup e _ (bo_wf _ _ Hb) He) as [k Hk].
  by destruct (bo_ids _ _ Hb k e Hk) as [-> _].
Qed.

Lemma entries_nodup b next : buffer_ok b next -> NoDup (ae_id <$> dvalues (_accumulator b)).
Proof.
  intros Hb. replace (ae_id <$> dvalues (_accumulator b)) with (dkeys (_accumulator b)); [apply Hb|].
  unfold dkeys, dvalues. rewrite <- list_fmap_compose. apply list_fmap_ext. intros i [k e] Hi. simpl.
  apply list_elem_of_lookup_2, (dict_in_lookup _ _ _ (bo_wf _ _ Hb)) in Hi.
  by destruct (bo_ids _ _ Hb k e Hi).
Qed.

Lemma elem_of_unclaimed b a e :
  e ∈ unclaimed b a <-> ae_subscription_action_id e = a /\ e ∈ waiting b.
Proof. unfold unclaimed, waiting. rewrite !list_elem_of_filter. tauto. Qed.

Lemma elem_of_batch b a limit e :
  e ∈ py_take limit (sort_by ae_created_at (unclaimed b a)) -> e ∈ unclaimed b a.
Proof.
  unfold py_take. rewrite <- (elem_of_sort_by ae_created_at e (unclaimed b a)).
  case_decide; apply subseteq_take.
Qed.

(** ** Claiming and confirming *)

Definition claim_state (b : InMemoryDispatchBackend) (batch : list AccumulatorEntry) :=
  b .[_claimed ::= fun c => list_to_set (ae_id <$> batch) ∪ c].

Definition batch_of (b : InMemoryDispatchBackend) (a : uuid) (limit : Z) : list AccumulatorEntry :=
  py_take limit (sort_by ae_created_at (unclaimed b a)).

Lemma claim_batch_run a limit b :
  claim_batch a limit b = (Ok (batch_of b a limit), claim_state b (batch_of b a limit)).
Proof. reflexivity. Qed.

Lemma batch_nodup b next a limit : buffer_ok b next -> NoDup (ae_id <$> batch_of b a limit).
Proof.
  intros Hb. assert (Hs : NoDup (ae_id <$> sort_by ae_created_at (unclaimed b a))).
  { rewrite sort_by_perm. unfold unclaimed. eapply sublist_NoDup; [apply (entries_nodup b next Hb)|].
    apply fmap_sublist, sublist_filter. }
  unfold batch_of, py_take. eapply sublist_NoDup; [exact Hs|]. apply fmap_sublist.
  case_decide; apply sublist_take.
Qed.

Lemma batch_waiting b a limit e :
  e ∈ batch_of b a limit -> e ∈ waiting b /\ ae_subscription_action_id e = a.
Proof. intros [? ?]%elem_of_batch%elem_of_unclaimed. done. Qed.

(** What was waiting is the batch and what is still waiting. *)
Lemma claim_waiting b next a limit :
  buffer_ok b next ->
  waiting b ≡ₚ batch_of b a limit ++ waiting (claim_state b (batch_of b a limit)).
Proof.
  intros Hb. set (batch := batch_of b a limit).
  assert (Hnd : NoDup (waiting b)).
  { apply (NoDup_fmap_1 ae_id), fmap_filter_NoDup, (entries_nodup b next Hb). }
  apply NoDup_Permutation; [done| |].
  - apply NoDup_app. split_and!.
    + apply (NoDup_fmap_1 ae_id), (batch_nodup b next a limit Hb).
    + intros e He Hw. apply list_elem_of_filter in Hw as [Hw _]. apply Hw. simpl.
      apply elem_of_union_l, elem_of_list_to_set. by apply list_elem_of_fmap_2.
    + apply NoDup_filter, (NoDup_fmap_1 ae_id), (entries_nodup b next Hb).
  - intros e. rewrite elem_of_app. split.
    + intros Hw. apply list_elem_of_filter in Hw as [Hw Hd].
      destruct (decide (ae_id e ∈ ae_id <$> batch)) as [Hin|Hn]; [left|right].
      * apply list_elem_of_fmap in Hin as (e' & E & He').
        destruct (batch_waiting _ _ _ _ He') as [[_ Hd']%list_elem_of_filter _].
        apply (entry_in b next) in Hd, Hd'; [|done..]. congruence.
      * apply list_elem_of_filter. split; [|done]. simpl. set_solver.
    + intros [He|Hw]; [by destruct (batch_waiting _ _ _ _ He)|].
      apply list_elem_of_filter in Hw as [Hw Hd]. simpl in *. apply list_elem_of_filter.
      split; [set_solver|done].
Qed.

Lemma claim_pairs b a limit :
  (fun e => (ae_event_id e, a)) <$> batch_of b a limit = entry_pair <$> batch_of b a limit.
Proof.
  apply list_fmap_ext. intros i e He%list_elem_of_lookup_2.
  destruct (batch_waiting _ _ _ _ He) as [_ Ha]. unfold entry_pair. by rewrite Ha.
Qed.

(** Confirming one id that is claimed, or not buffered. *)
Definition confirm_one (eid : uuid) (b : InMemoryDispatchBackend) : InMemoryDispatchBackend :=
  b .[_accumulator ::= delete eid] .[_claimed ::= fun c => c ∖ {[eid]}].

Definition settled (b : InMemoryDispatchBackend) (eid : uuid) : Prop :=
  eid ∈ _claimed b \/ _accumulator b !! eid = None.

Lemma confirm_one_ok eid b next : buffer_ok b next -> buffer_ok (confirm_one eid b) next.
Proof.
  intros [Hwf Hids Hcl]. split; simpl.
  - by apply dwf_delete.
  - intros k e. rewrite dict_lookup_delete. case_decide; [done|apply Hids].
  - intros k Hk. apply Hcl. set_solver.
Qed.

Lemma waiting_confirm_one eid b next :
  buffer_ok b next -> settled b eid -> waiting (confirm_one eid b) = waiting b.
Proof.
  intros Hb Hs. unfold waiting, dvalues.
  replace (_accumulator (confirm_one eid b)) with (delete eid (_accumulator b)) by done.
  replace (_claimed (confirm_one eid b)) with (_claimed b ∖ {[eid]}) by done.
  rewrite ditems_delete.
  assert (Hids : forall k e, (k, e) ∈ ditems (_accumulator b) -> ae_id e = k).
  { intros k e Hin%dict_in_lookup; [|apply Hb]. by destruct (bo_ids _ _ Hb k e Hin). }
  assert (Hkey : eid ∈ _claimed b \/ forall e, (eid, e) ∉ ditems (_accumulator b)).
  { destruct Hs as [?|Hn]; [by left|right]. intros e Hin%dict_in_lookup; [|apply Hb]. congruence. }
  clear Hs Hb. induction (ditems (_accumulator b)) as [|[k e] l IH]; [done|].
  rewrite filter_cons. assert (Ek : ae_id e = k) by (apply Hids; left).
  assert (IHl := IH ltac:(intros k' e' ?; apply Hids; by right)).
  assert (Hl : eid ∈ _claimed b \/ forall e', (eid, e') ∉ l).
  { destruct Hkey as [?|Hn]; [by left|right]. intros e' ?. apply (Hn e'). by right. }
  specialize (IHl Hl). simpl. destruct (decide (k <> eid)) as [Hne|Heq%dec_stable]; csimpl.
  - rewrite !filter_cons, IHl, Ek.
    destruct (decide (k ∉ _claimed b ∖ {[eid]})), (decide (k ∉ _claimed b)); set_solver.
  - subst k. destruct Hkey as [Hc|Hn]; [|exfalso; apply (Hn e); rewrite <- Heq; left].
    rewrite filter_cons, decide_False by (rewrite Heq; tauto). apply IHl.
Qed.

Lemma confirm_batch_run ids b :
  confirm_batch ids b = (Ok tt, fold_left (fun b eid => confirm_one eid b) ids b).
Proof. revert b. induction ids as [|eid ids IH]; intros b; [done|]. apply (IH (confirm_one eid b)). Qed.

Lemma confirm_batch_eta ids b : confirm_batch ids b = (Ok tt, snd (confirm_batch ids b)).
Proof. by rewrite confirm_batch_run. Qed.

Lemma confirm_batch_frame ids b next :
  buffer_ok b next -> Forall (settled b) ids ->
  let b' := snd (confirm_batch ids b) in
  buffer_ok b' next /\ waiting b' = waiting b /\ _completions b' = _completions b.
Proof.
  rewrite confirm_batch_run. simpl. revert b.
  induction ids as [|eid ids IH]; intros b Hb Hs; [done|].
  apply Forall_cons in Hs as [Hs Hss]. simpl.
  destruct (IH (confirm_one eid b)) as (? & -> & ->).
  - by apply confirm_one_ok.
  - eapply Forall_impl; [exact Hss|]. intros k [Hk|Hk]; unfold settled; simpl.
    + destruct (decide (k = eid)) as [->|]; [right|left; set_solver].
      rewrite dict_lookup_delete. by case_decide.
    + right. rewrite dict_lookup_delete. by case_decide.
  - split_and!; [done| |done]. eapply waiting_confirm_one; done.
Qed.

(** ** The worker's operations keep the books *)

Section worker_spec.
Context {W : Type} (cfg : worker_config W).
Implicit Types (s : worker W) (b : InMemoryDispatchBackend) (C : gset (uuid * uuid)).

Lemma wp_on_backend {A} (m : M InMemoryDispatchBackend A) a b (Q : A -> worker W -> Prop) E s :
  m (wk_backend s) = (Ok a, b) -> Q a (s .[wk_backend := b]) -> wp (on_backend m) Q E s.
Proof. intros Em HQ. unfold wp, on_backend, zoom. by rewrite Em. Qed.

Lemma wp_on_ext {A} (m : M W A) (Q : A -> worker W -> Prop) E s :
  (forall a w, Q a (s .[wk_ext := w])) -> (forall e w, E e (s .[wk_ext := w])) ->
  wp (on_ext m) Q E s.
Proof. intros HQ HE. unfold wp, on_ext, zoom. destruct (m (wk_ext s)) as [[a|e] w]; auto. Qed.

Lemma wp_on_ext_raise {A} (m : M W A) (Q : A -> worker W -> Prop) E s :
  is_ok (fst (on_ext m s)) = false -> (forall e w, E e (s .[wk_ext := w])) -> wp (on_ext m) Q E s.
Proof.
  intros Hf HE. unfold wp, on_ext, zoom in *. destruct (m (wk_ext s)) as [[a|e] w]; [done|]. apply HE.
Qed.

Lemma claim_ok b next a limit :
  buffer_ok b next -> buffer_ok (claim_state b (batch_of b a limit)) next.
Proof.
  intros Hb. split; simpl; [apply Hb|apply Hb|].
  intros k [Hk|Hk]%elem_of_union; [|by eapply bo_claimed].
  apply elem_of_list_to_set, list_elem_of_fmap in Hk as (e & -> & He).
  destruct (batch_waiting _ _ _ _ He) as [[_ Hd]%list_elem_of_filter _].
  apply (entry_in b next _ Hb) in Hd. by destruct (bo_ids _ _ Hb _ _ Hd).
Qed.

(** Claiming a batch and noting it moves its pairs from the buffer to the history. *)
Lemma claim_ledger C s a limit :
  ledger C s ->
  let batch := batch_of (wk_backend s) a limit in
  ledger C (s .[wk_backend := claim_state (wk_backend s) batch]
              .[wk_history ::= fun l => l ++ (entry_pair <$> batch)]).
Proof.
  intros HL batch. apply (ledger_perm C C s _ []); [done| | |by apply NoDup_nil_2|set_solver..].
  - unfold accounted; simpl. rewrite <- app_assoc, <- fmap_app. f_equiv. f_equiv.
    symmetry. eapply claim_waiting, (lg_buffer C), HL.
  - simpl. apply claim_ok, (lg_buffer C), HL.
Qed.

(** Confirming a batch that is claimed leaves the books as they are. *)
Lemma confirm_ledger C s ids :
  ledger C s -> Forall (settled (wk_backend s)) ids ->
  ledger C (s .[wk_backend := snd (confirm_batch ids (wk_backend s))]).
Proof.
  intros HL Hs. destruct (confirm_batch_frame ids _ _ (lg_buffer _ _ HL) Hs) as (Hb & Hw & _).
  apply (ledger_perm C C s _ []); [done| | |by apply NoDup_nil_2|set_solver..].
  - unfold accounted; simpl. by rewrite Hw.
  - done.
Qed.

Lemma flush_ledger sa owner C s :
  ledger C s ->
  wp (_flush_action cfg sa owner)
     (fun _ s' => ledger C s' /\ completions_of s' = completions_of s)
     (fun e s' => is_Exception e = false /\ ledger C s' /\ completions_of s' = completions_of s) s.
Proof.
  intros HL. apply wp_bind. eapply wp_on_backend; [apply claim_batch_run|].
  pose proof (claim_ledger C s (sa_id sa) claim_limit HL) as HL2. cbv zeta in HL2.
  assert (Hid : forall e, e ∈ batch_of (wk_backend s) (sa_id sa) claim_limit ->
                  ae_id e ∈ _claimed (claim_state (wk_backend s) (batch_of (wk_backend s) (sa_id sa) claim_limit))).
  { intros e He. apply elem_of_union_l, elem_of_list_to_set, list_elem_of_fmap_2, He. }
  rewrite <- (claim_pairs (wk_backend s)) in HL2.
  destruct (batch_of (wk_backend s) (sa_id sa) claim_limit) as [|e0 rest] eqn:Eb.
  { apply wp_ret. split; [|done]. eapply ledger_same; [exact HL|simpl..]; try done. set_solver. }
  assert (Hset : Forall (settled (claim_state (wk_backend s) (e0 :: rest))) (ae_id <$> e0 :: rest)).
  { apply Forall_fmap, Forall_forall. intros e He. left. by apply Hid. }
  apply wp_bind, wp_mmod, wp_bind, wp_except, wp_bind, wp_on_ext.
  - intros _ w. apply wp_ret. cbn beta iota.
    eapply wp_on_backend; [apply confirm_batch_eta|]. split.
    + apply confirm_ledger; [by eapply ledger_same; [exact HL2|..]|].
      exact Hset.
    + unfold completions_of; simpl.
      edestruct confirm_batch_frame as (_ & _ & ->); [exact (lg_buffer _ _ HL2)|exact Hset|done].
  - intros e w. destruct (is_Exception e) eqn:Ee; [apply wp_ret; cbn beta iota; apply wp_ret|split; [done|]];
      (split; [by eapply ledger_same; [exact HL2|..]|done]).
Qed.

Lemma wp_wfresh (Q : Z -> worker W -> Prop) E s :
  Q (wk_next s) (s .[wk_next ::= Z.succ]) -> wp wfresh Q E s.
Proof. done. Qed.

Lemma buffered_ok b next entry :
  buffer_ok b next -> ae_id entry = next ->
  buffer_ok (b .[_accumulator ::= <[ae_id entry := entry]>]) (Z.succ (Z.succ next)).
Proof.
  intros [Hwf Hids Hcl] Hid. split; simpl.
  - by apply dwf_insert.
  - intros k e. rewrite dict_lookup_insert. case_decide; [intros [= ->]; subst; split; [done|lia]|].
    intros Hk. destruct (Hids k e Hk). split; [done|lia].
  - intros k Hk%Hcl. lia.
Qed.

Lemma buffered_ledger C s entry :
  ledger C s -> entry_pair entry ∉ C -> ae_id entry = wk_next s ->
  ledger ({[entry_pair entry]} ∪ C)
    (s .[wk_next ::= Z.succ] .[wk_next ::= Z.succ]
       .[wk_backend ::= fun b => b .[_accumulator ::= <[ae_id entry := entry]>]]).
Proof.
  intros HL Hnew Hid. pose proof (lg_buffer _ _ HL) as [Hwf Hids Hcl].
  assert (Hfree : _accumulator (wk_backend s) !! ae_id entry = None).
  { rewrite Hid. destruct (_accumulator (wk_backend s) !! wk_next s) as [e|] eqn:E; [|done].
    destruct (Hids _ _ E). lia. }
  assert (Hncl : ae_id entry ∉ _claimed (wk_backend s)).
  { rewrite Hid. intros Hk%Hcl. lia. }
  apply (ledger_perm C _ s _ [entry_pair entry]); [done| | |apply NoDup_singleton|set_solver..].
  - unfold accounted, waiting; simpl. rewrite dvalues_insert_new, filter_app, filter_cons_True by done.
    rewrite fmap_app, filter_nil, app_assoc. simpl. by rewrite Permutation_app_comm.
  - simpl. apply buffered_ok; [apply (lg_buffer _ _ HL)|done].
Qed.

Lemma buffer_or_flush_ledger sa ev owner C s :
  ledger C s -> (ev, sa_id sa) ∉ C ->
  wp (_buffer_or_flush cfg sa ev owner)
     (fun _ s' => ledger ({[(ev, sa_id sa)]} ∪ C) s' /\ completions_of s' = completions_of s)
     (fun e s' => is_Exception e = false /\
        ledger ({[(ev, sa_id sa)]} ∪ C) s' /\ completions_of s' = completions_of s) s.
Proof.
  intros HL Hnew. apply wp_bind, wp_wfresh, wp_bind, wp_wfresh, wp_bind.
  eapply wp_on_backend; [reflexivity|]. apply wp_bind, wp_mgets.
  pose proof (buffered_ledger C s {| ae_id := wk_next s; ae_subscription_action_id := sa_id sa;
    ae_event_id := ev; ae_created_at := Z.succ (wk_next s) |} HL Hnew eq_refl) as HL2.
  case_decide.
  - eapply wp_mono; [apply flush_ledger, HL2| |]; [intros _ s' [? ->]; done|].
    intros e s' (? & ? & ->). done.
  - case_decide; [apply wp_mmod|apply wp_ret]; (split; [by eapply ledger_same; [exact HL2|..]|done]).
Qed.

Lemma immediate_ledger sa ev ty p data owner C s :
  ledger C s -> (ev, sa_id sa) ∉ C ->
  wp (_execute_action_immediate cfg sa ev ty p data owner)
     (fun _ s' => ledger ({[(ev, sa_id sa)]} ∪ C) s' /\ completions_of s' = completions_of s)
     (fun e s' => is_Exception e = false /\
        ledger ({[(ev, sa_id sa)]} ∪ C) s' /\ completions_of s' = completions_of s) s.
Proof.
  intros HL Hnew. apply wp_bind, wp_mmod, wp_except.
  assert (HL2 : ledger ({[(ev, sa_id sa)]} ∪ C) (s .[wk_history ::= fun l => l ++ [(ev, sa_id sa)]])).
  { apply (ledger_perm C _ s _ [(ev, sa_id sa)]); [done| | |apply NoDup_singleton|set_solver..].
    - unfold accounted; simpl. rewrite <- app_assoc. apply Permutation_app_swap_app.
    - apply (lg_buffer _ _ HL). }
  apply wp_on_ext; [intros _ w|intros e w; destruct (is_Exception e) eqn:Ee; [apply wp_ret|split; [done|]]];
    (split; [by eapply ledger_same; [exact HL2|..]|done]).
Qed.

(** The books after an interruption: every execution that was begun and every entry that waits is accounted for
    once, and at most one of them has no completion record. *)
Definition torn s : Prop :=
  exists C, ledger C s /\ completions_of s ⊆ C /\
    forall x y, x ∈ C ∖ completions_of s -> y ∈ C ∖ completions_of s -> x = y.

Lemma balanced_torn s : balanced s -> torn s.
Proof. intros HL. exists (completions_of s). split_and!; [done|done|set_solver]. Qed.

(** [m] keeps the books, unless it is interrupted. *)
Definition steady {A} (m : M (worker W) A) : Prop :=
  forall s, balanced s ->
    wp m (fun _ => balanced) (fun e s' => torn s' /\ (is_Exception e = true -> balanced s')) s.

Lemma steady_keeps {A} (m : M (worker W) A) : keeps balanced m -> steady m.
Proof.
  intros Hm s Hs. eapply wp_mono; [by apply (wp_kept balanced)|done|].
  intros e s' Hs'. split; [by apply balanced_torn|done].
Qed.
Lemma steady_bind {A B} (m : M (worker W) A) (k : A -> M (worker W) B) :
  steady m -> (forall a, steady (k a)) -> steady (m ≫= k).
Proof.
  intros Hm Hk s Hs. apply wp_bind. eapply wp_mono; [by apply Hm| |done]. intros a s' Hs'. by apply Hk.
Qed.
Lemma steady_mfor {A} (l : list A) f : (forall x, steady (f x)) -> steady (mfor l f).
Proof.
  intros Hf. induction l as [|x l IH]; [apply steady_keeps, keeps_ret|]. by apply steady_bind.
Qed.

Lemma process_action_steady event data sub sa : steady (process_action cfg event data sub sa).
Proof.
  intros s HL. apply wp_bind, wp_mgets. unfold is_action_completed.
  case_bool_decide as Hdone; [by apply wp_ret|].
  apply wp_bind. eapply (wp_mono _ (fun _ s' =>
    ledger ({[(de_id event, sa_id sa)]} ∪ completions_of s) s' /\ completions_of s' = completions_of s)).
  - destruct (sa_accumulator_config sa);
      [by apply buffer_or_flush_ledger|by apply immediate_ledger].
  - intros _ s' [HL' Ec]. eapply wp_on_backend; [reflexivity|].
    unfold balanced, completions_of in *. simpl. rewrite Ec. by eapply ledger_same; [exact HL'|..].
  - intros e s' (He & HL' & Ec). split; [|congruence]. eexists. split; [exact HL'|]. rewrite Ec. set_solver.
Qed.

Lemma balanced_same s s' :
  balanced s -> _accumulator (wk_backend s') = _accumulator (wk_backend s) ->
  _claimed (wk_backend s') = _claimed (wk_backend s) -> completions_of s' = completions_of s ->
  (wk_next s <= wk_next s')%Z -> wk_history s' = wk_history s -> balanced s'.
Proof. unfold balanced. intros HL ? ? -> ? ?. by eapply ledger_same. Qed.

Lemma keeps_on_ext {A} (m : M W A) : keeps balanced (on_ext m).
Proof. apply keeps_wp. intros s HL. apply wp_on_ext; intros; by apply (balanced_same s). Qed.

Lemma process_event_steady subs event : steady (process_event cfg subs event).
Proof.
  unfold process_event. destruct (event_data cfg event) as [data|e]; [|apply steady_keeps, keeps_throw].
  apply steady_bind; [apply steady_mfor; intros sub|intros _].
  - apply steady_bind; [apply steady_keeps, keeps_on_ext|]. intros []; simpl; [|apply steady_keeps, keeps_ret].
    apply steady_bind; [apply steady_keeps, keeps_mgets|]. intros actions. apply steady_mfor. intros sa.
    apply process_action_steady.
  - apply steady_keeps. intros s HL. by apply (balanced_same s).
Qed.

Lemma poll_steady : steady (_poll_and_process cfg).
Proof.
  apply steady_bind; [apply steady_keeps, keeps_mgets|]. intros pos.
  apply steady_bind; [apply steady_keeps, keeps_mgets|]. intros [|ev events]; [apply steady_keeps, keeps_ret|].
  apply steady_bind; [apply steady_keeps, keeps_mgets|]. intros subs. generalize 0%Z, (ev :: events).
  intros n l. revert n. induction l as [|event l IH]; intros n; [apply steady_keeps, keeps_ret|].
  apply steady_bind; [apply steady_keeps, keeps_mgets|]. intros []; [apply steady_keeps, keeps_ret|].
  apply steady_bind; [apply process_event_steady|intros _; apply IH].
Qed.

(** *** Everything that happens to a worker *)

(** What the rest of the program does to the dispatcher's storage. *)
Inductive storage_edit : InMemoryDispatchBackend -> InMemoryDispatchBackend -> Prop :=
| se_create_source b source : storage_edit b (snd (create_source source b))
| se_delete_source b id : storage_edit b (snd (delete_source id b))
| se_create_subscription b sub : storage_edit b (snd (create_subscription sub b))
| se_update_subscription b id enabled : storage_edit b (snd (update_subscription id enabled b))
| se_delete_subscription b id : storage_edit b (snd (delete_subscription id b))
| se_create_action b action : storage_edit b (snd (create_action action b))
| se_delete_actions b sub : storage_edit b (snd (delete_actions sub b))
| se_inject_event b event : storage_edit b (snd (inject_event event b)).

(** Not ended by a [BaseException] such as [CancelledError]. *)
Definition uncut {A} (o : result A * worker W) : Prop :=
  match o.1 with Ok _ => True | Raise e => is_Exception e = true end.

(** A poll, a scheduled flush, an expiry sweep - each to its end or to the exception that stops it -
    or a change from outside.  An interruption of a poll is the end of the worker, that of a flush or of a sweep
    the end of its task. *)
Inductive worker_step : worker W -> worker W -> Prop :=
| ws_poll s : uncut (_poll_and_process cfg s) -> worker_step s (snd (_poll_and_process cfg s))
| ws_flush s r : r ∈ wk_scheduled s -> worker_step s (snd (run_flush cfg r s))
| ws_sweep s : worker_step s (snd (_maybe_sweep_expired_inbox cfg s))
| ws_storage s b : storage_edit (wk_backend s) b -> worker_step s (s .[wk_backend := b])
| ws_world s w : worker_step s (s .[wk_ext := w]).

(** The part of the storage those edits leave alone. *)
Definition same_books b b' : Prop :=
  _accumulator b' = _accumulator b /\ _claimed b' = _claimed b /\ _completions b' = _completions b.

Lemma storage_edit_frame b b' : storage_edit b b' -> same_books b b'.
Proof.
  intros []; try done.
  - unfold create_source, mbind, M_bind; simpl. by case_match.
  - unfold update_subscription, mbind, M_bind; simpl. by case_match.
  - rename b0 into b1. assert (Hk : keeps (same_books b1) (delete_actions sub)); [|by apply Hk].
    apply keeps_bind; [apply keeps_mget|]. intros b2. apply keeps_mfor. intros aid _ b3 Hb3. exact Hb3.
Qed.

Lemma sweep_balanced : keeps balanced (_maybe_sweep_expired_inbox cfg).
Proof.
  apply keeps_wp. intros s HL. apply wp_bind, wp_wfresh, wp_bind, wp_mgets.
  case_decide; [apply wp_ret|apply wp_bind, wp_mmod, wp_except, wp_bind, wp_on_ext;
    [intros ? w; apply wp_ret|intros e w; destruct (is_Exception e); [apply wp_ret|]]];
    (apply (balanced_same s); [done..|simpl; lia|done]).
Qed.

Lemma worker_step_balanced s s' : worker_step s s' -> balanced s -> balanced s'.
Proof.
  intros Hs HL. revert HL. destruct Hs as [s Hcut|s r _|s|s b Hb|s w]; intros HL.
  - pose proof (poll_steady s HL) as Hw. unfold wp, uncut in *.
    destruct (_poll_and_process cfg s) as [[|e] s']; [done|]. by apply Hw.
  - pose proof (flush_ledger (fr_sub_action r) (fr_owner r) _ s HL) as Hw.
    unfold run_flush, balanced in *. unfold wp in Hw.
    destruct (_flush_action cfg (fr_sub_action r) (fr_owner r) s) as [[|] s'];
      [destruct Hw as [? E]|destruct Hw as (_ & ? & E)]; simpl; by rewrite E.
  - by apply sweep_balanced.
  - destruct (storage_edit_frame _ _ Hb) as (? & ? & ?). by apply (balanced_same s).
  - by apply (balanced_same s).
Qed.

Lemma init_balanced (w : W) : balanced (worker_init dispatch_init w).
Proof.
  split; [split; simpl|apply NoDup_nil_2|set_solver].
  - apply dwf_empty.
  - intros k e. by rewrite dict_lookup_empty.
  - set_solver.
Qed.

Lemma reachable_balanced (w : W) s : rtc worker_step (worker_init dispatch_init w) s -> balanced s.
Proof.
  apply rtc_inv; [|apply init_balanced]. intros s1 s2 HL Hs. by apply (worker_step_balanced s1).
Qed.

(** The pair's execution was begun, or it waits in the accumulator. *)
Definition begun_or_waiting s (p : uuid * uuid) : Prop :=
  p ∈ wk_history s \/ exists e, e ∈ waiting (wk_backend s) /\ entry_pair e = p.

Lemma elem_of_accounted s p : p ∈ accounted s <-> begun_or_waiting s p.
Proof. unfold accounted, begun_or_waiting. rewrite elem_of_app, list_elem_of_fmap. naive_solver. Qed.

(** C10. Each event reaches each action at most once, and nothing completed is lost.  Whatever polls,
    flushes, sweeps and edits a worker goes through, even those that raise, execution is begun at most
    once for any (event, action) pair; and a pair has a completion record exactly when its execution
    was begun or it waits, unclaimed, in the accumulator - never both.  A poll that is interrupted - by a
    [BaseException] such as [CancelledError], which the worker does not catch - is its last: after it still no
    execution was begun twice and no record is without its pair, but one pair at most has no record. *)
Theorem delivered_or_waiting_once w s :
  rtc worker_step (worker_init dispatch_init w) s ->
  (NoDup (wk_history s ++ (entry_pair <$> waiting (wk_backend s))) /\
   forall ev a, is_action_completed (wk_backend s) ev a = true <->
     (ev, a) ∈ wk_history s \/ exists e, e ∈ waiting (wk_backend s) /\ entry_pair e = (ev, a)) /\
  let s' := snd (_poll_and_process cfg s) in
  let unrecorded p := begun_or_waiting s' p /\ is_action_completed (wk_backend s') p.1 p.2 = false in
  NoDup (wk_history s' ++ (entry_pair <$> waiting (wk_backend s'))) /\
  (forall ev a, is_action_completed (wk_backend s') ev a = true -> begun_or_waiting s' (ev, a)) /\
  (forall p q, unrecorded p -> unrecorded q -> p = q).
Proof.
  intros HL%reachable_balanced. split; [split; [apply HL|]|].
  - intros ev a. unfold is_action_completed. rewrite bool_decide_eq_true, (lg_completed _ _ HL).
    by rewrite elem_of_accounted.
  - assert (Ht : torn (snd (_poll_and_process cfg s))).
    { pose proof (poll_steady s HL) as Hw. unfold wp in Hw.
      destruct (_poll_and_process cfg s) as [[|e] s']; [by apply balanced_torn|apply Hw]. }
    destruct Ht as (C & HC & Hsub & Huniq). cbv zeta. split_and!; [apply HC| |].
    + intros ev a. unfold is_action_completed. rewrite bool_decide_eq_true. intros H%Hsub.
      by apply elem_of_accounted, (lg_completed _ _ HC).
    + intros [ev a] [ev' a'] [H1%elem_of_accounted N1] [H2%elem_of_accounted N2].
      unfold is_action_completed in *. simpl in *. apply bool_decide_eq_false in N1, N2.
      apply Huniq; apply elem_of_difference; (split; [by apply (lg_completed _ _ HC)|done]).
Qed.

(** Batches are claimed oldest first.  A claim takes as many unclaimed entries of the action as the
    limit allows, none of them newer than one it leaves. *)
Theorem claim_batch_oldest_first a limit b next :
  buffer_ok b next -> (0 <= limit)%Z ->
  exists batch b', claim_batch a limit b = (Ok batch, b') /\
    length batch = Nat.min (Z.to_nat limit) (length (unclaimed b a)) /\
    unclaimed b a ≡ₚ batch ++ unclaimed b' a /\
    forall e e', e ∈ batch -> e' ∈ unclaimed b' a -> (ae_created_at e <= ae_created_at e')%Z.
Proof.
  intros Hb Hl. exists (batch_of b a limit), (claim_state b (batch_of b a limit)).
  set (sorted := sort_by ae_created_at (unclaimed b a)).
  assert (Eb : batch_of b a limit = take (Z.to_nat limit) sorted) by apply (py_take_nonneg _ _ Hl).
  assert (Hu : unclaimed b a ≡ₚ batch_of b a limit ++ unclaimed (claim_state b (batch_of b a limit)) a).
  { assert (E : forall b, unclaimed b a = filter (fun e => ae_subscription_action_id e = a) (waiting b)).
    { intros b1. unfold unclaimed, waiting. rewrite list_filter_filter. apply filter_ext_in. tauto. }
    rewrite !E. rewrite (claim_waiting b next a limit Hb) at 1. rewrite filter_app. f_equiv.
    rewrite filter_all; [done|]. intros e He.
    by destruct (batch_waiting _ _ _ _ He). }
  split; [done|]. split.
  { rewrite Eb, length_take. unfold sorted. by rewrite length_sort_by. }
  split; [done|].
  intros e e' He He'.
  assert (He'' : e' ∈ drop (Z.to_nat limit) sorted).
  { assert (Ep : unclaimed (claim_state b (batch_of b a limit)) a ≡ₚ drop (Z.to_nat limit) sorted).
    { apply (Permutation_app_inv_l (batch_of b a limit)). rewrite <- Hu, Eb, take_drop.
      symmetry. apply sort_by_perm. }
    by rewrite <- Ep. }
  rewrite Eb in He. pose proof (sort_by_sorted ae_created_at (unclaimed b a)) as Hs.
  fold sorted in Hs. rewrite <- (take_drop (Z.to_nat limit) sorted) in Hs.
  apply strongly_sorted_app in Hs as (_ & _ & Hs). rewrite Forall_forall in Hs.
  specialize (Hs e He). rewrite Forall_forall in Hs. by apply Hs.
Qed.

(** *** A flush that fails *)

(** Entry [e] is buffered under [k] and claimed. *)
Definition stuck (k : uuid) (e : AccumulatorEntry) s : Prop :=
  buffer_ok (wk_backend s) (wk_next s) /\ _accumulator (wk_backend s) !! k = Some e /\
  k ∈ _claimed (wk_backend s).

Lemma stuck_same k e s s' :
  stuck k e s -> _accumulator (wk_backend s') = _accumulator (wk_backend s) ->
  _claimed (wk_backend s') = _claimed (wk_backend s) -> (wk_next s <= wk_next s')%Z -> stuck k e s'.
Proof.
  unfold stuck. intros ([Hwf Hids Hcl] & Ha & Hc) Ea Ec Hn. rewrite Ea, Ec.
  split_and!; [split|done..]; rewrite ?Ea, ?Ec; [done|..].
  - intros k' e' Hk. destruct (Hids k' e' Hk). split; [done|lia].
  - intros k' Hk%Hcl. lia.
Qed.

Lemma keeps_stuck_ext {A} k e (m : M W A) : keeps (stuck k e) (on_ext m).
Proof. apply keeps_wp. intros s Hs. apply wp_on_ext; intros; by apply (stuck_same k e s). Qed.

Lemma stuck_confirm k e ids s :
  k ∉ ids -> stuck k e s -> stuck k e (s .[wk_backend := snd (confirm_batch ids (wk_backend s))]).
Proof.
  intros Hk (Hb & Ha & Hc). rewrite confirm_batch_run. unfold stuck. simpl.
  revert Hb Ha Hc. generalize (wk_backend s). induction ids as [|eid ids IH]; intros b Hb Ha Hc; [done|].
  apply not_elem_of_cons in Hk as [Hne Hk]. simpl. apply (IH Hk).
  - by apply confirm_one_ok.
  - simpl. rewrite dict_lookup_delete. by case_decide.
  - simpl. set_solver.
Qed.

Lemma flush_stuck k e sa owner : keeps (stuck k e) (_flush_action cfg sa owner).
Proof.
  apply keeps_wp. intros s (Hb & Ha & Hc). apply wp_bind.
  eapply wp_on_backend; [apply claim_batch_run|].
  set (batch := batch_of (wk_backend s) (sa_id sa) claim_limit).
  assert (Hs : stuck k e (s .[wk_backend := claim_state (wk_backend s) batch])).
  { split; [by apply claim_ok|]. split; [done|]. simpl. set_solver. }
  assert (Hk : k ∉ ae_id <$> batch).
  { intros (e' & -> & He')%list_elem_of_fmap.
    by destruct (batch_waiting _ _ _ _ He') as [[Hn _]%list_elem_of_filter _]. }
  destruct batch as [|e0 rest]; [by apply wp_ret|].
  apply wp_bind, wp_mmod, wp_bind, wp_except, wp_bind, wp_on_ext.
  - intros _ w. apply wp_ret. cbn beta iota. eapply wp_on_backend; [apply confirm_batch_eta|].
    by apply stuck_confirm.
  - intros ex w. destruct (is_Exception ex); [by apply wp_ret, wp_ret|done].
Qed.

Lemma buffer_or_flush_stuck k e sa ev owner : keeps (stuck k e) (_buffer_or_flush cfg sa ev owner).
Proof.
  apply keeps_wp. intros s (Hb & Ha & Hc). apply wp_bind, wp_wfresh, wp_bind, wp_wfresh, wp_bind.
  eapply wp_on_backend; [reflexivity|]. apply wp_bind, wp_mgets.
  match goal with |- wp _ _ _ ?st => assert (Hs : stuck k e st) end.
  { split; [by apply (buffered_ok _ (wk_next s))|]. split; [|done]. simpl.
    rewrite dict_lookup_insert_ne; [done|]. destruct (bo_ids _ _ Hb _ _ Ha). lia. }
  case_decide; [|case_decide; [by apply wp_mmod|by apply wp_ret]].
  pose proof (flush_stuck k e sa owner _ Hs) as Hf. unfold wp.
  by destruct (_flush_action cfg sa owner _) as [[|] ?].
Qed.

Lemma process_event_stuck k e subs event : keeps (stuck k e) (process_event cfg subs event).
Proof.
  unfold process_event. destruct (event_data cfg event) as [data|ex]; [|apply keeps_throw].
  apply keeps_bind; [apply keeps_mfor; intros sub _|intros _ s Hs; by apply (stuck_same k e s)].
  apply keeps_bind; [apply keeps_stuck_ext|]. intros []; simpl; [|apply keeps_ret].
  apply keeps_bind; [apply keeps_mgets|]. intros actions. apply keeps_mfor. intros sa _.
  apply keeps_bind; [apply keeps_mgets|]. intros []; [apply keeps_ret|].
  apply keeps_bind; [|intros _ s Hs; by apply (stuck_same k e s)].
  destruct (sa_accumulator_config sa); [apply buffer_or_flush_stuck|].
  apply keeps_bind; [intros s Hs; by apply (stuck_same k e s)|]. intros _.
  apply keeps_except; [apply keeps_stuck_ext|intros ?; apply keeps_ret].
Qed.

Lemma poll_stuck k e : keeps (stuck k e) (_poll_and_process cfg).
Proof.
  apply keeps_bind; [apply keeps_mgets|]. intros pos.
  apply keeps_bind; [apply keeps_mgets|]. intros [|ev events]; [apply keeps_ret|].
  apply keeps_bind; [apply keeps_mgets|]. intros subs. generalize 0%Z, (ev :: events).
  intros n l. revert n. induction l as [|event l IH]; intros n; [apply keeps_ret|].
  apply keeps_bind; [apply keeps_mgets|]. intros []; [apply keeps_ret|].
  apply keeps_bind; [apply process_event_stuck|intros _; apply IH].
Qed.

Lemma worker_step_stuck k e s s' : stuck k e s -> worker_step s s' -> stuck k e s'.
Proof.
  intros Hs Hst. revert Hs. destruct Hst as [s _|s r _|s|s b Hb|s w]; intros Hs.
  - by apply poll_stuck.
  - by apply flush_stuck.
  - assert (Hk : keeps (stuck k e) (_maybe_sweep_expired_inbox cfg)); [|by apply Hk].
    apply keeps_bind; [intros s1 ?; apply (stuck_same k e s1); [done..|simpl; lia]|]. intros now.
    apply keeps_bind; [apply keeps_mgets|]. intros last. case_decide; [apply keeps_ret|].
    apply keeps_bind; [intros s1 ?; by apply (stuck_same k e s1)|]. intros _.
    apply keeps_except; [|intros ?; apply keeps_ret].
    apply keeps_bind; [apply keeps_stuck_ext|]. intros ?. apply keeps_ret.
  - destruct (storage_edit_frame _ _ Hb) as (? & ? & ?). by apply (stuck_same k e s).
  - by apply (stuck_same k e s).
Qed.

(** A flush whose action raises leaves its batch claimed. *)
Lemma flush_failed sa owner s e :
  buffer_ok (wk_backend s) (wk_next s) ->
  (forall events st, is_ok (fst (execute cfg (sa_action sa) events owner st)) = false) ->
  e ∈ batch_of (wk_backend s) (sa_id sa) claim_limit ->
  stuck (ae_id e) e (snd (_flush_action cfg sa owner s)).
Proof.
  intros Hb Hfail He.
  assert (Hw : wp (_flush_action cfg sa owner) (fun _ => stuck (ae_id e) e) (fun _ => stuck (ae_id e) e) s).
  { apply wp_bind. eapply wp_on_backend; [apply claim_batch_run|].
    match goal with |- wp _ _ _ ?st => assert (Hs : stuck (ae_id e) e st) end.
    { split; [by apply claim_ok|].
      destruct (batch_waiting _ _ _ _ He) as [[_ Hd]%list_elem_of_filter _]. split.
      - by apply (entry_in _ _ _ Hb) in Hd.
      - simpl. apply elem_of_union_l, elem_of_list_to_set. by apply list_elem_of_fmap_2. }
    destruct (batch_of (wk_backend s) (sa_id sa) claim_limit) as [|e0 rest];
      [by apply not_elem_of_nil in He|].
    apply wp_bind, wp_mmod, wp_bind, wp_except, wp_bind.
    apply wp_on_ext_raise; [apply Hfail|]. intros ex w.
    destruct (is_Exception ex); [by apply wp_ret, wp_ret|done]. }
  unfold wp in Hw. by destruct (_flush_action cfg sa owner s) as [[|] ?].
Qed.

(** A failed flush strands its batch.  When the action of a flush raises, its entries stay buffered
    and claimed for good: whatever happens later, no claim returns them again although their pairs have
    completion records and [pending_count] keeps counting them - so the count never falls below
    the size of the lost batch. *)
Theorem failed_flush_strands_batch w s s' sa owner :
  rtc worker_step (worker_init dispatch_init w) s ->
  (forall events st, is_ok (fst (execute cfg (sa_action sa) events owner st)) = false) ->
  rtc worker_step (snd (_flush_action cfg sa owner s)) s' ->
  let batch := batch_of (wk_backend s) (sa_id sa) claim_limit in
  (forall e, e ∈ batch -> e ∈ dvalues (_accumulator (wk_backend s')) /\
                          e ∉ unclaimed (wk_backend s') (sa_id sa)) /\
  (Z.of_nat (length batch) <= pending_count (wk_backend s') (sa_id sa))%Z.
Proof.
  intros Hr Hfail Hs' batch. pose proof (lg_buffer _ _ (reachable_balanced w s Hr)) as Hb.
  assert (Hstuck : forall e, e ∈ batch -> stuck (ae_id e) e s').
  { intros e He. refine (rtc_inv _ _ _ _ (worker_step_stuck (ae_id e) e) _ Hs').
    by apply flush_failed. }
  assert (Hin : forall e, e ∈ batch -> e ∈ dvalues (_accumulator (wk_backend s'))).
  { intros e He. destruct (Hstuck e He) as (_ & Ha & _). by eapply dict_lookup_Some_value. }
  split.
  - intros e He. split; [by apply Hin|]. destruct (Hstuck e He) as (_ & _ & Hc).
    intros [_ [Hn _]%list_elem_of_filter]%elem_of_unclaimed. done.
  - unfold pending_count. apply inj_le, submseteq_length, NoDup_submseteq.
    + eapply NoDup_fmap_1, batch_nodup, Hb.
    + intros e He. apply list_elem_of_filter. split; [by destruct (batch_waiting _ _ _ _ He)|by apply Hin].
Qed.

(** An event whose string data is not JSON blocks the worker.  When it is next in the queue the
    poll raises and changes nothing - the cursor stays before it - and the exception ends the main
    loop, so a restarted worker meets the same event again. *)
Theorem undecodable_event_blocks_worker s event rest e fuel :
  poll_events_since (wk_backend s) (get_cursor_position (wk_backend s) (_cursor_name cfg))
    (_batch_size cfg) = event :: rest ->
  event_data cfg event = Raise e -> stop_is_set cfg (wk_ext s) = false ->
  _poll_and_process cfg s = (Raise e, s) /\ run_loop cfg (S fuel) s = (Raise e, s).
Proof.
  intros Ep Ed Es.
  assert (E : _poll_and_process cfg s = (Raise e, s)).
  { unfold _poll_and_process, bget, mgets, mbind, M_bind. rewrite Ep. cbn [process_events].
    unfold mgets, mbind, M_bind. rewrite Es. unfold process_event. by rewrite Ed. }
  split; [done|]. simpl. unfold mbind, M_bind, mgets. by rewrite Es, E.
Qed.

(** *** Catching up *)

(** What a poll leaves of the storage. *)
Record kept s s' : Prop := {
  kp_events : _events (wk_backend s') = _events (wk_backend s);
  kp_subscriptions : _subscriptions (wk_backend s') = _subscriptions (wk_backend s);
  kp_actions : _actions (wk_backend s') = _actions (wk_backend s);
  kp_completions : completions_of s ⊆ completions_of s'
}.
Definition kept_at s s' : Prop := kept s s' /\ _cursors (wk_backend s') = _cursors (wk_backend s).

Lemma kept_refl s : kept s s.
Proof. by split. Qed.
Lemma kept_trans s1 s2 s3 : kept s1 s2 -> kept s2 s3 -> kept s1 s3.
Proof. intros [] []. split; [congruence..|set_solver]. Qed.
Lemma kept_at_refl s : kept_at s s.
Proof. by split; [apply kept_refl|]. Qed.
Lemma kept_at_trans s1 s2 s3 : kept_at s1 s2 -> kept_at s2 s3 -> kept_at s1 s3.
Proof. intros [? ?] [? ?]. split; [by eapply kept_trans|congruence]. Qed.
Lemma kept_at_intro s s' :
  _events (wk_backend s') = _events (wk_backend s) ->
  _subscriptions (wk_backend s') = _subscriptions (wk_backend s) ->
  _actions (wk_backend s') = _actions (wk_backend s) ->
  _completions (wk_backend s') = _completions (wk_backend s) ->
  _cursors (wk_backend s') = _cursors (wk_backend s) -> kept_at s s'.
Proof. intros ? ? ? E ?. split; [split|]; [done..| |done]. unfold completions_of. by rewrite E. Qed.

(** [m] returns, and whatever it does is kept. *)
Definition calm {A} (m : M (worker W) A) : Prop :=
  forall s, wp m (fun _ s' => kept_at s s') (fun _ _ => False) s.

Lemma calm_ret {A} (a : A) : calm (mret a).
Proof. intros s. apply wp_ret, kept_at_refl. Qed.
Lemma calm_mgets {A} (f : worker W -> A) : calm (mgets f).
Proof. intros s. apply wp_mgets, kept_at_refl. Qed.
Lemma calm_bind {A B} (m : M (worker W) A) (k : A -> M (worker W) B) :
  calm m -> (forall a, calm (k a)) -> calm (m ≫= k).
Proof.
  intros Hm Hk s. apply wp_bind. eapply wp_mono; [apply Hm| |done]. intros a s1 H1.
  eapply wp_mono; [apply Hk| |done]. intros b s2 H2. exact (kept_at_trans _ _ _ H1 H2).
Qed.
Lemma calm_mod f : (forall s, kept_at s (f s)) -> calm (mmod f).
Proof. intros Hf s. apply wp_mmod, Hf. Qed.

(** No action is interrupted: what it raises, if anything, is an [Exception]. *)
Hypothesis actions_uncut : forall action events owner s, uncut (execute cfg action events owner s).

Lemma execute_calm action events owner s :
  wp (execute cfg action events owner) (fun _ s' => kept_at s s')
     (fun e s' => is_Exception e = true /\ kept_at s s') s.
Proof.
  pose proof (actions_uncut action events owner s) as Hu. unfold execute, on_ext, zoom, wp, uncut in *.
  destruct (execute_action _ _ _ _ _ _ _ _) as [[a|e] w]; simpl in *; [|split; [done|]]; by apply kept_at_intro.
Qed.

Lemma calm_confirm ids : calm (on_backend (confirm_batch ids)).
Proof.
  intros s. eapply wp_on_backend; [apply confirm_batch_run|].
  assert (E : forall b, let b' := fold_left (fun b eid => confirm_one eid b) ids b in
    _events b' = _events b /\ _subscriptions b' = _subscriptions b /\ _actions b' = _actions b /\
    _completions b' = _completions b /\ _cursors b' = _cursors b).
  { induction ids as [|eid ids IH]; intros b; [done|]. apply (IH (confirm_one eid b)). }
  destruct (E (wk_backend s)) as (? & ? & ? & ? & ?). by apply kept_at_intro.
Qed.

Lemma calm_flush sa owner : calm (_flush_action cfg sa owner).
Proof.
  apply calm_bind.
  { intros s. eapply wp_on_backend; [apply claim_batch_run|]. by apply kept_at_intro. }
  intros [|e0 rest]; [apply calm_ret|].
  apply calm_bind; [apply calm_mod; intros s; by apply kept_at_intro|intros _].
  apply calm_bind; [|intros []; [apply calm_confirm|apply calm_ret]].
  intros s. apply wp_except, wp_bind. eapply wp_mono; [apply execute_calm| |].
  - intros [] s1 Hs1. by apply wp_ret.
  - intros e s1 [He Hs1]. cbv beta. rewrite He. by apply wp_ret.
Qed.

Lemma calm_buffer_or_flush sa ev owner : calm (_buffer_or_flush cfg sa ev owner).
Proof.
  do 2 (apply calm_bind; [intros s; apply wp_wfresh; by apply kept_at_intro|intros ?]).
  apply calm_bind; [intros s; eapply wp_on_backend; [reflexivity|by apply kept_at_intro]|intros _].
  apply calm_bind; [apply calm_mgets|intros pending]. case_decide; [apply calm_flush|].
  case_decide; [apply calm_mod; intros s; by apply kept_at_intro|apply calm_ret].
Qed.

Lemma calm_immediate sa ev ty p data owner :
  calm (_execute_action_immediate cfg sa ev ty p data owner).
Proof.
  apply calm_bind; [apply calm_mod; intros s; by apply kept_at_intro|intros _].
  intros s. apply wp_except. eapply wp_mono; [apply execute_calm|done|].
  intros e s1 [He Hs1]. cbv beta. rewrite He. by apply wp_ret.
Qed.

Lemma process_action_done event data sub sa s :
  wp (process_action cfg event data sub sa)
     (fun _ s' => kept_at s s' /\ (de_id event, sa_id sa) ∈ completions_of s') (fun _ _ => False) s.
Proof.
  apply wp_bind, wp_mgets. unfold is_action_completed. case_bool_decide as Hd.
  { apply wp_ret. split; [apply kept_at_refl|done]. }
  apply wp_bind. eapply (wp_mono _ (fun _ s' => kept_at s s') _ (fun _ _ => False)); [| |done].
  - destruct (sa_accumulator_config sa); [apply calm_buffer_or_flush|apply calm_immediate].
  - intros _ s' [[? ? ? Hc] ?]. eapply wp_on_backend; [reflexivity|]. unfold completions_of in *.
    split; [split; [split; simpl|]|simpl]; [done..| |done|].
    + unfold completions_of in *; simpl. set_solver.
    + set_solver.
Qed.

(** A loop whose bodies each establish something later ones keep. *)
Lemma mfor_done {A} (l : list A) f (D : A -> worker W -> Prop) s :
  (forall x s, x ∈ l -> wp (f x) (fun _ s' => kept_at s s' /\ D x s') (fun _ _ => False) s) ->
  (forall x s s', kept_at s s' -> D x s -> D x s') ->
  wp (mfor l f) (fun _ s' => kept_at s s' /\ forall x, x ∈ l -> D x s') (fun _ _ => False) s.
Proof.
  intros Hf HD. revert s. induction l as [|x l IH]; intros s.
  { apply wp_ret. split; [apply kept_at_refl|]. intros x Hx. by apply not_elem_of_nil in Hx. }
  apply wp_bind. eapply wp_mono; [apply Hf; left| |done]. intros [] s1 [H1 Hx].
  eapply wp_mono; [apply IH; intros y s' Hy; apply Hf; by right| |done]. intros _ s2 [H2 Hl].
  split; [exact (kept_at_trans _ _ _ H1 H2)|].
  intros y [->|Hy]%elem_of_cons; [by apply (HD x s1)|by apply Hl].
Qed.

(** The subscription's filter lets the event through, whatever the identity layer's state. *)
Definition subscribed (event : dispatch_event) (sub : Subscription) : Prop :=
  forall data w, fst (match_subscription (resolve_source_principals cfg) (de_event_type event)
                        (de_principal_id event) data (sub_filter sub) w) = Ok true.

(** Every action of the subscription is done with the event. *)
Definition dealt_with (event : dispatch_event) (sub : Subscription) s : Prop :=
  subscribed event sub ->
  forall sa, sa ∈ list_actions (wk_backend s) (sub_id sub) ->
    is_action_completed (wk_backend s) (de_id event) (sa_id sa) = true.

Lemma dealt_with_kept event sub s s' : kept s s' -> dealt_with event sub s -> dealt_with event sub s'.
Proof.
  intros [_ _ Ea Hc] Hd Hsub sa. unfold list_actions. rewrite Ea. intros Hsa.
  specialize (Hd Hsub sa Hsa). unfold is_action_completed in *. rewrite bool_decide_eq_true in *.
  by apply Hc.
Qed.

(** The identity layer answers. *)
Hypothesis resolver_answers : forall slugs w, is_ok (fst (resolve_source_principals cfg slugs w)) = true.

Lemma match_answers ty p data f w :
  exists matches, fst (match_subscription (resolve_source_principals cfg) ty p data f w) = Ok matches.
Proof.
  unfold match_subscription.
  case (match fp_event_types f with Some tys => bool_decide (ty ∉ tys) | None => false end);
    [by eexists|].
  case (match fp_principal_id f with Some q => bool_decide (p <> Some q) | None => false end);
    [by eexists|].
  destruct (fp_sources f) as [slugs|]; [|by eexists]. unfold mbind, M_bind.
  pose proof (resolver_answers slugs w) as Hr.
  destruct (resolve_source_principals cfg slugs w) as [[|] ?]; [by eexists|done].
Qed.

Lemma process_subscription_done event data sub s :
  wp (process_subscription cfg event data sub)
     (fun _ s' => kept_at s s' /\ dealt_with event sub s') (fun _ _ => False) s.
Proof.
  apply wp_bind. unfold wp at 1, on_ext, zoom.
  destruct (match_answers (de_event_type event) (de_principal_id event) data (sub_filter sub) (wk_ext s))
    as [matches Hb].
  destruct (match_subscription _ _ _ _ _ _) as [r w] eqn:Em. simpl in Hb. subst r.
  destruct matches; simpl.
  - apply wp_bind, wp_mgets.
    eapply wp_mono; [apply (mfor_done _ _ (fun sa s' => (de_id event, sa_id sa) ∈ completions_of s'))| |done].
    + intros sa s1 _. apply process_action_done.
    + intros sa s1 s2 [[] _] ?. set_solver.
    + intros _ s' [[Hk Ec] Hd]. split; [split; [by destruct Hk|done]|]. intros _ sa.
      unfold list_actions. rewrite (kp_actions _ _ Hk). intros Hsa.
      unfold is_action_completed. rewrite bool_decide_eq_true. by apply Hd.
  - apply wp_ret. split; [by apply kept_at_intro|]. intros Hsub.
    specialize (Hsub data (wk_ext s)). by rewrite Em in Hsub.
Qed.

Lemma process_event_done subs event s :
  is_ok (event_data cfg event) = true ->
  wp (process_event cfg subs event)
     (fun _ s' => kept s s' /\ _cursors (wk_backend s') !! _cursor_name cfg = Some (de_id event) /\
                  forall sub, sub ∈ subs -> dealt_with event sub s') (fun _ _ => False) s.
Proof.
  intros Hd. unfold process_event. destruct (event_data cfg event) as [data|]; [|done].
  apply wp_bind. eapply wp_mono; [apply (mfor_done _ _ (fun sub s' => dealt_with event sub s'))| |done].
  - intros sub s1 _. apply process_subscription_done.
  - intros sub s1 s2 [? _]. by apply dealt_with_kept.
  - intros _ s' [[[] _] Hdone]. eapply wp_on_backend; [reflexivity|].
    split; [by split|]. split; [apply dict_lookup_insert_eq|exact Hdone].
Qed.

(** [stop] is not requested. *)
Hypothesis never_stopped : forall w, stop_is_set cfg w = false.

Lemma process_events_done subs events n s :
  (forall event, event ∈ events -> is_ok (event_data cfg event) = true) ->
  wp (process_events cfg subs events n)
     (fun m s' => m = (n + Z.of_nat (length events))%Z /\ kept s s' /\
        match last events with
        | Some event => _cursors (wk_backend s') !! _cursor_name cfg = Some (de_id event)
        | None => _cursors (wk_backend s') = _cursors (wk_backend s)
        end /\
        forall event sub, event ∈ events -> sub ∈ subs -> dealt_with event sub s')
     (fun _ _ => False) s.
Proof.
  revert n s. induction events as [|event events IH]; intros n s Hok.
  { apply wp_ret. split_and!; [simpl; lia|apply kept_refl|done|]. intros ? ? ?%not_elem_of_nil. done. }
  apply wp_bind, wp_mgets. rewrite never_stopped. apply wp_bind.
  eapply wp_mono; [apply process_event_done, Hok; left| |done]. intros _ s1 (Hk1 & Hc1 & Hd1).
  eapply wp_mono; [apply IH; intros ev ?; apply Hok; by right| |done].
  intros m s2 (-> & Hk2 & Hc2 & Hd2). split_and!; [simpl length; lia|by eapply kept_trans| |].
  - rewrite last_cons. destruct (last events); [done|]. by rewrite Hc2.
  - intros ev sub [->|Hin]%elem_of_cons Hsub; [|by apply Hd2].
    apply (dealt_with_kept _ sub s1); [done|by apply Hd1].
Qed.

(** The cursor stands after the first [k] events of the queue. *)
Definition cursor_at (k : nat) s : Prop :=
  match _cursors (wk_backend s) !! _cursor_name cfg with
  | None => k = 0
  | Some id => exists event, k <> 0 /\ _events (wk_backend s) !! (k - 1) = Some event /\ de_id event = id
  end.

Lemma poll_loop_found since limit result events :
  (Z.of_nat (length result) < limit)%Z ->
  poll_loop since limit true result events =
    result ++ take (Z.to_nat limit - length result) events.
Proof.
  revert result. induction events as [|event events IH]; intros result Hl; cbn [poll_loop].
  { by rewrite take_nil, app_nil_r. }
  case_decide as Hfull; rewrite length_app in Hfull; simpl in Hfull.
  - replace (Z.to_nat limit - length result) with 1 by lia. done.
  - rewrite IH by (rewrite length_app; simpl; lia). rewrite length_app, <- app_assoc. f_equal. simpl.
    replace (Z.to_nat limit - length result) with (S (Z.to_nat limit - (length result + 1))) by lia.
    done.
Qed.

Lemma poll_loop_since since limit events k event :
  NoDup (de_id <$> events) -> events !! k = Some event -> de_id event = since -> (0 < limit)%Z ->
  poll_loop since limit false [] events = take (Z.to_nat limit) (drop (S k) events).
Proof.
  revert k. induction events as [|ev events IH]; intros k Hnd Hk Hid Hl; [done|].
  cbn [poll_loop]. csimpl in *. apply NoDup_cons in Hnd as [Hn Hnd]. destruct k as [|k]; simpl in Hk.
  - injection Hk as ->. rewrite bool_decide_true by done.
    rewrite poll_loop_found by (simpl; lia). simpl. by rewrite drop_0, Nat.sub_0_r.
  - rewrite bool_decide_false; [by apply IH|]. intros E. apply Hn. rewrite E, <- Hid.
    apply list_elem_of_fmap_2. by apply list_elem_of_lookup_2 in Hk.
Qed.

Lemma poll_at k s :
  NoDup (de_id <$> _events (wk_backend s)) -> cursor_at k s -> (0 < _batch_size cfg)%Z ->
  poll_events_since (wk_backend s) (get_cursor_position (wk_backend s) (_cursor_name cfg))
    (_batch_size cfg) = take (Z.to_nat (_batch_size cfg)) (drop k (_events (wk_backend s))).
Proof.
  intros Hnd Hc Hb. unfold cursor_at, poll_events_since, get_cursor_position in *.
  destruct (_cursors (wk_backend s) !! _cursor_name cfg) as [id|].
  - destruct Hc as (event & Hk & Hev & <-). rewrite (poll_loop_since _ _ _ _ _ Hnd Hev) by done.
    by replace (S (k - 1)) with k by lia.
  - subst k. rewrite drop_0. apply py_take_nonneg. lia.
Qed.

(** One poll: the next batch, whole. *)
Lemma poll_done k s :
  NoDup (de_id <$> _events (wk_backend s)) -> (0 < _batch_size cfg)%Z ->
  (forall event, event ∈ _events (wk_backend s) -> is_ok (event_data cfg event) = true) ->
  cursor_at k s -> k <= length (_events (wk_backend s)) ->
  let n := Nat.min (Z.to_nat (_batch_size cfg)) (length (_events (wk_backend s)) - k) in
  wp (_poll_and_process cfg)
     (fun m s' => m = Z.of_nat n /\ kept s s' /\ cursor_at (k + n) s' /\
        forall i event sub, k <= i < k + n -> _events (wk_backend s) !! i = Some event ->
          sub ∈ list_subscriptions (wk_backend s) true None -> dealt_with event sub s')
     (fun _ _ => False) s.
Proof.
  intros Hnd Hb Hok Hc Hk n. apply wp_bind, wp_mgets, wp_bind, wp_mgets.
  rewrite (poll_at k) by done.
  set (batch := take _ _).
  assert (Hlen : length batch = n) by (unfold batch; rewrite length_take, length_drop; done).
  assert (Hin : forall i event, k <= i < k + n -> _events (wk_backend s) !! i = Some event ->
            batch !! (i - k) = Some event).
  { intros i event Hi Hev. unfold batch. rewrite lookup_take_lt by lia. rewrite lookup_drop.
    by replace (k + (i - k)) with i by lia. }
  destruct batch as [|ev0 rest] eqn:Eb.
  { simpl in Hlen. rewrite <- Hlen, Nat.add_0_r. apply wp_ret. split_and!; [done|apply kept_refl|done|].
    intros i event sub Hi. lia. }
  rewrite <- Eb in *. apply wp_bind, wp_mgets. eapply wp_mono; [apply process_events_done| |done].
  - intros event He. apply Hok. unfold batch in He. by eapply subseteq_drop, subseteq_take.
  - intros m s' (-> & Hkept & Hcur & Hdone). rewrite Hlen. split_and!; [lia|done| |].
    + assert (Hlast : last batch = _events (wk_backend s) !! (k + n - 1)).
      { rewrite last_lookup, Hlen. unfold batch. rewrite lookup_take_lt, lookup_drop.
        - f_equal. rewrite Eb in Hlen. simpl in Hlen. lia.
        - rewrite Eb in Hlen. simpl in Hlen. lia. }
      destruct (last batch) as [event|] eqn:El; [|by rewrite Eb in El; apply last_None in El].
      unfold cursor_at. rewrite Hcur. exists event. rewrite (kp_events _ _ Hkept).
      rewrite Eb in Hlen. simpl in Hlen. split_and!; [lia|done|done].
    + intros i event sub Hi Hev Hsub. apply Hdone; [|done]. eapply list_elem_of_lookup_2, Hin; done.
Qed.

(** [n] rounds of the main loop's poll. *)
Fixpoint polls (n : nat) s : worker W :=
  match n with
  | 0 => s
  | S n' => polls n' (snd (_poll_and_process cfg s))
  end.

Lemma poll_idle s :
  NoDup (de_id <$> _events (wk_backend s)) -> (0 < _batch_size cfg)%Z ->
  cursor_at (length (_events (wk_backend s))) s -> _poll_and_process cfg s = (Ok 0%Z, s).
Proof.
  intros Hnd Hb Hc. unfold _poll_and_process, bget, mgets, mbind, M_bind.
  rewrite (poll_at _ _ Hnd Hc Hb). by rewrite drop_all, take_nil.
Qed.

End worker_spec.

(** ** Waiters *)

(** What happens to a [TransientEventDelivery]: [wait_for] creates and registers a future, an event is
    fired, the deadline of a waiter passes. *)
Inductive delivery_op :=
| Register (fut : uuid) (event_name : string)
| Fire (event_name : string) (payload : option value)
| Deadline (fut : uuid).

Definition run_op (op : delivery_op) (d : TransientEventDelivery) : TransientEventDelivery :=
  match op with
  | Register fut event_name => snd (wait_register fut event_name d)
  | Fire event_name payload => snd (fire event_name payload d)
  | Deadline fut => snd (wait_timeout fut d)
  end.

Definition run_ops (ops : list delivery_op) (d : TransientEventDelivery) : TransientEventDelivery :=
  fold_left (fun d op => run_op op d) ops d.

(** What is to become of a waiter for [event_name]: the first fire of that event, or its deadline. *)
Fixpoint outcome (fut : uuid) (event_name : string) (ops : list delivery_op) : future :=
  match ops with
  | [] => Pending
  | Fire name payload :: ops' =>
      if decide (name = event_name) then Result payload else outcome fut event_name ops'
  | Deadline f :: ops' => if decide (f = fut) then Cancelled else outcome fut event_name ops'
  | Register _ _ :: ops' => outcome fut event_name ops'
  end.

Definition listeners_of (d : TransientEventDelivery) (name : string) : list uuid :=
  default [] (_listeners d !! name).

(** A future after a fire that reaches it or not. *)
Definition served (hit : bool) (p : option value) (o : option future) : option future :=
  match o with
  | Some Pending => if hit then Some (Result p) else o
  | _ => o
  end.

Lemma set_if_pending_futures p d fut k :
  futures (set_if_pending p d fut) !! k = served (bool_decide (k = fut)) p (futures d !! k).
Proof.
  unfold set_if_pending, served. case_bool_decide as H.
  - subst k. destruct (futures d !! fut) as [[]|] eqn:E; [apply dict_lookup_insert_eq|done..].
  - destruct (futures d !! fut) as [[]|]; simpl;
      rewrite ?dict_lookup_insert_ne by done; by repeat case_match.
Qed.

Lemma resolve_all p l d k :
  futures (fold_left (set_if_pending p) l d) !! k = served (bool_decide (k ∈ l)) p (futures d !! k).
Proof.
  revert d. induction l as [|fut l IH]; intros d; cbn [fold_left].
  { rewrite bool_decide_false by apply not_elem_of_nil. unfold served. by repeat case_match. }
  rewrite IH, set_if_pending_futures. unfold served.
  repeat case_match; try done; repeat case_bool_decide; try done; exfalso; set_solver.
Qed.

Lemma resolve_all_listeners p l d : _listeners (fold_left (set_if_pending p) l d) = _listeners d.
Proof.
  revert d. induction l as [|fut l IH]; intros d; [done|]. simpl. rewrite IH.
  unfold set_if_pending. by repeat case_match.
Qed.

(** A waiter that was not served yet. *)
Definition is_waiting (fut : uuid) (name : string) (d : TransientEventDelivery) : Prop :=
  futures d !! fut = Some Pending /\ fut ∈ listeners_of d name /\
  forall n, n <> name -> fut ∉ listeners_of d n.

Lemma fire_futures name p d k :
  futures (run_op (Fire name p) d) !! k =
    served (bool_decide (k ∈ listeners_of d name)) p (futures d !! k).
Proof. exact (resolve_all p (listeners_of d name) (d .[_listeners ::= delete name]) k). Qed.

Lemma fire_listeners name p d n :
  listeners_of (run_op (Fire name p) d) n = if decide (n = name) then [] else listeners_of d n.
Proof.
  unfold listeners_of.
  replace (_listeners (run_op (Fire name p) d)) with (delete name (_listeners d)).
  - rewrite dict_lookup_delete. by case_decide.
  - symmetry. exact (resolve_all_listeners p (listeners_of d name) (d .[_listeners ::= delete name])).
Qed.

Lemma register_listeners fut name d n :
  listeners_of (run_op (Register fut name) d) n =
    if decide (n = name) then listeners_of d name ++ [fut] else listeners_of d n.
Proof. unfold listeners_of. simpl. rewrite dict_lookup_insert. by case_decide. Qed.

(** A waiter that is done stays as it is. *)
Lemma done_stays fut f ops d :
  f <> Pending -> futures d !! fut = Some f -> (forall n, Register fut n ∉ ops) ->
  futures (run_ops ops d) !! fut = Some f.
Proof.
  intros Hf. revert d. induction ops as [|op ops IH]; intros d Hd Hn; [done|].
  apply (IH (run_op op d)); [|intros n Hin; apply (Hn n); by right].
  destruct op as [fut' name|name p|fut'].
  - simpl. rewrite dict_lookup_insert_ne; [done|]. intros ->. apply (Hn name). left.
  - rewrite fire_futures, Hd. by destruct f.
  - simpl. destruct (futures d !! fut') as [[]|] eqn:E; try done. simpl.
    rewrite dict_lookup_insert_ne; [done|]. intros ->. congruence.
Qed.

Lemma waiting_outcome fut name ops d :
  is_waiting fut name d -> (forall n, Register fut n ∉ ops) ->
  futures (run_ops ops d) !! fut = Some (outcome fut name ops).
Proof.
  revert d. induction ops as [|op ops IH]; intros d (Hd & Hin & Hother) Hn; [done|].
  assert (Hn' : forall n, Register fut n ∉ ops) by (intros n ?; apply (Hn n); by right).
  change (futures (run_ops ops (run_op op d)) !! fut = Some (outcome fut name (op :: ops))).
  destruct op as [fut' name'|name' p|fut']; cbn [outcome].
  - apply IH; [|done]. split_and!.
    + simpl. rewrite dict_lookup_insert_ne; [done|]. intros ->. apply (Hn name'). left.
    + rewrite register_listeners. case_decide; subst; set_solver.
    + assert (fut <> fut') by (intros ->; apply (Hn name'); left).
      intros n Hne. rewrite register_listeners. specialize (Hother n Hne). case_decide; subst; set_solver.
  - case_decide as E.
    + subst name'. apply done_stays; [done| |done]. rewrite fire_futures, Hd. by rewrite bool_decide_true.
    + apply IH; [|done]. split_and!.
      * rewrite fire_futures, Hd. rewrite bool_decide_false; [done|]. by apply Hother.
      * rewrite fire_listeners. by rewrite decide_False by congruence.
      * intros n Hne. rewrite fire_listeners. case_decide; [set_solver|by apply Hother].
  - case_decide as E.
    + subst fut'. apply done_stays; [done| |done]. simpl. rewrite Hd. apply dict_lookup_insert_eq.
    + apply IH; [|done]. unfold is_waiting, listeners_of in *. simpl.
      destruct (futures d !! fut') as [[]|] eqn:E'; simpl; try done.
      by rewrite dict_lookup_insert_ne by congruence.
Qed.

Lemma never_listening fut ops d :
  (forall n, fut ∉ listeners_of d n) -> (forall n, Register fut n ∉ ops) ->
  forall n, fut ∉ listeners_of (run_ops ops d) n.
Proof.
  revert d. induction ops as [|op ops IH]; intros d Hd Hn; [done|].
  apply (IH (run_op op d)); [|intros n Hin; apply (Hn n); by right].
  intros n. specialize (Hd n). destruct op as [fut' name|name p|fut'].
  - rewrite register_listeners. assert (fut <> fut') by (intros ->; apply (Hn name); left).
    case_decide; subst; set_solver.
  - rewrite fire_listeners. case_decide; [set_solver|done].
  - unfold listeners_of in *. simpl. by destruct (futures d !! fut') as [[]|].
Qed.

(** What a waiter gets.  Whatever else is registered, fired and timed out around it, a waiter for an
    event gets the payload of the first fire of that event after it registered, unless its deadline
    comes first - then nothing; events fired before it registered, and later ones, do not reach it. *)
Theorem waiter_gets_first_fire fut name before after :
  (forall n, Register fut n ∉ before ++ after) ->
  futures (run_ops (before ++ Register fut name :: after) delivery_init) !! fut =
    Some (outcome fut name after).
Proof.
  intros Hn. unfold run_ops. rewrite fold_left_app. cbn [fold_left]. fold (run_ops before delivery_init).
  assert (Hb : forall n, fut ∉ listeners_of (run_ops before delivery_init) n).
  { apply never_listening; [|set_solver]. intros n. apply not_elem_of_nil. }
  apply (waiting_outcome fut name after); [|set_solver]. split_and!.
  - apply dict_lookup_insert_eq.
  - rewrite (register_listeners fut name). case_decide; set_solver.
  - intros n Hne. rewrite (register_listeners fut name). case_decide; [done|apply Hb].
Qed.

(** ** Witnesses *)

(** A world that logs the calls of script actions; scripts named "bad" do not exist. *)
Definition demo_cfg : worker_config (list string) := {|
  load_script _ func :=
    if bool_decide (func = "bad"%string) then FunctionNotFound
    else Script (fun _ w => (Ok tt, w ++ [func]));
  emit_log _ _ _ w := (Ok tt, w);
  action_executor _ _ _ w := (Ok tt, w);
  notification_port := None;
  trace_write_event _ _ _ w := (Ok tt, w);
  expire_due_items _ w := (Ok 0%Z, w);
  resolve_source_principals _ w := (Ok [7%Z], w);
  json_loads _ := Raise (ValueError "Expecting value");
  isoformat _ := ""%string;
  stop_is_set _ := false;
  wait_for_wake w := (Ok tt, w);
  _cursor_name := "main"%string;
  _batch_size := 2
|}.

Definition demo_sub : Subscription := {|
  sub_id := 1; sub_filter := {| fp_event_types := Some ["push"%string]; fp_sources := Some ["ci"%string];
    fp_principal_id := None; fp_data_predicates := None |};
  sub_enabled := true; sub_storage := "persistent"; sub_principal_id := 5; sub_created_at := 0 |}.
Definition demo_action (id : uuid) (func : string) (acc : option AccumulatorConfig) :
    SubscriptionAction := {|
  sa_id := id; sa_subscription_id := 1; sa_position := id; sa_action := ScriptAction func;
  sa_accumulator_config := acc; sa_created_at := 0 |}.
Definition demo_now := demo_action 10 "jobs:now" None.
Definition demo_batched :=
  demo_action 11 "jobs:batch" (Some {| acc_threshold := 2; acc_flush_interval_s := 30 |}).
Definition demo_failing :=
  demo_action 12 "jobs:bad" (Some {| acc_threshold := 3; acc_flush_interval_s := 30 |}).
Definition demo_event (id : uuid) (ty : string) (data : option value) : dispatch_event := {|
  de_id := id; de_event_type := ty; de_principal_id := Some 7%Z; de_data := data |}.

Inductive demo_edit := DSub | DAct (a : SubscriptionAction) | DEvent (e : dispatch_event).
Definition demo_apply (e : demo_edit) (b : InMemoryDispatchBackend) : InMemoryDispatchBackend :=
  match e with
  | DSub => snd (create_subscription demo_sub b)
  | DAct a => snd (create_action a b)
  | DEvent ev => snd (inject_event ev b)
  end.
Definition demo_edits (es : list demo_edit) (s : worker (list string)) : worker (list string) :=
  fold_left (fun s e => s .[wk_backend ::= demo_apply e]) es s.

Lemma polls_steps {W : Type} (cfg : worker_config W) n s :
  (forall m, m < n -> uncut (_poll_and_process cfg (polls cfg m s))) -> rtc (worker_step cfg) s (polls cfg n s).
Proof.
  revert s. induction n as [|n IH]; intros s Hu; [apply rtc_refl|].
  eapply rtc_l; [apply ws_poll, (Hu 0); lia|apply IH]. intros m Hm. apply (Hu (S m)). lia.
Qed.

Lemma demo_edits_steps es s : rtc (worker_step demo_cfg) s (demo_edits es s).
Proof.
  revert s. induction es as [|e es IH]; intros s; [apply rtc_refl|].
  eapply rtc_l; [|apply IH]. apply (ws_storage demo_cfg s (demo_apply e (wk_backend s))).
  destruct e; constructor.
Qed.

Definition demo_start : worker (list string) :=
  demo_edits [DSub; DAct demo_now; DAct demo_batched; DAct demo_failing;
              DEvent (demo_event 100 "push" None); DEvent (demo_event 101 "pull" None);
              DEvent (demo_event 102 "push" None)]
    (worker_init dispatch_init []).

(** After two polls: both push events ran the immediate action, the second filled the batch, and the
    action with the higher threshold has both waiting. *)
Definition demo_polled : worker (list string) := polls demo_cfg 2 demo_start.

Lemma demo_polled_reachable :
  rtc (worker_step demo_cfg) (worker_init dispatch_init []) demo_polled.
Proof.
  unfold demo_polled. transitivity demo_start; [apply demo_edits_steps|]. apply polls_steps.
  assert (H0 : uncut (_poll_and_process demo_cfg (polls demo_cfg 0 demo_start))) by (vm_compute; exact I).
  assert (H1 : uncut (_poll_and_process demo_cfg (polls demo_cfg 1 demo_start))) by (vm_compute; exact I).
  intros m Hm. destruct m as [|m]; [exact H0|]. destruct m as [|m]; [exact H1|]. lia.
Qed.

Lemma delivered_or_waiting_once_witness :
  NoDup (wk_history demo_polled ++ (entry_pair <$> waiting (wk_backend demo_polled))) /\
  wk_history demo_polled = [(100, 10); (102, 10); (100, 11); (102, 11)]%Z /\
  entry_pair <$> waiting (wk_backend demo_polled) = [(100, 12); (102, 12)]%Z /\
  wk_ext demo_polled = ["now"; "now"; "batch"]%string.
Proof.
  split_and!; [|reflexivity..].
  exact (proj1 (proj1 (delivered_or_waiting_once demo_cfg [] demo_polled demo_polled_reachable))).
Defined.

(** A poll cut short while a script runs: the pair it was at has no record, and a worker that is started on the
    same storage executes it again. *)
Definition cut_cfg : worker_config (list string) := {|
  load_script _ _ := Script (fun _ w => (Raise (OtherError "CancelledError"), w));
  emit_log _ _ _ w := (Ok tt, w);
  action_executor _ _ _ w := (Ok tt, w);
  notification_port := None;
  trace_write_event _ _ _ w := (Ok tt, w);
  expire_due_items _ w := (Ok 0%Z, w);
  resolve_source_principals _ w := (Ok [7%Z], w);
  json_loads _ := Raise (ValueError "Expecting value");
  isoformat _ := ""%string;
  stop_is_set _ := false;
  wait_for_wake w := (Ok tt, w);
  _cursor_name := "main"%string;
  _batch_size := 2
|}.

Example interrupted_runs_again :
  let (r, s) := _poll_and_process cut_cfg demo_start in
  r = Raise (OtherError "CancelledError") /\ wk_history s = [(100, 10)]%Z /\
  is_action_completed (wk_backend s) 100 10 = false /\
  wk_history (snd (_poll_and_process cut_cfg s)) = [(100, 10); (100, 10)]%Z.
Proof. vm_compute. by split_and!. Qed.


Lemma demo_buffer_ok : buffer_ok (wk_backend demo_polled) (wk_next demo_polled).
Proof. apply (lg_buffer _ _ (reachable_balanced demo_cfg [] _ demo_polled_reachable)). Qed.

Lemma claim_batch_oldest_first_witness :
  exists batch b', claim_batch 12 1 (wk_backend demo_polled) = (Ok batch, b') /\
    length batch = 1 /\ ae_event_id <$> batch = [100%Z].
Proof.
  destruct (claim_batch_oldest_first 12 1 (wk_backend demo_polled) (wk_next demo_polled) demo_buffer_ok
    ltac:(lia)) as (batch & b' & E & Hl & _).
  exists batch, b'. split; [done|]. split; [exact Hl|].
  assert (E' : fst (claim_batch 12 1 (wk_backend demo_polled)) = Ok batch) by by rewrite E.
  vm_compute in E'. by injection E' as <-.
Defined.

Lemma demo_uncut action events owner s : uncut (execute demo_cfg action events owner s).
Proof.
  unfold uncut, execute, on_ext, zoom. destruct action as [callable|message level| | |]; simpl;
    unfold _run_script, _run_log; try done.
  - destruct (split_colon callable) as [|? [|func [|]]]; simpl; try done.
    by destruct (decide (func = "bad"%string)) as [->|?]; [|rewrite bool_decide_false].
  - unfold log_level. destruct (assoc _ _) as [[]|]; done.
Qed.

Lemma demo_fails events st :
  is_ok (fst (execute demo_cfg (sa_action demo_failing) events 5 st)) = false.
Proof. reflexivity. Qed.

Lemma failed_flush_strands_batch_witness :
  let s := snd (_flush_action demo_cfg demo_failing 5 demo_polled) in
  (2 <= pending_count (wk_backend s) 12)%Z /\ unclaimed (wk_backend s) 12 = [].
Proof.
  intros s.
  destruct (failed_flush_strands_batch demo_cfg [] demo_polled s demo_failing 5 demo_polled_reachable
    demo_fails (rtc_refl _ s)) as [_ Hp].
  split; [exact Hp|vm_compute; reflexivity].
Defined.

Definition demo_poisoned : worker (list string) :=
  demo_edits [DEvent (demo_event 103 "push" (Some (VStr "{")))] demo_polled.

Lemma undecodable_event_blocks_worker_witness :
  _poll_and_process demo_cfg demo_poisoned = (Raise (ValueError "Expecting value"), demo_poisoned).
Proof.
  refine (proj1 (undecodable_event_blocks_worker demo_cfg demo_poisoned
    (demo_event 103 "push" (Some (VStr "{"))) [] (ValueError "Expecting value") 0 _ _ _));
    reflexivity.
Defined.


Lemma waiter_gets_first_fire_witness :
  futures (run_ops ([Fire "done" (Some (VInt 1))] ++ Register 1 "done" ::
                    [Register 2 "done"; Fire "other" None; Fire "done" (Some (VInt 2)); Deadline 1])
             delivery_init) !! 1%Z = Some (Result (Some (VInt 2))).
Proof.
  refine (waiter_gets_first_fire 1 "done" [Fire "done" (Some (VInt 1))]
    [Register 2 "done"; Fire "other" None; Fire "done" (Some (VInt 2)); Deadline 1] _).
  intros n Hin. simpl in Hin.
  repeat (apply elem_of_cons in Hin as [Hin|Hin]; [discriminate Hin|]). by apply not_elem_of_nil in Hin.
Defined.
