(* ===== verification/Budget.v ===== *)
(** What the budget machinery of the scheduler guarantees (scheduler/_enforcement.py, session/_pricing.py,
    [Scheduler.abort]): costs are never negative, a task's threshold event is raised exactly once, when
    its spending crosses it, exhaustion is reported and enforced at every later charge, the overseer
    gets each event once, and an abort cancels exactly the running tasks. *)
From Stdlib Require Import QArith Qcanon.
From S2P Require Import Prelude PyDict Types Transitions Locks Store Scheduler Lifecycle LifecycleSpec.
Close Scope Q_scope.

(** ** Decimals *)

Lemma dec_leb_le a b : dec_leb a b = true <-> (a <= b)%Qc.
Proof. apply Qle_bool_iff. Qed.

Lemma dec_ltb_lt a b : dec_ltb a b = true <-> (a < b)%Qc.
Proof.
  unfold dec_ltb. rewrite negb_true_iff, <- not_true_iff_false, dec_leb_le. split; [apply Qcnot_le_lt|].
  apply Qclt_not_le.
Qed.

Lemma dec_ltb_ge a b : dec_ltb a b = false <-> (b <= a)%Qc.
Proof. unfold dec_ltb. by rewrite negb_false_iff, dec_leb_le. Qed.

Lemma decimal_Z_nonneg n : (0 <= n)%Z -> (0 <= decimal_Z n)%Qc.
Proof.
  intros Hn. unfold Qcle, decimal_Z, decimal_of. simpl. rewrite !Qred_correct. unfold Qle. simpl. lia.
Qed.

Lemma Qcplus_nonneg a b : (0 <= a -> 0 <= b -> 0 <= a + b)%Qc.
Proof. intros Ha Hb. replace 0%Qc with (0 + 0)%Qc by ring. by apply Qcplus_le_compat. Qed.

Lemma Qcmult_nonneg a b : (0 <= a -> 0 <= b -> 0 <= a * b)%Qc.
Proof. intros Ha Hb. replace 0%Qc with (0 * b)%Qc by ring. by apply Qcmult_le_compat_r. Qed.

(** ** Costs *)

(** Rates and usages as they come: no negative entry. *)
Definition rates_nonneg (r : TokenRates) : Prop :=
  Forall (fun d => 0 <= d)%Qc [input_per_million r; output_per_million r; cache_read_per_million r;
                               cache_write_per_million r; reasoning_per_million r].
Definition usage_nonneg (u : Usage) : Prop :=
  Forall (fun n => 0 <= n)%Z [u_input_tokens u; u_output_tokens u; u_reasoning_tokens u;
                              u_cache_read_tokens u; u_cache_write_tokens u].

Lemma usage_cost_nonneg r u : rates_nonneg r -> usage_nonneg u -> (0 <= usage_cost r u)%Qc.
Proof.
  intros Hr Hu. unfold rates_nonneg, usage_nonneg in *. rewrite !Forall_cons in *.
  destruct Hr as (? & ? & ? & ? & ? & _), Hu as (? & ? & ? & ? & ? & _).
  unfold usage_cost, Qcdiv. apply Qcmult_nonneg.
  - repeat apply Qcplus_nonneg; apply Qcmult_nonneg; auto using decimal_Z_nonneg.
  - apply dec_leb_le. vm_compute. reflexivity.
Qed.

Lemma pricing_table_nonneg model r : PRICING_TABLE !! model = Some r -> rates_nonneg r.
Proof.
  intros Hr%dict_lookup_Some_value. unfold PRICING_TABLE, dvalues in Hr. simpl in Hr.
  repeat (apply elem_of_cons in Hr as [->|Hr];
          [repeat constructor; apply dec_leb_le; vm_compute; reflexivity|]).
  by apply not_elem_of_nil in Hr.
Qed.

(** Every known model has a price and it is never negative: with non-negative extra rates and token
    counts, [compute_cost_usd] is a non-negative amount for a model that the extra rates or the built-in
    table lists - the extra rates win - and [ValueError] for any other. *)
Theorem compute_cost_usd_total model usage extra :
  usage_nonneg usage ->
  (forall rates m r, extra = Some rates -> rates !! m = Some r -> rates_nonneg r) ->
  match compute_cost_usd model usage extra with
  | Ok cost => (0 <= cost)%Qc /\ exists r, cost = usage_cost r usage /\
      ((extra ≫= fun t => t !! model) = Some r \/
       (extra ≫= fun t => t !! model) = None /\ PRICING_TABLE !! model = Some r)
  | Raise e => e = ValueError "Unknown model" /\ (extra ≫= fun t => t !! model) = None /\
      PRICING_TABLE !! model = None
  end.
Proof.
  intros Hu Hextra. unfold compute_cost_usd.
  destruct (extra ≫= fun t => t !! model) as [r|] eqn:E.
  - apply bind_Some in E as (rates & -> & Hr). split; [apply usage_cost_nonneg; eauto|]. eauto.
  - destruct (PRICING_TABLE !! model) as [r|] eqn:Ep; [|done]. split; [|eauto 6].
    eapply usage_cost_nonneg, Hu. by eapply pricing_table_nonneg.
Qed.

(** ** Charging a task *)

(** What is spent after each charge. *)
Fixpoint sums (before : decimal) (costs : list decimal) : list decimal :=
  match costs with
  | [] => []
  | c :: costs' => (before + c)%Qc :: sums (before + c)%Qc costs'
  end.

Section charges.
Context (cfg : sched_config) (task_id : uuid) (task : TaskSpec) (key : string) (budget : decimal).
Context (Hkey : _resolve_model_key cfg task = Some key).
Context (Hbudget : effective_budget cfg task = Some budget).
Implicit Types (s : sched).

Definition threshold : decimal := (budget * budget_threshold)%Qc.

(** The entry an event list gets. *)
Definition event_entry (spent : decimal) : uuid * string * decimal * decimal :=
  (task_id, ts_name task, budget, spent).

Definition blocks : bool :=
  match _budget_exhaustion_policy cfg with BLOCK_NEW | TIMEOUT_GRACE => true | _ => false end.
Definition aborts : list scheduled :=
  match _budget_exhaustion_policy cfg with
  | CANCEL_ALL => [AbortSoon]
  | TIMEOUT_GRACE => [AbortLater 60]
  | _ => []
  end.

Lemma accumulate_step usage cost before s :
  compute_cost_usd key usage (_pricing cfg) = Ok cost -> _task_costs s !! task_id = Some before ->
  let spent := (before + cost)%Qc in
  exists s', _accumulate_cost cfg task_id task usage s = (Ok tt, s') /\
    _task_costs s' = <[task_id := spent]> (_task_costs s) /\
    _budget_threshold_events s' = _budget_threshold_events s ++
      (if dec_leb threshold spent && dec_ltb before threshold then [event_entry spent] else []) /\
    _budget_exhausted_events s' = _budget_exhausted_events s ++
      (if dec_leb budget spent then [event_entry spent] else []) /\
    _budget_blocked s' = _budget_blocked s || (dec_leb budget spent && blocks) /\
    _scheduled s' = _scheduled s ++ (if dec_leb budget spent then aborts else []).
Proof.
  intros Hc Hb spent. eexists. split.
  { unfold _accumulate_cost. rewrite Hkey, Hc. unfold mbind, M_bind, mget, mmod; simpl.
    by rewrite Hb, Hbudget. }
  unfold enforce_budget. fold spent.
  replace (Qcminus spent cost) with before by (unfold spent; ring). fold threshold.
  unfold exhaust, blocks, aborts.
  destruct (dec_leb threshold spent && dec_ltb before threshold), (dec_leb budget spent),
    (_budget_exhaustion_policy cfg); simpl;
    rewrite ?app_nil_r, ?orb_true_r, ?orb_false_r; done.
Qed.

Lemma sums_ge before costs x :
  Forall (fun c => 0 <= c)%Qc costs -> x ∈ sums before costs -> (before <= x)%Qc.
Proof.
  revert before. induction costs as [|c costs IH]; intros before Hc Hx; [by apply not_elem_of_nil in Hx|].
  apply Forall_cons in Hc as [Hc Hcs].
  assert (Hle : (before <= before + c)%Qc).
  { replace before with (before + 0)%Qc at 1 by ring. apply Qcplus_le_compat; [apply Qcle_refl|done]. }
  simpl in Hx. apply elem_of_cons in Hx as [->|Hx]; [done|].
  eapply Qcle_trans; [exact Hle|by apply IH].
Qed.

(** Any sequence of charges, whether the threshold was reached before or not. *)
Lemma charges usages costs before s :
  Forall2 (fun u c => compute_cost_usd key u (_pricing cfg) = Ok c /\ (0 <= c)%Qc) usages costs ->
  _task_costs s !! task_id = Some before ->
  exists s', mfor usages (_accumulate_cost cfg task_id task) s = (Ok tt, s') /\
    _task_costs s' !! task_id = Some (fold_left Qcplus costs before) /\
    _budget_threshold_events s' = _budget_threshold_events s ++
      (if dec_ltb before threshold then
         match head (filter (fun x => dec_leb threshold x) (sums before costs)) with
         | Some spent => [event_entry spent]
         | None => []
         end
       else []) /\
    _budget_exhausted_events s' = _budget_exhausted_events s ++
      (event_entry <$> filter (fun x => dec_leb budget x) (sums before costs)) /\
    _budget_blocked s' = _budget_blocked s || (existsb (dec_leb budget) (sums before costs) && blocks) /\
    _scheduled s' = _scheduled s ++
      concat ((fun _ => aborts) <$> filter (fun x => dec_leb budget x) (sums before costs)).
Proof.
  intros Hall. revert before s. induction Hall as [|u c usages costs [Hc Hnn] Hall IH]; intros before s Hb.
  { exists s. simpl. rewrite !app_nil_r, orb_false_r. destruct (dec_ltb before threshold); by rewrite ?app_nil_r. }
  destruct (accumulate_step u c before s Hc Hb) as (s1 & E & E1 & E2 & E3 & E4 & E5).
  destruct (IH (before + c)%Qc s1) as (s' & E' & F1 & F2 & F3 & F4 & F5).
  { rewrite E1. apply dict_lookup_insert_eq. }
  exists s'. split; [unfold mfor; rewrite (M_bind_ok _ _ _ _ _ E); exact E'|].
  split; [done|]. rewrite F2, F3, F4, F5, E2, E3, E4, E5. cbn [sums]. rewrite !filter_cons.
  split_and!.
  - rewrite <- app_assoc. f_equal. destruct (dec_leb threshold (before + c)%Qc) eqn:Et; simpl.
    + replace (dec_ltb (before + c)%Qc threshold) with false by
        (symmetry; by apply dec_ltb_ge, dec_leb_le).
      destruct (dec_ltb before threshold); by rewrite app_nil_r.
    + replace (dec_ltb (before + c)%Qc threshold) with true by (unfold dec_ltb; by rewrite Et).
      replace (dec_ltb before threshold) with true; [done|]. symmetry. apply dec_ltb_lt.
      eapply Qcle_lt_trans; [|by apply dec_ltb_lt; unfold dec_ltb; rewrite Et].
      apply (sums_ge before [c]); [by constructor|left].
  - rewrite <- app_assoc. f_equal. by destruct (dec_leb budget (before + c)%Qc).
  - simpl. rewrite <- orb_assoc. f_equal. by destruct (dec_leb budget (before + c)%Qc), blocks; rewrite ?andb_true_r, ?andb_false_r, ?orb_true_r.
  - rewrite <- app_assoc. f_equal. by destruct (dec_leb budget (before + c)%Qc).
Qed.

(** C35. Budget events are exact.  Over any sequence of non-negative charges to a task that has a budget
    and has not reached the threshold (80%): the costs add up, the threshold event is raised exactly once,
    with the first amount that reaches the threshold, and never if none does; an exhaustion event is
    raised for every amount that reaches the budget, and from the first one on the policy is in force:
    new work is blocked, or aborts are scheduled, as configured. *)
Theorem budget_events_exact usages costs before s :
  Forall2 (fun u c => compute_cost_usd key u (_pricing cfg) = Ok c /\ (0 <= c)%Qc) usages costs ->
  _task_costs s !! task_id = Some before -> (before < threshold)%Qc ->
  exists s', mfor usages (_accumulate_cost cfg task_id task) s = (Ok tt, s') /\
    _task_costs s' !! task_id = Some (fold_left Qcplus costs before) /\
    _budget_threshold_events s' = _budget_threshold_events s ++
      match head (filter (fun x => dec_leb threshold x) (sums before costs)) with
      | Some spent => [event_entry spent]
      | None => []
      end /\
    _budget_exhausted_events s' = _budget_exhausted_events s ++
      (event_entry <$> filter (fun x => dec_leb budget x) (sums before costs)) /\
    _budget_blocked s' = _budget_blocked s || (existsb (dec_leb budget) (sums before costs) && blocks) /\
    _scheduled s' = _scheduled s ++
      concat ((fun _ => aborts) <$> filter (fun x => dec_leb budget x) (sums before costs)).
Proof.
  intros Hall Hb Hlt.
  destruct (charges usages costs before s Hall Hb) as (s' & E & E1 & E2 & E3).
  exists s'. split; [done|]. split; [done|]. split; [|done]. rewrite E2.
  apply dec_ltb_lt in Hlt. by rewrite Hlt.
Qed.
End charges.

(** ** Telling the overseer *)

Section telling.
Context {W : Type} (send_overseer_event : budget_event -> M (sys W) unit).
(** An overseer that takes the event and changes only its own part of the world. *)
Context (deliver : budget_event -> W -> W).
Context (Hsend : forall e s, send_overseer_event e s = (Ok tt, s .[store := deliver e (store s)])).
Implicit Types (s : sys W).

Definition crossed_event (e : uuid * string * decimal * decimal) : budget_event :=
  let '(tid, _, budget, spent) := e in BudgetThresholdCrossed tid budget spent.
Definition exhausted_event (e : uuid * string * decimal * decimal) : budget_event :=
  let '(tid, _, _, _) := e in BudgetExhausted tid.

Lemma tell_loop (mk : uuid * string * decimal * decimal -> budget_event) body task_id l s :
  (forall e s, body e s = if decide (ev_task e = task_id) then send_overseer_event (mk e) s else (Ok tt, s)) ->
  mfor l body s =
    (Ok tt, s .[store := fold_left (fun w e => deliver e w)
                           (mk <$> filter (fun e => ev_task e = task_id) l) (store s)]).
Proof.
  intros Hbody. revert s. induction l as [|e l IH]; intros s; [by destruct s|].
  unfold mfor. fold (mfor l body). rewrite filter_cons.
  destruct (decide (ev_task e = task_id)) as [E|E].
  - rewrite (M_bind_ok _ _ _ tt (s .[store := deliver (mk e) (store s)])).
    + rewrite IH. by destruct s.
    + rewrite Hbody, decide_True by done. apply Hsend.
  - rewrite (M_bind_ok _ _ _ tt s) by (by rewrite Hbody, decide_False). apply IH.
Qed.

(** The overseer is told once.  Sending the events of a task delivers its threshold events and then
    its exhaustion events, each list in the order they were raised, forgets exactly those, and keeps
    those of other tasks; a second call delivers nothing. *)
Theorem budget_events_sent_once task_id s :
  let mine := filter (fun e => ev_task e = task_id) in
  let others := filter (fun e => ev_task e <> task_id) in
  exists s', _send_budget_events send_overseer_event task_id s = (Ok tt, s') /\
    store s' = fold_left (fun w e => deliver e w)
      ((crossed_event <$> mine (_budget_threshold_events (sc s))) ++
       (exhausted_event <$> mine (_budget_exhausted_events (sc s)))) (store s) /\
    sc s' = (sc s) .[_budget_threshold_events ::= others] .[_budget_exhausted_events ::= others] /\
    _send_budget_events send_overseer_event task_id s' = (Ok tt, s').
Proof.
  intros mine others.
  assert (Hrun : forall s, _send_budget_events send_overseer_event task_id s = (Ok tt, {|
    sc := (sc s) .[_budget_threshold_events ::= others] .[_budget_exhausted_events ::= others];
    store := fold_left (fun w e => deliver e w)
      ((crossed_event <$> mine (_budget_threshold_events (sc s))) ++
       (exhausted_event <$> mine (_budget_exhausted_events (sc s)))) (store s) |})).
  { intros s0. unfold _send_budget_events, sget, smod. rewrite M_bind_mgets.
    erewrite M_bind_ok.
    2: { apply (tell_loop crossed_event _ task_id). intros [[[tid n] b] sp] s1. unfold ev_task; simpl.
         by case_decide. }
    rewrite M_bind_mmod, M_bind_mgets.
    erewrite M_bind_ok.
    2: { apply (tell_loop exhausted_event _ task_id). intros [[[tid n] b] sp] s1. unfold ev_task; simpl.
         by case_decide. }
    rewrite fold_left_app. by destruct s0. }
  eexists. split; [apply Hrun|]. split; [done|]. split; [done|]. rewrite Hrun. simpl.
  assert (Hnone : forall l, mine (others l) = []).
  { intros l. apply list_eq_nil. intros e [He [Hne _]%list_elem_of_filter]%list_elem_of_filter. done. }
  assert (Hidem : forall l, others (others l) = others l).
  { intros l. apply filter_all. by intros e [He _]%list_elem_of_filter. }
  by rewrite !Hnone, !Hidem.
Qed.
End telling.

(** ** Abort *)

Section aborting.
Context {W : Type} `{TraceStoreLaws W}.
Context (cfg : sched_config).
Implicit Types (s : sys W).

(** The snapshot holds the task in a running state. *)
Definition running_in (l : list (uuid * TaskState)) (k : uuid) : bool :=
  existsb (fun kv => bool_decide (kv.1 = k /\ kv.2 ∈ _ACTIVE_STATES)) l.

Lemma cancel_one id s :
  ts_inv (store s) -> is_Some (ts_status (store s) id) ->
  exists w', (set_state id CANCELLED ;;
              smod (fun x => x .[_file_lock_registry ::= delete id]) ;;
              transition cfg id CANCELLED) s =
    (Ok tt, {| sc := (sc s) .[_task_states ::= <[id := CANCELLED]>]
                        .[_file_lock_registry ::= delete id]; store := w' |}) /\
    ts_inv w' /\
    forall k, ts_status w' k = if decide (k = id) then Some "cancelled"%string else ts_status (store s) k.
Proof.
  intros Hinv [cur Hcur].
  pose proof (ts_transition_law id "cancelled" None (_run_principal_id cfg) (store s) cur Hinv Hcur) as Hlaw.
  pose proof (task_step_cancel cur) as Hc. unfold task_step in Hc. rewrite Hc in Hlaw.
  destruct Hlaw as (w' & E & Hinv' & Hst). exists w'. split; [|done].
  unfold set_state, smod, transition, on_store, zoom, mmod, mbind, M_bind; simpl. by rewrite E.
Qed.

Lemma abort_loop_spec l s :
  ts_inv (store s) -> (forall id st, (id, st) ∈ l -> is_Some (ts_status (store s) id)) ->
  exists s', abort_loop cfg l s = (Ok tt, s') /\ ts_inv (store s') /\
    (forall k, state_of s' k = if running_in l k then Some CANCELLED else state_of s k) /\
    (forall k, ts_status (store s') k =
       if running_in l k then Some "cancelled"%string else ts_status (store s) k) /\
    (forall k, _file_lock_registry (sc s') !! k =
       if running_in l k then None else _file_lock_registry (sc s) !! k).
Proof.
  revert s. induction l as [|[id st] l IH]; intros s Hinv Hl; [by exists s|].
  cbn [abort_loop running_in existsb].
  destruct (decide (st ∈ _ACTIVE_STATES)) as [Ha|Ha].
  - destruct (cancel_one id s Hinv) as (w' & E & Hinv' & Hst); [apply (Hl id st); left|].
    match type of E with _ = (_, ?st1) => destruct (IH st1 Hinv') as (s' & E' & Hi & H1 & H2 & H3) end.
    { intros k st' Hk. simpl. rewrite Hst. case_decide; [done|]. apply (Hl k st'). by right. }
    exists s'. split; [by rewrite (M_bind_ok _ _ _ _ _ E)|]. split; [done|].
    split_and!; intros k; rewrite ?H1, ?H2, ?H3; fold (running_in l k);
      destruct (running_in l k); rewrite ?orb_true_r, ?orb_false_r; try done; simpl;
      unfold state_of; simpl; rewrite ?Hst, ?dict_lookup_insert, ?dict_lookup_delete;
      case_bool_decide; case_decide; naive_solver.
  - destruct (IH s Hinv) as (s' & E' & Hi & H1 & H2 & H3).
    { intros k st' Hk. apply (Hl k st'). by right. }
    exists s'. split; [exact E'|]. split; [done|].
    split_and!; intros k; rewrite ?H1, ?H2, ?H3; fold (running_in l k);
      rewrite bool_decide_false by (simpl; tauto); done.
Qed.

(** An abort cancels exactly the running tasks.  From tables that agree with the store, [abort]
    succeeds; every task that was active or running its checks becomes cancelled, in the scheduler and
    in the store, and loses its file locks; every other task keeps its state and its locks; and the two
    still agree. *)
Theorem abort_cancels_running s :
  tables_ok s -> agree s -> dwf (_task_states (sc s)) ->
  exists s', abort cfg s = (Ok tt, s') /\ agree s' /\
    forall id st, state_of s id = Some st ->
      state_of s' id = Some (if decide (st ∈ _ACTIVE_STATES) then CANCELLED else st) /\
      _file_lock_registry (sc s') !! id =
        if decide (st ∈ _ACTIVE_STATES) then None else _file_lock_registry (sc s) !! id.
Proof.
  intros Hok Ha Hwf. set (l := ditems (_task_states (sc s))).
  destruct (abort_loop_spec l s (to_store s Hok)) as (s' & E & _ & H1 & H2 & H3).
  { intros id st Hin. apply (to_known s Hok id st). by apply dict_in_lookup. }
  assert (Hrun : forall id st, state_of s id = Some st ->
            running_in l id = bool_decide (st ∈ _ACTIVE_STATES)).
  { intros id st Hst. apply eq_bool_prop_intro. rewrite bool_decide_spec. unfold running_in.
    rewrite Is_true_true, existsb_exists. split.
    - intros ([k x] & Hin & Hx%bool_decide_eq_true). simpl in Hx. destruct Hx as [-> Hx].
      apply list_elem_of_In, dict_in_lookup in Hin; [|done]. unfold state_of in Hst. congruence.
    - intros Hact. exists (id, st). split; [apply list_elem_of_In, dict_lookup_Some_in, Hst|].
      by rewrite bool_decide_true. }
  exists s'. split; [exact E|]. split.
  - intros id st. rewrite H1, H2. destruct (running_in l id); [by intros [= <-]|apply Ha].
  - intros id st Hst. rewrite H1, H3, (Hrun id st Hst). case_bool_decide; by case_decide.
Qed.
End aborting.

(** ** Witnesses *)

Definition demo_usage : Usage := {|
  u_input_tokens := 1000; u_output_tokens := 0; u_reasoning_tokens := 0; u_cache_read_tokens := 0;
  u_cache_write_tokens := 0 |}.

Lemma demo_usage_nonneg : usage_nonneg demo_usage.
Proof. repeat (constructor; [done|]). constructor. Qed.

Lemma compute_cost_usd_total_witness :
  match compute_cost_usd "openai/gpt-4o" demo_usage None with
  | Ok cost => (0 <= cost)%Qc
  | Raise e => False
  end.
Proof.
  pose proof (compute_cost_usd_total "openai/gpt-4o" demo_usage None
    demo_usage_nonneg ltac:(discriminate)) as Hc.
  destruct (compute_cost_usd "openai/gpt-4o" demo_usage None) as [cost|e]; [by apply Hc|].
  destruct Hc as (_ & _ & Hn). discriminate Hn.
Defined.

(** One agent with a budget of a cent; a charge of [demo_usage] is a quarter of it. *)
Definition budget_agent : Agent := {|
  ag_name := "coder"; ag_category := None; ag_provider := Some "openai"%string;
  ag_model := Some "gpt-4o"%string; ag_allow := []; ag_budget := Some (decimal_of 1 100);
  ag_write_paths := None; ag_timeout := None |}.
Definition budget_cfg : sched_config := {|
  _run_id := 1; _run_principal_id := 2; _agents := Dict [("coder"%string, budget_agent)];
  _categories := ∅; _budget_exhaustion_policy := BLOCK_NEW; _pricing := None;
  _mechanical_constraints := [] |}.
Definition budget_task : TaskSpec :=
  mkTaskSpec ((TaskBase_default "build") .[ts_agent := Some "coder"%string]) [] [] None.
Definition demo_cost : decimal := usage_cost (rates_of 2500 10000 1250 2500 10000) demo_usage.
Definition budget_sched : sched := sched_init .[_task_costs := Dict [(7%Z, decimal_Z 0)]].

Lemma demo_charge :
  compute_cost_usd "openai/gpt-4o" demo_usage (_pricing budget_cfg) = Ok demo_cost /\ (0 <= demo_cost)%Qc.
Proof. split; [reflexivity|]. apply dec_leb_le. vm_compute. reflexivity. Qed.

Lemma budget_events_exact_witness :
  exists s', mfor (replicate 5 demo_usage) (_accumulate_cost budget_cfg 7 budget_task) budget_sched = (Ok tt, s') /\
    length (_budget_threshold_events s') = 1 /\ length (_budget_exhausted_events s') = 2 /\
    _budget_blocked s' = true.
Proof.
  destruct (budget_events_exact budget_cfg 7 budget_task "openai/gpt-4o" (decimal_of 1 100)
    eq_refl eq_refl (replicate 5 demo_usage) (replicate 5 demo_cost) (decimal_Z 0) budget_sched)
    as (s' & E & _ & E1 & E2 & E3 & _).
  - repeat constructor; apply demo_charge.
  - reflexivity.
  - apply dec_ltb_lt. vm_compute. reflexivity.
  - exists s'. split; [exact E|]. rewrite E1, E2, E3. split_and!; vm_compute; reflexivity.
Defined.

(** An overseer that counts what it is told. *)
Lemma budget_events_sent_once_witness :
  let send (e : budget_event) (s : sys nat) := (Ok tt, s .[store := S (store s)]) in
  let s := Sys (budget_sched .[_budget_threshold_events := [(7%Z, "build"%string, decimal_Z 1, decimal_Z 1);
                                                     (8%Z, "test"%string, decimal_Z 1, decimal_Z 1)]]
                      .[_budget_exhausted_events := [(7%Z, "build"%string, decimal_Z 1, decimal_Z 1)]]) 0 in
  exists s', _send_budget_events send 7 s = (Ok tt, s') /\ store s' = 2 /\
    ev_task <$> _budget_threshold_events (sc s') = [8%Z].
Proof.
  intros send s.
  destruct (budget_events_sent_once send (fun _ n => S n) ltac:(reflexivity) 7 s)
    as (s' & E & E1 & E2 & _).
  exists s'. split; [exact E|]. rewrite E1, E2. split; reflexivity.
Defined.

(** A run with one active task. *)
Definition demo_running : sys mem_store :=
  demo_calls [CallRegister demo_parent None; CallStart "S" (Some 1%Z)] demo_start.

Lemma demo_running_safe : safe true demo_running.
Proof.
  apply run_calls_safe; try (intros; apply considerate_ret); [apply safe_init, mem_store_init_inv|].
  intros _. vm_compute. by split.
Qed.

Lemma abort_cancels_running_witness :
  exists s', abort demo_cfg demo_running = (Ok tt, s') /\ state_of s' 1 = Some CANCELLED.
Proof.
  destruct (abort_cancels_running demo_cfg demo_running) as (s' & E & _ & Hst).
  - apply demo_running_safe.
  - by apply demo_running_safe.
  - refine (bool_decide_eq_true_1 (NoDup _) _). vm_compute. reflexivity.
  - exists s'. split; [exact E|].
    assert (Ha : state_of demo_running 1 = Some ACTIVE) by (vm_compute; reflexivity).
    destruct (Hst 1%Z ACTIVE Ha) as [Hc _]. exact Hc.
Defined.
