(* ===== verification/TaskDispatch.v ===== *)
(** scheduler/_task_dispatch.py and [execute_task], [run_workflow_check] of scheduler/_executor.py: the
    executors of decision-point, function, composite, wait-for and for-each tasks.

    What an await hands control to is a parameter: the event registry, the functions and agents that do
    the work, the overseer, the check runner.  They act on the whole state, so other coroutines may run
    meanwhile.  Children started together are run by [gather] in the order the event loop starts them,
    each to its next suspension inside a parameter. *)
From S2P Require Import Prelude PyDict Types Transitions Locks Graph Store Scheduler.

(** [asyncio.gather] of several tasks: every task runs, even after one raised; then the first exception, if any,
    is raised. *)
Fixpoint gather {S A : Type} (ms : list (M S A)) : M S (list A) := fun s =>
  match ms with
  | [] => (Ok [], s)
  | m :: ms' =>
      let '(r, s1) := m s in
      let '(rs, s2) := gather ms' s1 in
      (match r, rs with
       | Ok a, Ok l => Ok (a :: l)
       | Ok _, Raise e => Raise e
       | Raise e, _ => Raise e
       end, s2)
  end.

Record TaskContext := {
  tc_variables : dict string value; tc_run_id : uuid; tc_task_name : string; tc_task_id : uuid;
  tc_attempt : Z; tc_prior_attempts : option (list (Z * string)); tc_notepad_content : string; tc_parent_task_id : option uuid; tc_nesting_depth : nat
}.

(** What [importlib.import_module] and [getattr] find. *)
Inductive imported (W : Type) :=
| ImportFailed
| NoAttribute
| Imported (func : TaskContext -> M (sys W) TaskResult).
Arguments ImportFailed {W}.
Arguments NoAttribute {W}.
Arguments Imported {W} _.

(** Code the executors await or call outside this component. *)
Record task_env (W : Type) := {
  (** [run_checks] of [Verify], with the scheduler as its executor *)
  te_run_checks : list Execution -> CheckContext -> M (sys W) (list CheckResult);
  (** handing a decision point's [StructuralAdvisory] to the overseer *)
  te_send_decision : uuid -> string -> M (sys W) unit;
  te_import : string -> string -> imported W;
  (** [EventDelivery.wait_for]: the payload, a dict, or [None] at the deadline *)
  te_wait_for : string -> Z -> M (sys W) (option (list (string * value)));
  (** [_execute_orchestrator_or_agent_task] *)
  te_agent : TaskSpec -> uuid -> option uuid -> option (dict string value) -> M (sys W) TaskResult;
  (** [self._paused.wait()] while the run is paused *)
  te_paused : M (sys W) unit;
  (** an await that nothing will ever complete *)
  te_blocked : M (sys W) unit;
  te_render_notepad : sys W -> string;
  te_str : value -> string;
  te_exn_str : exn -> string;
  te_str_int : nat -> string;
  te_json_dumps : value -> string
}.
Arguments te_run_checks {W} _ _ _.
Arguments te_send_decision {W} _ _ _.
Arguments te_import {W} _ _ _.
Arguments te_wait_for {W} _ _ _.
Arguments te_agent {W} _ _ _ _ _.
Arguments te_paused {W} _.
Arguments te_blocked {W} _.
Arguments te_render_notepad {W} _ _.
Arguments te_str {W} _ _.
Arguments te_exn_str {W} _ _.
Arguments te_str_int {W} _ _.
Arguments te_json_dumps {W} _ _.

Definition task_result (output : option string) (structured : option value) (crs : list CheckResult) :
    TaskResult := {| tr_output := output; tr_structured_output := structured; tr_check_results := crs |}.

(** Depth of a task below the root of its run: [while parents.get(current) is not None].  The chain
    visits each key of the parent table at most once, unless it is cyclic - then the loop never ends, and
    the fuel runs out: [None]. *)
Fixpoint depth_loop (fuel : nat) (parents : dict uuid (option uuid)) (depth : nat) (current : uuid) :
    option nat :=
  match parents !! current ≫= fun p => p with
  | None => Some depth
  | Some parent =>
      match fuel with
      | 0 => None
      | S fuel' => depth_loop fuel' parents (S depth) parent
      end
  end.

Definition nesting_depth (s : sched) (task_id : uuid) : option nat :=
  depth_loop (length (dkeys (_task_parents s))) (_task_parents s) 0 task_id.

(** The keyword arguments of [complete_task_attempt] for code that spends no tokens. *)
Definition no_tokens : Trace.token_counts := {|
  Trace.k_input := 0; Trace.k_output := 0; Trace.k_reasoning := 0; Trace.k_cache_read := 0;
  Trace.k_cache_write := 0 |}.

Section executors.
Context {W : Type} `{TraceStore W, TraceLog W}.
Context (cfg : sched_config) (env : task_env W).

Definition move (task_id : uuid) (st : TaskState) : M (sys W) unit :=
  set_state task_id st ;; transition cfg task_id st.

Definition _execute_decision_point_task (task : TaskSpec) (task_id : uuid) : M (sys W) TaskResult :=
  move task_id PRECHECKING ;;
  move task_id ACTIVE ;;
  on_store (tl_write_event (Some (_run_id cfg)) "decision_point"
    (VDict [("task_id", VUuidStr task_id); ("task_name", VStr (ts_name task))]%string)
    (Some task_id) (_run_principal_id cfg)) ;;
  te_send_decision env task_id (ts_name task) ;;
  _complete_task task_id (ts_name task) None None 0%Z 0%Z ;;
  transition cfg task_id COMPLETED ;;
  mret (task_result None None [check_result true "Decision point completed"]).

Definition _execute_function_task (task : TaskSpec) (task_id : uuid) (parent_task_id : option uuid)
    (variables : option (dict string value)) : M (sys W) TaskResult :=
  match ts_callable task with
  | None => mthrow (ValueError "Function task requires callable")
  | Some callable =>
      attempt_id ← on_store (tl_create_task_attempt task_id 1);
      move task_id PRECHECKING ;;
      move task_id ACTIVE ;;
      match split_colon callable with
      | [module_path; func_name] =>
          match te_import env module_path func_name with
          | ImportFailed => mthrow (ImportError)
          | NoAttribute => mthrow (OtherError "AttributeError")
          | Imported func =>
              depth ← sget (fun s => nesting_depth s task_id);
              match depth with
              | None => te_blocked env ;; mthrow (OtherError "unreachable")
              | Some depth =>
                  notepad ← mgets (te_render_notepad env);
                  result ← func {|
                    tc_variables := default ∅ variables; tc_run_id := _run_id cfg;
                    tc_task_name := ts_name task; tc_task_id := task_id; tc_attempt := 1;
                    tc_prior_attempts := None; tc_notepad_content := notepad; tc_parent_task_id := parent_task_id;
                    tc_nesting_depth := depth |};
                  on_store (tl_complete_task_attempt attempt_id (default ""%string (tr_output result))
                    (tr_structured_output result) None (Some "pass"%string) None no_tokens
                    (decimal_Z 0) 0%Z) ;;
                  _complete_task task_id (ts_name task) (tr_output result)
                    (tr_structured_output result) 0%Z 0%Z ;;
                  transition cfg task_id COMPLETED ;;
                  mret result
              end
          end
      | _ => mthrow (ValueError "Invalid callable path")
      end
  end.

(** The children of a composite task, each with the run of [execute_task] on it. *)
Abbreviation child_runs := (list (TaskSpec * M (sys W) TaskResult)).

(** [deps] of the subtasks that have any *)
Definition subtask_deps (subtasks : list TaskSpec) : dict string (list string) :=
  foldl (fun d (sub : TaskSpec) =>
           match ts_depends_on sub with
           | Some (dep :: deps) => <[ts_name sub := dep :: deps]> d
           | _ => d
           end) ∅ subtasks.

Definition has_dependencies (subtasks : list TaskSpec) : bool :=
  existsb (fun sub : TaskSpec => match ts_depends_on sub with Some (_ :: _) => true | _ => false end)
    subtasks.

(** Each group waits for the one before it. *)
Fixpoint run_groups (name_to_run : dict string (M (sys W) TaskResult)) (groups : list (list string)) :
    M (sys W) unit :=
  match groups with
  | [] => mret tt
  | group :: groups' =>
      match mapM (fun name => name_to_run !! name) group with
      | None => mthrow (KeyError "name_to_sub")
      | Some runs => gather runs ;; run_groups name_to_run groups'
      end
  end.

Definition run_children (children : child_runs) : M (sys W) unit :=
  let subtasks := fst <$> children in
  if has_dependencies subtasks then
    let graph := build_graph subtasks (subtask_deps subtasks) in
    match order ← topological_sort graph; find_parallel_groups graph order with
    | Raise e => mthrow e
    | Ok groups =>
        run_groups (foldl (fun d (c : TaskSpec * M (sys W) TaskResult) => <[ts_name c.1 := c.2]> d)
                      ∅ children) groups
    end
  else gather (snd <$> children) ;; mret tt.

Definition _execute_composite_task (task : TaskSpec) (task_id : uuid) (children : option child_runs) :
    M (sys W) TaskResult :=
  match children with
  | None => mthrow (ValueError "Composite task requires subtasks")
  | Some children =>
      move task_id PRECHECKING ;;
      precheck_results ← _run_prechecks cfg (te_run_checks env) task task_id;
      if negb (all_passed precheck_results) then
        move task_id PRECHECK_FAILED ;;
        mret (task_result None None precheck_results)
      else
        move task_id ACTIVE ;;
        run_children children ;;
        move task_id POSTCHECKING ;;
        postcheck_results ← _run_postchecks cfg (te_run_checks env) task task_id;
        if negb (all_passed postcheck_results) then
          move task_id POSTCHECK_FAILED ;;
          mret (task_result None None postcheck_results)
        else
          move task_id COMPLETED ;;
          mret (task_result None None postcheck_results)
  end.

Definition _execute_wait_for_task (task : TaskSpec) (task_id : uuid) : M (sys W) TaskResult :=
  match ts_wait_for task with
  | None => mthrow (ValueError "Wait-for task requires wait_for")
  | Some event_name =>
      move task_id PRECHECKING ;;
      move task_id ACTIVE ;;
      let seconds := match ts_timeout task with
                     | Some t => if decide (t = 0)%Z then 60%Z else t
                     | None => 60%Z
                     end in
      payload ← te_wait_for env event_name seconds;
      match payload with
      | Some payload =>
          move task_id COMPLETED ;;
          mret (task_result (Some (te_str env (VDict payload))) (Some (VDict payload))
                  [check_result true "Event received"])
      | None =>
          move task_id CANCELLED ;;
          mret (task_result None None [check_result false "Wait timed out"])
      end
  end.

(** *** for_each *)

(** The spec of one iteration. *)
Definition iteration_base (base : TaskBase) (idx : nat) : TaskBase :=
  base .[ts_name := (ts_name base +:+ "_iter_" +:+ te_str_int env idx)%string]
       .[ts_for_each := None] .[ts_for_each_abort_on_failure := None] .[ts_max_concurrency := None].

(** [check_dicts] *)
Definition check_dicts (crs : list CheckResult) : option (list value) :=
  match crs with
  | [] => None
  | _ => Some ((fun cr => VDict [("passed", VBool (passed cr)); ("message", VStr (message cr))]%string)
                 <$> crs)
  end.

(** [run_iteration]: from the abort flag, the new flag and the result it stored, if any; [run] is
    [execute_task] on the iteration's spec and variables. *)
Definition run_iteration (task_id : uuid) (abort_on_failure : bool)
    (run : nat -> value -> M (sys W) TaskResult) (abort : bool) (idx : nat) (item : value) :
    M (sys W) (bool * option TaskResult) :=
  if abort then mret (true, None)
  else
    iteration_id ← on_store (tl_create_iteration task_id (Z.of_nat idx) item);
    let failed e stored :=
      on_store (tl_fail_iteration iteration_id (te_exn_str env e)) ;;
      mret (abort_on_failure, stored) in
    r ← mtry (run idx item);
    match r with
    | Raise e => failed e None
    | Ok result =>
        mcatch
          (on_store (tl_complete_iteration iteration_id (tr_output result)
             (tr_structured_output result) (check_dicts (tr_check_results result))) ;;
           mret (negb (all_passed (tr_check_results result)) && abort_on_failure, Some result))
          (fun e => failed e (Some result))
    end.

(** All iterations, in the order they are started; an iteration that raises does not stop the others. *)
Fixpoint iterations (run_one : bool -> nat -> value -> M (sys W) (bool * option TaskResult))
    (abort : bool) (idx : nat) (items : list value) : M (sys W) (bool * list (option TaskResult)) :=
  match items with
  | [] => mret (abort, [])
  | item :: items' =>
      r ← mtry (run_one abort idx item);
      match r with
      | Ok (abort', result) =>
          rest ← iterations run_one abort' (S idx) items';
          mret (fst rest, result :: snd rest)
      | Raise e => mtry (iterations run_one abort (S idx) items') ;; mthrow e
      end
  end.

Definition output_value (r : option TaskResult) : value :=
  match r ≫= tr_output with Some o => VStr o | None => VNone end.

Definition _execute_for_each (task : TaskSpec) (task_id : uuid)
    (variables : option (dict string value)) (run : nat -> value -> M (sys W) TaskResult) :
    M (sys W) TaskResult :=
  match ts_for_each task, ts_max_concurrency task with
  | Some var, Some max_concurrency =>
      match default (VList []) (default ∅ variables !! var) with
      | VList items =>
          move task_id PRECHECKING ;;
          move task_id ACTIVE ;;
          if decide (max_concurrency < 0)%Z then mthrow (ValueError "Semaphore initial value must be >= 0")
          else
            (if decide (max_concurrency = 0%Z /\ length items <> 0) then te_blocked env else mret tt) ;;
            let abort_on_failure := default false (ts_for_each_abort_on_failure task) in
            rs ← iterations (run_iteration task_id abort_on_failure run) false 0 items;
            let '(abort, results) := rs : bool * list (option TaskResult) in
            let outputs := VList (output_value <$> results) in
            (if abort then move task_id POSTCHECK_FAILED
             else _complete_task task_id (ts_name task) (Some (te_json_dumps env outputs)) None 0%Z 0%Z ;;
                  transition cfg task_id COMPLETED) ;;
            mret (task_result (Some (te_json_dumps env outputs))
                    (Some (VDict [("iterations", outputs)]%string))
                    [check_result (negb abort) "for_each complete"])
      | _ => mthrow (TypeError "for_each variable must resolve to a list")
      end
  | _, _ => mthrow (ValueError "for_each task requires for_each and max_concurrency")
  end.

(** *** execute_task *)

Definition wait_unpaused : M (sys W) unit :=
  running ← sget _paused;
  if running : bool then mret tt else te_paused env.

(** Creating the task in the store and in the tables, unless the caller already did. *)
Definition obtain_task (task : TaskSpec) (parent_task_id task_id : option uuid) : M (sys W) uuid :=
  match task_id with
  | Some id => mret id
  | None =>
      id ← on_store (ts_create_task (_run_id cfg) parent_task_id (ts_name task) (_task_type_for task) None);
      _init_task_state id task parent_task_id ;;
      mret id
  end.

(** The choice of executor for a task that is not, or no longer, a for_each. *)
Definition execute_mode (task : TaskSpec) (task_id : uuid) (parent_task_id : option uuid)
    (variables : option (dict string value)) (children : option child_runs) : M (sys W) TaskResult :=
  match ts_callable task with
  | Some _ => _execute_function_task task task_id parent_task_id variables
  | None =>
      match ts_subtasks task with
      | Some _ => _execute_composite_task task task_id children
      | None =>
          match ts_wait_for task with
          | Some _ => _execute_wait_for_task task task_id
          | None =>
              if default false (ts_decision_point task)
              then _execute_decision_point_task task task_id
              else te_agent env task task_id parent_task_id variables
          end
      end
  end.

(** An iteration of a for_each is [execute_task] on the same task without the for_each, so the recursion is on the tree. *)
Fixpoint execute_task (task : TaskSpec) (parent_task_id task_id : option uuid)
    (variables : option (dict string value)) {struct task} : M (sys W) TaskResult :=
  let 'mkTaskSpec base prechecks postchecks subtasks := task in
  let children id :=
    match subtasks with
    | Some subs => Some (map (fun sub => (sub, execute_task sub (Some id) None None)) subs)
    | None => None
    end in
  wait_unpaused ;;
  id ← obtain_task task parent_task_id task_id;
  match ts_for_each base with
  | None => execute_mode task id parent_task_id variables (children id)
  | Some _ =>
      _execute_for_each task id variables (fun idx item =>
        let iter_task := mkTaskSpec (iteration_base base idx) prechecks postchecks subtasks in
        let iter_vars := <["item"%string := item]> (default ∅ variables) in
        wait_unpaused ;;
        iter_id ← obtain_task iter_task (Some id) None;
        execute_mode iter_task iter_id (Some id) (Some iter_vars) (children iter_id))
  end.

(** *** Workflow checks *)

Definition run_workflow_check (execution : Execution) : M (sys W) CheckResult :=
  match execution with
  | WorkflowExecution name _ [] _ _ => mret (check_result true "Workflow check passed (no tasks)")
  | WorkflowExecution name _ tasks postchecks _ =>
      let composite := mkTaskSpec (TaskBase_default ("check_" +:+ name)%string) [] postchecks (Some tasks) in
      id ← on_store (ts_create_task (_run_id cfg) None (ts_name composite) "workflow" None);
      result ← _execute_composite_task composite id
                 (Some (map (fun sub => (sub, execute_task sub (Some id) None None)) tasks));
      if all_passed (tr_check_results result)
      then mret (check_result true ("Workflow check '" +:+ name +:+ "' passed")%string)
      else mret (check_result false
        ("Workflow check '" +:+ name +:+ "' failed: " +:+
         String.concat "; " (message <$> filter (fun cr => passed cr = false) (tr_check_results result)))%string)
  | _ => mret (check_result false "Expected WorkflowExecution")
  end.
End executors.
