(* ===== verification/TaskDispatchSpec.v ===== *)
(** What the task executors guarantee: executing a tree of tasks keeps the scheduler's tables and the
    store in agreement, whatever happens at the awaits; what a result says about the task's state; and
    what aborting a for_each does. *)
From S2P Require Import Prelude PyDict Types Transitions Locks Graph Store Scheduler Lifecycle LifecycleSpec TaskDispatch.

(** Induction over a tree of tasks. *)
Lemma task_tree_ind (P : TaskSpec -> Prop)
    (Hnode : forall base pre post subs,
       (forall l, subs = Some l -> Forall P l) -> P (mkTaskSpec base pre post subs)) :
  forall t, P t.
Proof.
  fix IH 1. intros [base pre post [l|]].
  - assert (Hl : Forall P l) by (induction l as [|t l IHl]; constructor; [apply IH|apply IHl]).
    apply Hnode. by intros l' [= <-].
  - apply Hnode. discriminate.
Qed.

(** ** Nesting depth *)

(** [p] is recorded as the parent of [k]. *)
Definition parent_edge (parents : dict uuid (option uuid)) (k p : uuid) : Prop :=
  parents !! k = Some (Some p).

Lemma parent_edge_lookup parents k :
  match parents !! k ≫= fun p => p with
  | Some p => parent_edge parents k p
  | None => forall p, ~ parent_edge parents k p
  end.
Proof. unfold parent_edge. destruct (parents !! k) as [[p|]|]; naive_solver. Qed.

Lemma depth_loop_some fuel parents depth current n :
  depth_loop fuel parents depth current = Some n ->
  exists m root, n = depth + m /\ nsteps (parent_edge parents) m current root /\
    forall p, ~ parent_edge parents root p.
Proof.
  revert depth current. induction fuel as [|fuel IH]; intros depth current; simpl;
    pose proof (parent_edge_lookup parents current) as He;
    destruct (parents !! current ≫= fun p => p) as [p|]; intros E; simplify_eq.
  2: { destruct (IH _ _ E) as (m & root & -> & Hm & Hr). exists (S m), root.
       split_and!; [lia|by econstructor|done]. }
  all: exists 0, current; split_and!; [lia|constructor|done].
Qed.

(** Out of fuel, the walk has visited more tasks than it was given fuel, each strictly above those before it. *)
Lemma depth_loop_none fuel parents depth current :
  depth_loop fuel parents depth current = None ->
  exists path, length path = S fuel /\ path ⊆ dkeys parents /\
    StronglySorted (tc (parent_edge parents)) path /\ Forall (rtc (parent_edge parents) current) path.
Proof.
  revert depth current. induction fuel as [|fuel IH]; intros depth current; simpl;
    pose proof (parent_edge_lookup parents current) as He;
    destruct (parents !! current ≫= fun p => p) as [p|]; intros E; simplify_eq;
    assert (Hk : current ∈ dkeys parents)
      by (apply dec_stable; intros Hk; apply dict_lookup_None_key in Hk; unfold parent_edge in He; congruence).
  - exists [current]. split_and!; [done|set_solver|repeat constructor|by repeat constructor].
  - destruct (IH _ _ E) as (path & Hl & Hsub & Hs & Hf). exists (current :: path).
    split_and!; [simpl; lia|set_solver|constructor; [done|]|constructor; [done|]];
      (eapply Forall_impl; [exact Hf|]); intros k Hr.
    + eapply tc_rtc_r; [by apply tc_once|done].
    + by eapply rtc_l.
Qed.

Lemma strongly_sorted_NoDup {A} (R : A -> A -> Prop) (l : list A) :
  (forall x, ~ R x x) -> StronglySorted R l -> NoDup l.
Proof.
  intros Hirr. induction 1 as [|x l Hs IH Hf]; constructor; [|done].
  intros Hin. rewrite Forall_forall in Hf. by apply (Hirr x), Hf.
Qed.

(** The nesting depth is the number of ancestors.  Unless the parent table has a cycle, the walk to
    the root of a task's tree ends, and the depth it finds is the length of the chain of parents from
    the task to a task without one. *)
Theorem nesting_depth_counts_ancestors (s : sched) task_id :
  (forall k, ~ tc (parent_edge (_task_parents s)) k k) ->
  exists depth root, nesting_depth s task_id = Some depth /\
    nsteps (parent_edge (_task_parents s)) depth task_id root /\
    forall p, ~ parent_edge (_task_parents s) root p.
Proof.
  intros Hac. destruct (nesting_depth s task_id) as [n|] eqn:E.
  - destruct (depth_loop_some _ _ _ _ _ E) as (m & root & -> & Hm & Hr). by exists m, root.
  - destruct (depth_loop_none _ _ _ _ E) as (path & Hl & Hsub & Hs & _).
    pose proof (submseteq_length _ _
      (NoDup_submseteq _ _ (strongly_sorted_NoDup _ _ Hac Hs) Hsub)). lia.
Qed.

(** ** Dependencies between the children of a composite task *)

Section children.
Context {W : Type} (finished : string -> sys W -> Prop).
Abbreviation child := (TaskSpec * M (sys W) TaskResult)%type.
Implicit Types (s : sys W) (c : child).

Definition needs (sub : TaskSpec) : list string := default [] (ts_depends_on sub).

(** A child that may count on its dependencies: started when they have finished, it has finished when it
    returns, and whatever had finished stays so even when it raises. *)
Definition child_ok (c : child) : Prop :=
  forall s, (forall dep, dep ∈ needs c.1 -> finished dep s) ->
    (forall n, finished n s -> finished n (snd (c.2 s))) /\
    (is_ok (fst (c.2 s)) = true -> finished (ts_name c.1) (snd (c.2 s))).

Lemma gather_children (cs : list child) s :
  Forall child_ok cs -> (forall (c : child) dep, c ∈ cs -> dep ∈ needs c.1 -> finished dep s) ->
  (forall n, finished n s -> finished n (snd (gather (snd <$> cs) s))) /\
  (is_ok (fst (gather (snd <$> cs) s)) = true ->
   forall c : child, c ∈ cs -> finished (ts_name c.1) (snd (gather (snd <$> cs) s))).
Proof.
  intros Hok. revert s. induction Hok as [|c cs Hc _ IH]; intros s Hdeps; csimpl.
  - split; [done|]. by intros _ c ?%not_elem_of_nil.
  - destruct (Hc s) as [Hkeep Hfin]; [intros dep; apply Hdeps; left|].
    destruct (c.2 s) as [r s1]; simpl in *.
    destruct (IH s1) as [Hkeep' Hfin'];
      [intros c' dep Hin Hd; apply Hkeep, (Hdeps c'); [by right|done]|].
    destruct (gather (snd <$> cs) s1) as [rs s2]; simpl in *. split; [eauto|].
    destruct r as [a|e], rs as [l|e']; try done. intros _ c' [->|Hin]%elem_of_cons; auto.
Qed.

Context (children : list child).
Context (Hchildren : Forall child_ok children).

Lemma group_children (d : dict string (M (sys W) TaskResult)) group runs :
  (forall n run, d !! n = Some run -> exists sub : TaskSpec, (sub, run) ∈ children /\ ts_name sub = n) ->
  mapM (fun n => d !! n) group = Some runs ->
  exists cs, cs ⊆ children /\ runs = snd <$> cs /\ group = (fun c : child => ts_name c.1) <$> cs.
Proof.
  intros Hd Hm%mapM_Some. induction Hm as [|n run group runs Hn _ IH].
  - exists []. split_and!; [set_solver|done..].
  - destruct IH as (cs & Hcs & -> & ->). destruct (Hd n run Hn) as (sub & Hin & <-).
    exists ((sub, run) :: cs). split_and!; [set_solver|done..].
Qed.

Lemma run_groups_children (d : dict string (M (sys W) TaskResult)) groups s :
  (forall n run, d !! n = Some run -> exists sub : TaskSpec, (sub, run) ∈ children /\ ts_name sub = n) ->
  (forall i g (c : child) dep, groups !! i = Some g -> c ∈ children -> ts_name c.1 ∈ g -> dep ∈ needs c.1 ->
     finished dep s \/ exists j g', j < i /\ groups !! j = Some g' /\ dep ∈ g') ->
  wp (run_groups d groups) (fun _ s' => (forall n, finished n s -> finished n s') /\
      forall n, n ∈ concat groups -> finished n s') (fun _ _ => True) s.
Proof.
  intros Hd. revert s. induction groups as [|group groups IH]; intros s Hdeps; simpl.
  { apply wp_ret. split; [done|]. by intros n ?%not_elem_of_nil. }
  destruct (mapM _ group) as [runs|] eqn:E; [|by apply wp_throw].
  destruct (group_children d group runs Hd E) as (cs & Hcs & -> & ->).
  destruct (gather_children cs s) as [Hkeep Hfin].
  { apply Forall_forall. intros c Hc. rewrite Forall_forall in Hchildren. auto. }
  { intros c dep Hc Hdep. destruct (Hdeps 0 _ c dep eq_refl) as [?|(j & _ & ? & _)]; [| |done|done|lia].
    - by apply Hcs.
    - apply list_elem_of_fmap. by exists c. }
  apply wp_bind. unfold wp at 1. destruct (gather (snd <$> cs) s) as [[l|e] s1]; [|done]. simpl in *.
  assert (Hg : forall n, n ∈ (fun c : child => ts_name c.1) <$> cs -> finished n s1).
  { intros n (c & -> & Hc)%list_elem_of_fmap. auto. }
  eapply wp_mono; [apply IH| |done].
  - intros i g c dep Hi Hc Hn Hdep. destruct (Hdeps (S i) g c dep Hi Hc Hn Hdep) as [?|(j & g' & Hj & Hg' & ?)].
    + left. auto.
    + destruct j as [|j]; simpl in Hg'; [left; simplify_eq; auto|].
      right. exists j, g'. split_and!; [lia|done..].
  - intros [] s2 [Hk Hc]. split; [auto|]. intros n [Hn|Hn]%elem_of_app; auto.
Qed.

(** The tables [run_children] builds. *)
Abbreviation add_deps := (fun (d : dict string (list string)) (sub : TaskSpec) =>
  match ts_depends_on sub with Some (dep :: deps) => <[ts_name sub := dep :: deps]> d | _ => d end).

Lemma subtask_deps_fold_other subs d n : n ∉ spec_names subs -> foldl add_deps d subs !! n = d !! n.
Proof.
  revert d. induction subs as [|sub subs IH]; intros d Hn; [done|]. simpl.
  unfold spec_names in Hn. rewrite fmap_cons in Hn. apply not_elem_of_cons in Hn as [Hne Hn].
  rewrite IH by done. destruct (ts_depends_on sub) as [[|dep deps]|]; [done| |done].
  by rewrite dict_lookup_insert_ne.
Qed.

Lemma subtask_deps_fold subs d (sub : TaskSpec) :
  NoDup (spec_names subs) -> sub ∈ subs -> d !! ts_name sub = None ->
  default [] (foldl add_deps d subs !! ts_name sub) = needs sub.
Proof.
  unfold spec_names. revert d. induction subs as [|x subs IH]; intros d; [by intros _ ?%not_elem_of_nil|].
  rewrite fmap_cons, NoDup_cons. intros [Hx Hnd] [->|Hin]%elem_of_cons Hd; simpl.
  - rewrite subtask_deps_fold_other by done. unfold needs.
    destruct (ts_depends_on x) as [[|dep deps]|]; [by rewrite Hd| |by rewrite Hd].
    by rewrite dict_lookup_insert_eq.
  - apply IH; [done..|]. destruct (ts_depends_on x) as [[|dep deps]|]; [done| |done].
    rewrite dict_lookup_insert_ne; [done|]. intros E. apply Hx. rewrite <- E.
    apply list_elem_of_fmap. by exists sub.
Qed.

Lemma subtask_deps_wf subs : dwf (subtask_deps subs).
Proof.
  unfold subtask_deps. generalize (dwf_empty (K := string) (V := list string)).
  generalize (∅ : dict string (list string)). induction subs as [|sub subs IH]; intros d Hd; [done|].
  simpl. apply IH. destruct (ts_depends_on sub) as [[|dep deps]|]; auto using dwf_insert.
Qed.

Lemma name_to_run_fold (cs : list child)
    (d : dict string (M (sys W) TaskResult)) n run :
  foldl (fun d (c : child) => <[ts_name c.1 := c.2]> d) d cs !! n = Some run ->
  d !! n = Some run \/ exists sub : TaskSpec, (sub, run) ∈ cs /\ ts_name sub = n.
Proof.
  revert d. induction cs as [|[sub m] cs IH]; intros d E; [by left|]. simpl in E.
  destruct (IH _ E) as [Ed|(sub' & Hin & Hn)]; [|right; exists sub'; by split; [right|]].
  rewrite dict_lookup_insert in Ed. case_decide; [|by left]. simplify_eq.
  right. exists sub. by split; [left|].
Qed.

(** The children of a composite task run after what they depend on.  Suppose each child, started
    when the siblings it names as dependencies have finished, has finished when it returns, and nothing
    undoes that.  Then running the children of a composite task leaves, when it returns, all of them
    finished: no child is ever started before its dependencies have finished. *)
Theorem children_run_after_dependencies s :
  NoDup (spec_names (fst <$> children)) ->
  wp (run_children children) (fun _ s' => forall c : child, c ∈ children -> finished (ts_name c.1) s')
    (fun _ _ => True) s.
Proof.
  intros Hnd. unfold run_children. destruct (has_dependencies _) eqn:Hdeps.
  2: { assert (Hnone : forall (c : child) dep, c ∈ children -> dep ∉ needs c.1).
       { intros c dep Hc Hdep. assert (Hd : has_dependencies (fst <$> children) = true); [|congruence].
         apply existsb_exists. exists c.1. split.
         - apply list_elem_of_In, list_elem_of_fmap. by exists c.
         - unfold needs in Hdep. destruct (ts_depends_on c.1) as [[|]|]; [|done|];
             by apply not_elem_of_nil in Hdep. }
       destruct (gather_children children s Hchildren) as [_ Hfin].
       { intros c dep Hc Hdep. by destruct (Hnone c dep Hc). }
       apply wp_bind. unfold wp at 1. destruct (gather _ s) as [[l|e] s1]; [|done]. apply wp_ret. auto. }
  set (subs := fst <$> children) in *. set (graph := build_graph subs (subtask_deps subs)).
  pose proof (built_wf subs _ (subtask_deps_wf subs)) as Hwf. fold graph in Hwf.
  destruct (topological_sort graph) as [order|e] eqn:Et; [|by apply wp_throw].
  assert (Hcl : closed graph).
  { intros node dep Hdep. apply dec_stable. intros Hno.
    destruct (topological_sort_unknown graph node dep (proj1 Hwf) Hdep Hno) as (k & Ek & _). congruence. }
  pose proof (topological_sort_spec graph Hwf Hcl) as Hsort. rewrite Et in Hsort.
  destruct Hsort as (Hperm & Htopo & _).
  assert (Hno : NoDup order) by (rewrite Hperm; apply Hwf).
  destruct (find_parallel_groups_spec graph order Hno Htopo) as (groups & Eg & Hconcat & Hgroups).
  change (order' ← Ok order; find_parallel_groups graph order') with (find_parallel_groups graph order).
  rewrite Eg. eapply wp_mono; [apply run_groups_children| |done].
  - intros n run E. apply name_to_run_fold in E as [E|E]; [by rewrite dict_lookup_empty in E|done].
  - intros i g c dep Hi Hc Hn Hdep. right. destruct (Hgroups i g _ Hi Hn) as [Hearlier _].
    apply Hearlier, built_deps; [apply subtask_deps_wf|].
    assert (Hsub : c.1 ∈ subs) by (apply list_elem_of_fmap; by exists c).
    pose proof (subtask_deps_fold subs ∅ c.1 Hnd Hsub (dict_lookup_empty _)) as E.
    rewrite <- E in Hdep. fold (subtask_deps subs) in Hdep.
    destruct (subtask_deps subs !! ts_name c.1) as [deps|]; [by exists deps|].
    by apply not_elem_of_nil in Hdep.
  - intros [] s' [_ Hfin] c Hc. apply Hfin. rewrite Hconcat, Hperm.
    apply built_keys; [apply subtask_deps_wf|]. left. apply list_elem_of_fmap. exists c.1.
    split; [done|]. apply list_elem_of_fmap. by exists c.
Qed.
End children.

Section spec.
Context {W : Type} `{TraceStoreLaws W, !TraceLog W, !TraceLogLaws W}.
Context (cfg : sched_config) (env : task_env W).
Implicit Types (s : sys W) (id k : uuid).

(** ** What code at an await may do *)

Definition good s : Prop := tables_ok s /\ agree s.
Definition known s k : Prop := is_Some (state_of s k).
Definition owned s k : Prop := exists session, _active_tasks (sc s) !! session = Some k.

(** Task [k] is as it was. *)
Definition untouched s s' k : Prop :=
  state_of s' k = state_of s k /\ children_of s' k = children_of s k /\ (owned s' k -> owned s k).

Definition framed s s' : Prop := forall k, known s k -> untouched s s' k.

(** Code that keeps the invariants and the tasks that exist, but may do anything else - create tasks of
    its own, run them, fire events - as the coroutines that run during an await do. *)
Definition polite {A} (m : M (sys W) A) : Prop :=
  forall s, good s -> good (snd (m s)) /\ framed s (snd (m s)).

Lemma untouched_refl s k : untouched s s k.
Proof. by split_and!. Qed.
Lemma untouched_trans s1 s2 s3 k : untouched s1 s2 k -> untouched s2 s3 k -> untouched s1 s3 k.
Proof. intros (E1 & E2 & E3) (F1 & F2 & F3). split_and!; [congruence..|auto]. Qed.

Lemma framed_refl s : framed s s.
Proof. intros k _. apply untouched_refl. Qed.
Lemma framed_trans s1 s2 s3 : framed s1 s2 -> framed s2 s3 -> framed s1 s3.
Proof.
  intros H1 H2 k Hk. eapply untouched_trans; [by apply H1|]. apply H2.
  unfold known in *. destruct (H1 k Hk) as (-> & _). done.
Qed.

Lemma polite_ret {A} (a : A) : polite (mret a).
Proof. intros s Hs. split; [done|apply framed_refl]. Qed.
Lemma polite_throw {A} (e : exn) : polite (mthrow e : M (sys W) A).
Proof. intros s Hs. split; [done|apply framed_refl]. Qed.
Lemma polite_mgets {A} (f : sys W -> A) : polite (mgets f).
Proof. intros s Hs. split; [done|apply framed_refl]. Qed.
Lemma polite_bind {A B} (m : M (sys W) A) (k : A -> M (sys W) B) :
  polite m -> (forall a, polite (k a)) -> polite (m ≫= k).
Proof.
  intros Hm Hk s Hs. destruct (Hm s Hs) as [Hs1 Hf1]. unfold mbind, M_bind.
  destruct (m s) as [[a|e] s1]; simpl in *; [|done].
  destruct (Hk a s1 Hs1) as [Hs2 Hf2]. split; [done|by eapply framed_trans].
Qed.
Lemma polite_try {A} (m : M (sys W) A) : polite m -> polite (mtry m).
Proof. intros Hm s Hs. unfold mtry. specialize (Hm s Hs). by destruct (m s). Qed.
Lemma polite_catch {A} (m : M (sys W) A) h : polite m -> (forall e, polite (h e)) -> polite (mcatch m h).
Proof.
  intros Hm Hh s Hs. destruct (Hm s Hs) as [Hs1 Hf1]. unfold mcatch.
  destruct (m s) as [[a|e] s1]; simpl in *; [done|].
  destruct (Hh e s1 Hs1) as [Hs2 Hf2]. split; [done|by eapply framed_trans].
Qed.
Lemma polite_gather {A} (ms : list (M (sys W) A)) : (forall m, m ∈ ms -> polite m) -> polite (gather ms).
Proof.
  induction ms as [|m ms IH]; intros Hms s Hs; [by split; [|apply framed_refl]|].
  destruct (Hms m (list_elem_of_here _ _) s Hs) as [Hs1 Hf1]. simpl.
  destruct (m s) as [r s1]. simpl in *.
  destruct (IH (fun m' Hm' => Hms m' (list_elem_of_further _ _ _ Hm')) s1 Hs1) as [Hs2 Hf2].
  destruct (gather ms s1) as [rs s2]. simpl in *. split; [done|by eapply framed_trans].
Qed.

Lemma framed_same s s' : same_tables s s' -> framed s s'.
Proof.
  intros (E1 & _ & E3 & E4 & _) k _. unfold untouched, state_of, children_of, owned.
  by rewrite E1, E3, E4.
Qed.
Lemma polite_quiet {A} (m : M (sys W) A) : quiet m -> polite m.
Proof.
  intros Hm s [Hok Ha]. specialize (Hm s). split; [split|].
  - by eapply tables_ok_same.
  - by eapply agree_same.
  - by apply framed_same.
Qed.
Lemma polite_log {A} (m : M W A) : status_quiet m -> polite (on_store m).
Proof.
  intros Hm. apply polite_quiet. intros s. destruct (Hm (store s)) as [Hinv Hst].
  unfold on_store, zoom. destruct (m (store s)) as [r w]. simpl in *. by split_and!.
Qed.

(** ** One executor at work

    [id], which [s0] does not know, is the executor's: it is in state [st], has no children, belongs to no
    session, and everything [s0] knew is untouched. *)
Record own id (st : TaskState) s0 s : Prop := {
  ow_good : good s;
  ow_new : ~ known s0 id;
  ow_state : state_of s id = Some st;
  ow_children : children_of s id = [];
  ow_free : ~ owned s id;
  ow_frame : framed s0 s
}.

Lemma own_framed id st s0 s s' : own id st s0 s -> good s' -> framed s s' -> own id st s0 s'.
Proof.
  intros [Hg Hn Hst Hch Hfr Hf] Hg' Hf'. destruct (Hf' id) as (E1 & E2 & E3); [by eexists|].
  split; [done|done|congruence|congruence|auto|by eapply framed_trans].
Qed.

Lemma own_polite {A} id st s0 s (m : M (sys W) A) Q E :
  own id st s0 s -> polite m -> (forall a s', own id st s0 s' -> Q a s') ->
  (forall e s', own id st s0 s' -> E e s') -> wp m Q E s.
Proof.
  intros Ho Hm HQ HE. destruct (Hm s (ow_good _ _ _ _ Ho)) as [Hg Hf]. unfold wp.
  destruct (m s) as [[a|e] s']; [apply HQ|apply HE]; by eapply own_framed.
Qed.

(** The transition after the tables moved [id] to [st]. *)
Lemma own_transition id old st s0 s s1 (Q : unit -> sys W -> Prop) E :
  own id old s0 s -> moved s s1 id st -> store s1 = store s -> task_legal old st = true ->
  old <> COMPLETED -> (forall s', own id st s0 s' -> Q tt s') -> wp (transition cfg id st) Q E s1.
Proof.
  intros [[Hok Ha] Hn Hst Hch Hfr Hf] Hm Est Hl Hnc HQ.
  apply (wp_transition cfg true true id old st).
  - rewrite Est. apply Hok.
  - rewrite (moved_state _ _ _ _ _ Hm). by case_decide.
  - rewrite Est. by eapply (to_known s Hok).
  - intros _ k x Hne. rewrite (moved_state _ _ _ _ _ Hm), Est. case_decide; [done|]. apply Ha.
  - intros _. rewrite Est. split; [by apply Ha|done].
  - intros w' Hinv Hk Hid Hag. rewrite Est in Hk. apply HQ.
    assert (Hm' : moved s (s1 .[store := w']) id st) by exact Hm.
    assert (Hown : forall k, owned (s1 .[store := w']) k -> owned s k).
    { intros k [session Hse]. exists session. destruct Hm' as (_ & _ & Ea & _). by rewrite <- Ea. }
    split; [split; [|by apply Hag]|done| | |by intros ?%Hown|].
    + eapply (tables_ok_moved s _ id old st Hok Hm'); try done. intros _ c. by rewrite Hch, elem_of_nil.
    + rewrite (moved_state _ _ _ _ _ Hm'). by case_decide.
    + by rewrite (moved_children _ _ _ _ _ Hm').
    + intros k Hk0. assert (k <> id) by (by intros ->). destruct (Hf k Hk0) as (E1 & E2 & E3).
      split_and!; [|by rewrite (moved_children _ _ _ _ _ Hm')|auto].
      rewrite (moved_state _ _ _ _ _ Hm'). by case_decide.
  - done.
Qed.

Lemma own_move id old st s0 s (Q : unit -> sys W -> Prop) E :
  own id old s0 s -> task_legal old st = true -> old <> COMPLETED ->
  (forall s', own id st s0 s' -> Q tt s') -> wp (move cfg id st) Q E s.
Proof.
  intros Ho Hl Hnc HQ. apply wp_bind, wp_set_state. by eapply own_transition.
Qed.

Lemma own_complete id old s0 s name o so d r (Q : unit -> sys W -> Prop) E :
  own id old s0 s -> task_legal old COMPLETED = true -> old <> COMPLETED ->
  (forall s', own id COMPLETED s0 s' -> Q tt s') ->
  wp (_complete_task id name o so d r ;; transition cfg id COMPLETED) Q E s.
Proof.
  intros Ho Hl Hnc HQ. apply wp_bind, wp_complete_task. intros s1 Hm Est. by eapply own_transition.
Qed.

(** A new task. *)
Lemma wp_obtain task parent s (Q : uuid -> sys W -> Prop) E :
  good s -> (forall id s', own id CREATED s s' -> Q id s') -> wp (obtain_task cfg task parent None) Q E s.
Proof.
  intros [Hok Ha] HQ. apply wp_bind, wp_create; [apply Hok|]. intros id w' Hinv Hnew Hstat.
  apply wp_bind. unfold _init_task_state. apply wp_mmod, wp_ret, HQ.
  match goal with |- own _ _ _ ?t => set (s' := t) end.
  destruct (tables_ok_created s s' id task None) as [Hok' Ha']; try done.
  { intros x Hne Hp. unfold children_of, s'. simpl. by rewrite dict_lookup_insert_ne. }
  assert (Hno : ~ known s id). { intros [x Hx]. destruct (to_known s Hok id x Hx). congruence. }
  split; [by split; [|apply Ha']|done| | | |].
  - unfold state_of, s'. simpl. apply dict_lookup_insert_eq.
  - unfold children_of, s'. simpl. by rewrite dict_lookup_insert_eq.
  - intros [session Hse]. simpl in Hse. destruct (to_active s Hok session id Hse) as (x & Hx & _).
    apply Hno. by eexists.
  - intros k Hk. assert (k <> id) by (by intros ->). unfold untouched, state_of, children_of, s'. simpl.
    by rewrite !dict_lookup_insert_ne.
Qed.

(** ** The executors *)

(** An executor's task is its own seen from any earlier state too. *)
Lemma own_earlier id st s0 s s' : framed s0 s -> own id st s s' -> own id st s0 s'.
Proof.
  intros Hf [Hg Hn Hst Hch Hfr Hf']. split; try done; [|by eapply framed_trans].
  intros Hk. apply Hn. unfold known in *. by destruct (Hf id Hk) as (-> & _).
Qed.

(** A registered task, or none yet. *)
Definition obtainable (tid : option uuid) s0 s : Prop :=
  match tid with
  | Some id => own id CREATED s0 s
  | None => good s /\ framed s0 s
  end.

Lemma obtainable_polite {A} tid s0 s (m : M (sys W) A) Q E :
  obtainable tid s0 s -> polite m -> (forall a s', obtainable tid s0 s' -> Q a s') ->
  (forall e s', good s' /\ framed s0 s' -> E e s') -> wp m Q E s.
Proof.
  destruct tid as [id|]; simpl; intros Ho Hm HQ HE.
  - eapply own_polite; [exact Ho|done|exact HQ|]. intros e s' Ho'. apply HE. split; apply Ho'.
  - destruct Ho as [Hg Hf]. destruct (Hm s Hg) as [Hg' Hf']. unfold wp.
    destruct (m s) as [[a|e] s']; [apply HQ|apply HE]; (split; [done|by eapply framed_trans]).
Qed.

Lemma wp_obtained task parent tid s0 s (Q : uuid -> sys W -> Prop) E :
  obtainable tid s0 s ->
  (forall id s', own id CREATED s0 s' -> (forall x, tid = Some x -> id = x) -> Q id s') ->
  wp (obtain_task cfg task parent tid) Q E s.
Proof.
  destruct tid as [id|]; simpl; intros Ho HQ.
  - apply wp_ret, HQ; [done|congruence].
  - apply wp_obtain; [apply Ho|]. intros id s' Ho'.
    apply HQ; [|done]. apply (own_earlier _ _ _ s); [apply Ho|done].
Qed.

(** What is asked of the code the executors call: to be polite, and of the agent executor to leave the
    invariants and every task but its own. *)
Record env_ok : Prop := {
  eo_checks checks ctx : polite (te_run_checks env checks ctx);
  eo_decision id name : polite (te_send_decision env id name);
  eo_import m f func ctx : te_import env m f = Imported func -> polite (func ctx);
  eo_wait name seconds : polite (te_wait_for env name seconds);
  eo_paused : polite (te_paused env);
  eo_blocked : polite (te_blocked env);
  eo_agent task id parent variables s0 s : own id CREATED s0 s ->
    good (snd (te_agent env task id parent variables s)) /\
    framed s0 (snd (te_agent env task id parent variables s))
}.
Context (Henv : env_ok).

(** Wherever it stopped, the executor only ever moved its own task. *)
Definition holds id s0 s : Prop := exists st, own id st s0 s.

Lemma own_holds id st s0 s : own id st s0 s -> holds id s0 s.
Proof. by exists st. Qed.
Hint Resolve own_holds : core.

Lemma polite_prechecks task id : polite (_run_prechecks cfg (te_run_checks env) task id).
Proof.
  unfold _run_prechecks. destruct (ts_prechecks task); [apply polite_ret|].
  apply polite_bind; [apply polite_mgets|]. intros ctx. apply (eo_checks Henv).
Qed.
Lemma polite_postchecks task id : polite (_run_postchecks cfg (te_run_checks env) task id).
Proof.
  unfold _run_postchecks. destruct (ts_postchecks task); [apply polite_ret|].
  apply polite_bind; [apply polite_mgets|]. intros m.
  apply polite_bind; [apply polite_mgets|]. intros ctx. apply (eo_checks Henv).
Qed.

(** Starting a task without checks. *)
Lemma own_activate {A} id s0 s (k : M (sys W) A) Q E :
  own id CREATED s0 s -> (forall s', own id ACTIVE s0 s' -> wp k Q E s') ->
  wp (move cfg id PRECHECKING ;; move cfg id ACTIVE ;; k) Q E s.
Proof.
  intros Ho Hk. apply wp_bind. eapply own_move; [exact Ho|done..|]. intros s1 Ho1.
  apply wp_bind. eapply own_move; [exact Ho1|done..|]. exact Hk.
Qed.

Lemma decision_spec task id s0 s :
  own id CREATED s0 s ->
  wp (_execute_decision_point_task cfg env task id)
    (fun r s' => own id COMPLETED s0 s' /\ all_passed (tr_check_results r) = true)
    (fun _ => holds id s0) s.
Proof.
  intros Ho. apply own_activate with s0; [done|]. intros s1 Ho1. apply wp_bind.
  eapply own_polite; [exact Ho1|apply polite_log, tl_write_event_law| |eauto]. intros _ s2 Ho2.
  apply wp_bind. eapply own_polite; [exact Ho2|apply (eo_decision Henv)| |eauto]. intros _ s3 Ho3.
  apply wp_assoc. eapply own_complete; [exact Ho3|done..|]. intros s4 Ho4. by apply wp_ret.
Qed.

Lemma function_spec task id parent variables s0 s :
  own id CREATED s0 s ->
  wp (_execute_function_task cfg env task id parent variables)
    (fun _ s' => own id COMPLETED s0 s') (fun _ => holds id s0) s.
Proof.
  intros Ho. unfold _execute_function_task. destruct (ts_callable task) as [callable|]; [|by apply wp_throw; eauto].
  apply wp_bind. eapply own_polite; [exact Ho|apply polite_log, tl_create_task_attempt_law| |eauto].
  intros attempt s1 Ho1. apply own_activate with s0; [done|]. intros s2 Ho2.
  destruct (split_colon callable) as [|m [|f [|]]]; try (apply wp_throw; eauto).
  destruct (te_import env m f) as [| |func] eqn:Ei; try (apply wp_throw; eauto).
  apply wp_bind, wp_mgets. destruct (nesting_depth (sc s2) id) as [depth|].
  - apply wp_bind, wp_mgets, wp_bind. eapply own_polite; [exact Ho2|by eapply (eo_import Henv)| |eauto].
    intros result s3 Ho3. apply wp_bind.
    eapply own_polite; [exact Ho3|apply polite_log, tl_complete_task_attempt_law| |eauto].
    intros _ s4 Ho4. apply wp_assoc. eapply own_complete; [exact Ho4|done..|]. intros s5 Ho5. by apply wp_ret.
  - apply wp_bind. eapply own_polite; [exact Ho2|apply (eo_blocked Henv)| |eauto]. intros _ s3 Ho3.
    apply wp_throw. eauto.
Qed.

Lemma wait_for_spec task id s0 s :
  own id CREATED s0 s ->
  wp (_execute_wait_for_task cfg env task id)
    (fun r s' => own id (if all_passed (tr_check_results r) then COMPLETED else CANCELLED) s0 s')
    (fun _ => holds id s0) s.
Proof.
  intros Ho. unfold _execute_wait_for_task. destruct (ts_wait_for task) as [event|]; [|by apply wp_throw; eauto].
  apply own_activate with s0; [done|]. intros s1 Ho1. apply wp_bind.
  eapply own_polite; [exact Ho1|apply (eo_wait Henv)| |eauto]. intros [payload|] s2 Ho2;
    (apply wp_bind; eapply own_move; [exact Ho2|done..|]; intros s3 Ho3; by apply wp_ret).
Qed.

Lemma polite_run_groups runs groups :
  (forall name run, runs !! name = Some run -> polite run) -> polite (run_groups (W := W) runs groups).
Proof.
  intros Hr. induction groups as [|group groups IH]; [apply polite_ret|]. cbn [run_groups].
  destruct (mapM _ group) as [ms|] eqn:Em; [|apply polite_throw].
  apply polite_bind; [|intros _; apply IH]. apply polite_gather. intros m Hm.
  apply mapM_Some, Forall2_flip in Em. eapply list_elem_of_lookup in Hm as [i Hi].
  destruct (Forall2_lookup_l _ _ _ _ _ Em Hi) as (name & _ & Hn). by eapply Hr.
Qed.

(** The runs of the children, by name. *)
Lemma runs_by_name (children : list (TaskSpec * M (sys W) TaskResult))
    (d : dict string (M (sys W) TaskResult)) name run :
  foldl (fun (d : dict string (M (sys W) TaskResult)) (c : TaskSpec * M (sys W) TaskResult) => <[ts_name c.1 := c.2]> d) d children !! name = Some run ->
  (exists t, (t, run) ∈ children) \/ d !! name = Some run.
Proof.
  revert d. induction children as [|[t r] children IH]; intros d; simpl; [by right|].
  intros [[t' Ht']|Hd]%IH; [left; exists t'; by right|].
  rewrite dict_lookup_insert in Hd. case_decide; [|by right].
  injection Hd as ->. left. exists t. left.
Qed.

Lemma polite_run_children (children : list (TaskSpec * M (sys W) TaskResult)) :
  (forall t run, (t, run) ∈ children -> polite run) -> polite (run_children children).
Proof.
  intros Hc. unfold run_children. case_match.
  - destruct (_ ≫= _) as [groups|e]; [|apply polite_throw]. apply polite_run_groups.
    intros name run [[t Ht]|Hn]%runs_by_name; [by eapply Hc|done].
  - apply polite_bind; [|intros _; apply polite_ret]. apply polite_gather.
    intros m ([t run] & -> & Hin)%list_elem_of_fmap. by eapply Hc.
Qed.

Lemma composite_spec task id children s0 s :
  own id CREATED s0 s ->
  (forall l, children = Some l -> forall t run, (t, run) ∈ l -> polite run) ->
  wp (_execute_composite_task cfg env task id children)
    (fun r s' => exists st, own id st s0 s' /\
       if all_passed (tr_check_results r) then st = COMPLETED
       else st = PRECHECK_FAILED \/ st = POSTCHECK_FAILED)
    (fun _ => holds id s0) s.
Proof.
  intros Ho Hc. unfold _execute_composite_task. destruct children as [children|]; [|by apply wp_throw; eauto].
  specialize (Hc _ eq_refl).
  apply wp_bind. eapply own_move; [exact Ho|done..|]. intros s1 Ho1.
  apply wp_bind. eapply own_polite; [exact Ho1|apply polite_prechecks| |eauto]. intros pre s2 Ho2.
  destruct (all_passed pre) eqn:Epre; cbn [negb].
  2: { apply wp_bind. eapply own_move; [exact Ho2|done..|]. intros s3 Ho3. apply wp_ret. simpl.
       rewrite Epre. eauto. }
  apply wp_bind. eapply own_move; [exact Ho2|done..|]. intros s3 Ho3.
  apply wp_bind. eapply own_polite; [exact Ho3|by apply polite_run_children| |eauto]. intros _ s4 Ho4.
  apply wp_bind. eapply own_move; [exact Ho4|done..|]. intros s5 Ho5.
  apply wp_bind. eapply own_polite; [exact Ho5|apply polite_postchecks| |eauto]. intros post s6 Ho6.
  destruct (all_passed post) eqn:Epost; cbn [negb];
    (apply wp_bind; eapply own_move; [exact Ho6|done..|]; intros s7 Ho7; apply wp_ret; simpl;
     rewrite Epost; eauto).
Qed.

(** *** for_each *)

Lemma polite_iteration id ab run abort idx item :
  (forall i v, polite (run i v)) -> polite (run_iteration env id ab run abort idx item).
Proof.
  intros Hrun. unfold run_iteration. destruct abort; [apply polite_ret|].
  apply polite_bind; [apply polite_log, tl_create_iteration_law|]. intros it. cbv zeta.
  assert (Hfail : forall e (stored : option TaskResult),
    polite (on_store (tl_fail_iteration it (te_exn_str env e)) ;; mret (ab, stored))).
  { intros e stored. apply polite_bind; [apply polite_log, tl_fail_iteration_law|intros _; apply polite_ret]. }
  apply polite_bind; [apply polite_try, Hrun|]. intros [result|e]; [|apply Hfail].
  apply polite_catch; [|intros e; apply Hfail].
  apply polite_bind; [apply polite_log, tl_complete_iteration_law|intros _; apply polite_ret].
Qed.

Lemma polite_iterations run_one abort idx items :
  (forall a i v, polite (run_one a i v)) -> polite (iterations (W := W) run_one abort idx items).
Proof.
  intros Hrun. revert abort idx. induction items as [|item items IH]; intros abort idx; [apply polite_ret|].
  cbn [iterations]. apply polite_bind; [apply polite_try, Hrun|]. intros [[a r]|e].
  - apply polite_bind; [apply IH|intros rest; apply polite_ret].
  - apply polite_bind; [apply polite_try, IH|intros _; apply polite_throw].
Qed.

(** Without abort-on-failure the flag is never set. *)
Lemma iteration_flag id run idx item s :
  wp (run_iteration env id false run false idx item) (fun r _ => fst r = false) (fun _ _ => True) s.
Proof.
  unfold run_iteration. apply wp_bind. unfold wp at 1. destruct (on_store _ s) as [[it|e] s1]; [|done].
  apply wp_bind. unfold wp at 1, mtry. destruct (run idx item s1) as [[result|e] s2].
  - apply wp_catch, wp_bind. unfold wp at 1. destruct (on_store _ s2) as [[u|e] s3].
    + apply wp_ret. simpl. by rewrite andb_false_r.
    + apply wp_bind. unfold wp at 1. destruct (on_store _ s3) as [[u|e'] s4]; [by apply wp_ret|done].
  - apply wp_bind. unfold wp at 1. destruct (on_store _ s2) as [[u|e'] s4]; [by apply wp_ret|done].
Qed.

Lemma iterations_flag id run idx items s :
  wp (iterations (run_iteration env id false run) false idx items) (fun r _ => fst r = false)
    (fun _ _ => True) s.
Proof.
  revert idx s. induction items as [|item items IH]; intros idx s; [done|]. cbn [iterations].
  apply wp_bind. unfold wp at 1, mtry. pose proof (iteration_flag id run idx item s) as Hf.
  unfold wp in Hf. destruct (run_iteration _ _ _ _ _ _ _ s) as [[[a r]|e] s1].
  - simpl in Hf. subst a. apply wp_bind. eapply wp_mono; [apply IH| |done]. intros rest s2 Hr. exact Hr.
  - apply wp_bind. unfold wp at 1, mtry. by destruct (iterations _ _ _ _ s1) as [? ?].
Qed.

(** The store refuses to fail an active task. *)
Lemma own_active_fail id s0 s (Q : unit -> sys W -> Prop) E :
  own id ACTIVE s0 s ->
  (forall s', state_of s' id = Some POSTCHECK_FAILED -> ts_status (store s') id = Some "active"%string ->
     E (InvalidTransitionError "active" "postcheck_failed") s') ->
  wp (move cfg id POSTCHECK_FAILED) Q E s.
Proof.
  intros Ho HE. destruct (ow_good _ _ _ _ Ho) as [Hok Ha].
  pose proof (Ha id ACTIVE (ow_state _ _ _ _ Ho)) as Hst.
  apply wp_bind, wp_set_state. unfold wp, transition, on_store, zoom.
  destruct (ts_transition_law id "postcheck_failed" None (_run_principal_id cfg) (store s) "active"
    (to_store s Hok) Hst) as (w' & Er & _ & Hk).
  simpl. rewrite Er. apply HE.
  - unfold state_of. simpl. apply dict_lookup_insert_eq.
  - simpl. by rewrite Hk.
Qed.

Lemma for_each_spec task id variables run s0 s :
  own id CREATED s0 s -> (forall i v, polite (run i v)) ->
  wp (_execute_for_each cfg env task id variables run)
    (fun r s' => own id COMPLETED s0 s' /\ all_passed (tr_check_results r) = true)
    (fun e s' => holds id s0 s' \/
       ts_for_each_abort_on_failure task = Some true /\
       e = InvalidTransitionError "active" "postcheck_failed" /\
       state_of s' id = Some POSTCHECK_FAILED /\ ts_status (store s') id = Some "active"%string) s.
Proof.
  intros Ho Hrun. unfold _execute_for_each.
  destruct (ts_for_each task) as [var|]; [|by apply wp_throw; eauto].
  destruct (ts_max_concurrency task) as [mc|]; [|by apply wp_throw; eauto].
  destruct (default (VList []) _) as [| | | | |items|]; try (apply wp_throw; eauto).
  apply own_activate with s0; [done|]. intros s1 Ho1.
  case_decide; [apply wp_throw; eauto|]. apply wp_bind.
  assert (Hb : polite (if decide (mc = 0%Z /\ length items <> 0) then te_blocked env else mret tt)).
  { case_decide; [apply (eo_blocked Henv)|apply polite_ret]. }
  eapply own_polite; [exact Ho1|exact Hb| |eauto]. intros _ s2 Ho2.
  set (ab := default false (ts_for_each_abort_on_failure task)). apply wp_bind.
  assert (Hflag : ab = false -> wp (iterations (run_iteration env id ab run) false 0 items)
            (fun r _ => fst r = false) (fun _ _ => True) s2).
  { intros ->. apply iterations_flag. }
  pose proof (polite_iterations (run_iteration env id ab run) false 0 items
    (fun a i v => polite_iteration id ab run a i v Hrun) s2 (ow_good _ _ _ _ Ho2)) as [Hg Hf].
  unfold wp in Hflag. unfold wp at 1.
  destruct (iterations _ false 0 items s2) as [[[abort results]|e] s3]; simpl in Hg, Hf.
  2: { left. eapply own_holds, own_framed; done. }
  assert (Ho3 : own id ACTIVE s0 s3) by (by eapply own_framed).
  destruct abort.
  - apply wp_bind. eapply own_active_fail; [exact Ho3|]. intros s' Hst Hstat. right.
    split_and!; try done. destruct (ts_for_each_abort_on_failure task) as [[]|] eqn:Eab; [done|..];
      by specialize (Hflag eq_refl).
  - apply wp_bind. eapply own_complete; [exact Ho3|done..|]. intros s4 Ho4. by apply wp_ret.
Qed.

(** *** execute_task *)

(** No for_each of the tree aborts on a failure. *)
Fixpoint never_aborts (t : TaskSpec) : bool :=
  let 'mkTaskSpec base _ _ subs := t in
  match ts_for_each base with
  | Some _ => negb (default false (ts_for_each_abort_on_failure base))
  | None => true
  end && match subs with Some l => forallb never_aborts l | None => true end.

(** The task is left to the agent executor. *)
Definition by_agent (task : TaskSpec) : bool :=
  match ts_callable task, ts_subtasks task, ts_wait_for task with
  | None, None, None => negb (default false (ts_decision_point task))
  | _, _, _ => false
  end.

(** What a result says about the state its task is left in. *)
Definition result_state (task : TaskSpec) (r : TaskResult) (st : TaskState) : Prop :=
  match ts_for_each task, ts_callable task with
  | None, None =>
      if all_passed (tr_check_results r) then st = COMPLETED
      else st ∈ [PRECHECK_FAILED; POSTCHECK_FAILED; CANCELLED]
  | _, _ => st = COMPLETED
  end.

Lemma mode_spec (task : TaskSpec) id parent variables children s0 s :
  own id CREATED s0 s -> (forall l, children = Some l -> forall t run, (t, run) ∈ l -> polite run) ->
  ts_for_each task = None ->
  wp (execute_mode cfg env task id parent variables children)
    (fun r s' => good s' /\ framed s0 s' /\
       (by_agent task = false -> exists st, own id st s0 s' /\ result_state task r st))
    (fun _ s' => good s' /\ framed s0 s') s.
Proof.
  intros Ho Hc Hfe. unfold execute_mode, by_agent, result_state. rewrite Hfe.
  assert (Hh : forall (e : exn) s', holds id s0 s' -> good s' /\ framed s0 s') by (intros e s' [st []]; done).
  destruct (ts_callable task).
  { eapply wp_mono; [by apply function_spec| |exact Hh]. intros r s' Ho'.
    split_and!; [apply Ho'..|]. intros _. by exists COMPLETED. }
  destruct (ts_subtasks task).
  { eapply wp_mono; [by apply composite_spec| |exact Hh]. intros r s' (st & Ho' & Hst).
    split_and!; [apply Ho'..|]. intros _. exists st. split; [done|]. case_match; [done|].
    destruct Hst as [-> | ->]; [left|right; left]. }
  destruct (ts_wait_for task).
  { eapply wp_mono; [by apply wait_for_spec| |exact Hh]. intros r s' Ho'. split_and!; [apply Ho'..|].
    intros _. eexists. split; [exact Ho'|]. case_match; [done|]. do 2 right. left. }
  destruct (default false (ts_decision_point task)).
  { eapply wp_mono; [by apply decision_spec| |exact Hh]. intros r s' [Ho' ->].
    split_and!; [apply Ho'..|]. intros _. by exists COMPLETED. }
  destruct (eo_agent Henv task id parent variables s0 s Ho) as [Hg Hf]. unfold wp.
  destruct (te_agent env task id parent variables s) as [[r|e] s']; split_and!; done.
Qed.

Lemma polite_children subs id l :
  Forall (fun t => forall parent variables, polite (execute_task cfg env t parent None variables)) subs ->
  map (fun sub => (sub, execute_task cfg env sub (Some id) None None)) subs = l ->
  forall t run, (t, run) ∈ l -> polite run.
Proof.
  intros Hs <- t run Hin. apply list_elem_of_In, in_map_iff in Hin as (t' & [= -> <-] & Hin).
  rewrite Forall_forall in Hs. by apply Hs, list_elem_of_In.
Qed.

(** The task is left to the agent executor as it is. *)
Definition root_agent (task : TaskSpec) : bool :=
  match ts_for_each task with Some _ => false | None => by_agent task end.

Definition execute_post (task : TaskSpec) (tid : option uuid) s0 (r : TaskResult) s' : Prop :=
  good s' /\ framed s0 s' /\
  (root_agent task = false -> exists id st, (forall x, tid = Some x -> id = x) /\ own id st s0 s' /\
     result_state task r st).

Lemma polite_of_wp {A} (m : M (sys W) A) (Q : sys W -> A -> sys W -> Prop) :
  (forall s, good s -> wp m (fun r s' => good s' /\ framed s s' /\ Q s r s')
                         (fun _ s' => good s' /\ framed s s') s) -> polite m.
Proof.
  intros Hm s Hs. specialize (Hm s Hs). unfold wp in Hm. destruct (m s) as [[a|e] s']; [|done].
  destruct Hm as (? & ? & _). done.
Qed.

Lemma polite_wait_unpaused : polite (wait_unpaused env).
Proof.
  unfold wait_unpaused. apply polite_bind; [apply polite_mgets|]. intros running.
  destruct running; [apply polite_ret|apply (eo_paused Henv)].
Qed.

(** The recursion of [execute_task], with the runs of the children given. *)
Lemma execute_node base pre post subs parent tid variables s0 s :
  let task := mkTaskSpec base pre post subs in
  match ts_for_each base with
  | Some _ => ts_for_each_abort_on_failure base <> Some true
  | None => True
  end ->
  (forall l, subs = Some l ->
     Forall (fun t => forall parent variables, polite (execute_task cfg env t parent None variables)) l) ->
  obtainable tid s0 s ->
  wp (execute_task cfg env task parent tid variables) (execute_post task tid s0)
    (fun _ s' => good s' /\ framed s0 s') s.
Proof.
  intros task Hab Hsubs Hs.
  set (children := fun id => match subs with
    | Some subs => Some (map (fun sub => (sub, execute_task cfg env sub (Some id) None None)) subs)
    | None => None
    end).
  assert (Hch : forall id l, children id = Some l -> forall t run, (t, run) ∈ l -> polite run).
  { intros id l. unfold children. destruct subs as [subs'|]; [|done]. intros [= E].
    apply (polite_children subs' id l); [by apply Hsubs|exact E]. }
  unfold execute_post, root_agent. cbn [execute_task]. fold task.
  change (ts_for_each task) with (ts_for_each base).
  apply wp_bind. eapply obtainable_polite; [exact Hs|apply polite_wait_unpaused| |done]. intros _ s1 Hs1.
  apply wp_bind. eapply wp_obtained; [exact Hs1|]. intros id s2 Ho2 Hid.
  destruct (ts_for_each base) as [var|] eqn:Hfe.
  - eapply wp_mono; [apply for_each_spec; [exact Ho2|]| |].
    + intros idx item. apply (polite_of_wp _ (fun _ _ _ => True)). intros s3 Hs3. apply wp_bind.
      eapply (obtainable_polite None s3); [by split; [|apply framed_refl]|apply polite_wait_unpaused| |done].
      intros _ s4 Hs4. apply wp_bind. eapply wp_obtained; [exact Hs4|]. intros iid s5 Ho5 _.
      eapply wp_mono; [apply (fun task H => mode_spec task iid (Some id) _ (children iid) s3 s5 Ho5 (Hch iid) H); reflexivity| |done].
      intros r s6 (? & ? & _). done.
    + intros r s' [Ho' Hr]. split_and!; [apply Ho'..|]. intros _. exists id, COMPLETED. split_and!; [done..|].
      unfold result_state. change (ts_for_each task) with (ts_for_each base). by rewrite Hfe.
    + intros e s' [[st Ho']|(Hflag & _)]; [by split; apply Ho'|done].
  - eapply wp_mono; [apply (mode_spec task id parent variables (children id) s0 s2 Ho2 (Hch id) Hfe)| |done].
    intros r s' (Hg & Hf & Hres). split_and!; [done..|]. intros Hna.
    destruct (Hres Hna) as (st & ? & ?). eauto.
Qed.

(** Executing a tree that never aborts, on a registered task or a new one. *)
Lemma execute_tree t parent tid variables s0 s :
  never_aborts t = true -> obtainable tid s0 s ->
  wp (execute_task cfg env t parent tid variables) (execute_post t tid s0)
    (fun _ s' => good s' /\ framed s0 s') s.
Proof.
  revert parent tid variables s0 s. induction t as [base pre post subs IH] using task_tree_ind.
  intros parent tid variables s0 s Hna Hs. cbn [never_aborts] in Hna. apply andb_true_iff in Hna as [Hab Hsub].
  apply execute_node; [|intros l ->|done].
  - destruct (ts_for_each base); [|done]. intros E. by rewrite E in Hab.
  - specialize (IH l eq_refl). rewrite forallb_forall in Hsub. rewrite Forall_forall in IH.
    apply Forall_forall. intros t Ht parent' variables'.
    apply (polite_of_wp _ (fun s => execute_post t None s)). intros s1 Hs1.
    eapply wp_mono; [apply (IH t Ht parent' None variables' s1 s1); [by apply Hsub, list_elem_of_In|]| |done].
    + split; [done|apply framed_refl].
    + intros r s' Hp. split_and!; [apply Hp..|done].
Qed.

Lemma execute_task_polite t :
  never_aborts t = true -> forall parent variables, polite (execute_task cfg env t parent None variables).
Proof.
  intros Hna parent variables. apply (polite_of_wp _ (fun s => execute_post t None s)). intros s Hs.
  eapply wp_mono; [apply (execute_tree t parent None variables s s Hna)| |done].
  - split; [done|apply framed_refl].
  - intros r s' Hp. split_and!; [apply Hp..|done].
Qed.

(** C2. Executing a tree of tasks none of whose for_each tasks is set to abort keeps scheduler and store in
    agreement, if what is awaited keeps its contract [env_ok]: functions, checks, decisions, waits and agents
    keep the tables well formed and in agreement and leave the tasks that exist as they are - an agent all but
    its own.  However the execution ends, returning or raising, at any depth, the tables are well formed and
    agree with the store, and every task that existed before is in the state it was in.  (With a for_each that
    aborts this is false: [for_each_abort_diverges].) *)
Theorem execute_task_keeps_agreement t parent variables s :
  never_aborts t = true -> tables_ok s -> agree s ->
  let s' := snd (execute_task cfg env t parent None variables s) in
  tables_ok s' /\ agree s' /\
  forall id st, state_of s id = Some st -> state_of s' id = Some st.
Proof.
  intros Hna Hok Ha s'. destruct (execute_task_polite t Hna parent variables s (conj Hok Ha)) as [[] Hf].
  split_and!; [done..|]. intros id st Hst. destruct (Hf id) as (E & _); [by eexists|].
  unfold s'. by rewrite E.
Qed.

(** C37. The result of a task says how it ended.  When executing a tree that has no for_each task set to abort and
    whose root is not an agent's task returns a result, and what is awaited keeps its contract [env_ok], the root
    is a new task that scheduler and store hold in one and the same state: completed, for a function task or a
    for_each whatever the checks in the result say, and for the other kinds exactly if those passed - otherwise
    it failed at its checks or was cancelled. *)
Theorem execute_task_result t parent variables s r s' :
  never_aborts t = true -> root_agent t = false -> tables_ok s -> agree s ->
  execute_task cfg env t parent None variables s = (Ok r, s') ->
  exists id st, state_of s id = None /\ state_of s' id = Some st /\
    ts_status (store s') id = Some (TaskState_value st) /\ result_state t r st.
Proof.
  intros Hna Hroot Hok Ha Er.
  assert (Hs : obtainable None s s) by (by split; [|apply framed_refl]).
  pose proof (execute_tree t parent None variables s s Hna Hs) as Hw.
  unfold wp in Hw. rewrite Er in Hw. destruct Hw as (_ & _ & Hres).
  destruct (Hres Hroot) as (id & st & _ & Ho & Hst). exists id, st. split_and!; [|apply Ho| |done].
  - destruct (state_of s id) eqn:E; [|done]. destruct (ow_new _ _ _ _ Ho). by eexists.
  - apply (proj2 (ow_good _ _ _ _ Ho)), Ho.
Qed.

(** An aborted for_each never reports its failure.  The executor of a for_each started on a fresh
    task returns only results that say it passed, with the task completed; when an iteration made it
    abort, the store refuses the move from active to postcheck_failed, the call raises, and scheduler and
    store are left in different states. *)
Theorem for_each_abort_diverges (task : TaskSpec) id variables run s :
  tables_ok s -> agree s -> state_of s id = Some CREATED -> children_of s id = [] -> ~ owned s id ->
  (forall i v, polite (run i v)) ->
  wp (_execute_for_each cfg env task id variables run)
    (fun r s' => all_passed (tr_check_results r) = true /\ state_of s' id = Some COMPLETED)
    (fun e s' => agree s' \/
       ts_for_each_abort_on_failure task = Some true /\
       e = InvalidTransitionError "active" "postcheck_failed" /\
       state_of s' id = Some POSTCHECK_FAILED /\ ts_status (store s') id = Some "active"%string) s.
Proof.
  intros Hok Ha Hst Hch Hfree Hrun.
  set (s0 := Sys sched_init (store s)).
  assert (Hnew : forall k, ~ known s0 k) by (intros k [x Hx]; done).
  eapply wp_mono; [apply (for_each_spec task id variables run s0); [|done]| |].
  - split; [done|apply Hnew|done..|]. intros k Hk. by destruct (Hnew k).
  - intros r s' [Ho Hr]. split; [done|apply Ho].
  - intros e s' [[st Ho]|Hd]; [left; apply Ho|by right].
Qed.
End spec.

(** ** Witnesses

    Over the in-memory store: functions return at once, waits end with an empty payload, agents return
    without touching their task. *)

Definition tree_env : task_env mem_store := {|
  te_run_checks checks ctx := mret [check_result true "ok"];
  te_send_decision id name := mret tt;
  te_import m f := if bool_decide (f = "missing"%string) then NoAttribute
                   else Imported (fun ctx => mret (task_result (Some "out"%string) None []));
  te_wait_for name seconds := mret (Some []);
  te_agent task id parent variables := mret (task_result None None []);
  te_paused := mret tt;
  te_blocked := mret tt;
  te_render_notepad s := ""%string;
  te_str v := ""%string;
  te_exn_str e := ""%string;
  te_str_int n := ""%string;
  te_json_dumps v := ""%string
|}.

Lemma tree_env_ok : env_ok (W := mem_store) tree_env.
Proof.
  split; simpl; intros; try apply polite_ret.
  - case_bool_decide; [done|]. match goal with Hf : Imported _ = Imported _ |- _ => injection Hf as <- end.
    apply polite_ret.
  - split; eapply ow_good || eapply ow_frame; done.
Qed.

Definition tree_function : TaskSpec :=
  mkTaskSpec ((TaskBase_default "compile") .[ts_callable := Some "build:compile"%string]) [] [] None.
Definition tree_wait : TaskSpec :=
  mkTaskSpec ((TaskBase_default "approve") .[ts_wait_for := Some "approved"%string]
                .[ts_depends_on := Some ["compile"%string]]) [] [] None.
Definition tree_root : TaskSpec :=
  mkTaskSpec (TaskBase_default "release") [] [] (Some [tree_wait; tree_function]).

Abbreviation tree_run := (execute_task demo_cfg tree_env tree_root None None None demo_start).

Lemma tree_start_ok : tables_ok demo_start /\ agree demo_start.
Proof. destruct (safe_init true mem_store_init mem_store_init_inv) as [? Ha]. by split; [|apply Ha]. Qed.

Lemma execute_task_keeps_agreement_witness :
  agree (snd tree_run) /\
  (snd <$> ditems (_task_states (sc (snd tree_run)))) = [COMPLETED; COMPLETED; COMPLETED].
Proof.
  split; [|vm_compute; reflexivity].
  apply (execute_task_keeps_agreement demo_cfg tree_env tree_env_ok tree_root None None demo_start);
    [reflexivity|apply tree_start_ok..].
Defined.

Lemma execute_task_result_witness :
  exists r id st, fst tree_run = Ok r /\ ts_status (store (snd tree_run)) id = Some (TaskState_value st) /\
    result_state tree_root r st.
Proof.
  assert (Hok : is_Some (match fst tree_run with Ok r => Some r | Raise _ => None end))
    by (vm_compute; eexists; reflexivity).
  pose proof (execute_task_result demo_cfg tree_env tree_env_ok tree_root None None demo_start) as Hr.
  destruct tree_run as [[r|e] s']; [|by destruct Hok].
  destruct (Hr r s' eq_refl eq_refl (proj1 tree_start_ok) (proj2 tree_start_ok) eq_refl)
    as (id & st & _ & _ & Hst & Hres).
  exists r, id, st. split; [exact eq_refl|]. split; [exact Hst|exact Hres].
Defined.

(** A for_each over two items that aborts on a failure, on a task just registered; its first item fails. *)
Definition loop_task : TaskSpec :=
  mkTaskSpec ((TaskBase_default "lint") .[ts_for_each := Some "files"%string]
                .[ts_max_concurrency := Some 2%Z] .[ts_for_each_abort_on_failure := Some true]) [] [] None.
Definition loop_run (idx : nat) (item : value) : M (sys mem_store) TaskResult :=
  mret (task_result None None [check_result false "bad"]).
Definition loop_start : sys mem_store := snd (register_task demo_cfg loop_task None demo_start).
Definition loop_variables : option (dict string value) :=
  Some (Dict [("files", VList [VStr "a"; VStr "b"])])%string.

Lemma loop_start_ok : tables_ok loop_start /\ agree loop_start.
Proof.
  pose proof (register_safe (W := mem_store) demo_cfg true loop_task None demo_start
    (safe_init true mem_store_init mem_store_init_inv)) as Hw.
  unfold wp in Hw. unfold loop_start. destruct (register_task demo_cfg loop_task None demo_start) as [[|] s];
    destruct Hw as [? Ha]; (split; [done|by apply Ha]).
Qed.

Abbreviation loop_end :=
  (_execute_for_each demo_cfg tree_env loop_task 1 loop_variables loop_run loop_start).

Lemma loop_start_fresh : state_of loop_start 1 = Some CREATED /\ children_of loop_start 1 = [].
Proof. by vm_compute. Qed.

Lemma loop_start_free : ~ owned loop_start 1.
Proof.
  assert (E : _active_tasks (sc loop_start) = Dict []) by (vm_compute; reflexivity).
  intros [session Hs]. by rewrite E in Hs.
Qed.

Lemma loop_end_state :
  is_ok (fst loop_end) = false /\ state_of (snd loop_end) 1 = Some POSTCHECK_FAILED /\
  ts_status (store (snd loop_end)) 1 = Some "active"%string.
Proof. by vm_compute. Qed.

Lemma for_each_abort_diverges_witness :
  state_of (snd loop_end) 1 = Some POSTCHECK_FAILED /\
  ts_status (store (snd loop_end)) 1 = Some "active"%string.
Proof.
  destruct (wp_cases _ _ _ _ (for_each_abort_diverges demo_cfg tree_env tree_env_ok loop_task 1
    loop_variables loop_run loop_start (proj1 loop_start_ok) (proj2 loop_start_ok)
    (proj1 loop_start_fresh) (proj2 loop_start_fresh) loop_start_free (fun i v => polite_ret _)))
    as [(r & s' & E & _)|(e & s' & E & [_|(_ & _ & H1 & H2)])].
  - pose proof (proj1 loop_end_state) as H. by rewrite E in H.
  - apply loop_end_state.
  - rewrite E. split; [exact H1|exact H2].
Defined.

(** Three tasks, each the parent of the next. *)
Definition chain : sched :=
  sched_init .[_task_parents := Dict [(1, None); (2, Some 1); (3, Some 2)]%Z].

Lemma chain_up k p : tc (parent_edge (_task_parents chain)) k p -> (p < k)%Z.
Proof.
  assert (Hstep : forall k p, parent_edge (_task_parents chain) k p -> (p < k)%Z).
  { intros k' p' E. apply dict_lookup_Some_in in E; simpl in E.
    rewrite !elem_of_cons, elem_of_nil in E. destruct E as [E|[E|[E|[]]]]; simplify_eq; lia. }
  induction 1 as [k p E|k q p E _ IH]; apply Hstep in E; lia.
Qed.

Lemma nesting_depth_counts_ancestors_witness :
  nesting_depth chain 3 = Some 2 /\ exists root, nsteps (parent_edge (_task_parents chain)) 2 3%Z root.
Proof.
  destruct (nesting_depth_counts_ancestors chain 3) as (depth & root & E & Hn & _).
  - intros k Hk. apply chain_up in Hk. lia.
  - assert (E' : nesting_depth chain 3 = Some 2) by reflexivity.
    rewrite E in E'. injection E' as ->. split; [exact E|by exists root].
Defined.

(** Two children over a log of the tasks that ran; a child whose dependencies have not run raises. *)
Definition log_run (sub : TaskSpec) : M (sys (list string)) TaskResult := fun s =>
  if decide (needs sub ⊆ store s) then
    (Ok (task_result None None []), Sys (sc s) (ts_name sub :: store s))
  else (Raise (OtherError "too early"), s).

Definition log_children : list (TaskSpec * M (sys (list string)) TaskResult) :=
  [(tree_wait, log_run tree_wait); (tree_function, log_run tree_function)].

Lemma log_run_ok sub : child_ok (fun n (s : sys (list string)) => n ∈ store s) (sub, log_run sub).
Proof.
  intros s _. unfold log_run; simpl. case_decide; simpl; [|by split].
  split; [intros n Hn; by right|intros _; left].
Qed.

Lemma children_run_after_dependencies_witness :
  store (snd (run_children log_children (Sys sched_init []))) = ["approve"; "compile"]%string /\
  forall c : TaskSpec * M (sys (list string)) TaskResult, c ∈ log_children ->
    ts_name c.1 ∈ store (snd (run_children log_children (Sys sched_init []))).
Proof.
  split; [vm_compute; reflexivity|].
  assert (Hnd : NoDup (spec_names (fst <$> log_children)))
    by (refine (bool_decide_eq_true_1 _ _); vm_compute; reflexivity).
  destruct (wp_cases _ _ _ _ (children_run_after_dependencies
    (fun n (s : sys (list string)) => n ∈ store s) log_children
    (Forall_cons_2 _ _ _ (log_run_ok _) (Forall_cons_2 _ _ _ (log_run_ok _) (Forall_nil_2 _)))
    (Sys sched_init []) Hnd)) as [(r & s' & E & Hf)|(e & s' & E & _)].
  - rewrite E. exact Hf.
  - assert (Hok : is_ok (fst (run_children log_children (Sys sched_init []))) = true)
      by (vm_compute; reflexivity).
    by rewrite E in Hok.
Defined.
