(* ===== verification/OverseerLink.v ===== *)
(** How the scheduler reports to the overseer: [_send_overseer_event] and its helpers in
    scheduler/_executor.py, with the fallbacks of scheduler/_overseer.py for a run without an overseer
    (headless) or with one that is degraded.

    The overseer itself - sessions with a language model - and the sinks are parameters. *)
From S2P Require Import Prelude PyDict Text Types Transitions Store Scheduler TaskDispatch.

(** protocols/_types/_task.py: what an escalation tells *)
Record EscalationPayload := {
  ep_task_name : string;
  ep_task_id : uuid;
  ep_agent_name : option string;
  ep_attempts : Z;
  ep_failed_checks : list CheckResult;
  ep_agent_summary : string;
  ep_context : TaskContext
}.

(** protocols/_types/_events.py; [BudgetEvent] wraps the two events of [_send_budget_events] *)
Inductive overseer_event :=
| RunStarted (intent : string) (config_snapshot : value)
| TaskFailed (task_id : uuid) (task_name : string) (payload : EscalationPayload)
| TaskEscalated (task_id : uuid) (task_name : string) (from_child_task_id : uuid) (payload : EscalationPayload)
| BudgetEvent (e : budget_event)
| InboxAnswered (item_id : uuid) (assumed_option actual_answer : string) (contradicts : bool)
| InboxRejected (item_id : uuid) (rejection_reason : string)
| StructuralAdvisory (task_id : uuid) (observation suggestion : string)
| HealthDegraded (degraded_type : string) (failure_rate threshold : decimal).

(** [type(event).__name__] *)
Definition event_type (e : overseer_event) : string :=
  match e with
  | RunStarted _ _ => "RunStarted"
  | TaskFailed _ _ _ => "TaskFailed"
  | TaskEscalated _ _ _ _ => "TaskEscalated"
  | BudgetEvent (BudgetThresholdCrossed _ _ _) => "BudgetThresholdCrossed"
  | BudgetEvent (BudgetExhausted _) => "BudgetExhausted"
  | InboxAnswered _ _ _ _ => "InboxAnswered"
  | InboxRejected _ _ => "InboxRejected"
  | StructuralAdvisory _ _ _ => "StructuralAdvisory"
  | HealthDegraded _ _ _ => "HealthDegraded"
  end.

Inductive fallback := MaintainCurrentAllocations | EscalateToHumanInbox | WriteToTrace | LogOnly.

Definition FALLBACK_BEHAVIORS : dict string fallback := Dict
  [ ("TaskFailed", WriteToTrace); ("TaskEscalated", WriteToTrace);
    ("BudgetThresholdCrossed", MaintainCurrentAllocations);
    ("BudgetExhausted", MaintainCurrentAllocations); ("RunStarted", LogOnly);
    ("StructuralAdvisory", WriteToTrace) ]%string.

Definition _DEFAULT_FALLBACK : fallback := EscalateToHumanInbox.

(** The interface of an overseer, and the code around it. *)
Record overseer_env (W : Type) := {
  ov_is_degraded : string -> M (sys W) bool;
  ov_send_event : overseer_event -> M (sys W) unit;
  ov_send_correction : string -> M (sys W) unit;
  ov_verify_actions : string -> M (sys W) (list string);
  (** [_check_session_handoff] *)
  ov_check_handoff : M (sys W) unit
}.
Arguments ov_is_degraded {W} _ _.
Arguments ov_send_event {W} _ _.
Arguments ov_send_correction {W} _ _.
Arguments ov_verify_actions {W} _ _.
Arguments ov_check_handoff {W} _.

Section link.
Context {W : Type} `{TraceStore W, TraceLog W}.
Context (cfg : sched_config).
Context (overseer : option (overseer_env W)) (sinks : list (overseer_event -> M (sys W) unit)).
(** The fields of an event, as text. *)
Context (event_fields : overseer_event -> list (string * value)).

(** [create_inbox_item] called without its parameters [assumed_option], [work_proceeding] and
    [contradiction_impact]. *)
Definition create_inbox_item_incomplete : M (sys W) unit :=
  mthrow (TypeError "create_inbox_item() missing 3 required positional arguments").

Definition _write_to_trace (event : overseer_event) : M (sys W) unit :=
  on_store (tl_write_event (Some (_run_id cfg)) ("headless_" +:+ event_type event)
    (VDict (("event_type", VStr (event_type event)) :: ("headless_fallback", VBool true) ::
            event_fields event)%string) None (_run_principal_id cfg)) ;;
  if decide (event_type event ∈ ["TaskFailed"; "TaskEscalated"]%string)
  then create_inbox_item_incomplete else mret tt.

Definition FALLBACK_HANDLERS (b : fallback) (event : overseer_event) : M (sys W) unit :=
  match b with
  | MaintainCurrentAllocations | LogOnly => mret tt
  | EscalateToHumanInbox => create_inbox_item_incomplete
  | WriteToTrace => _write_to_trace event
  end.

Definition _handle_headless_event (event : overseer_event) : M (sys W) unit :=
  FALLBACK_HANDLERS (default _DEFAULT_FALLBACK (FALLBACK_BEHAVIORS !! event_type event)) event.

(** A sink that raises is logged. *)
Definition _dispatch_to_overseer_sinks (event : overseer_event) : M (sys W) unit :=
  mfor sinks (fun sink => mcatch (sink event) (fun _ => mret tt)).

Definition max_attempts : nat := 3.

Definition correction (errors : list string) : string :=
  ("Your previous response had issues:" +:+ newline +:+ join newline errors)%string.

(** [for attempt in range(max_attempts)]: the event, then corrections, until the actions verify. *)
Fixpoint verify_loop (ov : overseer_env W) (left : nat) (first : bool) (event : overseer_event)
    (errors : list string) : M (sys W) (list string) :=
  match left with
  | 0 => mret errors
  | S left' =>
      (if first then ov_send_event ov event else ov_send_correction ov (correction errors)) ;;
      errors ← ov_verify_actions ov (event_type event);
      match errors with
      | [] => mret []
      | _ => verify_loop ov left' false event errors
      end
  end.

Definition _send_overseer_event (event : overseer_event) : M (sys W) unit :=
  match overseer with
  | None => _handle_headless_event event ;; _dispatch_to_overseer_sinks event
  | Some ov =>
      degraded ← ov_is_degraded ov (event_type event);
      if degraded : bool then _handle_headless_event event ;; _dispatch_to_overseer_sinks event
      else
        verify_loop ov max_attempts true event [] ;;
        _dispatch_to_overseer_sinks event ;;
        ov_check_handoff ov
  end.

(** The message of an advisory; it has no suggestion of its own. *)
Definition advisory_message (a : advisory) : string :=
  ("Tasks [" +:+ join ", " (map (fun n => "'" +:+ n +:+ "'") (adv_task_names a)) +:+
   "] are read-only and could be front-loaded for earlier execution")%string.

Definition _send_pending_advisories : M (sys W) unit :=
  advisories ← sget _pending_advisories;
  mfor advisories (fun a => _send_overseer_event (StructuralAdvisory 0%Z (advisory_message a) (advisory_message a))) ;;
  smod (fun s => s .[_pending_advisories := []]).
End link.
