(* ===== verification/AgentExecution.v ===== *)
(** scheduler/_agent_execution.py: running a task by an agent's session, with its retries, timeouts,
    context checks and escalation; and orchestrators, which suspend to have child tasks run.

    Sessions, prompts and templates are parameters: the session is what calls the handlers of
    [Lifecycle], so it may change the whole state.  A session object is a number. *)
From S2P Require Import Prelude PyDict Types Transitions Locks Store Scheduler TaskDispatch OverseerLink.

(** ** scheduler/_executor.py: classify_error *)

(** [ECONNREFUSED], [ECONNRESET], [ECONNABORTED], [ENETUNREACH], [EHOSTUNREACH], [ETIMEDOUT] *)
Definition _NETWORK_ERRNOS : list Z := [111; 104; 103; 101; 113; 110]%Z.

Definition classify_error (error : exn) : ErrorCategory :=
  match error with
  | TimeoutError => INFRA
  | OSError errno => if decide (errno ∈ _NETWORK_ERRNOS) then INFRA else UNCLASSIFIED
  | JSONDecodeError => PARSE
  | ImportError => BUILD_ENV
  | AssertionError _ => LOGIC
  | _ => UNCLASSIFIED
  end.

Definition ErrorCategory_value (c : ErrorCategory) : string :=
  match c with
  | INFRA => "infra" | CONTEXT_LIMIT => "context_limit" | PARSE => "parse" | FLAKY => "flaky"
  | BUILD_ENV => "build_env" | LOGIC => "logic" | UNCLASSIFIED => "unclassified"
  end.

(** ** The environment *)

(** transport/_events.py, the events the scheduler looks at *)
Inductive session_event :=
| Result (text : string)
| ToolUse (tool_name : string) (input : dict string value) (status : string)
| SessionSuspended (continuation : uuid)
| OtherEvent.

Record agent_env (W : Type) := {
  ae_task : task_env W;
  (** the providers of [_transport_registry] *)
  ae_transports : list string;
  (** building the tools of the session and creating it, from a previous session or afresh *)
  ae_open_session : string -> string -> TaskSpec -> uuid -> Z -> option uuid -> M (sys W) uuid;
  ae_totals : uuid -> sys W -> Usage;
  (** [session.send(prompt)] to the end of its events.  Under a deadline in seconds [asyncio.wait_for]
      makes an await that runs into it raise [TimeoutError]. *)
  ae_send : option Z -> uuid -> string -> M (sys W) (list session_event);
  (** [session.resume(continuation, message)] *)
  ae_resume : uuid -> uuid -> string -> M (sys W) (list session_event);
  ae_close : uuid -> M (sys W) unit;
  (** [_refresh_injection_data] *)
  ae_refresh : M (sys W) unit;
  ae_assemble_prompt : TaskSpec -> uuid -> option (dict string value) -> Z -> uuid ->
    list (Z * string) -> M (sys W) string;
  ae_resolve_task_variables : string -> option (dict string value) -> result string;
  ae_render_template : string -> list (string * string) -> string;
  (** [type(exc).__name__] *)
  ae_exn_type : exn -> string;
  ae_session_name : uuid -> Z -> string;
  (** seconds since the last start of the task *)
  ae_elapsed : uuid -> sys W -> time;
  ae_json_loads : string -> option value;
  ae_jsonschema : value -> value -> option string;
  ae_send_overseer : overseer_event -> M (sys W) unit;
  ae_model_context_limit : Z;
  (** [round(usage_percent * 100, 1)] *)
  ae_percent : Z -> Z -> value;
  (** how many turns an orchestrator may take: its loop has no bound of its own *)
  ae_turns : nat
}.
Arguments ae_task {W} _.
Arguments ae_transports {W} _.
Arguments ae_open_session {W} _ _ _ _ _ _ _.
Arguments ae_totals {W} _ _ _.
Arguments ae_send {W} _ _ _ _.
Arguments ae_resume {W} _ _ _ _.
Arguments ae_close {W} _ _.
Arguments ae_refresh {W} _.
Arguments ae_assemble_prompt {W} _ _ _ _ _ _ _.
Arguments ae_resolve_task_variables {W} _ _ _.
Arguments ae_render_template {W} _ _ _.
Arguments ae_exn_type {W} _ _.
Arguments ae_session_name {W} _ _ _.
Arguments ae_elapsed {W} _ _ _.
Arguments ae_json_loads {W} _ _.
Arguments ae_jsonschema {W} _ _ _.
Arguments ae_send_overseer {W} _ _.
Arguments ae_model_context_limit {W} _.
Arguments ae_percent {W} _ _ _.
Arguments ae_turns {W} _.

Definition slash : Ascii.ascii := Ascii.ascii_of_nat 47.

(** [s.split("/", 1)] in two parts *)
Fixpoint split_slash (s : string) : option (string * string) :=
  match s with
  | EmptyString => None
  | String c s' =>
      if decide (c = slash) then Some (EmptyString, s')
      else '(a, b) ← split_slash s'; Some (String c a, b)
  end.

Section agents.
Context {W : Type} `{TraceStore W, TraceLog W}.
Context (cfg : sched_config) (env : agent_env W).
Abbreviation tenv := (ae_task env).
Abbreviation vars := (option (dict string value)).
Abbreviation priors := (list (Z * string)).

(** ** Helpers *)

(** Provider and model of an agent: its own, or those of the task's or the agent's category. *)
Definition session_model (task : TaskSpec) : result (string * string) :=
  match ts_agent task with
  | None => Raise (ValueError "Cannot create session without agent")
  | Some agent =>
      match _agents cfg !! agent with
      | None => Raise (ValueError "Agent not found")
      | Some agent_def =>
          match ag_provider agent_def, ag_model agent_def with
          | Some provider, Some model => Ok (provider, model)
          | _, _ =>
              match (match nonempty (ts_category task) with
                     | Some c => Some c
                     | None => ag_category agent_def
                     end) with
              | None => Raise (ValueError "Agent has no category, provider, or model")
              | Some category =>
                  match _categories cfg !! category with
                  | None => Raise (ValueError "Category not found")
                  | Some resolved => or_raise (split_slash resolved) (ValueError "not enough values to unpack")
                  end
              end
          end
      end
  end.

Definition _create_agent_session (task : TaskSpec) (task_id : uuid) (attempt : Z) :
    M (sys W) (uuid * string) :=
  '(provider, model) ← liftr (session_model task);
  if decide (provider ∈ ae_transports env) then
    sessions ← sget _task_sessions;
    let previous := if decide (1 < attempt)%Z then
                      if default false (ts_retry_resume task) then sessions !! task_id else None
                    else None in
    session ← ae_open_session env provider model task task_id attempt previous;
    mret (session, ae_session_name env task_id attempt)
  else mthrow (ValueError "Transport for provider not found").

Definition _make_task_context (task : TaskSpec) (task_id : uuid) (parent_task_id : option uuid)
    (attempt : Z) (prior_attempts : priors) (variables : vars) : M (sys W) TaskContext :=
  depth ← sget (fun s => nesting_depth s task_id);
  match depth with
  | None => te_blocked tenv ;; mthrow (OtherError "unreachable")
  | Some depth =>
      notepad ← mgets (te_render_notepad tenv);
      mret {|
        tc_variables := default ∅ variables; tc_run_id := _run_id cfg; tc_task_name := ts_name task;
        tc_task_id := task_id; tc_attempt := attempt;
        tc_prior_attempts := match prior_attempts with [] => None | _ => Some prior_attempts end;
        tc_notepad_content := notepad; tc_parent_task_id := parent_task_id; tc_nesting_depth := depth |}
  end.

Definition _call_callback (callable_path : string) (context : TaskContext) : M (sys W) unit :=
  match split_colon callable_path with
  | [module_path; func_name] =>
      match te_import tenv module_path func_name with
      | ImportFailed => mthrow ImportError
      | NoAttribute => mthrow (OtherError "AttributeError")
      | Imported func => func context ;; mret tt
      end
  | _ => mthrow (ValueError "Invalid callable path")
  end.

Definition tokens (u : Usage) : Trace.token_counts := {|
  Trace.k_input := u_input_tokens u; Trace.k_output := u_output_tokens u;
  Trace.k_reasoning := u_reasoning_tokens u; Trace.k_cache_read := u_cache_read_tokens u;
  Trace.k_cache_write := u_cache_write_tokens u |}.

Definition task_cost (s : sched) (task_id : uuid) : decimal :=
  default (decimal_Z 0) (_task_costs s !! task_id).

Definition _complete_attempt (attempt_id session : uuid) (result_text : string) (passed : bool)
    (task_id : uuid) : M (sys W) unit :=
  totals ← mgets (ae_totals env session);
  cost ← sget (fun s => task_cost s task_id);
  duration ← mgets (ae_elapsed env task_id);
  on_store (tl_complete_task_attempt attempt_id result_text None None
    (Some (if passed then "pass" else "fail")%string) None (tokens totals) cost duration).

Definition _fail_attempt_timeout (attempt_id session task_id : uuid) : M (sys W) unit :=
  totals ← mgets (ae_totals env session);
  cost ← sget (fun s => task_cost s task_id);
  duration ← mgets (ae_elapsed env task_id);
  on_store (tl_fail_task_attempt attempt_id "Task timed out" None (tokens totals) cost duration) ;;
  move cfg task_id CANCELLED.

Definition usage_since (before after : Usage) : Usage := {|
  u_input_tokens := u_input_tokens after - u_input_tokens before;
  u_output_tokens := u_output_tokens after - u_output_tokens before;
  u_reasoning_tokens := u_reasoning_tokens after - u_reasoning_tokens before;
  u_cache_read_tokens := u_cache_read_tokens after - u_cache_read_tokens before;
  u_cache_write_tokens := u_cache_write_tokens after - u_cache_write_tokens before |}%Z.

Definition _validate_output_schema (output : option string) (schema_str : string) : CheckResult :=
  match output with
  | None => check_result false "No output to validate against schema"
  | Some output =>
      match ae_json_loads env output with
      | None => check_result false "Output is not valid JSON"
      | Some parsed =>
          match ae_json_loads env schema_str with
          | None => check_result false "Output schema is not valid JSON"
          | Some schema =>
              match ae_jsonschema env parsed schema with
              | Some e => check_result false ("Output validation failed: " +:+ e)%string
              | None => check_result true "Output validated"
              end
          end
      end
  end.

(** ** Context usage *)

Definition result_texts (events : list session_event) : list string :=
  omap (fun e => match e with Result text => Some text | _ => None end) events.

(** [tokens_used / limit >= num/10] *)
Definition usage_at_least (num tokens_used limit : Z) : bool :=
  bool_decide (0 < limit /\ num * limit <= 10 * tokens_used)%Z.

Definition context_warning (session_id : string) (task_id : uuid) (used limit : Z) (action : string) :
    M (sys W) unit :=
  on_store (tl_write_event (Some (_run_id cfg)) "context_warning"
    (VDict [("session_id", VStr session_id); ("task_id", VUuidStr task_id);
            ("usage_percent", ae_percent env used limit); ("tokens_used", VInt used);
            ("context_limit", VInt limit); ("action", VStr action)]%string)
    (Some task_id) (_run_principal_id cfg)).

Definition _agent_handoff (timeout : option Z) (session task_id : uuid) : M (sys W) unit :=
  events ← ae_send env timeout session (ae_render_template env "handoff_request" []);
  let summary := String.concat "" (result_texts events) in
  let summary := if decide (summary = EmptyString)
                 then "Previous conversation context was lost."%string else summary in
  specs ← sget _task_specs;
  match (specs !! task_id : option TaskSpec) with
  | None => mret tt
  | Some task_spec =>
      '(new_session, _) ← _create_agent_session task_spec task_id 1;
      ae_send env timeout new_session (ae_render_template env "handoff_resume" [("summary", summary)]%string) ;;
      smod (fun s => s .[_task_sessions ::= <[task_id := new_session]>])
  end.

Definition _check_agent_context (timeout : option Z) (session : uuid) (session_id : string) (task_id : uuid) : M (sys W) unit :=
  totals ← mgets (ae_totals env session);
  let used := (u_input_tokens totals + u_output_tokens totals)%Z in
  let limit := ae_model_context_limit env in
  if usage_at_least 9 used limit then
    context_warning session_id task_id used limit "handoff" ;; _agent_handoff timeout session task_id
  else if usage_at_least 8 used limit then context_warning session_id task_id used limit "warning"
  else mret tt.

Definition _run_session (timeout : option Z) (session : uuid) (prompt session_id : string)
    (task_id : uuid) : M (sys W) string :=
  events ← ae_send env timeout session prompt;
  _check_agent_context timeout session session_id task_id ;;
  mret (default ""%string (last (result_texts events))).

(** ** Agent tasks *)

(** How an attempt ends: with the result of the task, or with what to report if it was the last - new
    check results, unless the ones before stand, and the error the next attempt is told. *)
Inductive attempt_end :=
| Finished (r : TaskResult)
| Unfinished (check_results : option (list CheckResult)) (error : string).

Definition attempt_failed (attempt_id session task_id : uuid) (crs : option (list CheckResult))
    (error : string) : M (sys W) attempt_end :=
  _complete_attempt attempt_id session "" false task_id ;; mret (Unfinished crs error).

(** [_get_scoped_outputs] of the task's parent *)
Definition _get_scoped_outputs (task_id : uuid) : M (sys W) (dict string (option string)) :=
  parent ← sget (fun s => parent_of s task_id);
  smod (fun s => s .[_task_outputs ::= fun d => <[parent := default ∅ (d !! parent)]> d]) ;;
  sget (fun s => default ∅ (_task_outputs s !! parent)).

(** After a session that ran to its end: what the scheduler's table says of the task decides. *)
Definition settle (task : TaskSpec) (task_id attempt_id session : uuid) : M (sys W) attempt_end :=
  state ← sget (fun s => _task_states s !! task_id);
  match state with
  | None => mthrow (KeyError "task_id")
  | Some COMPLETED =>
      outputs ← _get_scoped_outputs task_id;
      let result_text := outputs !! ts_name task ≫= fun o => o in
      let validation := (fun schema => _validate_output_schema result_text schema) <$> ts_output_schema task in
      match validation with
      | Some (Build_CheckResult false message _ _ as v) =>
          attempt_failed attempt_id session task_id (Some [v]) ("Output validation: " +:+ message)%string
      | _ =>
          _complete_attempt attempt_id session (default ""%string result_text) true task_id ;;
          mret (Finished (task_result result_text None [check_result true "Task completed"]))
      end
  | Some POSTCHECK_FAILED =>
      attempt_failed attempt_id session task_id (Some [check_result false "Postchecks failed"]) "Postchecks failed"
  | Some PRECHECK_FAILED =>
      attempt_failed attempt_id session task_id (Some [check_result false "Prechecks failed"]) "Prechecks failed"
  | Some state =>
      attempt_failed attempt_id session task_id None ("Session ended in state " +:+ TaskState_value state)%string
  end.

(** The session and what becomes of its outcome. *)
Definition run_attempt (task : TaskSpec) (task_id : uuid) (variables : vars) (attempt : Z)
    (attempt_id : uuid) (prior_attempts : priors) : M (sys W) attempt_end :=
  '(session, session_id) ← _create_agent_session task task_id attempt;
  smod (fun s => s .[_task_sessions ::= <[task_id := session]>]
                   .[_session_mutations ::= <[session_id := []]>]) ;;
  ae_refresh env ;;
  prompt ← ae_assemble_prompt env task task_id variables attempt attempt_id prior_attempts;
  before ← mgets (ae_totals env session);
  let timeout := match ts_timeout task with
                 | Some t => Some t
                 | None => agent ← nonempty (ts_agent task); _agents cfg !! agent ≫= ag_timeout
                 end in
  r ← mtry (_run_session timeout session prompt session_id task_id);
  match r with
  | Raise TimeoutError =>
      ae_close env session ;;
      _fail_attempt_timeout attempt_id session task_id ;;
      mret (Finished (task_result None None [check_result false "Task timed out"]))
  | Raise exc =>
      ae_close env session ;;
      let category := ErrorCategory_value (classify_error exc) in
      let text := te_exn_str tenv exc in
      on_store (tl_write_event (Some (_run_id cfg)) "task_error"
        (VDict [("task_id", VUuidStr task_id); ("error", VStr text);
                ("error_type", VStr (ae_exn_type env exc)); ("category", VStr category)]%string)
        (Some task_id) (_run_principal_id cfg)) ;;
      let what := ("[" +:+ category +:+ "] " +:+ text)%string in
      attempt_failed attempt_id session task_id (Some [check_result false what]) what
  | Ok _ =>
      ae_close env session ;;
      after ← mgets (ae_totals env session);
      on_sched (_accumulate_cost cfg task_id task (usage_since before after)) ;;
      _send_budget_events (fun e => ae_send_overseer env (BudgetEvent e)) task_id ;;
      settle task task_id attempt_id session
  end.

Definition attempt_once (task : TaskSpec) (task_id : uuid) (parent_task_id : option uuid) (variables : vars)
    (attempt : Z) (prior_attempts : priors) : M (sys W) attempt_end :=
  attempt_id ← on_store (tl_create_task_attempt task_id attempt);
  ok ← (match (if decide (1 < attempt)%Z then ts_pre_retry task else None) with
        | None => mret true
        | Some pre_retry =>
            mcatch
              (ctx ← _make_task_context task task_id parent_task_id attempt prior_attempts variables;
               _call_callback pre_retry ctx ;;
               mret true)
              (fun _ => move cfg task_id ESCALATED ;; mret false)
        end);
  if ok : bool then run_attempt task task_id variables attempt attempt_id prior_attempts
  else mret (Finished (task_result None None [check_result false "pre_retry aborted"])).

(** [for attempt in range(1, max_attempts + 1)], with [left] attempts to go *)
Fixpoint attempt_loop (task : TaskSpec) (task_id : uuid) (parent_task_id : option uuid) (variables : vars)
    (left : nat) (attempt : Z) (check_results : list CheckResult) (prior_attempts : priors) :
    M (sys W) (TaskResult + list CheckResult * priors) :=
  match left with
  | 0 => mret (inr (check_results, prior_attempts))
  | S left' =>
      e ← attempt_once task task_id parent_task_id variables attempt prior_attempts;
      match e with
      | Finished r => mret (inl r)
      | Unfinished crs error =>
          (match left' with 0 => mret tt | _ => set_state task_id CREATED end) ;;
          attempt_loop task task_id parent_task_id variables left' (attempt + 1)%Z (default check_results crs)
            (prior_attempts ++ [(attempt, error)])
      end
  end.

(** When every attempt failed: the parent's session is told, or the overseer. *)
Definition escalate (task : TaskSpec) (task_id : uuid) (parent_task_id : option uuid) (variables : vars)
    (check_results : list CheckResult) (prior_attempts : priors) : M (sys W) TaskResult :=
  let max_attempts := (ts_retry task + 1)%Z in
  context ← _make_task_context task task_id parent_task_id max_attempts prior_attempts variables;
  let escalation := {|
    ep_task_name := ts_name task; ep_task_id := task_id; ep_agent_name := ts_agent task;
    ep_attempts := max_attempts; ep_failed_checks := check_results; ep_agent_summary := "Retries exhausted";
    ep_context := context |} in
  set_state task_id ESCALATED ;;
  smod (fun s => s .[_file_lock_registry ::= delete task_id]) ;;
  transition cfg task_id ESCALATED ;;
  parent_session ← sget (fun s =>
    match parent_task_id with
    | Some p => if decide (_task_states s !! p = Some ACTIVE) then _task_sessions s !! p else None
    | None => None
    end);
  (match parent_session with
   | Some session =>
       ae_send env None session (ae_render_template env "escalation_to_parent"
         [("task_name", ts_name task); ("max_attempts", te_str tenv (VInt max_attempts));
          ("failed_checks", te_str tenv (VList (VStr <$>
             (message <$> filter (fun cr => passed cr = false) check_results))))]%string) ;; mret tt
   | None => ae_send_overseer env (TaskEscalated task_id (ts_name task) task_id escalation)
   end) ;;
  mret (task_result None
    (Some (VDict [("escalation", VDict [("task_name", VStr (ep_task_name escalation));
             ("attempts", VInt (ep_attempts escalation));
             ("agent_name", match ep_agent_name escalation with Some a => VStr a | None => VNone end)])]%string))
    check_results).

Definition _execute_agent_task (task : TaskSpec) (task_id : uuid) (parent_task_id : option uuid)
    (variables : vars) : M (sys W) TaskResult :=
  match ts_agent task, ts_task_prompt task with
  | Some _, Some _ =>
      out ← attempt_loop task task_id parent_task_id variables (Z.to_nat (ts_retry task + 1)) 1 [] [];
      match out with
      | inl r => mret r
      | inr (check_results, prior_attempts) =>
          escalate task task_id parent_task_id variables check_results prior_attempts
      end
  | _, _ => mthrow (ValueError "Agent task requires agent and task_prompt")
  end.

(** ** Orchestrators *)

(** Listening to a session up to its suspension: the last text, and the continuation. *)
Fixpoint listen (output_text : string) (events : list session_event) : string * option uuid :=
  match events with
  | [] => (output_text, None)
  | SessionSuspended continuation :: _ => (output_text, Some continuation)
  | Result text :: events' => listen text events'
  | (ToolUse _ _ _ | OtherEvent) :: events' => listen output_text events'
  end.

Definition move_because (task_id : uuid) (st : TaskState) (reason : string) : M (sys W) unit :=
  set_state task_id st ;;
  on_store (ts_transition_task task_id (TaskState_value st) (Some reason) (_run_principal_id cfg)).

(** [execute_task], for the child an orchestrator awaits. *)
Context (run_child : TaskSpec -> option uuid -> option uuid -> M (sys W) TaskResult).

(** [while continuation is not None] *)
Fixpoint orchestrator_turns (turns : nat) (session : uuid) (session_id : string) (task_id : uuid)
    (output_text : string) (continuation : option uuid) : M (sys W) string :=
  match continuation, turns with
  | None, _ => mret output_text
  | Some _, 0 => mthrow (OtherError "no turns left")
  | Some current_cont, S turns' =>
      awaited ← sget (fun s => _pending_await s !! session_id);
      smod (fun s => s .[_pending_await ::= delete session_id]) ;;
      match awaited with
      | None => mret output_text
      | Some child_task_id =>
          specs ← sget _task_specs;
          match (specs !! child_task_id : option TaskSpec) with
          | None => mret output_text
          | Some child_spec =>
              move_because task_id SUSPENDED "awaiting child task" ;;
              child_result ← run_child child_spec (Some task_id) (Some child_task_id);
              move_because task_id ACTIVE "child task completed" ;;
              let child_text := default "no output"%string (nonempty (tr_output child_result)) in
              events ← ae_resume env session current_cont (ae_render_template env "orchestrator_resume"
                [("child_task_id", te_str tenv (VUuidStr child_task_id)); ("child_result", child_text)]%string);
              let '(output_text, continuation) := listen output_text events in
              orchestrator_turns turns' session session_id task_id output_text continuation
          end
      end
  end.

(** The end of an orchestrator: its postchecks, if it has any. *)
Definition orchestrator_checks (task : TaskSpec) (task_id : uuid) (parent_task_id : option uuid)
    (variables : vars) (output_text : string) : M (sys W) TaskResult :=
  match ts_postchecks task with
  | [] =>
      move cfg task_id COMPLETED ;;
      mret (task_result (Some output_text) None [])
  | _ =>
      move cfg task_id POSTCHECKING ;;
      postcheck_results ← _run_postchecks cfg (te_run_checks tenv) task task_id;
      if negb (all_passed postcheck_results) then
        move cfg task_id POSTCHECK_FAILED ;;
        move cfg task_id ESCALATED ;;
        context ← _make_task_context task task_id parent_task_id 1 [] variables;
        ae_send_overseer env (TaskEscalated task_id (ts_name task) task_id {|
          ep_task_name := ts_name task; ep_task_id := task_id; ep_agent_name := ts_agent task; ep_attempts := 1;
          ep_failed_checks := filter (fun cr => passed cr = false) postcheck_results;
          ep_agent_summary := "Orchestrator postchecks failed"; ep_context := context |}) ;;
        mret (task_result None None postcheck_results)
      else
        move cfg task_id COMPLETED ;;
        mret (task_result (Some output_text) None postcheck_results)
  end.

Definition _execute_orchestrator_task (task : TaskSpec) (task_id : uuid) (parent_task_id : option uuid)
    (variables : vars) : M (sys W) TaskResult :=
  move cfg task_id ACTIVE ;;
  '(session, session_id) ← _create_agent_session task task_id 1;
  smod (fun s => s .[_active_tasks ::= <[session_id := task_id]>]) ;;
  r ← mtry
    (prompt ← liftr (ae_resolve_task_variables env (default ""%string (ts_task_prompt task)) variables);
     events ← ae_send env None session prompt;
     let '(output_text, continuation) := listen "" events in
     output_text ← orchestrator_turns (ae_turns env) session session_id task_id output_text continuation;
     orchestrator_checks task task_id parent_task_id variables output_text);
  ae_close env session ;;
  liftr r.

Definition _execute_orchestrator_or_agent_task (task : TaskSpec) (task_id : uuid)
    (parent_task_id : option uuid) (variables : vars) : M (sys W) TaskResult :=
  if default false (ts_orchestrator task)
  then _execute_orchestrator_task task task_id parent_task_id variables
  else _execute_agent_task task task_id parent_task_id variables.
End agents.

(** ** Tying the knot

    [execute_task] runs agents, and an orchestrator runs [execute_task].  [depth] bounds how deep
    orchestrators may await orchestrators; beyond it Python's own stack gives out. *)
Section knot.
Context {W : Type} `{TraceStore W, TraceLog W}.
Context (cfg : sched_config) (env : agent_env W).

Definition with_agent (run : TaskSpec -> uuid -> option uuid -> option (dict string value) -> M (sys W) TaskResult) :
    task_env W :=
  let e := ae_task env in {|
    te_run_checks := te_run_checks e; te_send_decision := te_send_decision e; te_import := te_import e;
    te_wait_for := te_wait_for e; te_agent := run; te_paused := te_paused e; te_blocked := te_blocked e;
    te_render_notepad := te_render_notepad e; te_str := te_str e; te_exn_str := te_exn_str e;
    te_str_int := te_str_int e; te_json_dumps := te_json_dumps e |}.

Fixpoint full_env (depth : nat) : task_env W :=
  with_agent (_execute_orchestrator_or_agent_task cfg env (fun task parent task_id =>
    match depth with
    | 0 => mthrow (RuntimeError "maximum recursion depth exceeded")
    | S depth' => execute_task cfg (full_env depth') task parent task_id None
    end)).
End knot.
