(* ===== verification/AgentExecutionSpec.v ===== *)
(** What the agent executor guarantees and where it fails: what a result says of the task; that a task
    whose postchecks failed is lost to every later attempt; when an escalation is refused; what becomes
    of orchestrators and of failures in headless runs. *)
From S2P Require Import Prelude PyDict Types Transitions Locks Store Scheduler Lifecycle LifecycleSpec TaskDispatch TaskDispatchSpec OverseerLink AgentExecution.

Section sessions.
Context {W : Type} `{TraceStoreLaws W}.
Context (cfg : sched_config).
Context (run_checks : list Execution -> CheckContext -> M (sys W) (list CheckResult)).
Context (check_constraint : ConstraintKind -> uuid -> string -> M (sys W) CheckResult).
Context (scrub_text : string -> string).
Context (_auto_commit : string -> string -> M (sys W) unit).
Context (call_on_success : string -> TaskSpec -> uuid -> M (sys W) unit).
Context (Hchecks : forall checks ctx, quiet (run_checks checks ctx)).
Context (Hconstraint : forall kind id text, quiet (check_constraint kind id text)).
Context (Hcommit : forall session msg, quiet (_auto_commit session msg)).
Context (Hcallback : forall callable task id, quiet (call_on_success callable task id)).
Implicit Types (s : sys W) (id k : uuid).

Abbreviation start := (handle_start_task cfg run_checks).
Abbreviation end_ :=
  (handle_end_task cfg run_checks check_constraint scrub_text _auto_commit call_on_success).
Abbreviation tool_call := (run_call cfg run_checks check_constraint scrub_text _auto_commit call_on_success).
Abbreviation tool_calls := (run_calls cfg run_checks check_constraint scrub_text _auto_commit call_on_success).

(** ** What every tool call keeps

    Even where scheduler and store have come apart - a retry resets the scheduler's table only - what the
    scheduler calls completed is completed in the store. *)
Record honest s : Prop := {
  ho_store : ts_inv (store s);
  ho_known : forall id st, state_of s id = Some st -> is_Some (ts_status (store s) id);
  ho_active : forall session id, _active_tasks (sc s) !! session = Some id -> is_Some (state_of s id);
  ho_done : forall id, state_of s id = Some COMPLETED -> ts_status (store s) id = Some "completed"%string
}.

Lemma honest_same s s' : same_tables s s' -> honest s -> honest s'.
Proof.
  intros (E1 & _ & E3 & _ & E5 & E6) [H1 H2 H3 H4].
  split; unfold state_of in *; rewrite ?E1, ?E3; try done; [auto|..].
  - intros id st. rewrite E5. apply H2.
  - intros id. rewrite E5. apply H4.
Qed.

Lemma wp_honest_quiet {A} (m : M (sys W) A) Q s :
  quiet m -> honest s -> (forall a s', same_tables s s' -> honest s' -> Q a s') -> wp m Q (fun _ => honest) s.
Proof.
  intros Hm Hs HQ. apply wp_quiet; [done| |].
  - intros a s' E. apply HQ; [done|]. by eapply honest_same.
  - intros e s' E. by eapply honest_same.
Qed.

(** The tables with [id] in state [st], and a store that may have followed. *)
Lemma honest_moved s s' id st :
  honest s -> is_Some (state_of s id) -> moved s s' id st -> ts_inv (store s') ->
  (forall k, k <> id -> ts_status (store s') k = ts_status (store s) k) ->
  is_Some (ts_status (store s') id) ->
  (st = COMPLETED -> ts_status (store s') id = Some "completed"%string) -> honest s'.
Proof.
  intros [H1 H2 H3 H4] Hid Hm Hinv Hk Hs Hd. pose proof Hm as (_ & _ & Ea & _). split; [done|..].
  - intros k x. rewrite (moved_state _ _ _ _ _ Hm). case_decide; [by subst|]. rewrite Hk by done. apply H2.
  - intros session k. rewrite Ea, (moved_state _ _ _ _ _ Hm). case_decide; [done|]. apply H3.
  - intros k. rewrite (moved_state _ _ _ _ _ Hm). case_decide; [subst; intros [= ->]; by apply Hd|].
    rewrite Hk by done. apply H4.
Qed.

(** [transition] of a task the tables have just moved; [l] when the move is known to be legal. *)
Lemma wp_honest_transition (l : bool) s s1 id st (Q : unit -> sys W -> Prop) (E : exn -> sys W -> Prop) :
  honest s -> is_Some (state_of s id) -> moved s s1 id st -> store s1 = store s ->
  (l = true -> exists old, ts_status (store s) id = Some (TaskState_value old) /\ task_legal old st = true) ->
  (l = false -> st <> COMPLETED) ->
  (forall s', honest s' -> moved s s' id st -> ts_status (store s') id = Some (TaskState_value st) ->
     (forall k, k <> id -> ts_status (store s') k = ts_status (store s) k) ->
     (forall old, ts_status (store s) id = Some old -> validate_task_transition old (TaskState_value st) = None) ->
     Q tt s') ->
  (forall s' old, l = false -> honest s' -> moved s s' id st -> ts_status (store s) id = Some old ->
     ts_status (store s') id = Some old -> (forall k, k <> id -> ts_status (store s') k = ts_status (store s) k) ->
     validate_task_transition old (TaskState_value st) = Some (InvalidTransitionError old (TaskState_value st)) ->
     E (InvalidTransitionError old (TaskState_value st)) s') ->
  wp (transition cfg id st) Q E s1.
Proof.
  intros Hs Hid Hm Est Hl Hnc HQ HE. destruct Hid as [x Hx]. destruct (ho_known s Hs id x Hx) as [old Hold].
  rewrite <- Est in Hold.
  pose proof (ts_transition_law id (TaskState_value st) None (_run_principal_id cfg) (store s1) old
    ltac:(rewrite Est; apply Hs) Hold) as Hlaw.
  unfold wp, transition, on_store, zoom. rewrite Est in *.
  destruct (validate_task_transition old (TaskState_value st)) as [e|] eqn:Hv;
    destruct Hlaw as (w' & -> & Hinv' & Hstat);
    assert (Hm' : moved s (s1 .[store := w']) id st) by exact Hm.
  - assert (l = false) as ->.
    { destruct l; [|done]. destruct (Hl eq_refl) as (o & Ho & Hleg). rewrite Hold in Ho. injection Ho as ->.
      apply task_step_legal in Hleg. unfold task_step in Hleg. congruence. }
    pose proof (validate_task_raises _ _ _ Hv) as ->.
    assert (Hh : honest (s1 .[store := w'])).
    { apply (honest_moved s _ id st); [done|by exists x|done|done|..]; simpl.
      - intros k _. apply Hstat.
      - rewrite Hstat. by eexists.
      - intros ->. by destruct (Hnc eq_refl). }
    apply HE; try done; simpl; first [by rewrite Hstat|intros k _; apply Hstat].
  - assert (Hother : forall k, k <> id -> ts_status w' k = ts_status (store s) k).
    { intros k Hk. by rewrite Hstat, decide_False. }
    assert (Hthis : ts_status w' id = Some (TaskState_value st)) by (by rewrite Hstat, decide_True).
    apply HQ; [|done..|by intros o; rewrite Hold; intros [= <-]]. apply (honest_moved s _ id st); [done|by exists x|done..| |]; simpl.
    + by rewrite Hthis.
    + intros ->. exact Hthis.
Qed.

Lemma wp_honest_move (l : bool) s id st (Q : unit -> sys W -> Prop) (E : exn -> sys W -> Prop) :
  honest s -> is_Some (state_of s id) ->
  (l = true -> exists old, ts_status (store s) id = Some (TaskState_value old) /\ task_legal old st = true) ->
  (l = false -> st <> COMPLETED) ->
  (forall s', honest s' -> moved s s' id st -> ts_status (store s') id = Some (TaskState_value st) ->
     (forall k, k <> id -> ts_status (store s') k = ts_status (store s) k) ->
     (forall old, ts_status (store s) id = Some old -> validate_task_transition old (TaskState_value st) = None) ->
     Q tt s') ->
  (forall s' old, l = false -> honest s' -> moved s s' id st -> ts_status (store s) id = Some old ->
     ts_status (store s') id = Some old -> (forall k, k <> id -> ts_status (store s') k = ts_status (store s) k) ->
     validate_task_transition old (TaskState_value st) = Some (InvalidTransitionError old (TaskState_value st)) ->
     E (InvalidTransitionError old (TaskState_value st)) s') ->
  wp (set_state id st ;; transition cfg id st) Q E s.
Proof.
  intros Hs Hid Hl Hnc HQ HE. apply wp_bind, wp_set_state. by apply (wp_honest_transition l s _ id st Q E).
Qed.

(** ** A task the store has given up

    The store holds [id] at [postcheck_failed] while the scheduler has reset it for another attempt. *)
Record lost id s : Prop := {
  lo_state : exists st, state_of s id = Some st /\ st ∈ [CREATED; PRECHECKING; POSTCHECKING];
  lo_status : ts_status (store s) id = Some "postcheck_failed"%string
}.

(** What calls are shown to keep besides honesty: that the scheduler knows a given task, or that it is
    lost. *)
Inductive watch :=
| Anything
| Known (id : uuid)
| Lost (id : uuid).

Definition watched (o : watch) s : Prop :=
  match o with
  | Anything => True
  | Known id => is_Some (state_of s id)
  | Lost id => lost id s
  end.

Definition held (o : watch) s : Prop := honest s /\ watched o s.

Definition spared (o : watch) id : Prop :=
  match o with Lost k => id <> k | _ => True end.

Lemma moved_known s s' k st id : moved s s' k st -> is_Some (state_of s id) -> is_Some (state_of s' id).
Proof. intros Hm Hk. rewrite (moved_state _ _ _ _ _ Hm). by case_decide. Qed.

Lemma moved_self s s' id st : moved s s' id st -> is_Some (state_of s' id).
Proof. intros Hm. exists st. by rewrite (moved_state _ _ _ _ _ Hm), decide_True. Qed.

Lemma same_known s s' id : same_tables s s' -> is_Some (state_of s id) -> is_Some (state_of s' id).
Proof. intros (E & _). unfold state_of. by rewrite E. Qed.

Lemma held_same o s s' : same_tables s s' -> held o s -> held o s'.
Proof.
  intros Hs [Hh Hl]. split; [by eapply honest_same|].
  destruct o as [|id|id]; [done|by eapply same_known|].
  destruct Hs as (E1 & _ & E3 & _ & E5 & _), Hl as [L1 L2].
  split; unfold state_of in *; rewrite ?E1, ?E3, ?E5; done.
Qed.

Lemma wp_held_quiet {A} o (m : M (sys W) A) Q s :
  quiet m -> held o s -> (forall a s', same_tables s s' -> held o s' -> Q a s') -> wp m Q (fun _ => held o) s.
Proof.
  intros Hm Hs HQ. apply wp_quiet; [done| |].
  - intros a s' E. apply HQ; [done|]. by eapply held_same.
  - intros e s' E. by eapply held_same.
Qed.

Lemma lost_moved id s s' k st :
  lost id s -> k <> id -> moved s s' k st ->
  (forall j, j <> k -> ts_status (store s') j = ts_status (store s) j) -> lost id s'.
Proof.
  intros [(x & Hx & Hin) L2] Hne Hm Hst. split.
  - exists x. split; [|done]. rewrite (moved_state _ _ _ _ _ Hm). by rewrite decide_False.
  - rewrite Hst by done. exact L2.
Qed.

Lemma watched_moved o s s' k st :
  watched o s -> spared o k -> moved s s' k st ->
  (forall j, j <> k -> ts_status (store s') j = ts_status (store s) j) -> watched o s'.
Proof.
  destruct o as [|id|id]; simpl; [done|intros; by eapply moved_known|].
  intros. by eapply lost_moved.
Qed.

Lemma spared_or o id : spared o id \/ o = Lost id.
Proof. destruct o as [|k|k]; [by left..|]. destruct (decide (id = k)) as [->|]; [by right|by left]. Qed.

(** Moving a task: the lost one only to where a start or an end begins, which the store refuses. *)
Lemma wp_held_move (l : bool) o s id st (Q : unit -> sys W -> Prop) :
  held o s -> is_Some (state_of s id) ->
  (l = true -> exists old, ts_status (store s) id = Some (TaskState_value old) /\ task_legal old st = true) ->
  (l = false -> st <> COMPLETED) ->
  (st ∈ [PRECHECKING; POSTCHECKING] \/ spared o id) ->
  (forall s', held o s' -> moved s s' id st -> ts_status (store s') id = Some (TaskState_value st) ->
     spared o id -> Q tt s') ->
  wp (set_state id st ;; transition cfg id st) Q (fun _ => held o) s.
Proof.
  intros [Hh Hl] Hid Hleg Hnc Hsp HQ. destruct (spared_or o id) as [Hs| ->].
  - apply (wp_honest_move l s id st); try done.
    + intros s' Hh' Hm Hst Hk _. apply HQ; [|done..]. split; [done|]. by eapply watched_moved.
    + intros s' old _ Hh' Hm _ _ Hk _. split; [done|]. by eapply watched_moved.
  - destruct Hsp as [Hsp|[]]; [|done]. destruct Hl as [L1 L2]. apply (wp_honest_move l s id st); try done.
    + intros s' _ _ _ _ Hv. specialize (Hv _ L2). elem_of_cases Hsp; by vm_compute in Hv.
    + intros s' old _ Hh' Hm E1 E2 _ _. split; [done|]. split; [|congruence].
      exists st. rewrite (moved_state _ _ _ _ _ Hm), decide_True by done.
      split; [done|by right].
Qed.

Lemma held_activate o session id s :
  held o s -> is_Some (state_of s id) -> held o (s .[sc ::= fun x => x .[_active_tasks ::= <[session := id]>]]).
Proof.
  intros [[H1 H2 H3 H4] Hl] Hid. split; [|by destruct o as [| |k]; [..|destruct Hl; split]].
  split; try done. intros se k. simpl. rewrite dict_lookup_insert. case_decide; [by intros [= <-]|apply H3].
Qed.

Lemma held_deactivate o session s :
  held o s -> held o (s .[sc ::= fun x => x .[_active_tasks ::= delete session]]).
Proof.
  intros [[H1 H2 H3 H4] Hl]. split; [|by destruct o as [| |k]; [..|destruct Hl; split]].
  split; try done. intros se k. simpl. rewrite dict_lookup_delete. case_decide; [done|apply H3].
Qed.

Lemma wp_held_spec o id Q s :
  held o s -> (forall task, _task_specs (sc s) !! id = Some task -> Q task s) ->
  wp (spec_of id) Q (fun _ => held o) s.
Proof.
  intros Hs HQ. unfold wp, spec_of, mbind, M_bind, sget, mgets; simpl.
  destruct (_task_specs (sc s) !! id) as [task|] eqn:E; simpl; [by apply HQ|done].
Qed.

Lemma wp_held_active o session Q s :
  held o s -> (forall id, _active_tasks (sc s) !! session = Some id -> is_Some (state_of s id) -> Q id s) ->
  wp (check_active_task session) Q (fun _ => held o) s.
Proof.
  intros Hs HQ. unfold wp, check_active_task, mbind, M_bind, sget, mgets; simpl.
  destruct (_active_tasks (sc s) !! session) as [id|] eqn:Hact; simpl; [|done]. apply HQ; [done|].
  by apply (ho_active s (proj1 Hs) session).
Qed.

Lemma start_held o session tid s :
  held o s -> wp (start session tid) (fun _ => held o) (fun _ => held o) s.
Proof.
  intros Hs. unfold handle_start_task. apply wp_bind. destruct tid as [id|]; [|by apply wp_throw].
  apply wp_ret, wp_bind, wp_mgets. fold (state_of s id).
  destruct (state_of s id) as [st|] eqn:Hst; [|by apply wp_throw].
  case_decide; [by apply wp_throw|].
  apply wp_assoc, (wp_held_move false o); [done|by eexists|done|done|left; left|].
  intros s1 Hs1 Hm1 _ Hsp. pose proof (moved_self _ _ _ _ Hm1) as Hid1.
  apply wp_bind, (wp_held_spec o); [done|]. intros task _.
  apply wp_bind, (wp_held_quiet o); [by apply quiet_prechecks|done|]. intros results s2 E2 Hs2.
  pose proof (same_known _ _ _ E2 Hid1) as Hid2.
  destruct (negb (all_passed results)).
  - apply wp_assoc, (wp_held_move false o); try done; by right.
  - apply wp_assoc, (wp_held_move false o); try done; [by right|]. intros s3 Hs3 Hm3 _ _.
    apply wp_bind, wp_mmod, wp_ret, held_activate; try done. by eapply moved_self.
Qed.

Lemma held_complete o (s s1 : sys W) session id :
  held o s -> is_Some (state_of s id) -> spared o id -> moved s s1 id COMPLETED -> store s1 = store s ->
  ts_status (store s) id = Some "postchecking"%string ->
  wp (transition cfg id COMPLETED ;; smod (fun x => x .[_active_tasks ::= delete session]))
    (fun _ => held o) (fun _ => held o) s1.
Proof.
  intros [Hh Hl] Hid Hsp Hm Est Hst. apply wp_bind, (wp_honest_transition true s _ id COMPLETED); try done.
  { intros _. by exists POSTCHECKING. }
  intros s2 Hh2 Hm2 _ Hk _. apply wp_mmod. apply held_deactivate. split; [done|]. by eapply watched_moved.
Qed.

Lemma end_held o session msg s :
  held o s -> wp (end_ session msg) (fun _ => held o) (fun _ => held o) s.
Proof.
  intros Hs. unfold handle_end_task. apply wp_bind, (wp_held_active o); [done..|]. intros id _ Hid.
  apply wp_bind, (wp_held_spec o); [done|]. intros task _.
  apply wp_bind, wp_mgets. destruct (incomplete (sc s) id); [|by apply wp_throw].
  apply wp_assoc, (wp_held_move false o); try done; [left; by right; left|]. intros s1 Hs1 Hm1 Hst1 Hsp.
  pose proof (moved_self _ _ _ _ Hm1) as Hid1.
  apply wp_bind, wp_mmod.
  set (s2 := s1 .[sc ::= _]).
  assert (E2 : same_tables s1 s2) by by apply same_tables_intro.
  assert (Hs2 : held o s2) by by apply (held_same o s1).
  assert (Hp2 : is_Some (state_of s2 id) /\ ts_status (store s2) id = Some "postchecking"%string) by done.
  clearbody s2. clear s1 Hs1 Hm1 Hst1 Hid1 E2.
  assert (Hq : forall (A : Type) (m : M (sys W) A) Q s2, quiet m -> held o s2 ->
      is_Some (state_of s2 id) /\ ts_status (store s2) id = Some "postchecking"%string ->
      (forall a s3, held o s3 -> is_Some (state_of s3 id) /\ ts_status (store s3) id = Some "postchecking"%string ->
         Q a s3) -> wp m Q (fun _ => held o) s2).
  { intros A m Q x Hm Hx [Hk Hp] HQ. apply (wp_held_quiet o); [done..|]. intros a s3 E3 Hs3. apply HQ; [done|].
    split; [by eapply same_known|]. destruct E3 as (_ & _ & _ & _ & E5 & _). by rewrite E5. }
  assert (Hfail : forall s3 (r : reply), held o s3 -> is_Some (state_of s3 id) ->
      wp (set_state id POSTCHECK_FAILED ;; transition cfg id POSTCHECK_FAILED ;; mret r)
        (fun _ => held o) (fun _ => held o) s3).
  { intros s3 r Hs3 Hk. apply wp_assoc, (wp_held_move false o); try done; by right. }
  apply wp_bind, Hq; [apply Hcommit|done|done|]. intros _ s3 Hs3 Hp3.
  apply wp_bind, Hq; [by apply quiet_postchecks|done|done|]. intros results s4 Hs4 Hp4.
  destruct (all_passed results); [|apply Hfail; [done|apply Hp4]].
  apply wp_bind, Hq; [by apply quiet_constraints|done|done|]. intros cresults s5 Hs5 Hp5.
  destruct (negb (all_passed cresults)); [apply Hfail; [done|apply Hp5]|].
  apply wp_bind, wp_complete_task. intros s6 Hm6 Est6.
  apply wp_assoc. eapply wp_mono; [apply (held_complete o s5 s6 session id); try done; apply Hp5| |done].
  intros u0 s7 Hs7. apply wp_bind. destruct (ts_on_success task) as [callable|]; [|by apply wp_ret, wp_ret].
  apply wp_catch, wp_quiet; [apply Hcallback| |].
  - intros u s8 E8. apply wp_ret. by apply (held_same o s7).
  - intros e s8 E8. apply wp_ret, wp_ret. by apply (held_same o s7).
Qed.

Lemma held_created o s s' id :
  held o s -> ts_status (store s) id = None -> ts_inv (store s') ->
  (forall k, ts_status (store s') k = if decide (k = id) then Some "created"%string else ts_status (store s) k) ->
  _task_states (sc s') = <[id := CREATED]> (_task_states (sc s)) ->
  _active_tasks (sc s') = _active_tasks (sc s) -> held o s'.
Proof.
  intros [[H1 H2 H3 H4] Hl] Hnew Hinv Hst Est Ea.
  assert (Hstate : forall k, state_of s' k = if decide (k = id) then Some CREATED else state_of s k).
  { intros k. unfold state_of. by rewrite Est, dict_lookup_insert. }
  split; [split; [done|..]|].
  - intros k x. rewrite Hstate, Hst. case_decide; [by eexists|apply H2].
  - intros session k. rewrite Ea, Hstate. case_decide; [done|apply H3].
  - intros k. rewrite Hstate, Hst. case_decide; [done|apply H4].
  - destruct o as [|k|k]; [done|simpl; rewrite Hstate; by case_decide|]. destruct Hl as [L1 L2].
    assert (k <> id) by (intros ->; congruence). split.
    + rewrite Hstate. by rewrite decide_False.
    + rewrite Hst. by rewrite decide_False.
Qed.

(** Creating a child of an active task, and what the handler then does with it. *)
Lemma wp_held_child {A} o parent name ty config (spec : TaskSpec) (k : uuid -> M (sys W) A) s :
  held o s -> (forall id s', held o s' -> wp (k id) (fun _ => held o) (fun _ => held o) s') ->
  wp (id ← on_store (ts_create_task (_run_id cfg) (Some parent) name ty config);
      set_state id CREATED ;; register_child parent id spec ;; k id) (fun _ => held o) (fun _ => held o) s.
Proof.
  intros Hs Hk. apply wp_bind, wp_create; [apply (proj1 Hs)|]. intros id w' Hinv Hnew Hstat.
  apply wp_bind, wp_set_state, wp_bind, wp_register_child, Hk. by eapply held_created.
Qed.

Lemma held_fields o s s' :
  _task_states (sc s') = _task_states (sc s) -> _active_tasks (sc s') = _active_tasks (sc s) ->
  store s' = store s -> held o s -> held o s'.
Proof.
  intros E1 E2 E3 [[H1 H2 H3 H4] Hl].
  split; [split|destruct o as [|k|k]; [done| |destruct Hl; split]];
    simpl in *; unfold state_of in *; rewrite ?E1, ?E2, ?E3; done.
Qed.

Lemma create_task_held o session p s :
  held o s ->
  wp (handle_create_task cfg session p) (fun _ => held o) (fun _ => held o) s.
Proof.
  intros Hs. unfold handle_create_task. apply wp_bind, (wp_held_active o); [done..|]. intros parent _ _.
  apply wp_bind, wp_mgets. destruct (_budget_blocked (sc s)); [by apply wp_throw|].
  apply (wp_held_child o parent _ _ _ (create_task_spec cfg p)); [done|]. intros id s' Hs'.
  apply wp_bind, (wp_held_quiet o); [apply quiet_claim_paths|done|]. intros u s2 _ Hs2.
  apply wp_bind, wp_mmod, wp_ret. by apply (held_fields o s2).
Qed.

Lemma create_workflow_held o session p s :
  held o s ->
  wp (handle_create_workflow cfg session p) (fun _ => held o) (fun _ => held o) s.
Proof.
  intros Hs. unfold handle_create_workflow. apply wp_bind, (wp_held_active o); [done..|]. intros parent _ _.
  apply wp_bind, wp_mgets. destruct (_budget_blocked (sc s)); [by apply wp_throw|].
  apply (wp_held_child o parent _ _ _ (create_workflow_spec p)); [done|]. intros id s' Hs'.
  apply wp_bind, wp_mmod, wp_ret. by apply (held_fields o s').
Qed.

Lemma create_wait_for_held o session p s :
  held o s ->
  wp (handle_create_wait_for cfg session p) (fun _ => held o) (fun _ => held o) s.
Proof.
  intros Hs. unfold handle_create_wait_for. apply wp_bind, (wp_held_active o); [done..|]. intros parent _ _.
  by apply (wp_held_child o parent _ _ _ (create_wait_for_spec p)).
Qed.

Lemma await_held o session tid s :
  held o s -> wp (handle_await_task session tid) (fun _ => held o) (fun _ => held o) s.
Proof.
  intros Hs. unfold handle_await_task. apply wp_bind. destruct tid as [id|]; [|by apply wp_throw].
  apply wp_ret, wp_bind, wp_mgets. destruct (_task_states (sc s) !! id); [|by apply wp_throw].
  apply wp_bind, wp_mmod, wp_ret. by apply (held_fields o s).
Qed.

Lemma register_held o task parent s :
  held o s -> wp (register_task cfg task parent) (fun _ => held o) (fun _ => held o) s.
Proof.
  intros Hs. unfold register_task. apply wp_bind, wp_create; [apply (proj1 Hs)|]. intros id w' Hinv Hnew Hstat.
  apply wp_bind. unfold _init_task_state. apply wp_mmod, wp_ret. by eapply held_created.
Qed.

Lemma tool_call_held o c s : held o s -> held o (snd (tool_call c s)).
Proof.
  intros Hs. assert (Hw : wp (tool_call c) (fun _ => held o) (fun _ => held o) s).
  { destruct c; simpl.
    - apply wp_bind. eapply wp_mono; [by apply register_held| |done]. intros id s' Hs'. by apply wp_ret.
    - by apply start_held.
    - by apply end_held.
    - by apply create_task_held.
    - by apply create_workflow_held.
    - by apply create_wait_for_held.
    - by apply await_held. }
  unfold wp in Hw. by destruct (tool_call c s) as [[r|e] s'].
Qed.

(** Any sequence of tool calls, the refused ones included, keeps honesty, and a lost task lost. *)
Lemma tool_calls_held o cs s : held o s -> held o (tool_calls cs s).
Proof. revert s. induction cs as [|c cs IH]; intros s Hs; [done|]. by apply IH, tool_call_held. Qed.
End sessions.

(** ** The executor *)

Section agents.
Context {W : Type} `{TraceStoreLaws W, !TraceLog W, !TraceLogLaws W}.
Context (cfg : sched_config) (env : agent_env W).
Implicit Types (s : sys W) (id k : uuid).

(** What is asked of the code around the executor: to keep [I].  For sessions this is what
    [tool_calls_held] shows of any tool calls they make. *)
Record env_keeps (I : sys W -> Prop) : Prop := {
  ek_open provider model task id n previous : keeps I (ae_open_session env provider model task id n previous);
  ek_send timeout session prompt : keeps I (ae_send env timeout session prompt);
  ek_close session : keeps I (ae_close env session);
  ek_refresh : keeps I (ae_refresh env);
  ek_prompt task id variables n attempt_id prior :
    keeps I (ae_assemble_prompt env task id variables n attempt_id prior);
  ek_import m f func ctx : te_import (ae_task env) m f = Imported func -> keeps I (func ctx);
  ek_blocked : keeps I (te_blocked (ae_task env));
  ek_overseer e : keeps I (ae_send_overseer env e)
}.

Lemma keeps_wp_inv {A} (I : sys W -> Prop) (m : M (sys W) A) s :
  keeps I m -> I s -> wp m (fun _ => I) (fun _ => I) s.
Proof. intros Hm Hs. specialize (Hm s Hs). unfold wp. by destruct (m s) as [[a|e] s']. Qed.

(** A step that keeps the invariant, before the rest. *)
Lemma wp_keep {A B} (I : sys W -> Prop) (m : M (sys W) A) (k : A -> M (sys W) B) Q E s :
  keeps I m -> I s -> (forall a s', I s' -> wp (k a) Q E s') -> (forall e s', I s' -> E e s') ->
  wp (m ≫= k) Q E s.
Proof.
  intros Hm Hs Hk HE. apply wp_bind. eapply wp_mono; [by apply keeps_wp_inv| |done]. done.
Qed.

Section keeping.
Context (o : watch) (Henv : env_keeps (held o)).

Lemma keeps_fields (f : sched -> sched) :
  (forall x, _task_states (f x) = _task_states x /\ _active_tasks (f x) = _active_tasks x) ->
  keeps (held o) (smod (W := W) f).
Proof. intros Hf s Hs. destruct (Hf (sc s)). by apply (held_fields o s). Qed.

Lemma keeps_log {A} (m : M W A) : status_quiet m -> keeps (held o) (on_store m).
Proof.
  intros Hm s Hs. apply (held_same o s); [|done]. destruct (Hm (store s)) as [Hinv Hst].
  unfold on_store, zoom. destruct (m (store s)) as [r w]. simpl in *. by split_and!.
Qed.

Lemma keeps_session task id n : keeps (held o) (_create_agent_session cfg env task id n).
Proof.
  unfold _create_agent_session. apply keeps_bind; [apply keeps_liftr|]. intros [provider model].
  case_decide; [|apply keeps_throw]. apply keeps_bind; [apply keeps_mgets|]. intros sessions.
  apply keeps_bind; [apply (ek_open _ Henv)|]. intros session. apply keeps_ret.
Qed.

Lemma keeps_context task id parent n prior variables :
  keeps (held o) (_make_task_context cfg env task id parent n prior variables).
Proof.
  unfold _make_task_context. apply keeps_bind; [apply keeps_mgets|]. intros [depth|].
  - apply keeps_bind; [apply keeps_mgets|]. intros notepad. apply keeps_ret.
  - apply keeps_bind; [apply (ek_blocked _ Henv)|]. intros _. apply keeps_throw.
Qed.

Lemma keeps_callback path ctx : keeps (held o) (_call_callback env path ctx).
Proof.
  unfold _call_callback. destruct (split_colon path) as [|m [|f [|]]]; try apply keeps_throw.
  destruct (te_import _ m f) eqn:E; try apply keeps_throw.
  apply keeps_bind; [by eapply (ek_import _ Henv)|]. intros r. apply keeps_ret.
Qed.

Lemma keeps_complete_attempt a session text passed id :
  keeps (held o) (_complete_attempt env a session text passed id).
Proof.
  unfold _complete_attempt. repeat (apply keeps_bind; [apply keeps_mgets|intros ?]).
  apply keeps_log, tl_complete_task_attempt_law.
Qed.

Lemma keeps_warning x id used limit action : keeps (held o) (context_warning cfg env x id used limit action).
Proof. apply keeps_log, tl_write_event_law. Qed.

Lemma keeps_handoff timeout session id : keeps (held o) (_agent_handoff cfg env timeout session id).
Proof.
  unfold _agent_handoff. apply keeps_bind; [apply (ek_send _ Henv)|]. intros events.
  apply keeps_bind; [apply keeps_mgets|]. intros specs.
  destruct (specs !! id : option TaskSpec); [|apply keeps_ret].
  apply keeps_bind; [apply keeps_session|]. intros [new_session name].
  apply keeps_bind; [apply (ek_send _ Henv)|]. intros _. by apply keeps_fields.
Qed.

Lemma keeps_run_session timeout session prompt x id :
  keeps (held o) (_run_session cfg env timeout session prompt x id).
Proof.
  unfold _run_session. apply keeps_bind; [apply (ek_send _ Henv)|]. intros events.
  apply keeps_bind; [|intros _; apply keeps_ret].
  unfold _check_agent_context. apply keeps_bind; [apply keeps_mgets|]. intros totals.
  destruct (usage_at_least 9 _ _); [|destruct (usage_at_least 8 _ _); [apply keeps_warning|apply keeps_ret]].
  apply keeps_bind; [apply keeps_warning|]. intros _. apply keeps_handoff.
Qed.

Lemma accumulate_fields id task usage x :
  let x' := snd (_accumulate_cost cfg id task usage x) in
  _task_states x' = _task_states x /\ _active_tasks x' = _active_tasks x.
Proof.
  unfold _accumulate_cost. destruct (_resolve_model_key cfg task); [|done].
  destruct (compute_cost_usd _ _ _); [|done]. unfold mbind, M_bind, mget; simpl.
  destruct (_task_costs x !! id); [|done]. simpl. destruct (effective_budget cfg task); [|done].
  unfold mmod, enforce_budget, exhaust; simpl.
  destruct (_ && _), (dec_leb _ _), (_budget_exhaustion_policy cfg); done.
Qed.

Lemma keeps_accumulate id task usage : keeps (held o) (on_sched (_accumulate_cost cfg id task usage)).
Proof.
  intros s Hs. destruct (accumulate_fields id task usage (sc s)) as [E1 E2].
  unfold on_sched, zoom. destruct (_accumulate_cost cfg id task usage (sc s)) as [r x]. simpl in *.
  by apply (held_fields o s).
Qed.

Lemma keeps_budget_events id :
  keeps (held o) (_send_budget_events (fun e => ae_send_overseer env (BudgetEvent e)) id).
Proof.
  unfold _send_budget_events. apply keeps_bind; [apply keeps_mgets|]. intros crossed.
  apply keeps_bind.
  { apply keeps_mfor. intros [[[tid name] budget] spent] _. case_decide; [apply (ek_overseer _ Henv)|apply keeps_ret]. }
  intros _. apply keeps_bind; [by apply keeps_fields|]. intros _.
  apply keeps_bind; [apply keeps_mgets|]. intros exhausted. apply keeps_bind; [|intros _; by apply keeps_fields].
  apply keeps_mfor. intros [[[tid name] budget] spent] _. case_decide; [apply (ek_overseer _ Henv)|apply keeps_ret].
Qed.

Lemma keeps_attempt_failed a session id crs error :
  keeps (held o) (attempt_failed env a session id crs error).
Proof.
  apply keeps_bind; [apply keeps_complete_attempt|]. intros _. apply keeps_ret.
Qed.

Lemma keeps_scoped id : keeps (held o) (_get_scoped_outputs (W := W) id).
Proof.
  unfold _get_scoped_outputs. apply keeps_bind; [apply keeps_mgets|]. intros parent.
  apply keeps_bind; [by apply keeps_fields|]. intros _. apply keeps_mgets.
Qed.
End keeping.

(** ** Attempts *)

(** Task [id] is in state [st], for the scheduler and for the store. *)
Definition both id st s : Prop :=
  state_of s id = Some st /\ ts_status (store s) id = Some (TaskState_value st).

Definition timed_out : TaskResult := task_result None None [check_result false "Task timed out"].
Definition aborted : TaskResult := task_result None None [check_result false "pre_retry aborted"].

Lemma held_anything o s : held o s -> held Anything s.
Proof. by intros [? _]. Qed.

Lemma wp_cancel o s id (Q : unit -> sys W -> Prop) E :
  held o s -> is_Some (state_of s id) -> (forall s', held Anything s' -> both id CANCELLED s' -> Q tt s') ->
  wp (move cfg id CANCELLED) Q E s.
Proof.
  intros [Hh _] Hid HQ. apply (wp_honest_move cfg false s id CANCELLED); try done.
  intros s' Hh' Hm Hst _ _. apply HQ; [done|]. split; [|done].
  rewrite (moved_state _ _ _ _ _ Hm). by rewrite decide_True.
Qed.

Lemma wp_try_escalate o s id (Q : unit -> sys W -> Prop) :
  held o s -> is_Some (state_of s id) -> (forall s', held Anything s' -> both id ESCALATED s' -> Q tt s') ->
  wp (move cfg id ESCALATED) Q (fun _ => held Anything) s.
Proof.
  intros [Hh _] Hid HQ. apply (wp_honest_move cfg false s id ESCALATED); try done.
  intros s' Hh' Hm Hst _ _. apply HQ; [done|]. split; [|done].
  rewrite (moved_state _ _ _ _ _ Hm). by rewrite decide_True.
Qed.

Definition watching o id : Prop := match o with Known k | Lost k => k = id | Anything => False end.

Lemma watching_known o id s : watching o id -> held o s -> is_Some (state_of s id).
Proof.
  destruct o as [|k|k]; [done|..]; simpl; intros -> [_ Hw]; [done|].
  destruct (lo_state _ _ Hw) as (st & Hst & _). by exists st.
Qed.

Lemma run_attempt_wp o task id variables n attempt_id prior (Q : attempt_end -> sys W -> Prop) s :
  env_keeps (held o) -> watching o id ->
  (forall session s, held o s -> wp (settle env task id attempt_id session) Q (fun _ => held Anything) s) ->
  (forall s', held Anything s' -> both id CANCELLED s' -> Q (Finished timed_out) s') ->
  (forall s' crs error, held o s' -> Q (Unfinished crs error) s') ->
  held o s ->
  wp (run_attempt cfg env task id variables n attempt_id prior) Q (fun _ => held Anything) s.
Proof.
  intros Henv Hid Hsettle Hcancel Hfail Hs. unfold run_attempt.
  assert (Hany : forall (e : exn) s', held o s' -> held Anything s') by (intros e s'; apply held_anything).
  eapply (wp_keep (held o)); [by apply keeps_session|done| |done]. intros [session x] s1 Hs1.
  eapply (wp_keep (held o)); [by apply keeps_fields|done| |done]. intros _ s2 Hs2.
  eapply (wp_keep (held o)); [apply (ek_refresh _ Henv)|done| |done]. intros _ s3 Hs3.
  eapply (wp_keep (held o)); [apply (ek_prompt _ Henv)|done| |done]. intros prompt s4 Hs4.
  apply wp_bind, wp_mgets.
  set (timeout := match ts_timeout task with Some t => Some t | None => _ end).
  pose proof (keeps_run_session o Henv timeout session prompt x id s4 Hs4) as Hs5.
  apply wp_bind. unfold wp at 1, mtry.
  destruct (_run_session cfg env timeout session prompt x id s4) as [r s5]. simpl in Hs5.
  destruct r as [text|exc].
  - eapply (wp_keep (held o)); [apply (ek_close _ Henv)|done| |done]. intros _ s6 Hs6.
    apply wp_bind, wp_mgets.
    eapply (wp_keep (held o)); [apply keeps_accumulate|done| |done]. intros _ s7 Hs7.
    eapply (wp_keep (held o)); [by apply keeps_budget_events|done| |done]. intros _ s8 Hs8. by apply Hsettle.
  - assert (Hgeneral : wp (ae_close env session ;;
      let category := ErrorCategory_value (classify_error exc) in
      let text := te_exn_str (ae_task env) exc in
      on_store (tl_write_event (Some (_run_id cfg)) "task_error"
        (VDict [("task_id", VUuidStr id); ("error", VStr text);
                ("error_type", VStr (ae_exn_type env exc)); ("category", VStr category)]%string)
        (Some id) (_run_principal_id cfg)) ;;
      let what := ("[" +:+ category +:+ "] " +:+ text)%string in
      attempt_failed env attempt_id session id (Some [check_result false what]) what) Q (fun _ => held Anything) s5).
    { eapply (wp_keep (held o)); [apply (ek_close _ Henv)|done| |done]. intros _ s6 Hs6.
      eapply (wp_keep (held o)); [apply keeps_log, tl_write_event_law|done| |done]. intros _ s7 Hs7.
      unfold attempt_failed.
      eapply (wp_keep (held o)); [apply keeps_complete_attempt|done| |done]. intros _ s8 Hs8.
      by apply wp_ret, Hfail. }
    destruct exc; try exact Hgeneral. clear Hgeneral.
    eapply (wp_keep (held o)); [apply (ek_close _ Henv)|done| |done]. intros _ s6 Hs6.
    unfold _fail_attempt_timeout. apply wp_bind. apply wp_bind, wp_mgets, wp_bind, wp_mgets, wp_bind, wp_mgets.
    eapply (wp_keep (held o)); [apply keeps_log, tl_fail_task_attempt_law|done| |done]. intros _ s7 Hs7.
    eapply wp_cancel; [exact Hs7|by eapply watching_known|]. intros s8 Hs8 Hb. by apply wp_ret, Hcancel.
Qed.

(** An attempt with the callback before it. *)
Lemma attempt_once_wp o task id parent variables n prior (Q : attempt_end -> sys W -> Prop) s :
  env_keeps (held o) -> watching o id ->
  (forall a session s, held o s -> wp (settle env task id a session) Q (fun _ => held Anything) s) ->
  (forall s', held Anything s' -> both id CANCELLED s' -> Q (Finished timed_out) s') ->
  (forall s', held Anything s' -> both id ESCALATED s' -> Q (Finished aborted) s') ->
  (forall s' crs error, held o s' -> Q (Unfinished crs error) s') ->
  held o s ->
  wp (attempt_once cfg env task id parent variables n prior) Q (fun _ => held Anything) s.
Proof.
  intros Henv Hid Hsettle Hcancel Habort Hfail Hs. unfold attempt_once.
  assert (Hany : forall (e : exn) s', held o s' -> held Anything s') by (intros e s'; apply held_anything).
  eapply (wp_keep (held o)); [apply keeps_log, tl_create_task_attempt_law|done| |done]. intros a s1 Hs1.
  assert (Hrun : forall s2, held o s2 ->
    wp (run_attempt cfg env task id variables n a prior) Q (fun _ => held Anything) s2).
  { intros s2 Hs2. by apply run_attempt_wp with o; [| |intros session s3; apply Hsettle|..]. }
  assert (Hhandler : forall (e : exn) s2, held o s2 -> wp (move cfg id ESCALATED ;; mret false)
    (fun ok => wp (if ok : bool then run_attempt cfg env task id variables n a prior else mret (Finished aborted))
                 Q (fun _ => held Anything)) (fun _ => held Anything) s2).
  { intros e s2 Hs2. apply wp_bind, (wp_try_escalate o); [done|by eapply watching_known|].
    intros s3 Hs3 Hb. by apply wp_ret, wp_ret, Habort. }
  apply wp_bind. destruct (if decide (1 < n)%Z then ts_pre_retry task else None) as [path|].
  2: { apply wp_ret. by apply Hrun. }
  apply wp_catch, wp_bind. eapply wp_mono; [apply keeps_wp_inv; [by apply keeps_context|exact Hs1]| |].
  - intros ctx s2 Hs2. apply wp_bind. eapply wp_mono; [apply keeps_wp_inv; [by apply keeps_callback|exact Hs2]| |].
    + intros u s3 Hs3. apply wp_ret. by apply Hrun.
    + intros e s3 Hs3. by apply (Hhandler e).
  - intros e s2 Hs2. by apply (Hhandler e).
Qed.

(** ** How a session's outcome is settled *)

(** The output the scheduler has recorded for a task. *)
Definition recorded s id (name : string) : option string :=
  default ∅ (_task_outputs (sc s) !! parent_of (sc s) id) !! name ≫= fun o => o.

(** A log write leaves the scheduler's tables alone. *)
Lemma wp_log {A} o (m : M W A) (Q : A -> sys W -> Prop) (E : exn -> sys W -> Prop) s :
  status_quiet m -> held o s ->
  (forall a w, held o (s .[store := w]) -> Q a (s .[store := w])) ->
  (forall e w, held o (s .[store := w]) -> E e (s .[store := w])) -> wp (on_store m) Q E s.
Proof.
  intros Hm Hs HQ HE. pose proof (keeps_log o m Hm s Hs) as Hk. revert Hk.
  unfold wp, on_store, zoom. destruct (m (store s)) as [[a|e] w]; simpl; [apply HQ|apply HE].
Qed.

Lemma wp_failed_attempt o a session id crs error (Q : attempt_end -> sys W -> Prop) s :
  held o s -> (forall s', held o s' -> Q (Unfinished crs error) s') ->
  wp (attempt_failed env a session id crs error) Q (fun _ => held Anything) s.
Proof.
  intros Hs HQ. unfold attempt_failed. eapply (wp_keep (held o)); [apply keeps_complete_attempt|done| |].
  - intros _ s' Hs'. by apply wp_ret, HQ.
  - intros e s'. apply held_anything.
Qed.

Lemma settle_known task id a session s :
  held (Known id) s ->
  wp (settle env task id a session)
    (fun e s' => match e with
                 | Finished r => held Anything s' /\ both id COMPLETED s' /\
                     tr_check_results r = [check_result true "Task completed"] /\
                     tr_output r = recorded s' id (ts_name task)
                 | Unfinished _ _ => held (Known id) s'
                 end) (fun _ => held Anything) s.
Proof.
  intros Hs. unfold settle. apply wp_bind, wp_mgets. pose proof (proj2 Hs) as [st Hst].
  unfold state_of in Hst. rewrite Hst.
  destruct st; try (by apply (wp_failed_attempt (Known id))).
  unfold _get_scoped_outputs. apply wp_bind, wp_bind, wp_mgets, wp_bind, wp_mmod, wp_mgets.
  set (s1 := s .[sc ::= _]).
  assert (Hs1 : held (Known id) s1) by by apply (held_fields (Known id) s).
  set (text := default ∅ (_task_outputs (sc s1) !! parent_of (sc s) id) !! ts_name task ≫= fun o => o).
  assert (Ht : text = recorded s1 id (ts_name task)) by done.
  assert (Hst1 : state_of s1 id = Some COMPLETED) by done. clearbody s1. clear Hst.
  assert (Hdone : wp (_complete_attempt env a session (default ""%string text) true id ;;
      mret (Finished (task_result text None [check_result true "Task completed"])))
    (fun e s' => match e with
                 | Finished r => held Anything s' /\ both id COMPLETED s' /\
                     tr_check_results r = [check_result true "Task completed"] /\
                     tr_output r = recorded s' id (ts_name task)
                 | Unfinished _ _ => held (Known id) s'
                 end) (fun _ => held Anything) s1).
  { unfold _complete_attempt. apply wp_bind, wp_bind, wp_mgets, wp_bind, wp_mgets, wp_bind, wp_mgets.
    apply (wp_log (Known id)); [apply tl_complete_task_attempt_law|done| |].
    - intros u w Hw. apply wp_ret. split_and!; [by eapply held_anything| |done|done]. split; [done|].
      by apply (ho_done _ (proj1 Hw)).
    - intros e w Hw. by eapply held_anything. }
  destruct (ts_output_schema task) as [schema|]; [|exact Hdone]. simpl.
  destruct (_validate_output_schema env text schema) as [[] m d f]; [exact Hdone|].
  by apply (wp_failed_attempt (Known id)).
Qed.

Lemma settle_lost task id a session s :
  held (Lost id) s ->
  wp (settle env task id a session)
    (fun e s' => match e with Finished _ => False | Unfinished _ _ => held (Lost id) s' end)
    (fun _ => held Anything) s.
Proof.
  intros Hs. unfold settle. apply wp_bind, wp_mgets. destruct (lo_state _ _ (proj2 Hs)) as (st & Hst & Hin).
  unfold state_of in Hst. rewrite Hst.
  elem_of_cases Hin; by apply (wp_failed_attempt (Lost id)).
Qed.

(** ** All attempts *)

(** A result and the state of the task it goes with. *)
Definition ended_well (task : TaskSpec) id (r : TaskResult) s : Prop :=
  (both id COMPLETED s /\ tr_check_results r = [check_result true "Task completed"] /\
     tr_output r = recorded s id (ts_name task)) \/
  (both id CANCELLED s /\ r = timed_out) \/ (both id ESCALATED s /\ r = aborted).

Lemma reset_known id s :
  held (Known id) s -> held (Known id) (s .[sc ::= fun x => x .[_task_states ::= <[id := CREATED]>]]).
Proof.
  intros [Hh Hk]. set (s' := s .[sc ::= _]). assert (Hm : moved s s' id CREATED) by done. split.
  - apply (honest_moved s s' id CREATED); [done..|apply Hh|done| |done].
    destruct Hk as [st Hst]. by apply (ho_known s Hh id st).
  - by eapply moved_self.
Qed.

Lemma reset_lost id s :
  held (Lost id) s ->
  held (Lost id) (s .[sc ::= fun x => x .[_task_states ::= <[id := CREATED]>]]).
Proof.
  intros [Hh Hl]. pose proof Hl as [(st & Hst & _) L2]. set (s' := s .[sc ::= _]).
  assert (Hm : moved s s' id CREATED) by done. split.
  - apply (honest_moved s s' id CREATED); [done|by exists st|done|apply Hh|done| |done].
    by apply (ho_known s Hh id st).
  - split; [|done..]. exists CREATED. rewrite (moved_state _ _ _ _ _ Hm), decide_True by done.
    split; [done|left].
Qed.

Lemma attempt_loop_wp o (Q : TaskResult -> sys W -> Prop) task id parent variables left n crs prior s :
  (forall n prior s, held o s ->
     wp (attempt_once cfg env task id parent variables n prior)
       (fun e s' => match e with Finished r => Q r s' | Unfinished _ _ => held o s' end)
       (fun _ => held Anything) s) ->
  (forall s, held o s -> held o (s .[sc ::= fun x => x .[_task_states ::= <[id := CREATED]>]])) ->
  held o s ->
  wp (attempt_loop cfg env task id parent variables left n crs prior)
    (fun out s' => match out with inl r => Q r s' | inr _ => held o s' end) (fun _ => held Anything) s.
Proof.
  intros Honce Hreset. revert n crs prior s. induction left as [|left IH]; intros n crs prior s Hs; [done|].
  cbn [attempt_loop]. apply wp_bind. eapply wp_mono; [by apply Honce| |done]. intros [r|crs' error] s1 Hs1; [done|].
  apply wp_bind. destruct left as [|left]; [apply wp_ret|apply wp_set_state]; apply IH; [done|by apply Hreset].
Qed.

Lemma loop_known task id parent variables left n crs prior s :
  env_keeps (held (Known id)) -> held (Known id) s ->
  wp (attempt_loop cfg env task id parent variables left n crs prior)
    (fun out s' => match out with inl r => ended_well task id r s' | inr _ => held (Known id) s' end)
    (fun _ => held Anything) s.
Proof.
  intros Henv Hs. apply (attempt_loop_wp (Known id)); [|apply reset_known|done].
  intros n' prior' s1 Hs1. apply (attempt_once_wp (Known id)); try done.
  - intros a session s2 Hs2. eapply wp_mono; [by apply settle_known| |done].
    intros [r|c e] s3; [|done]. intros (_ & Hb & Hc & Ho). left. by split_and!.
  - intros s2 _ Hb. right. by left.
  - intros s2 _ Hb. right. by right.
Qed.

Lemma loop_lost task id parent variables left n crs prior s :
  env_keeps (held (Lost id)) -> held (Lost id) s ->
  wp (attempt_loop cfg env task id parent variables left n crs prior)
    (fun out s' => match out with
                   | inl r => both id CANCELLED s' /\ r = timed_out \/ both id ESCALATED s' /\ r = aborted
                   | inr _ => held (Lost id) s'
                   end) (fun _ => held Anything) s.
Proof.
  intros Henv Hs. apply (attempt_loop_wp (Lost id)
    (fun r s' => both id CANCELLED s' /\ r = timed_out \/ both id ESCALATED s' /\ r = aborted));
    [|apply reset_lost|done].
  intros n' prior' s1 Hs1. apply (attempt_once_wp (Lost id)); try done.
  - intros a session s2 Hs2. eapply wp_mono; [by apply settle_lost| |done]. by intros [r|c e] s3.
  - intros s2 _ Hb. by left.
  - intros s2 _ Hb. by right.
Qed.

(** ** Escalation *)

(** What telling the parent or the overseer is asked to keep. *)
Definition escalated_in id s : Prop := honest s /\ both id ESCALATED s.

Definition quiet_escalation id : Prop :=
  (forall session prompt, keeps (escalated_in id) (ae_send env None session prompt)) /\
  (forall e, keeps (escalated_in id) (ae_send_overseer env e)).

Definition escalation_result (r : TaskResult) : Prop :=
  tr_output r = None /\ is_Some (tr_structured_output r).

(** The transition to [escalated], which the tables have already made. *)
Lemma wp_escalate_start {A} o id (tell : M (sys W) A) Q (E : exn -> sys W -> Prop) s :
  held o s -> is_Some (state_of s id) ->
  (forall s', escalated_in id s' ->
     (forall old, ts_status (store s) id = Some old -> task_step old "escalated") -> wp tell Q E s') ->
  (forall s' old, state_of s' id = Some ESCALATED -> ts_status (store s) id = Some old ->
     ts_status (store s') id = Some old -> E (InvalidTransitionError old "escalated") s') ->
  wp (set_state id ESCALATED ;; smod (fun x => x .[_file_lock_registry ::= delete id]) ;;
      transition cfg id ESCALATED ;; tell) Q E s.
Proof.
  intros [Hh _] Hid Htell HE. apply wp_bind, wp_set_state, wp_bind, wp_mmod, wp_bind.
  set (s1 := upd sc _ _). assert (Hm1 : moved s s1 id ESCALATED) by done.
  apply (wp_honest_transition cfg false s s1 id ESCALATED); try done.
  - intros s2 Hh2 Hm2 Hst _ Hv. apply Htell; [|by intros old Hold; apply Hv]. split; [done|]. split; [|done].
    rewrite (moved_state _ _ _ _ _ Hm2). by rewrite decide_True.
  - intros s2 old _ Hh2 Hm2 E1 E2 _ Hv. apply HE; try done.
    rewrite (moved_state _ _ _ _ _ Hm2). by rewrite decide_True.
Qed.

Lemma escalate_wp o task id parent variables crs prior s :
  env_keeps (held o) -> watching o id -> quiet_escalation id -> held o s ->
  wp (escalate cfg env task id parent variables crs prior)
    (fun r s' => both id ESCALATED s' /\ escalation_result r) (fun _ _ => True) s.
Proof.
  intros Henv Hid [Hsend Htell] Hs. unfold escalate.
  eapply (wp_keep (held o)); [by apply keeps_context|done| |done]. intros ctx s1 Hs1.
  apply (wp_escalate_start o); [done|by eapply watching_known| |done]. intros s2 Hs2 _.
  apply wp_bind, wp_mgets, wp_bind.
  set (parent_session := match parent with Some p => _ | None => None end).
  set (told := match parent_session with Some session => _ | None => _ end).
  assert (Hk : keeps (escalated_in id) told).
  { unfold told. destruct parent_session; [|apply Htell]. apply keeps_bind; [apply Hsend|].
    intros ?. apply keeps_ret. }
  eapply wp_mono; [by apply keeps_wp_inv| |done]. intros _ s3 [_ Hb]. apply wp_ret. split; [done|].
  split; [done|]. by eexists.
Qed.

(** Only [postcheck_failed] may be escalated. *)
Lemma escalated_from old : task_step old "escalated" -> old = "postcheck_failed"%string.
Proof.
  unfold task_step, validate_task_transition. rewrite decide_False by done. case_decide; [done|].
  unfold TASK_TRANSITIONS. cbn [assoc]. repeat case_decide; try done; subst; try done;
    match goal with H : _ ∈ _ |- _ => apply (bool_decide_eq_true_2 (_ ∈ _)) in H; vm_compute in H; done end.
Qed.

(** ** Main theorems *)

(** C3. The result of an agent's task says what became of it.  When the executor of an agent's task returns -
    after whatever number of attempts, whatever tools the sessions called - scheduler and store hold the
    task in one and the same state: completed, and the result carries the output recorded for it;
    cancelled, after a timeout; or escalated.  The task is registered, scheduler and store agree on the states
    that matter ([honest]), and what is awaited - sessions that call tools, prompts, functions, the overseer -
    keeps what the tools keep ([env_keeps]), and while the task is being escalated leaves it so. *)
Theorem agent_task_result task id parent variables s r s' :
  env_keeps (held (Known id)) -> quiet_escalation id ->
  honest s -> is_Some (state_of s id) ->
  _execute_agent_task cfg env task id parent variables s = (Ok r, s') ->
  ended_well task id r s' \/ both id ESCALATED s' /\ escalation_result r.
Proof.
  intros Henv Hesc Hh Hid Er. assert (Hs : held (Known id) s) by by split.
  assert (Hw : wp (_execute_agent_task cfg env task id parent variables)
    (fun r s' => ended_well task id r s' \/ both id ESCALATED s' /\ escalation_result r) (fun _ _ => True) s).
  { unfold _execute_agent_task. destruct (ts_agent task), (ts_task_prompt task); try done.
    apply wp_bind. eapply wp_mono; [by apply loop_known| |done]. intros [r1|[crs prior]] s2 H1.
    - apply wp_ret. by left.
    - eapply wp_mono; [by apply (escalate_wp (Known id))| |done]. intros r2 s3 H2. by right. }
  unfold wp in Hw. by rewrite Er in Hw.
Qed.

(** Failed postchecks are final.  Once the postchecks of a task have failed and the scheduler has reset
    it for another attempt, no later attempt can complete it: whatever tools its new sessions call, the
    store refuses to start it again, and when the executor returns the task is escalated or
    cancelled, with no output. *)
Theorem failed_postchecks_are_final task id parent variables left n crs prior s :
  env_keeps (held (Lost id)) -> quiet_escalation id -> honest s -> lost id s ->
  wp (out ← attempt_loop cfg env task id parent variables left n crs prior;
      match out with
      | inl r => mret r
      | inr (crs, prior) => escalate cfg env task id parent variables crs prior
      end)
    (fun r s' => (both id ESCALATED s' \/ both id CANCELLED s') /\ tr_output r = None) (fun _ _ => True) s.
Proof.
  intros Henv Hesc Hh Hl. assert (Hs : held (Lost id) s) by by split.
  apply wp_bind. eapply wp_mono; [by apply loop_lost| |done]. intros [r1|[crs' prior']] s1 H1.
  - apply wp_ret. destruct H1 as [[? ->]|[? ->]]; (split; [|done]); [by right|by left].
  - eapply wp_mono; [by apply (escalate_wp (Lost id))| |done]. intros r2 s2 [? [? _]]. split; [by left|done].
Qed.

(** Only failed postchecks can be escalated.  When every attempt failed otherwise - the session raised,
    ended without ending the task, never started it, or its output did not validate - the store refuses the
    escalation: the executor raises before anyone is told, and scheduler and store are left apart. *)
Theorem escalation_needs_failed_postchecks task id parent variables crs prior s old :
  honest s -> is_Some (state_of s id) -> is_Some (nesting_depth (sc s) id) ->
  ts_status (store s) id = Some old -> old <> "postcheck_failed"%string ->
  exists s', escalate cfg env task id parent variables crs prior s =
      (Raise (InvalidTransitionError old "escalated"), s') /\
    state_of s' id = Some ESCALATED /\ ts_status (store s') id = Some old.
Proof.
  intros Hh Hid [depth Hd] Hold Hne. assert (Hs : held (Known id) s) by by split.
  assert (Hw : wp (escalate cfg env task id parent variables crs prior) (fun _ _ => False)
    (fun e s' => e = InvalidTransitionError old "escalated" /\ state_of s' id = Some ESCALATED /\
       ts_status (store s') id = Some old) s).
  { unfold escalate, _make_task_context. apply wp_bind, wp_bind, wp_mgets. rewrite Hd.
    apply wp_bind, wp_mgets, wp_ret. apply (wp_escalate_start (Known id)); [done..| |].
    - intros s2 _ Hv. by destruct Hne; apply escalated_from, Hv.
    - intros s2 old' Hst Ho Ho'. rewrite Hold in Ho. injection Ho as <-. by split_and!. }
  apply wp_cases in Hw as [(? & ? & _ & [])|(e & s' & -> & -> & ?)]. by exists s'.
Qed.

(** ** Headless runs *)

Lemma keeps_log_escalated {A} id (m : M W A) : status_quiet m -> keeps (escalated_in id) (on_store m).
Proof.
  intros Hm s [Hh [Hst Hs]].
  destruct (keeps_log Anything m Hm s (conj Hh I)) as [Hh' _]. split; [done|].
  destruct (Hm (store s)) as [_ Hk]. unfold on_store, zoom in *. destruct (m (store s)) as [r w]. simpl in *.
  split; [done|]. simpl. by rewrite Hk.
Qed.

(** The fallbacks write records only. *)
Lemma headless_keeps (I : sys W -> Prop) sinks fields e :
  (forall A (m : M W A), status_quiet m -> keeps I (on_store m)) ->
  (forall sink, sink ∈ sinks -> keeps I (sink e)) ->
  keeps I (_send_overseer_event cfg None sinks fields e).
Proof.
  intros Hlog Hsinks. unfold _send_overseer_event, _handle_headless_event. apply keeps_bind.
  - destruct (default _ _); simpl; try apply keeps_ret; try apply keeps_throw.
    apply keeps_bind; [apply Hlog, tl_write_event_law|]. intros _.
    case_decide; [apply keeps_throw|apply keeps_ret].
  - intros _. apply keeps_mfor. intros sink Hin. apply keeps_catch; [by apply Hsinks|]. intros _. apply keeps_ret.
Qed.

(** Without an overseer an exhausted task raises.  In a run without an overseer, escalating a task
    that has no parent session to tell never returns a result: the fallback for [TaskEscalated] calls
    the inbox without its required arguments, whatever the sinks, the store and the state of the task. *)
Theorem headless_escalation_raises sinks fields task id parent variables crs prior s :
  (forall e, ae_send_overseer env e = _send_overseer_event cfg None sinks fields e) ->
  (forall p session, parent = Some p -> _task_sessions (sc s) !! p = Some session ->
     _task_states (sc s) !! p <> Some ACTIVE) ->
  keeps (fun s' => _task_states (sc s') = _task_states (sc s) /\ _task_sessions (sc s') = _task_sessions (sc s))
    (te_blocked (ae_task env)) ->
  exists e s', escalate cfg env task id parent variables crs prior s = (Raise e, s').
Proof.
  intros Hov Hparent Hblocked.
  set (I := fun s' : sys W => _task_states (sc s') = _task_states (sc s) /\ _task_sessions (sc s') = _task_sessions (sc s)).
  assert (Hw : wp (escalate cfg env task id parent variables crs prior) (fun _ _ => False) (fun _ _ => True) s).
  2: { apply wp_cases in Hw as [(? & ? & _ & [])|(e & s' & E & _)]. by exists e, s'. }
  assert (HI : I s) by done. unfold escalate.
  assert (Hctx : keeps I (_make_task_context cfg env task id parent (ts_retry task + 1) prior variables)).
  { unfold _make_task_context. apply keeps_bind; [apply keeps_mgets|]. intros [depth|].
    - apply keeps_bind; [apply keeps_mgets|]. intros notepad. apply keeps_ret.
    - apply keeps_bind; [done|]. intros _. apply keeps_throw. }
  eapply (wp_keep I); [exact Hctx|done| |done]. intros ctx s1 [E1 E2].
  apply wp_bind, wp_set_state, wp_bind, wp_mmod, wp_bind.
  set (s2 := upd sc _ _). unfold wp at 1, transition, on_store, zoom.
  destruct (ts_transition_task id (TaskState_value ESCALATED) None (_run_principal_id cfg) (store s2)) as [[u|e] w];
    [|done].
  apply wp_bind, wp_mgets.
  destruct (match parent with Some p => _ | None => None end) as [session|] eqn:Hps.
  - exfalso. destruct parent as [p|]; [|done]. simpl in Hps. case_decide as Ha; [|done].
    rewrite E2 in Hps. rewrite dict_lookup_insert, E1 in Ha. case_decide; [done|].
    by apply (Hparent p session).
  - apply wp_bind. rewrite Hov. unfold _send_overseer_event, _handle_headless_event.
    change (default _DEFAULT_FALLBACK _) with WriteToTrace. apply wp_bind, wp_bind.
    unfold wp at 1, on_store, zoom. by destruct (tl_write_event _ _ _ _ _ _) as [[a|e] w'].
Qed.

(** ** Orchestrators *)

(** A task that runs as an orchestrator. *)
Definition plain_orchestrator (task : TaskSpec) : bool :=
  match ts_for_each task, ts_callable task, ts_subtasks task, ts_wait_for task with
  | None, None, None, None => default false (ts_orchestrator task) && negb (default false (ts_decision_point task))
  | _, _, _, _ => false
  end.

(** C39. Orchestrators never start.  Executing an orchestrator's task, new or just registered, raises before
    it has a session: the task goes to [active] at once, and the store has no transition from [created]
    to [active].  The scheduler goes on to count as active what the store holds as created.  The scheduler is
    not paused (its event [_paused] is set while it runs), and the task has no for_each, callable, subtasks,
    wait_for or decision point, so the orchestrator's mode is the one it runs in ([plain_orchestrator]). *)
Theorem orchestrators_never_start task parent tid variables depth s :
  plain_orchestrator task = true -> ts_inv (store s) -> _paused (sc s) = true ->
  match tid with Some id => ts_status (store s) id = Some "created"%string | None => True end ->
  exists id s', execute_task cfg (full_env cfg env depth) task parent tid variables s =
      (Raise (InvalidTransitionError "created" "active"), s') /\
    state_of s' id = Some ACTIVE /\ ts_status (store s') id = Some "created"%string /\
    match tid with Some i => id = i | None => ts_status (store s) id = None end.
Proof.
  intros Ho Hinv Hp Htid. destruct task as [base pre post subs].
  unfold plain_orchestrator in Ho. simpl in Ho.
  destruct (ts_for_each base) eqn:E1; [done|]. destruct (ts_callable base) eqn:E2; [done|].
  destruct subs as [|]; [done|]. destruct (ts_wait_for base) eqn:E3; [done|].
  apply andb_true_iff in Ho as [E4 E5%negb_true_iff].
  set (post_ := fun id (s' : sys W) => state_of s' id = Some ACTIVE /\ ts_status (store s') id = Some "created"%string /\
    match tid with Some i => id = i | None => ts_status (store s) id = None end).
  assert (Hw : wp (execute_task cfg (full_env cfg env depth) (mkTaskSpec base pre post None) parent tid variables)
    (fun _ _ => False) (fun e s' => e = InvalidTransitionError "created" "active" /\ exists id, post_ id s') s).
  2: { apply wp_cases in Hw as [(? & ? & _ & [])|(e & s' & E & -> & id & Hid)]. by exists id, s'. }
  assert (Hmove : forall id s1, ts_inv (store s1) -> ts_status (store s1) id = Some "created"%string ->
    (forall s', state_of s' id = Some ACTIVE -> ts_status (store s') id = Some "created"%string -> post_ id s') ->
    wp (execute_mode cfg (full_env cfg env depth) (mkTaskSpec base pre post None) id parent variables None)
      (fun _ _ => False) (fun e s' => e = InvalidTransitionError "created" "active" /\ exists id, post_ id s') s1).
  { intros id s1 Hinv1 Hst1 Hend. unfold execute_mode. simpl. rewrite E2, E3, E5.
    assert (Ha : te_agent (full_env cfg env depth) (mkTaskSpec base pre post None) id parent variables =
      _execute_orchestrator_task cfg env (fun task parent task_id =>
        match depth with
        | 0 => mthrow (RuntimeError "maximum recursion depth exceeded")
        | S depth' => execute_task cfg (full_env cfg env depth') task parent task_id None
        end) (mkTaskSpec base pre post None) id parent variables).
    { destruct depth; simpl; unfold _execute_orchestrator_or_agent_task; simpl; by rewrite E4. }
    rewrite Ha. unfold _execute_orchestrator_task, move. apply wp_bind, wp_bind, wp_set_state.
    pose proof (ts_transition_law id "active" None (_run_principal_id cfg) (store s1) "created" Hinv1 Hst1) as Hlaw.
    change (validate_task_transition "created" "active") with (Some (InvalidTransitionError "created" "active")) in Hlaw.
    destruct Hlaw as (w & E & _ & Hw). unfold wp, transition, on_store, zoom. simpl. rewrite E. split; [done|].
    exists id. apply Hend; simpl; [unfold state_of; simpl; by rewrite dict_lookup_insert_eq|by rewrite Hw]. }
  simpl. rewrite E1. apply wp_bind. unfold wait_unpaused. apply wp_bind, wp_mgets. rewrite Hp. apply wp_ret, wp_bind.
  destruct tid as [id|].
  - apply wp_ret, Hmove; [done..|]. intros s' ??. by split_and!.
  - unfold obtain_task. apply wp_bind, wp_create; [done|]. intros id w Hinv' Hnew Hstat.
    apply wp_bind. unfold _init_task_state. apply wp_mmod, wp_ret, Hmove; simpl; [done|by rewrite Hstat, decide_True|].
    intros s' ??. by split_and!.
Qed.
End agents.

(** ** Witnesses

    An agent whose sessions start their task and end it with a given message; checks fail exactly when the
    message is "bad".  Sessions are numbered by attempt. *)

Definition coder : Agent := {|
  ag_name := "coder"; ag_category := None; ag_provider := Some "openai"%string;
  ag_model := Some "gpt-4o"%string; ag_allow := []; ag_budget := None; ag_write_paths := None; ag_timeout := None |}.
Definition coder_cfg : sched_config := {|
  _run_id := 100; _run_principal_id := 101; _agents := Dict [("coder"%string, coder)]; _categories := ∅;
  _budget_exhaustion_policy := BLOCK_NEW; _pricing := None; _mechanical_constraints := [] |}.
Definition coder_task : TaskSpec :=
  mkTaskSpec ((TaskBase_default "build") .[ts_agent := Some "coder"%string]
                .[ts_task_prompt := Some "do"%string] .[ts_timeout := Some 60%Z] .[ts_retry := 1%Z])
    [] [ScriptExecution "m:f"] None.

Abbreviation coder_calls :=
  (run_calls coder_cfg demo_checks demo_constraint (fun m => m) demo_commit demo_success).

Definition zero_usage : Usage := {|
  u_input_tokens := 0; u_output_tokens := 0; u_reasoning_tokens := 0; u_cache_read_tokens := 0;
  u_cache_write_tokens := 0 |}.

(** What the session of each attempt calls; messages sent without a deadline change nothing. *)
Definition coder_env (script : uuid -> list call) (tell : overseer_event -> M (sys mem_store) unit) : agent_env mem_store := {|
  ae_task := tree_env;
  ae_transports := ["openai"%string];
  ae_open_session provider model task id n previous := mret n;
  ae_totals session s := zero_usage;
  ae_send timeout session prompt :=
    match timeout with
    | Some _ => fun s => (Ok [Result "done"], coder_calls (script session) s)
    | None => mret []
    end;
  ae_resume session continuation message := mret [];
  ae_close session := mret tt;
  ae_refresh := mret tt;
  ae_assemble_prompt task id variables n attempt_id prior := mret "prompt"%string;
  ae_resolve_task_variables text variables := Ok text;
  ae_render_template name args := name;
  ae_exn_type e := "Exception"%string;
  ae_session_name id n := (if decide (n = 1) then "S1" else "S2")%Z%string;
  ae_elapsed id s := 0%Z;
  ae_json_loads text := None;
  ae_jsonschema v schema := None;
  ae_send_overseer := tell;
  ae_model_context_limit := 1000;
  ae_percent used limit := VNone;
  ae_turns := 5
|}.

Definition session_calls (id : uuid) (name message : string) : list call :=
  [CallStart name (Some id); CallEnd name message].
Abbreviation one_session := (session_calls 1).

Lemma coder_env_keeps o script :
  env_keeps (coder_env script (fun _ => mret tt)) (held o).
Proof.
  split; intros; simpl in *; try apply keeps_ret.
  - destruct timeout as [t|]; [|apply keeps_ret]. intros s Hh. simpl.
    apply (tool_calls_held coder_cfg _ _ _ _ _ (fun _ _ => demo_quiet _) (fun _ _ _ => demo_quiet _)
      (fun _ _ => demo_quiet _) (fun _ _ _ => demo_quiet _)), Hh.
  - destruct (bool_decide (f = "missing"%string)); [done|].
    match goal with E : Imported _ = Imported _ |- _ => injection E as <- end. apply keeps_ret.
Qed.

Lemma coder_env_quiet script id : quiet_escalation (coder_env script (fun _ => mret tt)) id.
Proof. split; intros; apply keeps_ret. Qed.

Definition coder_start : sys mem_store := snd (register_task coder_cfg coder_task None demo_start).

Lemma coder_start_honest : honest coder_start.
Proof.
  pose proof (register_held (W := mem_store) coder_cfg Anything coder_task None demo_start) as Hw.
  assert (H0 : held (W := mem_store) Anything demo_start).
  { split; [|done]. split; [apply mem_store_init_inv|by intros k st..|by intros k]. }
  specialize (Hw H0). unfold wp in Hw. unfold coder_start.
  destruct (register_task coder_cfg coder_task None demo_start) as [[a|e] s]; apply Hw.
Qed.

Abbreviation overseen script := (coder_env script (fun _ => mret tt)).
Abbreviation coder_run script :=
  (_execute_agent_task coder_cfg (overseen script) coder_task 1 None None coder_start).

(** A good first session completes the task. *)
Lemma agent_task_result_witness :
  exists r, fst (coder_run (fun _ => one_session "S1" "good")) = Ok r /\
    tr_output r = Some "good"%string /\
    ended_well coder_task 1 r (snd (coder_run (fun _ => one_session "S1" "good"))).
Proof.
  pose proof (agent_task_result coder_cfg (overseen (fun _ => one_session "S1" "good")) coder_task 1 None None
    coder_start) as Hr.
  assert (Hok : match fst (coder_run (fun _ => one_session "S1" "good")) with
                | Ok r => tr_output r = Some "good"%string /\ tr_structured_output r = None
                | Raise _ => False end) by (vm_compute; by split).
  destruct (coder_run (fun _ => one_session "S1" "good")) as [[r|e] s']; [|done].
  destruct (Hr r s' (coder_env_keeps (Known 1) _) (coder_env_quiet _ 1) coder_start_honest
    ltac:(vm_compute; by eexists) eq_refl) as [Hc|[_ [_ [v Hv]]]].
  - exists r. split; [exact eq_refl|]. split; [apply Hok|exact Hc].
  - destruct Hok as [_ Hn]. rewrite Hn in Hv. discriminate Hv.
Defined.

(** After a first session whose postchecks fail, and the reset that follows it. *)
Definition coder_again : sys mem_store :=
  (coder_calls (one_session "S1" "bad") coder_start) .[sc ::= fun x => x .[_task_states ::= <[1%Z := CREATED]>]].

Lemma coder_again_lost : honest coder_again /\ lost 1 coder_again.
Proof.
  assert (Hh : held (Known 1) (coder_calls (one_session "S1" "bad") coder_start)).
  { apply (tool_calls_held coder_cfg _ _ _ _ _ (fun _ _ => demo_quiet _) (fun _ _ _ => demo_quiet _)
      (fun _ _ => demo_quiet _) (fun _ _ _ => demo_quiet _)).
    split; [apply coder_start_honest|vm_compute; by eexists]. }
  split; [exact (proj1 (reset_known 1 _ Hh))|]. split.
  - exists CREATED. split; [vm_compute; reflexivity|left].
  - vm_compute. reflexivity.
Qed.

(** The second session ends its task with a message that passes the checks; the task is escalated all the
    same. *)
Abbreviation second_attempt :=
  (out ← attempt_loop coder_cfg (overseen (fun _ => one_session "S2" "good")) coder_task 1 None None 1 2 [] [];
   match out with
   | inl r => mret r
   | inr (crs, prior) => escalate coder_cfg (overseen (fun _ => one_session "S2" "good")) coder_task 1 None None crs prior
   end).

Lemma second_attempt_run :
  is_ok (fst (second_attempt coder_again)) = true /\
  state_of (snd (second_attempt coder_again)) 1 = Some ESCALATED.
Proof. vm_compute. by split. Qed.

Lemma failed_postchecks_are_final_witness :
  exists r s', second_attempt coder_again = (Ok r, s') /\ tr_output r = None /\ both 1 ESCALATED s'.
Proof.
  destruct (wp_cases _ _ _ _ (failed_postchecks_are_final coder_cfg (overseen (fun _ => one_session "S2" "good"))
    coder_task 1 None None 1 2 [] [] coder_again
    (coder_env_keeps (Lost 1) _)
    (coder_env_quiet _ 1) (proj1 coder_again_lost) (proj2 coder_again_lost))) as [(r & s' & E & Hb & Ho)|(e & s' & E & _)];
    pose proof second_attempt_run as Hok; rewrite E in Hok; destruct Hok as [Hk Hst]; [|discriminate Hk].
  exists r, s'. split; [exact E|]. split; [exact Ho|].
  destruct Hb as [Hb|[Hc _]]; [exact Hb|]. simpl in Hst. rewrite Hc in Hst. discriminate Hst.
Defined.

(** A session that never starts its task: the escalation is refused. *)
Lemma escalation_needs_failed_postchecks_witness :
  exists s', escalate coder_cfg (overseen (fun _ => [])) coder_task 1 None None [] [] coder_start =
      (Raise (InvalidTransitionError "created" "escalated"), s') /\
    state_of s' 1 = Some ESCALATED /\ ts_status (store s') 1 = Some "created"%string.
Proof.
  apply (escalation_needs_failed_postchecks coder_cfg (overseen (fun _ => [])) coder_task 1 None None [] []
    coder_start "created" coder_start_honest).
  - vm_compute. by eexists.
  - vm_compute. by eexists.
  - vm_compute. reflexivity.
  - discriminate.
Defined.

Abbreviation headless script := (coder_env script (_send_overseer_event coder_cfg None [] (fun _ => []))).

Lemma headless_escalation_raises_witness :
  (exists e s', escalate coder_cfg (headless (fun _ => [])) coder_task 1 None None [] [] coder_again = (Raise e, s')) /\
  state_of (snd (escalate coder_cfg (headless (fun _ => [])) coder_task 1 None None [] [] coder_again)) 1 = Some ESCALATED.
Proof.
  split; [|vm_compute; reflexivity].
  apply (headless_escalation_raises coder_cfg (headless (fun _ => [])) [] (fun _ => []) coder_task 1 None None [] [] coder_again).
  - reflexivity.
  - discriminate.
  - apply keeps_ret.
Defined.

Definition conductor : TaskSpec :=
  mkTaskSpec ((TaskBase_default "conduct") .[ts_agent := Some "coder"%string]
                .[ts_task_prompt := Some "do"%string] .[ts_orchestrator := Some true]) [] [] None.

Lemma orchestrators_never_start_witness :
  exists id s', execute_task coder_cfg (full_env coder_cfg (overseen (fun _ => [])) 3) conductor None None None demo_start =
      (Raise (InvalidTransitionError "created" "active"), s') /\
    state_of s' id = Some ACTIVE /\ ts_status (store s') id = Some "created"%string /\
    ts_status (store (W := mem_store) demo_start) id = None.
Proof.
  apply (orchestrators_never_start coder_cfg (overseen (fun _ => [])) conductor None None None 3 demo_start).
  - reflexivity.
  - apply mem_store_init_inv.
  - reflexivity.
  - exact I.
Defined.
