(* ===== verification/Loader.v ===== *)
(** scheduler/_loader.py: from a parsed workflow document to a [WorkflowConfig].

    Reading TOML is the standard library's; the document gate is generated code: [gate] tells which
    documents it accepts.  A document is what [tomllib] gives for one of the right shape. *)
From S2P Require Import Prelude PyDict Types Graph Validator.

(** [prechecks] and [postchecks] sections *)
Record raw_agent_check := {
  ra_agent : string; ra_task : string; ra_block_threshold : string; ra_variables : option (list string)
}.
Record raw_checks := { rc_scripts : option (list string); rc_agents : option (list raw_agent_check) }.

(** A task table.  A [TaskBase] has its plain fields, with the defaults where a field is missing. *)
Inductive raw_task :=
| RawTask (fields : TaskBase) (prechecks postchecks : option raw_checks) (subtasks : option (list raw_task)).

Record document := {
  d_name : string;
  d_description : string;
  d_escalation_policy : option string;
  d_tasks : list raw_task;
  d_dependencies : option (dict string (list string));
  d_services : option (list ServiceConfig)
}.

(** [Severity(...)] *)
Definition severity_of (s : string) : result Severity :=
  match find (fun p => bool_decide (p.1 = s))
          [("critical", CRITICAL); ("major", MAJOR); ("minor", MINOR); ("nit", NIT)]%string with
  | Some (_, severity) => Ok severity
  | None => Raise (ValueError "is not a valid Severity")
  end.

Definition _parse_postchecks (raw : raw_checks) : result (list Execution) :=
  agents ← rmap (fun a =>
    severity ← severity_of (ra_block_threshold a);
    Ok (AgentExecution (ra_agent a) (ra_task a) severity (default [] (ra_variables a))))
    (default [] (rc_agents raw));
  Ok (map ScriptExecution (default [] (rc_scripts raw)) ++ agents).

Definition parse_checks (raw : option raw_checks) : result (list Execution) :=
  match raw with Some raw => _parse_postchecks raw | None => Ok [] end.

(** [orchestrator] and [execution_target] are no document fields. *)
Fixpoint _parse_task (raw : raw_task) : result TaskSpec :=
  let 'RawTask fields prechecks postchecks subtasks := raw in
  pre ← parse_checks prechecks;
  post ← parse_checks postchecks;
  subs ← (match subtasks with
          | Some subs => subs ← rmap _parse_task subs; Ok (Some subs)
          | None => Ok None
          end);
  Ok (mkTaskSpec (fields .[ts_orchestrator := None] .[ts_execution_target := None]) pre post subs).

(** [_validate_dependencies] *)
Definition check_dependency (task_names : list string) (sd : string * list string) : result unit :=
  if decide (sd.1 ∈ task_names) then
    if decide (Forall (fun dep => dep ∈ task_names) sd.2) then Ok tt
    else Raise (ValueError "Dependency target does not match any task")
  else Raise (ValueError "Dependency source does not match any task").

Definition _validate_dependencies (dependencies : dict string (list string)) (task_names : list string) :
    result unit :=
  rfold (fun _ sd => check_dependency task_names sd) tt (ditems dependencies).

(** [EscalationPolicy(...)] *)
Definition policy_of (s : string) : result EscalationPolicy :=
  match find (fun p => bool_decide (p.1 = s))
          [("continue_independent", CONTINUE_INDEPENDENT); ("halt", HALT); ("abort_all", ABORT_ALL)]%string with
  | Some (_, policy) => Ok policy
  | None => Raise (ValueError "is not a valid EscalationPolicy")
  end.

(** [task.model_copy(update={"depends_on": ...})] *)
Definition with_depends_on (deps : list string) (task : TaskSpec) : TaskSpec :=
  let 'mkTaskSpec base pre post subs := task in mkTaskSpec (base .[ts_depends_on := Some deps]) pre post subs.

Section loader.
Context (gate : document -> bool).

Definition load_workflow (data : document) : result WorkflowConfig :=
  if gate data then
    tasks ← rmap _parse_task (d_tasks data);
    let dependencies := default ∅ (d_dependencies data) in
    _validate_dependencies dependencies (spec_names tasks) ≫= fun _ =>
    let updated_tasks := map (fun task : TaskSpec =>
      match dependencies !! ts_name task with
      | Some deps => with_depends_on deps task
      | None => task
      end) tasks in
    policy ← (match d_escalation_policy data with
              | Some s => policy_of s
              | None => Ok CONTINUE_INDEPENDENT
              end);
    Ok {| wc_name := d_name data; wc_description := d_description data; wc_tasks := updated_tasks;
          wc_dependencies := dependencies; wc_escalation_policy := policy;
          wc_services := default [] (d_services data) |}
  else Raise (ValueError "Invalid workflow document").

(** The order in which [_execute_task_groups] runs the tasks of a workflow. *)
Definition task_groups (config : WorkflowConfig) : result (list (list string)) :=
  let graph := build_graph (wc_tasks config) (wc_dependencies config) in
  order ← topological_sort graph;
  find_parallel_groups graph order.
End loader.

(** ** Lemmas *)

Lemma validate_dependencies_ok dependencies names :
  _validate_dependencies dependencies names = Ok tt <->
  forall source deps, (source, deps) ∈ ditems dependencies ->
    source ∈ names /\ forall dep, dep ∈ deps -> dep ∈ names.
Proof.
  unfold _validate_dependencies. induction (ditems dependencies) as [|[source deps] items IH]; cbn [rfold].
  - split; [|done]. by intros _ s d ?%not_elem_of_nil.
  - unfold check_dependency; cbn [fst snd]. split.
    + destruct (decide (source ∈ names)) as [Hs|]; [|done].
      destruct (decide (Forall (fun dep => dep ∈ names) deps)) as [Hd|]; [|done]. rewrite Forall_forall in Hd.
      intros E s d [[= -> ->]|Hin]%elem_of_cons; [done|]. by apply (proj1 IH E).
    + intros Hall. destruct (Hall source deps) as [Hs Hd]; [left|]. rewrite decide_True by done.
      rewrite decide_True by by apply Forall_forall. apply IH. intros s d Hin. apply Hall. by right.
Qed.

(** What a loaded configuration has of its document. *)
Lemma load_workflow_ok gate data config :
  load_workflow gate data = Ok config ->
  wc_dependencies config = default ∅ (d_dependencies data) /\
  (exists tasks, rmap _parse_task (d_tasks data) = Ok tasks /\ spec_names tasks = task_names config /\
     wc_tasks config = map (fun task : TaskSpec =>
       match wc_dependencies config !! ts_name task with
       | Some deps => with_depends_on deps task | None => task end) tasks) /\
  _validate_dependencies (wc_dependencies config) (task_names config) = Ok tt.
Proof.
  unfold load_workflow. destruct (gate data); [|done].
  destruct (rmap _parse_task (d_tasks data)) as [tasks|e]; [|done]. cbn [mbind result_bind].
  set (deps := default ∅ (d_dependencies data)).
  destruct (_validate_dependencies deps (spec_names tasks)) as [[]|e] eqn:Hv; [|done]. cbn [mbind result_bind].
  set (tasks' := map _ tasks).
  assert (Hn : spec_names tasks' = spec_names tasks).
  { unfold tasks', spec_names. rewrite <- list_fmap_compose. apply list_fmap_ext. intros i [b pre post subs] _.
    simpl. by destruct (deps !! ts_name b). }
  destruct (match d_escalation_policy data with Some s => policy_of s | None => _ end) as [policy|e]; [|done].
  intros [= <-]. unfold task_names. cbn [wc_tasks wc_dependencies]. fold (spec_names tasks'). rewrite Hn.
  split; [done|]. split; [|done]. by exists tasks.
Qed.

(** The groups of a configuration. *)
Lemma task_groups_spec config groups :
  dwf (wc_dependencies config) -> task_groups config = Ok groups ->
  let graph := build_graph (wc_tasks config) (wc_dependencies config) in
  concat groups ≡ₚ dkeys graph /\ NoDup (concat groups) /\
  forall i g n, groups !! i = Some g -> n ∈ g ->
    (forall dep, dep ∈ deps_of graph n -> exists j g', j < i /\ groups !! j = Some g' /\ dep ∈ g') /\
    (0 < i -> exists dep, dep ∈ deps_of graph n).
Proof.
  intros Hdwf Hg graph. unfold task_groups in Hg. fold graph in Hg.
  pose proof (built_wf (wc_tasks config) _ Hdwf) as Hwf. fold graph in Hwf.
  destruct (topological_sort graph) as [order|e] eqn:Et; [|done].
  assert (Hcl : closed graph).
  { intros node dep Hdep. apply dec_stable. intros Hno.
    destruct (topological_sort_unknown graph node dep (proj1 Hwf) Hdep Hno) as (k & Ek & _). congruence. }
  pose proof (topological_sort_spec graph Hwf Hcl) as Hsort. rewrite Et in Hsort.
  destruct Hsort as (Hperm & Htopo & _).
  assert (Hno : NoDup order) by (rewrite Hperm; apply Hwf).
  destruct (find_parallel_groups_spec graph order Hno Htopo) as (groups' & Eg & Hconcat & Hgroups).
  change (find_parallel_groups graph order = Ok groups) in Hg. rewrite Eg in Hg. injection Hg as <-.
  split; [by rewrite Hconcat|]. split; [by rewrite Hconcat|].
  intros i g n Hi Hn. destruct (Hgroups i g n Hi Hn) as [H1 H2]. split; [done|].
  intros (dep & _ & Hd & _)%H2. by exists dep.
Qed.

Lemma sorted_groups config order :
  dwf (wc_dependencies config) -> closed (build_graph (wc_tasks config) (wc_dependencies config)) ->
  topological_sort (build_graph (wc_tasks config) (wc_dependencies config)) = Ok order ->
  exists groups, task_groups config = Ok groups.
Proof.
  intros Hdwf Hcl Et. unfold task_groups.
  pose proof (built_wf (wc_tasks config) _ Hdwf) as Hwf. set (graph := build_graph _ _) in *.
  pose proof (topological_sort_spec graph Hwf Hcl) as Hsort. rewrite Et in Hsort |- *.
  destruct Hsort as (Hperm & Htopo & _).
  assert (Hno : NoDup order) by (rewrite Hperm; apply Hwf).
  destruct (find_parallel_groups_spec graph order Hno Htopo) as (groups & Eg & _). by exists groups.
Qed.

Lemma deps_closed config :
  dwf (wc_dependencies config) ->
  (forall source deps, (source, deps) ∈ ditems (wc_dependencies config) ->
     source ∈ task_names config /\ forall dep, dep ∈ deps -> dep ∈ task_names config) ->
  closed (build_graph (wc_tasks config) (wc_dependencies config)) /\
  forall n, n ∈ dkeys (build_graph (wc_tasks config) (wc_dependencies config)) <-> n ∈ task_names config.
Proof.
  intros Hdwf Hd.
  assert (Hk : forall n, n ∈ dkeys (build_graph (wc_tasks config) (wc_dependencies config)) <-> n ∈ task_names config).
  { intros n. rewrite built_keys by done. change (spec_names (wc_tasks config)) with (task_names config).
    split; [|by left]. intros [?|Hn]; [done|].
    apply elem_of_dkeys in Hn. destruct (wc_dependencies config !! n) as [deps|] eqn:E; [|done].
    by apply dict_lookup_Some_in, Hd in E as [? _]. }
  split; [|done]. intros node dep Hdep. apply Hk. apply built_deps in Hdep as (deps & E & Hin); [|done].
  apply dict_lookup_Some_in, Hd in E as [_ E]. by apply E.
Qed.

(** ** Main theorems *)

(** A loaded workflow can be validated.  The loader refuses dependencies on names that are no tasks, so
    for a workflow it returns the validator always comes back with its list of errors; and if the list
    is empty the tasks can be put in groups: every task in exactly one, each dependency of the
    [dependencies] section in an earlier group than the task that has it. *)
Theorem loaded_workflow_schedules gate data config headless :
  load_workflow gate data = Ok config -> dwf (wc_dependencies config) ->
  exists errors, validate_task_tree config headless = Ok errors /\
    (errors = [] -> exists groups, task_groups config = Ok groups /\
       concat groups ≡ₚ task_names config /\
       forall n deps dep i g, wc_dependencies config !! n = Some deps -> dep ∈ deps ->
         groups !! i = Some g -> n ∈ g -> exists j g', j < i /\ groups !! j = Some g' /\ dep ∈ g').
Proof.
  intros Hl Hdwf. destruct (load_workflow_ok _ _ _ Hl) as (_ & _ & Hv).
  pose proof (proj1 (validate_dependencies_ok _ _) Hv) as Hd. destruct (deps_closed config Hdwf Hd) as [Hcl Hk].
  set (graph := build_graph (wc_tasks config) (wc_dependencies config)) in *.
  pose proof (built_wf (wc_tasks config) _ Hdwf) as Hwf. fold graph in Hwf.
  destruct (validate_tree_unfold headless config) as (m & Hm & m' & _ & ->). fold graph.
  pose proof (topological_sort_spec graph Hwf Hcl) as Hsort.
  destruct (topological_sort graph) as [order|e] eqn:Et.
  2: { destruct e; try done. eexists. split; [done|]. intros [[_ [=]]%app_nil _]%app_nil. }
  eexists. split; [done|]. intros [(Hnd & _)%Hm _]%app_nil.
  destruct (sorted_groups config order Hdwf Hcl Et) as [groups Hg]. exists groups. split; [done|].
  destruct (task_groups_spec config groups Hdwf Hg) as (Hc & Hno & Hgr). split.
  - apply NoDup_Permutation; [done..|]. intros n. rewrite Hc. apply Hk.
  - intros n deps dep i g E Hin Hi Hn. destruct (Hgr i g n Hi Hn) as [H1 _]. apply H1, built_deps; [done|].
    by exists deps.
Qed.

(** The [depends_on] of a top-level task is not scheduled by.  A task that is no key of the document's
    [dependencies] section runs in the first group, together with the tasks its own [depends_on]
    names, if those are no keys either. *)
Theorem top_level_depends_on_ignored gate data config groups (task : TaskSpec) :
  load_workflow gate data = Ok config -> dwf (wc_dependencies config) -> task_groups config = Ok groups ->
  task ∈ wc_tasks config -> default ∅ (d_dependencies data) !! ts_name task = None ->
  exists g, groups !! 0 = Some g /\ ts_name task ∈ g.
Proof.
  intros Hl Hdwf Hg Hin Hno. destruct (load_workflow_ok _ _ _ Hl) as (He & _ & Hv).
  rewrite <- He in Hno. pose proof (proj1 (validate_dependencies_ok _ _) Hv) as Hd. destruct (deps_closed config Hdwf Hd) as [Hcl Hk].
  destruct (task_groups_spec config groups Hdwf Hg) as (Hc & _ & Hgr).
  assert (Hn : ts_name task ∈ concat groups).
  { rewrite Hc. apply Hk. apply list_elem_of_fmap. by exists task. }
  apply list_elem_of_In, in_concat in Hn as (g & Hgin & Hn).
  apply list_elem_of_In, list_elem_of_lookup in Hgin as [i Hi]. apply list_elem_of_In in Hn.
  destruct i as [|i]; [by exists g|].
  destruct (Hgr (S i) g (ts_name task) Hi Hn) as [_ [dep Hdep]]; [lia|].
  apply built_deps in Hdep as (deps & E & _); [|done]. congruence.
Qed.

(** ** Witnesses

    The example of the configuration guide: [test] and [lint] depend on [implement]. *)

Definition agent_table (name prompt : string) (deps : option (list string)) (checks : option raw_checks) : raw_task :=
  RawTask ((TaskBase_default name) .[ts_agent := Some "coder"%string] .[ts_task_prompt := Some prompt]
             .[ts_depends_on := deps] .[ts_timeout := Some 600%Z] .[ts_context_refinement := Some true])
    None checks None.

Definition scripts (callable : string) : option raw_checks :=
  Some {| rc_scripts := Some [callable]; rc_agents := None |}.

Definition guide_tasks : list raw_task :=
  [ agent_table "implement" "Implement the feature described in the project spec." None None;
    agent_table "test" "Write tests for the implementation." (Some ["implement"%string])
      (scripts "myproject.checks:pytest_passes");
    agent_table "lint" "Fix any lint issues found by ruff." (Some ["implement"%string])
      (scripts "myproject.checks:ruff_passes") ].

Definition guide (dependencies : option (dict string (list string))) : document := {|
  d_name := "feature-pipeline"; d_description := "Implement a feature with tests and lint check.";
  d_escalation_policy := None; d_tasks := guide_tasks; d_dependencies := dependencies; d_services := None |}.

Definition any_gate (data : document) : bool := true.

Definition loaded (dependencies : option (dict string (list string))) : WorkflowConfig :=
  match load_workflow any_gate (guide dependencies) with
  | Ok config => config
  | Raise _ => {| wc_name := ""; wc_description := ""; wc_tasks := []; wc_dependencies := ∅;
                  wc_escalation_policy := HALT; wc_services := [] |}
  end.

Definition guide_section : option (dict string (list string)) :=
  Some (Dict [("test", ["implement"]); ("lint", ["implement"])])%string.

(** As a [dependencies] section the two come after [implement]. *)
Lemma loaded_workflow_schedules_witness :
  task_groups (loaded guide_section) = Ok [["implement"]; ["test"; "lint"]]%string /\
  exists errors, validate_task_tree (loaded guide_section) false = Ok errors /\
    (errors = [] -> exists groups, task_groups (loaded guide_section) = Ok groups /\
       concat groups ≡ₚ task_names (loaded guide_section) /\
       forall n deps dep i g, wc_dependencies (loaded guide_section) !! n = Some deps -> dep ∈ deps ->
         groups !! i = Some g -> n ∈ g -> exists j g', j < i /\ groups !! j = Some g' /\ dep ∈ g').
Proof.
  split; [vm_compute; reflexivity|].
  apply (loaded_workflow_schedules any_gate (guide guide_section)).
  - vm_compute. reflexivity.
  - refine (bool_decide_eq_true_1 _ _). vm_compute. reflexivity.
Defined.

(** As the tasks' own [depends_on] the guide's document runs all three at once. *)
Lemma top_level_depends_on_ignored_witness :
  task_groups (loaded None) = Ok [["implement"; "test"; "lint"]]%string /\
  exists (task : TaskSpec) g, task ∈ wc_tasks (loaded None) /\ ts_depends_on task = Some ["implement"%string] /\
    [["implement"; "test"; "lint"]]%string !! 0 = Some g /\ ts_name task ∈ g.
Proof.
  split; [vm_compute; reflexivity|].
  destruct (wc_tasks (loaded None)) as [|t1 [|t2 l]] eqn:E; [discriminate E|discriminate E|].
  assert (Hin : t2 ∈ wc_tasks (loaded None)) by (rewrite E; right; left).
  assert (Hd : ts_depends_on t2 = Some ["implement"%string])
    by (vm_compute in E; injection E as _ <- _; reflexivity).
  destruct (top_level_depends_on_ignored any_gate (guide None) (loaded None)
    [["implement"; "test"; "lint"]]%string t2) as (g & Hg & Hn).
  - vm_compute. reflexivity.
  - refine (bool_decide_eq_true_1 _ _). vm_compute. reflexivity.
  - vm_compute. reflexivity.
  - exact Hin.
  - reflexivity.
  - exists t2, g. split; [rewrite <- E; exact Hin|]. split; [exact Hd|]. split; [exact Hg|exact Hn].
Defined.
