(* ===== verification/RunStore.v ===== *)
(** What the scheduler needs of the store for the run itself - its status, control callbacks, locks and
    crash recovery - as an interface with laws, and the in-memory backend as an instance. *)
From S2P Require Import Prelude PyDict Types Transitions Trace TraceReader TraceSpec Store.

(** [subscribe_run_control] up to its last statement; returns the status it signals at once. *)
Definition subscribe_run_control_row (run_id : uuid) (cb : callback) : M backend (option string) :=
  mmod (fun b => b .[_control_callbacks ::= <[run_id := cb]>]) ;;
  b ← mget;
  mret (match _runs b !! run_id with
        | Some run => if decide (r_status run ∈ ["paused"; "aborted"]%string) then Some (r_status run) else None
        | None => None
        end).

Lemma subscribe_run_control_unfold {W} (get_b : W -> backend) put_b call run_id cb :
  (forall b w, get_b (put_b b w) = b) -> (forall b w b', put_b b' (put_b b w) = put_b b' w) ->
  forall w, subscribe_run_control get_b put_b call run_id cb w =
    (st ← zoom get_b put_b (subscribe_run_control_row run_id cb);
     match st with Some st => call cb run_id st | None => mret tt end) w.
Proof.
  intros Hgp Hpp w. unfold subscribe_run_control, subscribe_run_control_row, zoom, mbind, M_bind. simpl.
  rewrite Hgp, Hpp. destruct (_runs _ !! run_id); [|done]. by case_decide.
Qed.

Class RunStore (W : Type) := {
  (** [true] when a control callback is registered, which the caller then awaits *)
  rs_transition_run : uuid -> string -> uuid -> M W bool;
  (** the status to signal to the new callback at once *)
  rs_subscribe_run_control : uuid -> M W (option string);
  rs_unsubscribe_run_control : uuid -> M W unit;
  rs_acquire_run_lock : uuid -> M W unit;
  rs_reclaim_interrupted : M W unit;
  rs_reevaluate_blocked : M W unit;
  rs_clean_orphaned : M W unit;
  rs_write_coherence_summary : uuid -> string -> M W unit;
  rs_status : W -> uuid -> option string;
  rs_subscribed : W -> uuid -> bool;
  rs_locked : W -> uuid -> bool;
  rs_inv : W -> Prop
}.

(** Nothing about runs has changed, nor about tasks. *)
Definition same_runs {W} `{RunStore W} (w w' : W) : Prop :=
  (forall k, rs_status w' k = rs_status w k) /\ (forall k, rs_subscribed w' k = rs_subscribed w k) /\
  (forall k, rs_locked w' k = rs_locked w k).

Definition same_tasks {W} `{TraceStore W} (w w' : W) : Prop :=
  (ts_inv w -> ts_inv w') /\ forall k, ts_status w' k = ts_status w k.

Definition executing : list string := ["active"; "prechecking"; "postchecking"]%string.

(** What a store promises about runs: a transition happens exactly when the run state machine allows it;
    a lock is exclusive; reclaiming cancels the executing tasks, whichever run they belong to; cleaning
    fails the live runs that nobody has locked. *)
Class RunStoreLaws (W : Type) `{TraceStore W, RunStore W} := {
  rs_transition_law id new p w old :
    rs_inv w -> rs_status w id = Some old ->
    match validate_run_transition old new with
    | Some e => exists w', rs_transition_run id new p w = (Raise e, w') /\ rs_inv w' /\
        same_runs w w' /\ same_tasks w w'
    | None => exists w', rs_transition_run id new p w = (Ok (rs_subscribed w id), w') /\ rs_inv w' /\
        (forall k, rs_status w' k = if decide (k = id) then Some new else rs_status w k) /\
        (forall k, rs_subscribed w' k = rs_subscribed w k) /\ (forall k, rs_locked w' k = rs_locked w k) /\
        same_tasks w w'
    end;
  rs_subscribe_law id w :
    rs_inv w -> exists w', rs_subscribe_run_control id w =
        (Ok (st ← rs_status w id; if decide (st ∈ ["paused"; "aborted"]%string) then Some st else None), w') /\
      rs_inv w' /\ (forall k, rs_status w' k = rs_status w k) /\ (forall k, rs_locked w' k = rs_locked w k) /\
      (forall k, rs_subscribed w' k = if decide (k = id) then true else rs_subscribed w k) /\ same_tasks w w';
  rs_unsubscribe_law id w :
    rs_inv w -> exists w', rs_unsubscribe_run_control id w = (Ok tt, w') /\ rs_inv w' /\
      (forall k, rs_status w' k = rs_status w k) /\ (forall k, rs_locked w' k = rs_locked w k) /\
      (forall k, rs_subscribed w' k = if decide (k = id) then false else rs_subscribed w k) /\ same_tasks w w';
  rs_acquire_law id w :
    rs_inv w -> if rs_locked w id then rs_acquire_run_lock id w = (Raise (RunLockError id), w) else
    exists w', rs_acquire_run_lock id w = (Ok tt, w') /\ rs_inv w' /\
      (forall k, rs_status w' k = rs_status w k) /\ (forall k, rs_subscribed w' k = rs_subscribed w k) /\
      (forall k, rs_locked w' k = if decide (k = id) then true else rs_locked w k) /\ same_tasks w w';
  rs_reclaim_law w :
    rs_inv w -> exists w', rs_reclaim_interrupted w = (Ok tt, w') /\ rs_inv w' /\ same_runs w w' /\
      (ts_inv w -> ts_inv w') /\
      forall k, ts_status w' k = (st ← ts_status w k;
        Some (if decide (st ∈ executing) then "cancelled"%string else st));
  rs_reevaluate_law w : exists w', rs_reevaluate_blocked w = (Ok tt, w') /\ w' = w;
  rs_clean_law w :
    rs_inv w -> exists w', rs_clean_orphaned w = (Ok tt, w') /\ rs_inv w' /\
      (forall k, rs_status w' k = (st ← rs_status w k;
         Some (if decide (st ∈ ["running"; "paused"]%string) then
                 if rs_locked w k then st else "failed"%string else st))) /\
      (forall k, rs_subscribed w' k = rs_subscribed w k) /\ (forall k, rs_locked w' k = rs_locked w k) /\
      same_tasks w w';
  rs_coherence_law id summary w :
    rs_inv w -> exists w', rs_write_coherence_summary id summary w = (Ok tt, w') /\ rs_inv w' /\
      same_runs w w' /\ same_tasks w w'
}.

(** ** The in-memory backend *)

Definition mem_run_status (s : mem_store) (id : uuid) : option string :=
  r_status <$> _runs (ms_backend s) !! id.

(** Fresh ids for [n] events. *)
Definition fresh_ids (n : nat) : M mem_store (list Z) := fun s =>
  ((Ok (map (fun i => (ms_next s + Z.of_nat i)%Z) (seq 0 n))), s .[ms_next ::= fun x => (x + Z.of_nat n)%Z]).

#[export] Instance mem_run_store : RunStore mem_store := {
  rs_transition_run id new p :=
    ev ← fresh; cb ← in_backend (transition_run_row ev ev ev id new None p);
    mret (match cb with Some _ => true | None => false end);
  rs_subscribe_run_control id := in_backend (subscribe_run_control_row id id);
  rs_unsubscribe_run_control id := in_backend (unsubscribe_run_control id);
  rs_acquire_run_lock id := in_backend (acquire_run_lock id);
  rs_reclaim_interrupted :=
    n ← mgets (fun s => length (ditems (_tasks (ms_backend s)))); ids ← fresh_ids n; now ← fresh;
    in_backend (reclaim_interrupted ids now) ;; mret tt;
  rs_reevaluate_blocked := in_backend reevaluate_blocked ;; mret tt;
  rs_clean_orphaned :=
    n ← mgets (fun s => length (ditems (_runs (ms_backend s)))); ids ← fresh_ids n; now ← fresh;
    in_backend (clean_orphaned ids now now) ;; mret tt;
  rs_write_coherence_summary id summary := in_backend (write_coherence_summary id summary);
  rs_status := mem_run_status;
  rs_subscribed s id := bool_decide (is_Some (_control_callbacks (ms_backend s) !! id));
  rs_locked s id := run_locked (ms_backend s) id;
  rs_inv s := dicts_wf (ms_backend s)
}.

Lemma mem_same_tasks w w' :
  _tasks (ms_backend w') = _tasks (ms_backend w) -> (ms_next w <= ms_next w')%Z -> same_tasks w w'.
Proof.
  intros Et En. split.
  - intros Hinv id Hid. simpl in Hid |- *. rewrite Et. apply Hinv. lia.
  - intros k. simpl. unfold mem_status. by rewrite Et.
Qed.

Lemma mem_transition_law id new p (w : mem_store) old :
  rs_inv w -> rs_status w id = Some old ->
  match validate_run_transition old new with
  | Some e => exists w', rs_transition_run id new p w = (Raise e, w') /\ rs_inv w' /\
      same_runs w w' /\ same_tasks w w'
  | None => exists w', rs_transition_run id new p w = (Ok (rs_subscribed w id), w') /\ rs_inv w' /\
      (forall k, rs_status w' k = if decide (k = id) then Some new else rs_status w k) /\
      (forall k, rs_subscribed w' k = rs_subscribed w k) /\ (forall k, rs_locked w' k = rs_locked w k) /\
      same_tasks w w'
  end.
Proof.
  intros Hinv Hst. unfold rs_status in Hst; simpl in Hst. apply fmap_Some in Hst as (run & Hrun & ->).
  pose proof (dicts_wf_step _ _ Hinv (step_transition_run (ms_backend w) (ms_next w) (ms_next w) (ms_next w) id new None p))
    as Hinv'.
  assert (E : rs_transition_run id new p w =
    (let '(r, b) := transition_run_row (ms_next w) (ms_next w) (ms_next w) id new None p (ms_backend w) in
     (match r with Ok (Some _) => Ok true | Ok None => Ok false | Raise e => Raise e end,
      {| ms_backend := b; ms_next := Z.succ (ms_next w) |}))).
  { simpl. unfold in_backend, zoom, fresh, mbind, M_bind; simpl.
    by destruct (transition_run_row _ _ _ _ _ _ _ _) as [[[cb|]|e] b]. }
  rewrite E. clear E. revert Hinv'. unfold transition_run_row, mbind, M_bind; simpl. rewrite Hrun.
  destruct (validate_run_transition (r_status run) new) as [e|] eqn:Hv; simpl; intros Hinv'.
  - eexists. split; [done|]. split; [exact Hinv'|]. split; [by split_and!|]. apply mem_same_tasks; simpl; [done|lia].
  - eexists. split; [f_equal|].
    + by destruct (_control_callbacks (ms_backend w) !! id).
    + split; [exact Hinv'|]. split.
      * intros k. unfold rs_status; simpl. unfold mem_run_status; simpl. rewrite dict_lookup_insert.
        destruct (decide (k = id)); [simpl; by case_decide|done].
      * split_and!; [done..|]. apply mem_same_tasks; simpl; [done|lia].
Qed.

Lemma mem_subscribe_law id (w : mem_store) :
  rs_inv w -> exists w', rs_subscribe_run_control id w =
      (Ok (st ← rs_status w id; if decide (st ∈ ["paused"; "aborted"]%string) then Some st else None), w') /\
    rs_inv w' /\ (forall k, rs_status w' k = rs_status w k) /\ (forall k, rs_locked w' k = rs_locked w k) /\
    (forall k, rs_subscribed w' k = if decide (k = id) then true else rs_subscribed w k) /\ same_tasks w w'.
Proof.
  intros Hinv. eexists. split; [|split; [|split; [|split; [|split]]]].
  - simpl. unfold in_backend, zoom, subscribe_run_control_row, mbind, M_bind; simpl. unfold mem_run_status.
    f_equal. by destruct (_runs (ms_backend w) !! id).
  - exact Hinv.
  - done.
  - done.
  - intros k. simpl. rewrite dict_lookup_insert. by case_decide.
  - apply mem_same_tasks; simpl; [done|lia].
Qed.

Lemma mem_reclaim_law (w : mem_store) :
  rs_inv w -> exists w', rs_reclaim_interrupted w = (Ok tt, w') /\ rs_inv w' /\ same_runs w w' /\
    (ts_inv w -> ts_inv w') /\
    forall k, ts_status w' k = (st ← ts_status w k;
      Some (if decide (st ∈ executing) then "cancelled"%string else st)).
Proof.
  intros Hinv. simpl. unfold in_backend, zoom, fresh, fresh_ids, mbind, M_bind; simpl.
  rewrite reclaim_interrupted_spec by apply Hinv. eexists. split; [done|].
  split; [|split; [by split_and!|split]]; simpl.
  - destruct Hinv as (H1 & H2 & H3 & H4). split_and!; simpl; auto with pydb.
  - intros Hts id Hid. simpl. rewrite dict_lookup_dmap. rewrite Hts by lia. done.
  - intros k. unfold mem_status. simpl. rewrite dict_lookup_dmap.
    destruct (_tasks (ms_backend w) !! k) as [task|]; [|done]. simpl. f_equal.
    unfold cancel_interrupted, task_interrupted. case_bool_decide; simpl; [by rewrite decide_True|].
    by rewrite decide_False.
Qed.

Lemma mem_clean_law (w : mem_store) :
  rs_inv w -> exists w', rs_clean_orphaned w = (Ok tt, w') /\ rs_inv w' /\
    (forall k, rs_status w' k = (st ← rs_status w k;
       Some (if decide (st ∈ ["running"; "paused"]%string) then
               if rs_locked w k then st else "failed"%string else st))) /\
    (forall k, rs_subscribed w' k = rs_subscribed w k) /\ (forall k, rs_locked w' k = rs_locked w k) /\
    same_tasks w w'.
Proof.
  intros Hinv. simpl. unfold in_backend, zoom, fresh, fresh_ids, mbind, M_bind; simpl.
  rewrite clean_orphaned_spec by apply Hinv. eexists. split; [done|].
  split; [|split; [|split_and!; [done..|apply mem_same_tasks; simpl; [done|lia]]]].
  - unfold rs_inv; simpl.
    match goal with |- context [cleaned ?i ?n ?m ?b] => pose proof (step_clean b i n m) as Hst end.
    rewrite clean_orphaned_spec in Hst by apply Hinv. exact (dicts_wf_step _ _ Hinv Hst).
  - intros k. simpl. unfold mem_run_status. simpl. rewrite dict_lookup_dmap.
    destruct (_runs (ms_backend w) !! k) as [run|] eqn:Hrun; [|done]. simpl. f_equal.
    pose proof (proj2 (proj2 (proj2 Hinv)) k run Hrun) as Hid.
    unfold fail_orphan, run_orphaned. rewrite Hid.
    case_bool_decide; simpl; [rewrite decide_True by done|by rewrite decide_False].
    by destruct (run_locked (ms_backend w) k).
Qed.

#[export] Instance mem_run_store_laws : RunStoreLaws mem_store.
Proof.
  split.
  - apply mem_transition_law.
  - apply mem_subscribe_law.
  - intros id w Hinv. eexists. split; [done|]. split; [exact Hinv|]. split_and!; [done..| |].
    + intros k. simpl. rewrite dict_lookup_delete. by case_decide.
    + apply mem_same_tasks; simpl; [done|lia].
  - intros id w Hinv. simpl. unfold in_backend, zoom, acquire_run_lock, mbind, M_bind; simpl.
    destruct (run_locked (ms_backend w) id); [by destruct w|]. eexists. split; [done|].
    split; [exact Hinv|]. split_and!; [done..| |].
    + intros k. unfold run_locked; simpl. rewrite dict_lookup_insert. by case_decide.
    + apply mem_same_tasks; simpl; [done|lia].
  - apply mem_reclaim_law.
  - intros w. eexists. split; [done|]. by destruct w.
  - apply mem_clean_law.
  - intros id summary w Hinv. simpl. unfold in_backend, zoom, write_coherence_summary, mbind, M_bind; simpl.
    destruct (_runs (ms_backend w) !! id) as [run|] eqn:Hrun; simpl; eexists; (split; [done|]); simpl.
    + split; [|split; [split_and!; [|done..]|apply mem_same_tasks; simpl; [done|lia]]].
      * destruct Hinv as (H1 & H2 & H3 & H4). split_and!; simpl; auto with pydb.
        apply runs_id_insert; [done|]. simpl. by apply H4.
      * intros k. simpl. unfold mem_run_status; simpl. rewrite dict_lookup_insert. case_decide; [|done].
        subst. by rewrite Hrun.
    + split; [exact Hinv|]. split; [by split_and!|]. apply mem_same_tasks; simpl; [done|lia].
Qed.
