(* ===== verification/Workflow.v ===== *)
(** Running a workflow: [Scheduler.execute_workflow] and what it calls - crash recovery, registration,
    the loop over the groups of tasks, pausing and aborting (scheduler/_executor.py) - and the
    services it starts (scheduler/_services.py).

    Processes, the clock and the executor of a task are parameters; how long an asyncio task that was
    cancelled goes on is theirs to say. *)
From S2P Require Import Prelude PyDict Text Types Transitions Graph Validator Loader Store RunStore Scheduler TaskDispatch OverseerLink AgentExecution.

(** Operating system processes and the event loop's clock, in milliseconds. *)
Record process_env (W : Type) := {
  (** [create_subprocess_shell(command, cwd=...)] *)
  pe_spawn : string -> option string -> M (sys W) uuid;
  pe_returncode : uuid -> sys W -> option Z;
  pe_terminate : uuid -> M (sys W) unit;
  (** [await process.wait()] *)
  pe_wait : uuid -> M (sys W) Z;
  pe_time : sys W -> Z;
  pe_sleep : Z -> M (sys W) unit
}.
Arguments pe_spawn {W} _ _ _.
Arguments pe_returncode {W} _ _ _.
Arguments pe_terminate {W} _ _.
Arguments pe_wait {W} _ _.
Arguments pe_time {W} _ _.
Arguments pe_sleep {W} _ _.

(** ** scheduler/_services.py *)

Section services.
Context {W : Type} (env : process_env W).

Definition check_health (instance : ServiceInstance) : M (sys W) bool :=
  match sv_health_check_command (si_config instance) with
  | None =>
      match si_process instance with
      | None => mret false
      | Some process =>
          rc ← mgets (pe_returncode env process);
          mret (match rc with None => true | Some _ => false end)
      end
  | Some command =>
      proc ← pe_spawn env command (si_work_dir instance);
      code ← pe_wait env proc;
      mret (bool_decide (code = 0)%Z)
  end.

(** [while time() < deadline]: at most [fuel] checks *)
Fixpoint wait_healthy (fuel : nat) (instance : ServiceInstance) (deadline : Z) : M (sys W) ServiceInstance :=
  now ← mgets (pe_time env);
  if (now <? deadline)%Z then
    match fuel with
    | 0 => mthrow (OtherError "out of fuel")
    | S fuel' =>
        healthy ← check_health instance;
        if healthy : bool then mret instance
        else pe_sleep env 500 ;; wait_healthy fuel' instance deadline
    end
  else mthrow TimeoutError.

Definition start_service (config : ServiceConfig) (work_dir : string) : M (sys W) ServiceInstance :=
  process ← pe_spawn env (sv_start_command config) (Some work_dir);
  let instance := {| si_config := config; si_process := Some process; si_port := sv_port config;
                     si_work_dir := Some work_dir |} in
  match sv_health_check_command config with
  | None => mret instance
  | Some _ =>
      now ← mgets (pe_time env);
      wait_healthy (Z.to_nat (2 * sv_ready_timeout config)) instance (now + sv_ready_timeout config * 1000)
  end.

Definition stop_service (instance : ServiceInstance) : M (sys W) unit :=
  match si_process instance with
  | None => mret tt
  | Some process =>
      rc ← mgets (pe_returncode env process);
      match rc with
      | None => pe_terminate env process ;; pe_wait env process ;; mret tt
      | Some _ => mret tt
      end
  end.

Definition _stop_services : M (sys W) unit :=
  instances ← sget _service_instances;
  mfor instances stop_service ;;
  smod (fun s => s .[_service_instances := []]).
End services.

(** ** Controlling the run *)

Section control.
Context {W : Type} `{TraceStore W, RunStore W}.
Context (cfg : sched_config) (procs : process_env W).

Definition abort_run : M (sys W) unit := abort cfg ;; _stop_services procs.

(** [pause], with the [transition_run] it ends in; the asyncio tasks it cancels are outside this state. *)
Definition pause_by (transition_run : string -> M (sys W) unit) : M (sys W) unit :=
  smod (fun s => s .[_paused := false]) ;;
  transition_run "paused"%string.

Definition handle_signal (transition_run : string -> M (sys W) unit) (new_status : string) : M (sys W) unit :=
  if decide (new_status = "aborted"%string) then abort_run
  else if decide (new_status = "paused"%string) then pause_by transition_run
  else mret tt.

(** The store awaits the control callback, [_handle_control_signal], which may transition the run again:
    [depth] bounds how often. *)
Fixpoint transition_run (depth : nat) (new_status : string) : M (sys W) unit :=
  called ← on_store (rs_transition_run (_run_id cfg) new_status (_run_principal_id cfg));
  if called : bool then
    match depth with
    | 0 => mthrow (RuntimeError "maximum recursion depth exceeded")
    | S depth' => handle_signal (transition_run depth') new_status
    end
  else mret tt.

Context (depth : nat).

Definition _handle_control_signal (new_status : string) : M (sys W) unit :=
  handle_signal (transition_run depth) new_status.

Definition pause : M (sys W) unit := pause_by (transition_run depth).

Definition resume : M (sys W) unit :=
  smod (fun s => s .[_paused := true]) ;;
  transition_run depth "running"%string.

Definition is_paused (s : sched) : bool := negb (_paused s).

Definition subscribe_run_control : M (sys W) unit :=
  st ← on_store (rs_subscribe_run_control (_run_id cfg));
  match st with
  | Some status => _handle_control_signal status
  | None => mret tt
  end.

(** The callback of the database listener: [payload] is the notification, when it is JSON. *)
Definition _on_notification (run_id_text : string) (payload : option (dict string string)) : M (sys W) unit :=
  match payload with
  | None => mret tt
  | Some msg =>
      if decide (msg !! "event_type"%string = Some "run_state"%string /\ msg !! "run_id"%string = Some run_id_text)
      then _handle_control_signal (default ""%string (msg !! "new_status"%string))
      else mret tt
  end.
End control.

(** ** Workflows *)

Record workflow_env (W : Type) := {
  we_agents : agent_env W;
  we_procs : process_env W;
  (** whether the scheduler was given a backend or a pool *)
  we_recovers : bool;
  we_read_root : string;
  we_overseer : option (overseer_env W);
  we_sinks : list (overseer_event -> M (sys W) unit);
  we_fields : overseer_event -> list (string * value);
  (** [adapter.session.send] of an overseer with a session, and [write_coherence_summary]'s request *)
  we_coherence : option (M (sys W) (list session_event));
  (** how often control callbacks may call back *)
  we_control_depth : nat
}.
Arguments we_agents {W} _.
Arguments we_procs {W} _.
Arguments we_recovers {W} _.
Arguments we_read_root {W} _.
Arguments we_overseer {W} _.
Arguments we_sinks {W} _.
Arguments we_fields {W} _ _.
Arguments we_coherence {W} _.
Arguments we_control_depth {W} _.

(** The three variables a finished task gives to the groups after it. *)
Definition result_variables (name : string) (result : TaskResult) (duration retries : Z)
    (variables : dict string value) : dict string value :=
  let output := match tr_structured_output result with
                | Some v => if falsy v then vopt (tr_output result) else v
                | None => vopt (tr_output result)
                end in
  <[(name +:+ "_result")%string := VDict [("passed", VBool (all_passed (tr_check_results result)));
       ("duration_seconds", VInt duration); ("retries_used", VInt retries)]%string]>
    (<[(name +:+ "_text")%string := vopt (tr_output result)]>
       (<[(name +:+ "_output")%string := output]> variables)).

Section workflow.
Context {W : Type} `{TraceStore W, TraceLog W, RunStore W}.
Context (cfg : sched_config) (env : workflow_env W).
Abbreviation tenv := (ae_task (we_agents env)).
Abbreviation send_overseer := (_send_overseer_event cfg (we_overseer env) (we_sinks env) (we_fields env)).
Abbreviation vars := (option (dict string value)).

(** The lock comes first: cleaning fails the runs nobody has locked. *)
Definition _crash_recovery : M (sys W) unit :=
  if we_recovers env then
    on_store (rs_acquire_run_lock (_run_id cfg)) ;;
    on_store rs_reclaim_interrupted ;;
    on_store rs_reevaluate_blocked ;;
    on_store rs_clean_orphaned
  else mret tt.

Definition headless : bool := match we_overseer env with None => true | Some _ => false end.

(** Creating the tasks one after the other, in the store and in the scheduler's tables. *)
Fixpoint register_tasks (tasks : list TaskSpec) (task_id_map : dict string uuid) : M (sys W) (dict string uuid) :=
  match tasks with
  | [] => mret task_id_map
  | task :: tasks' =>
      task_id ← on_store (ts_create_task (_run_id cfg) None (ts_name task) (_task_type_for task) None);
      _init_task_state task_id task None ;;
      register_tasks tasks' (<[ts_name task := task_id]> task_id_map)
  end.

Definition _register_workflow_tasks (config : WorkflowConfig) : M (sys W) (dict string uuid) :=
  errors ← liftr (validate_task_tree config headless);
  match errors with
  | [] => register_tasks (wc_tasks config) ∅
  | _ => mthrow (ValueError ("Workflow validation failed: " +:+ String.concat "; " errors)%string)
  end.

(** [execute_task] of a registered task of the workflow. *)
Context (run_task : TaskSpec -> uuid -> vars -> M (sys W) TaskResult).

(** The coroutines of a group, made before any of them runs. *)
Definition group_runs (task_id_map : dict string uuid) (variables : dict string value) (s : sched)
    (group : list string) : option (list (M (sys W) TaskResult)) :=
  mapM (fun name =>
    task_id ← task_id_map !! name;
    spec ← _task_specs s !! task_id;
    Some (run_task spec task_id (Some variables))) group.

(** [zip(group, results)] *)
Fixpoint collect (task_id_map : dict string uuid) (done : list (string * TaskResult)) (variables : dict string value) :
    M (sys W) (dict string value) :=
  match done with
  | [] => mret variables
  | (name, result) :: done' =>
      duration ← mgets (fun s => match task_id_map !! name with
                                 | Some tid => ae_elapsed (we_agents env) tid s
                                 | None => 0%Z
                                 end);
      smod (fun s => s .[_task_results_meta ::= fun d => <[None := default ∅ (d !! None)]> d]) ;;
      meta ← sget (fun s => default ∅ (_task_results_meta s !! None) !! name);
      collect task_id_map done'
        (result_variables name result duration (match meta with Some m => rm_retries_used m | None => 0%Z end) variables)
  end.

Definition escalated_in_group (task_id_map : dict string uuid) (group : list string) (s : sched) : list string :=
  filter (fun name => (tid ← task_id_map !! name; _task_states s !! tid) = Some ESCALATED) group.

(** Between groups; what is unhealthy is logged. *)
Definition check_services : M (sys W) unit :=
  instances ← sget _service_instances;
  mfor instances (fun svc => check_health (we_procs env) svc ;; mret tt).

Fixpoint group_loop (policy : EscalationPolicy) (task_id_map : dict string uuid) (groups : list (list string))
    (variables : dict string value) : M (sys W) unit :=
  match groups with
  | [] => mret tt
  | group :: groups' =>
      wait_unpaused tenv ;;
      s ← sget (fun s => s);
      match group_runs task_id_map variables s group with
      | None => mthrow (KeyError "name")
      | Some runs =>
          results ← gather runs;
          variables ← collect task_id_map (zip group results) variables;
          escalated ← sget (escalated_in_group task_id_map group);
          match escalated, policy with
          | _ :: _, HALT => smod (fun s => s .[_paused := false])
          | _ :: _, ABORT_ALL => abort_run cfg (we_procs env)
          | _, _ => check_services ;; group_loop policy task_id_map groups' variables
          end
      end
  end.

Definition _execute_task_groups (config : WorkflowConfig) (task_id_map : dict string uuid) : M (sys W) unit :=
  groups ← liftr (task_groups config);
  advisories ← sget (fun s => _analyze_structural_advisories cfg s (dvalues task_id_map));
  smod (fun s => s .[_pending_advisories ::= fun l => l ++ advisories]) ;;
  _send_pending_advisories cfg (we_overseer env) (we_sinks env) (we_fields env) ;;
  group_loop (wc_escalation_policy config) task_id_map groups ∅.

Definition _write_coherence_summary : M (sys W) unit :=
  match we_overseer env, we_coherence env with
  | Some _, Some send =>
      events ← send;
      let summary := String.concat "" (result_texts events) in
      if decide (summary = EmptyString) then mret tt
      else on_store (rs_write_coherence_summary (_run_id cfg) summary)
  | _, _ => mret tt
  end.

(** [for svc_config in config.services] *)
Fixpoint start_services (services : list ServiceConfig) : M (sys W) unit :=
  match services with
  | [] => mret tt
  | svc_config :: services' =>
      instance ← start_service (we_procs env) svc_config (we_read_root env);
      smod (fun s => s .[_service_instances ::= fun l => l ++ [instance]]) ;;
      start_services services'
  end.

(** [try: ... finally: ...] *)
Definition mfinally {S A} (m : M S A) (cleanup : M S unit) : M S A :=
  r ← mtry m; cleanup ;; liftr r.

(** The database listener is connection I/O and leaves this state alone. *)
Definition execute_workflow (config : WorkflowConfig) : M (sys W) unit :=
  _crash_recovery ;;
  subscribe_run_control cfg (we_procs env) (we_control_depth env) ;;
  start_services (wc_services config) ;;
  send_overseer (RunStarted (wc_description config) (VDict
    [("name", VStr (wc_name config)); ("description", VStr (wc_description config));
     ("task_count", VInt (Z.of_nat (length (wc_tasks config))));
     ("task_names", VList (VStr <$> task_names config))]%string)) ;;
  mfinally
    (task_id_map ← _register_workflow_tasks config;
     _execute_task_groups config task_id_map ;;
     _write_coherence_summary)
    (_stop_services (we_procs env)) ;;
  on_store (rs_unsubscribe_run_control (_run_id cfg)).
End workflow.

(** The scheduler's own [execute_task]; [depth] is how deep orchestrators may await. *)
Definition run_registered {W} `{TraceStore W, TraceLog W} (cfg : sched_config) (env : agent_env W) (depth : nat)
    (task : TaskSpec) (task_id : uuid) (variables : option (dict string value)) : M (sys W) TaskResult :=
  execute_task cfg (full_env cfg env depth) task None (Some task_id) variables.

(** ** Consultations *)

(** [transport.send] without tools, to the text of its last result. *)
Record transport_env (W : Type) := {
  tp_providers : list string;
  (** the agent's system prompt *)
  tp_prompt : Agent -> string;
  tp_send : string -> string -> string -> string -> M (sys W) (list session_event)
}.
Arguments tp_providers {W} _.
Arguments tp_prompt {W} _ _.
Arguments tp_send {W} _ _ _ _ _.

Definition consult_model (cfg : sched_config) (agent_def : Agent) : result (string * string) :=
  match ag_provider agent_def, ag_model agent_def with
  | Some provider, Some model => Ok (provider, model)
  | _, _ =>
      match ag_category agent_def with
      | None => Raise (ValueError "Agent has no category, provider, or model")
      | Some category =>
          match _categories cfg !! category with
          | None => Raise (ValueError "Category not found")
          | Some resolved => or_raise (split_slash resolved) (ValueError "not enough values to unpack")
          end
      end
  end.

(** [question.replace("{k}", v)] for each variable in turn *)
Definition fill_question (question : string) (variable_values : list (string * string)) : string :=
  foldl (fun q kv => str_replace ("{" +:+ kv.1 +:+ "}")%string kv.2 q) question variable_values.

Definition run_consult {W} (cfg : sched_config) (env : transport_env W) (agent question : string)
    (variable_values : list (string * string)) : M (sys W) string :=
  match _agents cfg !! agent with
  | None => mthrow (ValueError "Agent not found")
  | Some agent_def =>
      '(provider_name, model) ← liftr (consult_model cfg agent_def);
      if decide (provider_name ∈ tp_providers env) then
        events ← tp_send env provider_name (fill_question question variable_values) model (tp_prompt env agent_def);
        mret (default ""%string (last (result_texts events)))
      else mthrow (ValueError "Transport for provider not found")
  end.
