(* ===== verification/WorkflowSpec.v ===== *)
(** What running a workflow guarantees and where it fails: the order in which tasks run; pausing and
    resuming, from inside and from another process; what crash recovery does to other runs; starting on
    a run that is already paused or aborted; how starting a service ends. *)
From S2P Require Import Prelude PyDict Types Transitions Trace TraceSpec Graph Validator Loader Store RunStore Scheduler LifecycleSpec TaskDispatch TaskDispatchSpec OverseerLink AgentExecution AgentExecutionSpec Workflow.

(** ** Order *)

Section order.
Context {W : Type} `{TraceStore W, TraceLog W, RunStore W}.
Context (cfg : sched_config) (env : workflow_env W).
Context (run_task : TaskSpec -> uuid -> option (dict string value) -> M (sys W) TaskResult).
Context (finished : string -> sys W -> Prop).
Context (config : WorkflowConfig) (task_id_map : dict string uuid).
Implicit Types (s : sys W) (n : string).

Definition needed n : list string := default [] (wc_dependencies config !! n).

(** What is asked of the executor: a task started when its dependencies have finished has finished when it
    returns, and nothing undoes that. *)
Definition task_ok n : Prop :=
  forall task_id spec variables s, task_id_map !! n = Some task_id ->
    (forall dep, dep ∈ needed n -> finished dep s) ->
    (forall k, finished k s -> finished k (snd (run_task spec task_id variables s))) /\
    (is_ok (fst (run_task spec task_id variables s)) = true ->
       finished n (snd (run_task spec task_id variables s))).

(** Between the groups nothing undoes it either. *)
Record steady : Prop := {
  sy_wait n : keeps (finished n) (te_paused (ae_task (we_agents env)));
  sy_health n svc : keeps (finished n) (check_health (we_procs env) svc);
  sy_meta n s f : finished n s -> finished n (s .[sc ::= fun x => x .[_task_results_meta ::= f]]);
  sy_pause n s : finished n s -> finished n (s .[sc ::= fun x => x .[_paused := false]])
}.
Context (Hsteady : steady).

Definition all_keep {A} (m : M (sys W) A) : Prop := forall n, keeps (finished n) m.

Lemma wait_keeps : all_keep (wait_unpaused (ae_task (we_agents env))).
Proof.
  intros n. unfold wait_unpaused. apply keeps_bind; [apply keeps_mgets|]. intros [|]; [apply keeps_ret|].
  apply (sy_wait Hsteady).
Qed.

Lemma services_keep : all_keep (check_services env).
Proof.
  intros n. unfold check_services. apply keeps_bind; [apply keeps_mgets|]. intros instances.
  apply keeps_mfor. intros svc _. apply keeps_bind; [apply (sy_health Hsteady)|]. intros b. apply keeps_ret.
Qed.

Lemma collect_keeps done variables : all_keep (collect env task_id_map done variables).
Proof.
  intros n. revert variables. induction done as [|[name result] done IH]; intros variables; [apply keeps_ret|].
  cbn [collect]. apply keeps_bind; [apply keeps_mgets|]. intros duration. apply keeps_bind.
  { intros s Hs. by apply (sy_meta Hsteady). }
  intros _. apply keeps_bind; [apply keeps_mgets|]. intros meta. apply IH.
Qed.

(** A step that keeps what has finished, before the rest. *)
Lemma wp_all_keep {A B} (m : M (sys W) A) (k : A -> M (sys W) B) (Q : B -> sys W -> Prop) s :
  all_keep m -> (forall a s', (forall n, finished n s -> finished n s') -> wp (k a) Q (fun _ _ => True) s') ->
  wp (m ≫= k) Q (fun _ _ => True) s.
Proof.
  intros Hm Hk. apply wp_bind. unfold wp at 1. pose proof (fun n => Hm n s) as Hs.
  destruct (m s) as [[a|e] s']; [|done]. apply Hk. exact Hs.
Qed.

Lemma gather_group variables x group runs s :
  Forall task_ok group -> group_runs run_task task_id_map variables x group = Some runs ->
  (forall n dep, n ∈ group -> dep ∈ needed n -> finished dep s) ->
  (forall n, finished n s -> finished n (snd (gather runs s))) /\
  (is_ok (fst (gather runs s)) = true -> forall n, n ∈ group -> finished n (snd (gather runs s))).
Proof.
  intros Hok Hr%mapM_Some. revert s Hok. induction Hr as [|n run group runs Hn _ IH]; intros s Hok Hdeps.
  { split; [done|]. by intros _ n ?%not_elem_of_nil. }
  apply Forall_cons in Hok as [Ho Hok].
  destruct (task_id_map !! n) as [id|] eqn:Hid; [|done]. simpl in Hn.
  destruct (_task_specs x !! id : option TaskSpec) as [spec|]; [|done]. injection Hn as <-.
  destruct (Ho id spec (Some variables) s Hid) as [Hkeep Hfin]; [intros dep; apply Hdeps; left|].
  simpl. destruct (run_task spec id (Some variables) s) as [r s1]; simpl in *.
  destruct (IH s1 Hok) as [Hkeep' Hfin'].
  { intros k dep Hk Hd. apply Hkeep, (Hdeps k); [by right|done]. }
  destruct (gather runs s1) as [rs s2]; simpl in *. split; [eauto|].
  destruct r as [a|e], rs as [l|e']; try done. intros _ k [->|Hin]%elem_of_cons; auto.
Qed.

(** Another executor, which may do anything to a task that is started before its dependencies have finished *)
Definition same_in_order (run' : TaskSpec -> uuid -> option (dict string value) -> M (sys W) TaskResult) : Prop :=
  forall n task_id spec variables s, n ∈ task_names config -> task_id_map !! n = Some task_id ->
    (forall dep, dep ∈ needed n -> finished dep s) ->
    run' spec task_id variables s = run_task spec task_id variables s.

Lemma group_runs_same (run' : TaskSpec -> uuid -> option (dict string value) -> M (sys W) TaskResult) variables x group :
  is_Some (group_runs run_task task_id_map variables x group) <->
  is_Some (group_runs run' task_id_map variables x group).
Proof.
  unfold group_runs. rewrite !mapM_is_Some. apply Forall_iff. intros n. unfold compose.
  destruct (task_id_map !! n) as [id|]; [|reflexivity]. simpl.
  destruct (_task_specs x !! id : option TaskSpec); [|reflexivity]. by split; intros _; eexists.
Qed.

Lemma gather_group_same run' variables x group runs runs' s :
  same_in_order run' -> (forall n, n ∈ group -> n ∈ task_names config) -> Forall task_ok group ->
  group_runs run_task task_id_map variables x group = Some runs ->
  group_runs run' task_id_map variables x group = Some runs' ->
  (forall n dep, n ∈ group -> dep ∈ needed n -> finished dep s) -> gather runs' s = gather runs s.
Proof.
  intros Hsame Hin Hok Hr%mapM_Some. revert runs' s Hok Hin.
  induction Hr as [|n run group runs Hn _ IH]; intros runs' s Hok Hin Hr' Hdeps.
  { by apply mapM_Some, Forall2_nil_inv_l in Hr' as ->. }
  apply mapM_Some, Forall2_cons_inv_l in Hr' as (run1 & runs1 & Hn' & Hr1 & ->).
  apply Forall_cons in Hok as [Ho Hok].
  destruct (task_id_map !! n) as [id|] eqn:Hid; [|done]. simpl in Hn, Hn'.
  destruct (_task_specs x !! id : option TaskSpec) as [spec|]; [|done]. injection Hn as <-. injection Hn' as <-.
  destruct (Ho id spec (Some variables) s Hid) as [Hkeep _]; [intros dep; apply Hdeps; left|].
  simpl. rewrite (Hsame n id spec (Some variables) s); [|by apply Hin; left|done|intros dep; apply Hdeps; left].
  destruct (run_task spec id (Some variables) s) as [r s1]; simpl in *.
  rewrite (IH runs1 s1 Hok); [done| |by apply mapM_Some|].
  - intros k Hk. apply Hin. by right.
  - intros k dep Hk Hd. apply Hkeep, (Hdeps k); [by right|done].
Qed.

(** Two sequences that begin alike and go on alike where it matters *)
Lemma bind_alike {A B} (m m' : M (sys W) A) (k k' : A -> M (sys W) B) s :
  m' s = m s -> (forall a s', m s = (Ok a, s') -> k' a s' = k a s') -> (m' ≫= k') s = (m ≫= k) s.
Proof. intros E0 E. unfold mbind, M_bind. rewrite E0. destruct (m s) as [[a|e] s'] eqn:Em; [by apply E|done]. Qed.
Lemma bind_same {A B} (m : M (sys W) A) (k k' : A -> M (sys W) B) s :
  (forall a s', m s = (Ok a, s') -> k' a s' = k a s') -> (m ≫= k') s = (m ≫= k) s.
Proof. by apply bind_alike. Qed.

(** Where a loop that returns leaves off: everything is finished, or a group had an escalated task and the policy
    made an end of it. *)
Definition loop_post (policy : EscalationPolicy) (groups : list (list string)) s s' : Prop :=
  (forall n, n ∈ concat groups \/ finished n s -> finished n s') \/
  exists group s1, group ∈ groups /\ escalated_in_group task_id_map group (sc s1) <> [] /\
    match policy with
    | CONTINUE_INDEPENDENT => False
    | HALT => s' = s1 .[sc ::= fun x => x .[_paused := false]]
    | ABORT_ALL => abort_run cfg (we_procs env) s1 = (Ok tt, s')
    end.

(** A task of a group needs only what has finished before the loop or is in an earlier group. *)
Definition in_order (groups : list (list string)) s : Prop :=
  forall i g n dep, groups !! i = Some g -> n ∈ g -> dep ∈ needed n ->
    finished dep s \/ exists j g', j < i /\ groups !! j = Some g' /\ dep ∈ g'.

Lemma in_order_head group groups s s' :
  in_order (group :: groups) s -> (forall n, finished n s -> finished n s') ->
  forall n dep, n ∈ group -> dep ∈ needed n -> finished dep s'.
Proof.
  intros Hdeps Hs n dep Hn Hd. apply Hs.
  destruct (Hdeps 0 group n dep eq_refl Hn Hd) as [?|(j & ? & ? & _)]; [done|lia].
Qed.
Lemma in_order_tail group groups s s' :
  in_order (group :: groups) s -> (forall n, finished n s -> finished n s') ->
  (forall n, n ∈ group -> finished n s') -> in_order groups s'.
Proof.
  intros Hdeps Hs Hg i g n dep Hi Hn Hd. destruct (Hdeps (S i) g n dep Hi Hn Hd) as [?|(j & g' & Hj & Hg' & Hin)].
  - left. auto.
  - destruct j as [|j]; simpl in Hg'; [left; simplify_eq; auto|]. right. exists j, g'. split_and!; [lia|done..].
Qed.

Lemma group_loop_order policy groups variables s :
  (forall n, n ∈ concat groups -> task_ok n) -> in_order groups s ->
  wp (group_loop cfg env run_task policy task_id_map groups variables)
    (fun _ s' => loop_post policy groups s s') (fun _ _ => True) s.
Proof using Hsteady.
  revert variables s. induction groups as [|group groups IH]; intros variables s Hok Hdeps; cbn [group_loop].
  { apply wp_ret. left. by intros n [?%not_elem_of_nil|?]. }
  apply wp_all_keep; [apply wait_keeps|]. intros _ s1 Hs1. apply wp_bind, wp_mgets.
  destruct (group_runs run_task task_id_map variables (sc s1) group) as [runs|] eqn:Hr; [|by apply wp_throw].
  assert (Hg : Forall task_ok group).
  { apply Forall_forall. intros n Hn. apply Hok. apply elem_of_app. by left. }
  destruct (gather_group variables (sc s1) group runs s1 Hg Hr (in_order_head _ _ _ _ Hdeps Hs1)) as [Hkeep Hfin].
  apply wp_bind. unfold wp at 1. destruct (gather runs s1) as [[results|e] s2]; [|done]. simpl in Hkeep, Hfin.
  specialize (Hfin eq_refl).
  apply wp_all_keep; [apply collect_keeps|]. intros variables' s3 Hs3. apply wp_bind, wp_mgets.
  assert (Hgroup : forall n, n ∈ group -> finished n s3) by auto.
  assert (Hnext : wp (check_services env ;; group_loop cfg env run_task policy task_id_map groups variables')
    (fun _ s' => loop_post policy (group :: groups) s s') (fun _ _ => True) s3).
  { apply wp_all_keep; [apply services_keep|]. intros _ s4 Hs4. eapply wp_mono; [apply IH| |done].
    - intros n Hn. apply Hok. apply elem_of_app. by right.
    - apply (in_order_tail group groups s s4); auto 10.
    - intros u s5 [Hall|(g & s6 & Hin & Hrest)]; [left|right].
      + intros n [[Hn|Hn]%elem_of_app|Hn]; auto 10.
      + exists g, s6. split; [by right|done]. }
  destruct (escalated_in_group task_id_map group (sc s3)) as [|n0 ns] eqn:Hesc; [by destruct policy|].
  destruct policy; [exact Hnext| |].
  - apply wp_mmod. right. exists group, s3. rewrite Hesc. by split_and!; [left|..].
  - unfold wp. destruct (abort_run cfg (we_procs env) s3) as [[[]|e] s4] eqn:Ha; [|done].
    right. exists group, s3. rewrite Hesc. by split_and!; [left|..].
Qed.

(** The loop ends alike with any executor that does the same with tasks started in order, whatever it would do with
    others. *)
Lemma group_loop_same run' policy groups variables s :
  same_in_order run' -> (forall n, n ∈ concat groups -> n ∈ task_names config /\ task_ok n) -> in_order groups s ->
  group_loop cfg env run' policy task_id_map groups variables s =
  group_loop cfg env run_task policy task_id_map groups variables s.
Proof using Hsteady.
  intros Hsame. revert variables s. induction groups as [|group groups IH]; intros variables s Hok Hdeps; [done|].
  cbn [group_loop]. apply bind_same. intros [] s1 E1.
  assert (Hs1 : forall n, finished n s -> finished n s1).
  { intros n Hn. pose proof (wait_keeps n s Hn) as Hk1. by rewrite E1 in Hk1. }
  apply bind_same. intros x s1' [= <- <-].
  pose proof (group_runs_same run' variables (sc s1) group) as Hruns.
  destruct (group_runs run_task task_id_map variables (sc s1) group) as [runs|] eqn:Hr,
    (group_runs run' task_id_map variables (sc s1) group) as [runs'|] eqn:Hr'; [|by destruct Hruns as [[] _]|
    by destruct Hruns as [_ []]|done].
  assert (Hin : forall n, n ∈ group -> n ∈ task_names config /\ task_ok n).
  { intros n Hn. apply Hok. apply elem_of_app. by left. }
  assert (Hg : Forall task_ok group) by (apply Forall_forall; intros n Hn; by apply Hin).
  pose proof (in_order_head _ _ _ _ Hdeps Hs1) as Hready.
  destruct (gather_group variables (sc s1) group runs s1 Hg Hr Hready) as [Hkeep Hfin].
  assert (Eg : gather runs' s1 = gather runs s1).
  { eapply gather_group_same; [exact Hsame|by apply Hin|done..]. }
  apply bind_alike; [exact Eg|]. intros results s2 E2. rewrite E2 in Hkeep, Hfin.
  simpl in Hkeep, Hfin. specialize (Hfin eq_refl). apply bind_same. intros variables' s3 E3.
  assert (Hs3 : forall n, finished n s2 -> finished n s3).
  { intros n Hn. pose proof (collect_keeps (zip group results) variables n s2 Hn) as H3. by rewrite E3 in H3. }
  apply bind_same. intros escalated s3' [= <- <-].
  assert (Hnext : (check_services env ;; group_loop cfg env run' policy task_id_map groups variables') s3 =
                  (check_services env ;; group_loop cfg env run_task policy task_id_map groups variables') s3).
  { apply bind_same. intros [] s4 E4.
    assert (Hs4 : forall n, finished n s3 -> finished n s4).
    { intros n Hn. pose proof (services_keep n s3 Hn) as H4. by rewrite E4 in H4. }
    apply IH; [intros n Hn; apply Hok, elem_of_app; by right|]. apply (in_order_tail group groups s s4); auto 10. }
  by destruct (escalated_in_group task_id_map group (sc s3)), policy.
Qed.

(** What the theorem below asks of the workflow: its dependencies are between its tasks, and an executor of each
    that behaves. *)
Definition runnable : Prop :=
  dwf (wc_dependencies config) /\
  (forall source deps, (source, deps) ∈ ditems (wc_dependencies config) ->
     source ∈ task_names config /\ forall dep, dep ∈ deps -> dep ∈ task_names config) /\
  (forall n, n ∈ task_names config -> task_ok n).

Lemma groups_in_order groups s :
  runnable -> task_groups config = Ok groups ->
  (forall n, n ∈ concat groups <-> n ∈ task_names config) /\ in_order groups s.
Proof.
  intros (Hdwf & Hd & Hok) Hg. destruct (deps_closed config Hdwf Hd) as [_ Hk].
  destruct (task_groups_spec config groups Hdwf Hg) as (Hc & _ & Hgr). split.
  { intros n. by rewrite Hc, Hk. }
  intros i g n dep Hi Hn Hdep. right. destruct (Hgr i g n Hi Hn) as [Hs1 _]. apply Hs1, built_deps; [done|].
  unfold needed in Hdep. destruct (wc_dependencies config !! n) as [deps|]; [by exists deps|].
  by apply not_elem_of_nil in Hdep.
Qed.

(** C8. No task is started before its dependencies have finished, whatever became of them.  Suppose the dependencies
    of a workflow are between its tasks, a task started when its dependencies have finished has finished -
    successfully, failed or escalated - when its executor returns, and nothing undoes that.  Then under every
    escalation policy, and also if an exception ends it, running the workflow does not depend on what the executor
    would do with a task one of whose dependencies has not finished: with any other executor that does the same
    with tasks started in order it ends the same way in the same state.  And when it returns, every task has been
    run, those that depend on an escalated one included - or, under [halt] and [abort_all], a group had an escalated
    task and the last step was to pause the scheduler or to abort the run. *)
Theorem workflow_runs_after_dependencies s :
  runnable ->
  (forall run', same_in_order run' ->
     _execute_task_groups cfg env run' config task_id_map s = _execute_task_groups cfg env run_task config task_id_map s) /\
  wp (_execute_task_groups cfg env run_task config task_id_map)
    (fun _ s' =>
       (forall n, n ∈ task_names config -> finished n s') \/
       exists group s1, (forall n, n ∈ group -> n ∈ task_names config) /\
         escalated_in_group task_id_map group (sc s1) <> [] /\
         match wc_escalation_policy config with
         | CONTINUE_INDEPENDENT => False
         | HALT => s' = s1 .[sc ::= fun x => x .[_paused := false]]
         | ABORT_ALL => abort_run cfg (we_procs env) s1 = (Ok tt, s')
         end) (fun _ _ => True) s.
Proof using Hsteady.
  intros Hrun. pose proof Hrun as (_ & _ & Hok). split.
  - intros run' Hsame. unfold _execute_task_groups. apply bind_same. intros groups s1 Hg.
    destruct (task_groups config) as [gs|e] eqn:Egs; [|done]. injection Hg as <- <-.
    apply bind_same. intros advisories s1 _. apply bind_same. intros [] s2 _. apply bind_same. intros [] s3 _.
    destruct (groups_in_order gs s3 Hrun Egs) as [Hnames Hord].
    apply group_loop_same; [done| |done]. intros n Hn%Hnames. by split; [|apply Hok].
  - unfold _execute_task_groups. apply wp_bind. destruct (task_groups config) as [groups|e] eqn:Hg; [|by apply wp_throw].
    apply wp_ret, wp_bind, wp_mgets, wp_bind, wp_mmod, wp_bind.
    unfold wp at 1. destruct (_send_pending_advisories _ _ _ _ _) as [[u|e] s1]; [|done].
    destruct (groups_in_order groups s1 Hrun Hg) as [Hnames Hord].
    eapply wp_mono; [apply group_loop_order; [|exact Hord]| |done].
    + intros n Hn. by apply Hok, Hnames.
    + intros u' s' [Hall|(group & s2 & Hin & Hesc)]; [left|right].
      * intros n Hn. apply Hall. left. by apply Hnames.
      * exists group, s2. split; [|done]. intros n Hn. apply Hnames, list_elem_of_In, in_concat. exists group. split; by apply list_elem_of_In.
Qed.
End order.

(** ** Control *)

Section control.
Context {W : Type} `{RunStoreLaws W}.
Context (cfg : sched_config) (procs : process_env W).
Implicit Types (s : sys W).
Abbreviation run := (_run_id cfg).

(** The run's row, through the laws. *)
Lemma wp_transition_row new old s (Q : bool -> sys W -> Prop) (E : exn -> sys W -> Prop) :
  rs_inv (store s) -> rs_status (store s) run = Some old ->
  (forall w, rs_inv w -> validate_run_transition old new = None -> rs_status w run = Some new ->
     rs_subscribed w run = rs_subscribed (store s) run ->
     Q (rs_subscribed (store s) run) (s .[store := w])) ->
  (forall w e, rs_inv w -> validate_run_transition old new = Some e -> rs_status w run = Some old ->
     E e (s .[store := w])) ->
  wp (on_store (rs_transition_run run new (_run_principal_id cfg))) Q E s.
Proof.
  intros Hinv Hst HQ HE. pose proof (rs_transition_law run new (_run_principal_id cfg) (store s) old Hinv Hst) as Hl.
  unfold wp, on_store, zoom. destruct (validate_run_transition old new) as [e|].
  - destruct Hl as (w & -> & Hi & (Hs & _) & _). apply HE; [done..|by rewrite Hs].
  - destruct Hl as (w & -> & Hi & Hs & Hsub & _). apply HQ; try done. by rewrite Hs, decide_True.
Qed.

(** A second [paused] is refused, whoever asks. *)
Lemma wp_paused_again depth s (Q : unit -> sys W -> Prop) (E : exn -> sys W -> Prop) :
  rs_inv (store s) -> rs_status (store s) run = Some "paused"%string ->
  (forall s', is_paused (sc s') = true -> rs_inv (store s') -> rs_status (store s') run = Some "paused"%string ->
     E (InvalidTransitionError "paused" "paused") s') ->
  wp (pause cfg procs depth) Q E s.
Proof.
  intros Hinv Hst HE. unfold pause, pause_by. apply wp_bind, wp_mmod.
  destruct depth as [|depth]; cbn [transition_run]; apply wp_bind;
    (apply (wp_transition_row "paused" "paused"); [done..|intros w _ Hv; by vm_compute in Hv|]);
    intros w e Hi Hv Hs; vm_compute in Hv; injection Hv as <-; by apply HE.
Qed.

(** Pausing raises.  While a workflow runs, its scheduler is the control callback of its run.  Pausing it
    then always raises, however deep callbacks may call back: the run is paused first, the callback
    pauses it once more, and the store refuses a transition from paused to paused.  The scheduler and
    the run are paused all the same, and [resume] undoes both. *)
Theorem pausing_raises depth s :
  rs_inv (store s) -> rs_status (store s) run = Some "running"%string -> rs_subscribed (store s) run = true ->
  exists s', pause cfg procs (S depth) s = (Raise (InvalidTransitionError "paused" "paused"), s') /\
    is_paused (sc s') = true /\ rs_status (store s') run = Some "paused"%string /\
    exists s'', resume cfg procs (S depth) s' = (Ok tt, s'') /\
      is_paused (sc s'') = false /\ rs_status (store s'') run = Some "running"%string.
Proof.
  intros Hinv Hst Hsub.
  assert (Hp : wp (pause cfg procs (S depth)) (fun _ _ => False)
    (fun e s' => e = InvalidTransitionError "paused" "paused" /\ is_paused (sc s') = true /\
       rs_inv (store s') /\ rs_status (store s') run = Some "paused"%string) s).
  { unfold pause, pause_by. apply wp_bind, wp_mmod. cbn [transition_run]. apply wp_bind.
    apply (wp_transition_row "paused" "running"); [done..| |intros w e _ Hv; by vm_compute in Hv].
    intros w Hi _ Hs _. simpl. rewrite Hsub. unfold handle_signal. rewrite decide_False, decide_True by done.
    apply (wp_paused_again depth); [done..|]. intros s' ???. by split_and!. }
  apply wp_cases in Hp as [(? & ? & _ & [])|(e & s' & E & -> & Hps & Hi & Hs)]. exists s'. split_and!; try done.
  assert (Hr : wp (resume cfg procs (S depth)) (fun _ s'' => is_paused (sc s'') = false /\
      rs_status (store s'') run = Some "running"%string) (fun _ _ => False) s').
  { unfold resume. apply wp_bind, wp_mmod. cbn [transition_run]. apply wp_bind.
    apply (wp_transition_row "running" "paused"); [done..| |intros w e _ Hv; by vm_compute in Hv].
    intros w Hi' _ Hs' _. unfold handle_signal. rewrite !decide_False by done.
    match goal with |- context [if ?b then mret tt else _] => destruct b end; by apply wp_ret. }
  apply wp_cases in Hr as [(u & s'' & Er & ? & ?)|(? & ? & _ & [])]. destruct u. by exists s''.
Qed.

(** A run resumed from another process stays paused.  When another process pauses the run and later
    resumes it, the notifications reach the scheduler's listener: the first pauses the scheduler - and
    raises, the run being paused already - and the second, whatever the scheduler is doing, does
    nothing: it stays paused. *)
Theorem remote_resume_does_nothing depth text s :
  rs_inv (store s) -> rs_status (store s) run = Some "paused"%string ->
  let notify st := _on_notification cfg procs depth text
    (Some (Dict [("event_type", "run_state"); ("run_id", text); ("new_status", st)]))%string in
  exists s', notify "paused"%string s = (Raise (InvalidTransitionError "paused" "paused"), s') /\
    is_paused (sc s') = true /\
    forall w', notify "running"%string (s' .[store := w']) = (Ok tt, s' .[store := w']).
Proof.
  intros Hinv Hst notify.
  assert (Hn : forall st, notify st = _handle_control_signal cfg procs depth st).
  { intros st. unfold notify, _on_notification. rewrite decide_True by (split; done). done. }
  assert (Hp : wp (notify "paused"%string) (fun _ _ => False)
    (fun e s' => e = InvalidTransitionError "paused" "paused" /\ is_paused (sc s') = true) s).
  { rewrite Hn. unfold _handle_control_signal, handle_signal. rewrite decide_False, decide_True by done.
    apply (wp_paused_again depth); [done..|]. intros s' ???. by split_and!. }
  apply wp_cases in Hp as [(? & ? & _ & [])|(e & s' & E & -> & Hps)]. exists s'. split_and!; try done.
  intros w'. by rewrite Hn.
Qed.

(** Starting on a run that is paused or aborted.  A workflow subscribes to the run's control signals when
    it starts.  On a run that is already paused that raises, and nothing is started; on a run that is
    already aborted it returns, and the scheduler, which has no tasks yet to cancel, goes on to start
    its services and run its tasks. *)
Theorem starting_paused_or_aborted depth s status :
  rs_inv (store s) -> rs_status (store s) run = Some status ->
  _task_states (sc s) = ∅ -> _service_instances (sc s) = [] ->
  (status = "paused"%string -> exists s', subscribe_run_control cfg procs depth s =
     (Raise (InvalidTransitionError "paused" "paused"), s')) /\
  (status = "aborted"%string -> exists s', subscribe_run_control cfg procs depth s = (Ok tt, s') /\
     sc s' = sc s /\ rs_status (store s') run = Some "aborted"%string /\ rs_subscribed (store s') run = true).
Proof.
  intros Hinv Hst Htasks Hsvc.
  destruct (rs_subscribe_law run (store s) Hinv) as (w & E & Hi & Hs & _ & Hsub & _).
  rewrite Hst in E. simpl in E.
  assert (Hb : subscribe_run_control cfg procs depth s =
    (match (if decide (status ∈ ["paused"; "aborted"]%string) then Some status else None) with
     | Some st => _handle_control_signal cfg procs depth st
     | None => mret tt
     end) (s .[store := w])).
  { unfold subscribe_run_control, on_store, zoom, mbind, M_bind. by rewrite E. }
  rewrite Hb. split; intros ->.
  - assert (Hp : wp (pause cfg procs depth) (fun _ _ => False)
      (fun e _ => e = InvalidTransitionError "paused" "paused") (s .[store := w])).
    { apply (wp_paused_again depth); [done|by rewrite <- Hst; apply Hs|]. by intros s' _ _ _. }
    apply wp_cases in Hp as [(? & ? & _ & [])|(e & s' & Ep & ->)]. exists s'. exact Ep.
  - exists (s .[store := w]). rewrite decide_True by (right; left).
    unfold _handle_control_signal, handle_signal. rewrite decide_True by done.
    split; [|split_and!; [done|simpl; by rewrite Hs|simpl; by rewrite Hsub, decide_True]].
    unfold abort_run, abort, _stop_services, sget, smod, mgets, mmod, mbind, M_bind; simpl.
    rewrite Htasks. simpl. rewrite Hsvc. simpl. destruct s as [x w0]. simpl in *.
    destruct x. simpl in *. by rewrite Hsvc.
Qed.
End control.

(** ** Crash recovery *)

Section recovery.
Context {W : Type} `{RunStoreLaws W}.
Context (cfg : sched_config) (env : workflow_env W).
Implicit Types (s : sys W).

Definition live : list string := ["running"; "paused"]%string.

(** Crash recovery spares the runs that are locked, but not their tasks.  When the recovery at the start of
    a workflow succeeds, the run's lock was free and is now held; no task or run is lost; a run that was
    locked - its own or that of a process still at work - keeps its status, and a live run nobody holds
    becomes failed.  But every task that was executing is cancelled, whichever run it belongs to. *)
Theorem crash_recovery_effect s s' :
  we_recovers env = true -> rs_inv (store s) -> _crash_recovery cfg env s = (Ok tt, s') ->
  sc s' = sc s /\ rs_locked (store s) (_run_id cfg) = false /\ rs_locked (store s') (_run_id cfg) = true /\
  (forall k st, rs_status (store s) k = Some st ->
     rs_status (store s') k = Some (if decide (st ∈ live /\ rs_locked (store s) k = false /\ k <> _run_id cfg)
                                    then "failed"%string else st)) /\
  (forall id st, ts_status (store s) id = Some st ->
     ts_status (store s') id = Some (if decide (st ∈ executing) then "cancelled"%string else st)).
Proof.
  intros Hrec Hinv. unfold _crash_recovery. rewrite Hrec. unfold on_store, zoom, mbind, M_bind.
  pose proof (rs_acquire_law (_run_id cfg) (store s) Hinv) as Ha.
  destruct (rs_locked (store s) (_run_id cfg)) eqn:Hlk; [by rewrite Ha|].
  destruct Ha as (w1 & -> & Hi1 & Hs1 & _ & Hl1 & _ & Ht1). simpl.
  destruct (rs_reclaim_law w1 Hi1) as (w2 & -> & Hi2 & (Hs2 & _ & Hl2) & _ & Ht2). simpl.
  destruct (rs_reevaluate_law w2) as (? & -> & ->). simpl.
  destruct (rs_clean_law w2 Hi2) as (w3 & -> & _ & Hs3 & _ & Hl3 & _ & Ht3). simpl.
  intros [= <-]. simpl. split_and!; try done.
  - by rewrite Hl3, Hl2, Hl1, decide_True.
  - intros k st Hst. rewrite Hs3, Hs2, Hs1, Hst, Hl2, Hl1. simpl. f_equal.
    destruct (decide (st ∈ _)) as [Hin|Hin].
    + destruct (decide (k = _run_id cfg)) as [->|Hne]; [by rewrite decide_False by naive_solver|].
      destruct (rs_locked (store s) k); [by rewrite decide_False by naive_solver|].
      by rewrite decide_True.
    + rewrite decide_False; [done|]. by intros [? _].
  - intros id st Hst. rewrite Ht3, Ht2, Ht1, Hst. done.
Qed.
End recovery.

(** ** Services *)

Section starting.
Context {W : Type} (env : process_env W).
Implicit Types (s : sys W).

(** A call that returns, and does not turn the clock back; [by_ms] milliseconds pass. *)
Definition returns {A} (by_ms : Z) (m : M (sys W) A) : Prop :=
  forall s, exists a s', m s = (Ok a, s') /\ (pe_time env s + by_ms <= pe_time env s')%Z.

Record processes_ok : Prop := {
  po_spawn command cwd : returns 0 (pe_spawn env command cwd);
  po_wait process : returns 0 (pe_wait env process);
  po_sleep ms : (0 <= ms)%Z -> returns ms (pe_sleep env ms)
}.
Context (Henv : processes_ok).

Lemma wp_returns {A B} d (m : M (sys W) A) (k : A -> M (sys W) B) Q E s :
  returns d m -> (forall a s', (pe_time env s + d <= pe_time env s')%Z -> wp (k a) Q E s') -> wp (m ≫= k) Q E s.
Proof. intros Hm Hk. apply wp_bind. unfold wp at 1. destruct (Hm s) as (a & s' & -> & Ht). by apply Hk. Qed.

Lemma check_health_returns instance : returns 0 (check_health env instance).
Proof.
  intros s. unfold check_health. destruct (sv_health_check_command (si_config instance)) as [command|].
  - destruct (po_spawn Henv command (si_work_dir instance) s) as (proc & s1 & E1 & T1).
    destruct (po_wait Henv proc s1) as (code & s2 & E2 & T2).
    exists (bool_decide (code = 0)%Z), s2. split; [|lia]. unfold mbind, M_bind. by rewrite E1, E2.
  - destruct (si_process instance) as [p|]; eexists _, s; (split; [reflexivity|lia]).
Qed.

Lemma wait_healthy_decides fuel instance deadline s :
  (deadline <= pe_time env s + 500 * Z.of_nat fuel)%Z ->
  wp (wait_healthy env fuel instance deadline) (fun r _ => r = instance)
    (fun e s' => e = TimeoutError /\ (deadline <= pe_time env s')%Z) s.
Proof.
  revert s. induction fuel as [|fuel IH]; intros s Hd; cbn [wait_healthy]; apply wp_bind, wp_mgets.
  - destruct (Z.ltb_spec (pe_time env s) deadline); [lia|]. apply wp_throw. split; [done|lia].
  - destruct (Z.ltb_spec (pe_time env s) deadline); [|apply wp_throw; split; [done|lia]].
    eapply (wp_returns 0); [apply check_health_returns|]. intros [|] s1 T1; [by apply wp_ret|].
    eapply (wp_returns 500); [by apply (po_sleep Henv)|]. intros u s2 T2. apply IH. lia.
Qed.

(** Starting a service ends.  As long as processes can be started and waited for, and sleeping takes its
    time, starting a service either returns the instance - with its process, its port and the directory
    it runs in - or raises [TimeoutError] once the time to get ready is over: the wait for it to become healthy
    checks at most twice a second, so two checks for each second are enough. *)
Theorem start_service_ends config work_dir s :
  wp (start_service env config work_dir)
    (fun r _ => si_config r = config /\ is_Some (si_process r) /\ si_port r = sv_port config /\
                si_work_dir r = Some work_dir)
    (fun e s' => e = TimeoutError /\ is_Some (sv_health_check_command config) /\
                 (pe_time env s + sv_ready_timeout config * 1000 <= pe_time env s')%Z) s.
Proof.
  unfold start_service. eapply (wp_returns 0); [apply (po_spawn Henv)|]. intros process s1 T1.
  destruct (sv_health_check_command config) as [command|] eqn:Hc; [|apply wp_ret; by split_and!].
  apply wp_bind, wp_mgets. eapply wp_mono; [apply wait_healthy_decides; lia| |].
  - intros r s2 ->. by split_and!.
  - intros e s2 [-> T2]. split_and!; [done..|lia].
Qed.
End starting.

(** ** Witnesses

    The in-memory store with one run, and a workflow of two tasks, the second depending on the first. *)

Definition in_store (m : M mem_store unit) (w : mem_store) : mem_store := snd (m w).

(** Run 100, taken through [statuses]; its scheduler may be its control callback. *)
Definition store_with_run (statuses : list string) (subscribed : bool) : mem_store :=
  let w := in_store (in_backend (create_run 0 "ship" VNone "auto" 100 9) ;; mret tt) mem_store_init in
  let w := in_store (mfor statuses (fun st => rs_transition_run 100 st 9 ;; mret tt)) w in
  if subscribed then in_store (rs_subscribe_run_control 100 ;; mret tt) w else w.

(** Every command succeeds at once, except the health check ["sick"]; a process is never gone. *)
Definition calm_procs : process_env mem_store := {|
  pe_spawn command cwd := mret (if bool_decide (command = "sick"%string) then 2%Z else 1%Z);
  pe_returncode process s := None;
  pe_terminate process := mret tt;
  pe_wait process := mret (process - 1)%Z;
  pe_time s := ms_next (store s);
  pe_sleep ms := fun s => (Ok tt, s .[store ::= fun w => w .[ms_next ::= fun t => (t + Z.max 0 ms)%Z]])
|}.

Definition coder_workflow_env (script : uuid -> list call) : workflow_env mem_store := {|
  we_agents := overseen script; we_procs := calm_procs; we_recovers := true; we_read_root := "/repo";
  we_overseer := None; we_sinks := []; we_fields := fun _ => []; we_coherence := None; we_control_depth := 3 |}.

Definition deploy_task : TaskSpec :=
  mkTaskSpec ((TaskBase_default "deploy") .[ts_callable := Some "ops:deploy"%string]) [] [] None.
Definition build_task : TaskSpec :=
  mkTaskSpec ((TaskBase_default "build") .[ts_agent := Some "coder"%string]
                .[ts_task_prompt := Some "do"%string] .[ts_timeout := Some 60%Z]
                .[ts_context_refinement := Some false]) [] [ScriptExecution "m:f"] None.

Definition two_tasks (policy : EscalationPolicy) : WorkflowConfig := {|
  wc_name := "ship"; wc_description := "Build, then deploy."; wc_tasks := [build_task; deploy_task];
  wc_dependencies := Dict [("deploy", ["build"])]%string; wc_escalation_policy := policy; wc_services := [] |}.

Abbreviation two_tasks_run script policy w :=
  (execute_workflow coder_cfg (coder_workflow_env script)
     (run_registered coder_cfg (overseen script) 3) (two_tasks policy) (Sys sched_init w)).
Definition good_build (n : uuid) : list call := session_calls 5 "S1" "good".
Definition bad_build (n : uuid) : list call := session_calls 5 "S1" "bad".
Definition outcome (r : result unit * sys mem_store) : result unit * list TaskState * list string :=
  (fst r, dvalues (_task_states (sc (snd r))),
   (fun t => t_status t) <$> dvalues (_tasks (ms_backend (store (snd r))))).
Abbreviation running := (store_with_run ["running"%string] false).

(** [deploy] runs though [build], which it depends on, is escalated. *)
Example continue_runs_dependents :
  outcome (two_tasks_run bad_build CONTINUE_INDEPENDENT running) =
    (Ok tt, [ESCALATED; COMPLETED], ["escalated"; "completed"]%string).
Proof. vm_compute. reflexivity. Qed.

(** Aborting all leaves the pending task as it is. *)
Example abort_all_leaves_pending :
  outcome (two_tasks_run bad_build ABORT_ALL running) = (Ok tt, [ESCALATED; CREATED], ["escalated"; "created"]%string).
Proof. vm_compute. reflexivity. Qed.

(** The tasks of a run that was aborted before its workflow started. *)
Example aborted_run_is_executed :
  let r := two_tasks_run (fun _ => session_calls 6 "S1" "good") HALT (store_with_run ["running"; "aborted"]%string false) in
  outcome r = (Ok tt, [COMPLETED; COMPLETED], ["completed"; "completed"]%string) /\
  rs_status (store (snd r)) 100 = Some "aborted"%string.
Proof. vm_compute. by split. Qed.

(** An executor that ends [build] escalated and everything else completed. *)
Definition quick_run (spec : TaskSpec) (task_id : uuid) (variables : option (dict string value)) :
    M (sys mem_store) TaskResult :=
  set_state task_id (if bool_decide (ts_name spec = "build"%string) then ESCALATED else COMPLETED) ;;
  mret (task_result None None []).

Definition two_ids : dict string uuid := Dict [("build", 5); ("deploy", 6)]%string%Z.
Definition ended (n : string) (s : sys mem_store) : Prop :=
  exists id, two_ids !! n = Some id /\ (state_of s id = Some ESCALATED \/ state_of s id = Some COMPLETED).

Lemma ended_same n s s' : (forall id, state_of s' id = state_of s id) -> ended n s -> ended n s'.
Proof. intros E (id & Hid & Hst). exists id. by rewrite E. Qed.

Lemma quick_steady : steady (coder_workflow_env good_build) ended.
Proof.
  split; intros; try (by apply (ended_same _ s)); try apply keeps_ret.
  intros s Hs. unfold check_health. destruct (sv_health_check_command _); [|by destruct (si_process svc)].
  exact Hs.
Qed.

Lemma quick_ok n : task_ok quick_run ended (two_tasks CONTINUE_INDEPENDENT) two_ids n.
Proof.
  intros id spec variables s Hid _. simpl. split.
  - intros k (i & Hi & Hst). exists i. split; [done|]. unfold state_of in *; simpl.
    rewrite dict_lookup_insert. case_decide; [|done]. by case_bool_decide; [left|right].
  - intros _. exists id. split; [done|]. unfold state_of; simpl. rewrite dict_lookup_insert, decide_True by done.
    by case_bool_decide; [left|right].
Qed.

Definition two_registered : sys mem_store :=
  snd (register_tasks coder_cfg [build_task; deploy_task] ∅ (Sys sched_init (running .[ms_next := 5%Z]))).

Lemma workflow_runs_after_dependencies_witness :
  exists s', _execute_task_groups coder_cfg (coder_workflow_env good_build) quick_run (two_tasks CONTINUE_INDEPENDENT)
      two_ids two_registered = (Ok tt, s') /\
    state_of s' 5 = Some ESCALATED /\ ended "deploy" s'.
Proof.
  assert (Hd : Forall (fun sd => sd.1 ∈ task_names (two_tasks CONTINUE_INDEPENDENT) /\
      Forall (fun dep => dep ∈ task_names (two_tasks CONTINUE_INDEPENDENT)) sd.2)
    (ditems (wc_dependencies (two_tasks CONTINUE_INDEPENDENT)))).
  { refine (bool_decide_eq_true_1 _ _). vm_compute. reflexivity. }
  assert (Hrun : runnable quick_run ended (two_tasks CONTINUE_INDEPENDENT) two_ids).
  { split; [refine (bool_decide_eq_true_1 _ _); vm_compute; reflexivity|].
    split; [|exact (fun n _ => quick_ok n)]. intros source deps Hin. rewrite Forall_forall in Hd.
    destruct (Hd _ Hin) as [H1 H2]. rewrite Forall_forall in H2. split; [exact H1|exact H2]. }
  destruct (wp_cases _ _ _ _ (proj2 (workflow_runs_after_dependencies coder_cfg (coder_workflow_env good_build) quick_run ended
    (two_tasks CONTINUE_INDEPENDENT) two_ids quick_steady two_registered Hrun))) as [([] & s' & E & Hall)|(e & s' & E & _)].
  - exists s'. split; [exact E|]. split.
    + rewrite <- (f_equal snd E : snd _ = s'). vm_compute. reflexivity.
    + destruct Hall as [Hall|(group & s1 & _ & _ & [])]. apply Hall. right. left.
  - exfalso. pose proof (f_equal (fun r => is_ok (fst r)) E) as Ef. vm_compute in Ef. discriminate Ef.
Defined.

Lemma store_with_run_inv statuses b : rs_inv (store_with_run statuses b).
Proof.
  unfold store_with_run.
  assert (H0 : forall w : mem_store, rs_inv w -> rs_inv (in_store (in_backend (create_run 0 "ship" VNone "auto" 100 9) ;; mret tt) w)).
  { intros w Hw. pose proof (dicts_wf_step _ _ Hw (step_create_run (ms_backend w) 0 "ship" VNone "auto" 100 9)) as Hc.
    unfold rs_inv; simpl. unfold in_store, in_backend, zoom, mbind, M_bind.
    destruct (create_run 0 "ship" VNone "auto" 100 9 (ms_backend w)) as [[a|e] b']; exact Hc. }
  set (w0 := in_store _ mem_store_init). assert (Hw0 : rs_inv w0) by apply H0, dicts_wf_init.
  clearbody w0. clear H0.
  assert (Hm : rs_inv (in_store (mfor statuses (fun st => rs_transition_run 100 st 9 ;; mret tt)) w0)).
  { revert w0 Hw0. induction statuses as [|st statuses IH]; intros w Hw; [done|].
    pose proof (dicts_wf_step _ _ Hw (step_transition_run (ms_backend w) (ms_next w) (ms_next w) (ms_next w) 100 st None 9)) as Hc.
    unfold in_store. simpl. unfold in_backend, zoom, fresh, mbind, M_bind; simpl.
    destruct (transition_run_row _ _ _ 100 st None 9 (ms_backend w)) as [[[cb|]|e] b']; simpl; [by apply IH..|exact Hc]. }
  destruct b; [|done]. set (w1 := in_store (mfor _ _) w0) in *. clearbody w1.
  destruct (rs_subscribe_law 100 w1 Hm) as (w2 & E & Hw2 & _).
  unfold in_store, mbind, M_bind. rewrite E. exact Hw2.
Qed.

Lemma pausing_raises_witness :
  exists s', pause coder_cfg calm_procs 3 (Sys sched_init (store_with_run ["running"%string] true)) =
      (Raise (InvalidTransitionError "paused" "paused"), s') /\
    is_paused (sc s') = true /\ rs_status (store s') 100 = Some "paused"%string /\
    exists s'', resume coder_cfg calm_procs 3 s' = (Ok tt, s'') /\
      is_paused (sc s'') = false /\ rs_status (store s'') 100 = Some "running"%string.
Proof.
  apply (pausing_raises coder_cfg calm_procs 2).
  - apply store_with_run_inv.
  - vm_compute. reflexivity.
  - vm_compute. reflexivity.
Defined.

Lemma remote_resume_does_nothing_witness :
  exists s', _on_notification coder_cfg calm_procs 3 "100"
      (Some (Dict [("event_type", "run_state"); ("run_id", "100"); ("new_status", "paused")]))%string
      (Sys sched_init (store_with_run ["running"; "paused"]%string true)) =
      (Raise (InvalidTransitionError "paused" "paused"), s') /\
    is_paused (sc s') = true.
Proof.
  destruct (remote_resume_does_nothing coder_cfg calm_procs 3 "100"
    (Sys sched_init (store_with_run ["running"; "paused"]%string true))) as (s' & E & Hp & _).
  - apply store_with_run_inv.
  - vm_compute. reflexivity.
  - exists s'. split; [exact E|exact Hp].
Defined.

Lemma starting_paused_or_aborted_witness :
  exists s', subscribe_run_control coder_cfg calm_procs 3
      (Sys sched_init (store_with_run ["running"; "aborted"]%string false)) = (Ok tt, s') /\
    sc s' = sched_init /\ rs_status (store s') 100 = Some "aborted"%string.
Proof.
  destruct (starting_paused_or_aborted coder_cfg calm_procs 3
    (Sys sched_init (store_with_run ["running"; "aborted"]%string false)) "aborted") as [_ Ha].
  - apply store_with_run_inv.
  - vm_compute. reflexivity.
  - reflexivity.
  - reflexivity.
  - destruct (Ha eq_refl) as (s' & E & Esc & Est & _). exists s'. split; [exact E|]. split; [exact Esc|exact Est].
Defined.

(** Run 200 is at work, locked by its own process, when run 100 starts. *)
Definition busy_store : mem_store :=
  let w := store_with_run ["running"%string] false in
  let w := in_store (in_backend (create_run 0 "other" VNone "auto" 200 9) ;; mret tt) w in
  let w := in_store (rs_transition_run 200 "running" 9 ;; rs_acquire_run_lock 200) w in
  in_store (id ← ts_create_task 200 None "work" "agent" None;
            ts_transition_task id "prechecking" None 9 ;; ts_transition_task id "active" None 9) w.

Lemma busy_store_inv : rs_inv busy_store.
Proof.
  assert (Hids : Forall (fun kv => r_id kv.2 = kv.1) (ditems (_runs (ms_backend busy_store)))).
  { refine (bool_decide_eq_true_1 _ _). vm_compute. reflexivity. }
  unfold rs_inv; simpl. split_and!; try (refine (bool_decide_eq_true_1 _ _); vm_compute; reflexivity).
  intros rid run Hr%dict_lookup_Some_in. rewrite Forall_forall in Hids. by apply (Hids _ Hr).
Qed.

Definition busy_task : uuid := default 0%Z (head (dkeys (_tasks (ms_backend busy_store)))).

Abbreviation recovered := (_crash_recovery coder_cfg (coder_workflow_env good_build) (Sys sched_init busy_store)).

(** Run 200 is still running; its task is not. *)
Lemma crash_recovery_effect_witness :
  exists s' id, recovered = (Ok tt, s') /\ rs_locked busy_store 200 = true /\
    rs_status (store s') 200 = Some "running"%string /\
    ts_status busy_store id = Some "active"%string /\ ts_status (store s') id = Some "cancelled"%string.
Proof.
  assert (Hs : exists s', recovered = (Ok tt, s')).
  { exists (snd recovered). rewrite (surjective_pairing recovered) at 1. f_equal. }
  destruct Hs as [s' E].
  destruct (crash_recovery_effect coder_cfg (coder_workflow_env good_build) (Sys sched_init busy_store) s' eq_refl
    busy_store_inv E) as (_ & _ & _ & Hr & Ht).
  exists s', busy_task. split; [exact E|].
  split; [vm_compute; reflexivity|]. split; [|split; [vm_compute; reflexivity|]].
  - rewrite (Hr 200%Z "running"%string ltac:(vm_compute; reflexivity)). rewrite decide_False; [reflexivity|].
    intros (_ & Hl & _). vm_compute in Hl. discriminate Hl.
  - rewrite (Ht busy_task "active"%string ltac:(vm_compute; reflexivity)). reflexivity.
Defined.

Lemma calm_procs_ok : processes_ok calm_procs.
Proof.
  split; intros; intros s; eexists _, _; (split; [reflexivity|simpl; lia]).
Qed.

Definition sick_service : ServiceConfig := {|
  sv_name := "db"; sv_start_command := "serve"; sv_health_check_command := Some "sick"%string;
  sv_stop_command := "stop"; sv_port := None; sv_ready_timeout := 3 |}.

(** A service that does not get healthy within its three seconds. *)
Lemma start_service_ends_witness :
  exists s', start_service calm_procs sick_service "/repo" (Sys sched_init running) = (Raise TimeoutError, s') /\
    (pe_time calm_procs (Sys sched_init running) + 3000 <= pe_time calm_procs s')%Z.
Proof.
  destruct (wp_cases _ _ _ _ (start_service_ends calm_procs calm_procs_ok sick_service "/repo" (Sys sched_init running)))
    as [(r & s' & E & _)|(e & s' & E & -> & _ & Ht)].
  - exfalso. pose proof (f_equal (fun r => is_ok (fst r)) E) as Ef. vm_compute in Ef. discriminate Ef.
  - exists s'. split; [exact E|exact Ht].
Defined.
