(* ===== verification/Overseer.v ===== *)
(** The overseer as the scheduler meets it: autonomy levels (protocols/_autonomy.py), the health monitor
    and the hand-off between sessions (overseer/_health.py, overseer/_handoff.py), and the adapter
    between them and the scheduler, [OverseerAdapter] of scheduler/_overseer.py.

    A float that is written as a decimal - the threshold of the monitor - is that decimal, and a rate is the
    exact quotient.  Sessions with the language model are those of [AgentExecution]. *)
From S2P Require Import Prelude PyDict Text Types Transitions Validator Pipeline Store Scheduler TaskDispatch OverseerLink AgentExecution Workflow.

(** ** Autonomy levels *)

Inductive AutonomyLevel := LOW | MEDIUM | HIGH | MAX.

Definition AutonomyLevel_value (level : AutonomyLevel) : string :=
  match level with LOW => "low" | MEDIUM => "medium" | HIGH => "high" | MAX => "max" end.

Definition _ALL_SENTINEL : string := "__all__".

Definition _RULES (level : AutonomyLevel) : list string :=
  match level with
  | LOW => ["read_only"]
  | MEDIUM => ["read_only"; "retry"; "budget_reallocation"; "concurrency"; "task_assumption"]
  | HIGH => ["read_only"; "retry"; "budget_reallocation"; "concurrency"; "task_assumption"; "scope_change";
             "architecture_decision"; "understanding_assumption"]
  | MAX => [_ALL_SENTINEL]
  end%string.

Definition is_autonomous (level : AutonomyLevel) (action_type : string) : bool :=
  let allowed := _RULES level in
  bool_decide (_ALL_SENTINEL ∈ allowed) || bool_decide (action_type ∈ allowed).

Definition requires_approval (level : AutonomyLevel) (action_type : string) : bool :=
  negb (is_autonomous level action_type).

(** ** The health monitor *)

Record health_event := { he_success : bool; he_is_repetition : bool }.

Record HealthMetrics := {
  postcheck_failures : nat;
  repetitions : nat;
  tool_errors : nat;
  total_events : nat
}.

Definition _compute_metrics (window : list health_event) : HealthMetrics := {|
  postcheck_failures := length (filter (fun e => he_success e = false) window);
  repetitions := length (filter (fun e => he_is_repetition e = true) window);
  tool_errors := length (filter (fun e => he_success e = false /\ he_is_repetition e = false) window);
  total_events := length window |}.

(** [k / total if total > 0 else 0.0] *)
Definition rate (k total : nat) : decimal :=
  if decide (0 < total) then decimal_of (Z.of_nat k) (Pos.of_nat total) else decimal_Z 0.

(** The windows of [HealthMonitor._windows]; a [deque] with a [maxlen] forgets its oldest entries. *)
Abbreviation windows := (dict string (list health_event)).

Section monitor.
Context (threshold : decimal) (window_size : nat).

Definition append_window (e : health_event) (window : list health_event) : list health_event :=
  let window := window ++ [e] in drop (length window - window_size) window.

Definition _get_window (event_type : string) : M windows (list health_event) :=
  ws ← mget;
  match (ws : windows) !! event_type with
  | Some window => mret window
  | None => mmod <[event_type := []]> ;; mret []
  end.

Definition record_event (event_type : string) (success is_repetition : bool) : M windows unit :=
  window ← _get_window event_type;
  mmod <[event_type := append_window {| he_success := success; he_is_repetition := is_repetition |} window]>.

(** The metrics are over the threshold. *)
Definition over_threshold (metrics : HealthMetrics) : bool :=
  let over k := dec_ltb threshold (rate k (total_events metrics)) in
  over (postcheck_failures metrics) || over (repetitions metrics) || over (tool_errors metrics).

Definition HealthMonitor_is_degraded (event_type : string) : M windows bool :=
  window ← _get_window event_type;
  match window with
  | [] => mret false
  | _ => mret (over_threshold (_compute_metrics window))
  end.

Definition get_metrics (event_type : string) : M windows HealthMetrics :=
  window ← _get_window event_type; mret (_compute_metrics window).
End monitor.

(** [HealthMonitor()] *)
Definition default_threshold : decimal := decimal_of 3 10.
Definition default_window_size : nat := 10.

(** ** The adapter *)

(** What a session reports of a tool call *)
Record tool_call := { tc_tool_name : string; tc_input : dict string value; tc_status : string }.

Record adapter := {
  _session : uuid;
  _windows : windows;
  _last_tool_calls : dict string (list tool_call);
  _previous_tool_calls : dict string (list tool_call);
  _current_tool_calls : list tool_call
}.
#[export] Instance eta_adapter : Eta adapter := fun a => {|
  _session := _session a; _windows := _windows a; _last_tool_calls := _last_tool_calls a;
  _previous_tool_calls := _previous_tool_calls a; _current_tool_calls := _current_tool_calls a |}.

(** Where a world keeps the adapter. *)
Class HasAdapter (W : Type) := {
  ad_get : W -> adapter;
  ad_put : adapter -> W -> W
}.

Class HasAdapterLaws (W : Type) `{HasAdapter W, TraceLog W} := {
  ad_get_put a w : ad_get (ad_put a w) = a;
  ad_put_get w : ad_put (ad_get w) w = w;
  ad_put_put a b w : ad_put a (ad_put b w) = ad_put a w;
  (** the trace is written without touching it *)
  ad_write_event run ty data task p w : ad_get (snd (tl_write_event run ty data task p w)) = ad_get w
}.

Definition TOOL_ACTION_TYPES : dict string string := Dict [
  ("read", "read_only"); ("list_dir", "read_only"); ("glob", "read_only"); ("grep", "read_only");
  ("stat", "read_only"); ("diff", "read_only"); ("notepad", "read_only");
  ("record_decision", "task_assumption"); ("record_assumption", "task_assumption");
  ("write_lesson", "task_assumption"); ("update_workflow_status", "read_only");
  ("add_constraint", "architecture_decision"); ("create_inbox_item", "read_only");
  ("create_workflow", "scope_change"); ("create_task", "scope_change"); ("start_task", "retry");
  ("end_task", "retry"); ("create_wait_for", "scope_change"); ("await_task", "retry");
  ("consult", "read_only") ]%string.

(** A tool without an entry changes the scope. *)
Definition action_type_of (name : string) : string := default "scope_change"%string (TOOL_ACTION_TYPES !! name).

(** [Decimal(str(x))], when that is a decimal at all *)
Inductive parsed_decimal := Finite (d : decimal) | Infinity (negative : bool) | NaN.

(** [budget > threshold]: a comparison with NaN raises. *)
Definition exceeds (budget : parsed_decimal) (threshold : decimal) : result bool :=
  match budget with
  | Finite d => Ok (dec_ltb threshold d)
  | Infinity negative => Ok (negb negative)
  | NaN => Raise (OtherError "InvalidOperation")
  end.

Record adapter_env (W : Type) := {
  oa_agents : agent_env W;
  (** [format_event] *)
  oa_prepare_event : overseer_event -> string;
  (** [TaskSpec( **args )], a pydantic model *)
  oa_task_spec : dict string value -> result TaskSpec;
  oa_level : AutonomyLevel;
  (** the monitor's settings *)
  oa_threshold : decimal;
  oa_window_size : nat;
  oa_budget_limit : option decimal;
  oa_spent_fn : option (sys W -> decimal);
  oa_proportionality_threshold : option decimal;
  oa_decimal : value -> option parsed_decimal;
  (** the formats of [f"{v!r}"], [f"{d}"] and [f"{d:.0%}"] *)
  oa_repr : value -> string;
  oa_str_decimal : parsed_decimal -> string;
  oa_percent : decimal -> string;
  (** the tools of a session, [session.update_tools], [session.resume_id()] *)
  oa_tools : uuid -> sys W -> list (Tool (sys W));
  oa_update_tools : uuid -> list (Tool (sys W)) -> M (sys W) unit;
  oa_resume_id : uuid -> sys W -> string;
  (** [create_session], with transport, model, prompt and tools of a session *)
  oa_create_session : uuid -> M (sys W) uuid;
  oa_handoff_checker : option (uuid -> Z -> M (sys W) bool);
  oa_handoff_performer : option (uuid -> M (sys W) uuid)
}.
Arguments oa_agents {W} _.
Arguments oa_prepare_event {W} _ _.
Arguments oa_task_spec {W} _ _.
Arguments oa_level {W} _.
Arguments oa_threshold {W} _.
Arguments oa_window_size {W} _.
Arguments oa_budget_limit {W} _.
Arguments oa_spent_fn {W} _.
Arguments oa_proportionality_threshold {W} _.
Arguments oa_decimal {W} _ _.
Arguments oa_repr {W} _ _.
Arguments oa_str_decimal {W} _ _.
Arguments oa_percent {W} _ _.
Arguments oa_tools {W} _ _ _.
Arguments oa_update_tools {W} _ _ _.
Arguments oa_resume_id {W} _ _ _.
Arguments oa_create_session {W} _ _.
Arguments oa_handoff_checker {W} _.
Arguments oa_handoff_performer {W} _.

(** *** Verifying a response *)

Definition missing_fields (what : string) (required : list string) (args : dict string value) : list string :=
  (fun field => ("Schema: " +:+ what +:+ " missing required field '" +:+ field +:+ "'")%string)
    <$> filter (fun field => args !! field = None) required.

Section verify.
Context {W : Type} (env : adapter_env W).

Definition _validate_create_task_args (args : dict string value) : list string :=
  match missing_fields "create_task" ["name"; "agent"; "task_prompt"; "timeout"; "context_refinement"]%string args with
  | [] =>
      let tree_errors :=
        task ← oa_task_spec env args;
        validate_task_tree {| wc_name := "validation"; wc_description := "Schema validation"; wc_tasks := [task];
          wc_dependencies := ∅; wc_escalation_policy := CONTINUE_INDEPENDENT; wc_services := [] |} false in
      match tree_errors with
      | Ok tree_errors => (fun te => ("Schema: " +:+ te)%string) <$> tree_errors
      | Raise e => [("Schema: create_task args invalid: " +:+ te_exn_str (ae_task (oa_agents env)) e)%string]
      end
  | errors => errors
  end.

Definition _validate_create_workflow_args (args : dict string value) : list string :=
  match missing_fields "create_workflow" ["name"; "description"; "goals"]%string args with
  | [] => if falsy (default (VList []) (args !! "goals"%string))
          then ["Schema: create_workflow requires at least one goal"%string] else []
  | errors => errors
  end.

Definition _check_schema_validation (calls : list tool_call) : list string :=
  mbind (fun tc =>
    if decide (tc_tool_name tc = "create_task"%string) then _validate_create_task_args (tc_input tc)
    else if decide (tc_tool_name tc = "create_workflow"%string) then _validate_create_workflow_args (tc_input tc)
    else []) calls.

(** A key of a dict: lists and dicts cannot be hashed, and [True] is the key [1]. *)
Definition dict_key (v : value) : result value :=
  match v with
  | VList _ | VDict _ => Raise (TypeError "unhashable type")
  | VBool b => Ok (VInt (if b then 1 else 0))
  | _ => Ok v
  end.

(** The key [(kind, glob)] of an [add_constraint] call *)
Definition constraint_key (inp : dict string value) : result (value * value) :=
  kind ← dict_key (default (VStr EmptyString) (inp !! "kind"%string));
  glob ← dict_key (default (VStr EmptyString) (inp !! "glob"%string));
  Ok (kind, glob).

(** One call: the errors and the keys seen. *)
Definition check_constraint_call (acc : list string * list (value * value)) (inp : dict string value) :
    result (list string * list (value * value)) :=
  let '(errors, seen) := acc in
  key ← constraint_key inp;
  if decide (key ∈ seen) then
    Ok (errors ++ [("Constraint consistency: duplicate mechanical constraint kind=" +:+
          oa_repr env (default (VStr EmptyString) (inp !! "kind"%string)) +:+ " glob=" +:+
          oa_repr env (default (VStr EmptyString) (inp !! "glob"%string)))%string], seen)
  else Ok (errors, seen ++ [key]).

Definition constraint_inputs (calls : list tool_call) : list (dict string value) :=
  tc_input <$> filter (fun tc => tc_tool_name tc = "add_constraint"%string) calls.

Definition _check_constraint_consistency (calls : list tool_call) : result (list string) :=
  '(errors, _) ← rfold check_constraint_call ([], []) (constraint_inputs calls); Ok errors.

(** [json.dumps(v, sort_keys=True)] tells two values apart exactly when this does. *)
Fixpoint insert_key (kv : string * value) (l : list (string * value)) : list (string * value) :=
  match l with
  | [] => [kv]
  | kv' :: l' => if String.leb kv.1 kv'.1 then kv :: l else kv' :: insert_key kv l'
  end.

Fixpoint canonical (v : value) : value :=
  match v with
  | VList l => VList ((fix go l := match l with [] => [] | x :: l' => canonical x :: go l' end) l)
  | VDict d =>
      VDict ((fix go (d : list (string * value)) :=
        match d with [] => [] | (k, x) :: d' => insert_key (k, canonical x) (go d') end) d)
  | _ => v
  end.

Definition signature (calls : list tool_call) : list (string * value) :=
  (fun tc => (tc_tool_name tc, canonical (VDict (ditems (tc_input tc))))) <$> calls.

Definition _check_repetition (event_type : string) : M adapter (list string) :=
  if decide (event_type = EmptyString) then mret []
  else
    current ← mgets _current_tool_calls;
    previous ← mgets (fun a => _previous_tool_calls a !! event_type);
    mmod (fun a => a .[_previous_tool_calls ::= <[event_type := current]>]) ;;
    match current, previous with
    | _ :: _, Some (_ :: _ as previous) =>
        if decide (signature current = signature previous) then
          mret [("Repetition detected: identical tool calls for event type " +:+ oa_repr env (VStr event_type))%string]
        else mret []
    | _, _ => mret []
    end.

(** The calls whose budget is out of proportion *)
Fixpoint over_budget (fraction threshold remaining : decimal) (calls : list tool_call) : result (list string) :=
  match calls with
  | [] => Ok []
  | tc :: calls' =>
      over ← (if decide (tc_tool_name tc = "create_workflow"%string) then
                match tc_input tc !! "budget"%string with
                | None | Some VNone => Ok None
                | Some budget =>
                    match oa_decimal env budget with
                    | None => Ok None
                    | Some budget => over ← exceeds budget threshold; Ok (if over : bool then Some budget else None)
                    end
                end
              else Ok None);
      errors ← over_budget fraction threshold remaining calls';
      Ok (match over with
          | Some budget => ("Proportionality: create_workflow budget $" +:+ oa_str_decimal env budget +:+ " exceeds " +:+
               oa_percent env fraction +:+ " of remaining run budget $" +:+ oa_str_decimal env (Finite remaining))%string
               :: errors
          | None => errors
          end)
  end.

Definition _check_proportionality (calls : list tool_call) (s : sys W) : result (list string) :=
  match oa_proportionality_threshold env, oa_budget_limit env with
  | None, Some _ => Ok ["proportionality_threshold required when budget is set"%string]
  | None, None | Some _, None => Ok []
  | Some fraction, Some limit =>
      let spent := match oa_spent_fn env with Some spent_fn => spent_fn s | None => decimal_Z 0 end in
      let remaining := (limit - spent)%dec in
      if dec_leb remaining (decimal_Z 0) then Ok []
      else over_budget fraction (remaining * fraction)%dec remaining calls
  end.
End verify.

Section adapter.
Context {W : Type} `{TraceStore W, TraceLog W, HasAdapter W}.
Context (cfg : sched_config) (env : adapter_env W).
Abbreviation agents := (oa_agents env).

Definition on_adapter {A} (m : M adapter A) : M (sys W) A := on_store (zoom ad_get ad_put m).
Definition on_monitor {A} (m : M windows A) : M (sys W) A :=
  on_adapter (zoom _windows (fun ws a => a .[_windows := ws]) m).

(** *** Autonomy gating *)

Definition blocked (tool : Tool (sys W)) (action_type : string) : ToolOutput :=
  let msg := ("Action blocked: tool '" +:+ tl_name tool +:+ "' requires '" +:+ action_type +:+
              "' autonomy (current level: '" +:+ AutonomyLevel_value (oa_level env) +:+ "').")%string in
  {| data := VDict [("message"%string, VStr msg)]; text := msg |}.

Definition _gate_tool (tool : Tool (sys W)) : Tool (sys W) :=
  let action_type := action_type_of (tl_name tool) in
  if is_autonomous (oa_level env) action_type then tool
  else {| tl_name := tl_name tool; tl_description := tl_description tool; tl_parameters := tl_parameters tool;
          tl_execute := fun _ => mret (blocked tool action_type); tl_suspending := tl_suspending tool;
          tl_namespace := ""; tl_tags := []; tl_deferred := false; tl_location := "anywhere"; tl_capabilities := [] |}.

Definition gate_tools (tools : list (Tool (sys W))) : list (Tool (sys W)) := _gate_tool <$> tools.

Definition _gate_session_tools : M (sys W) unit :=
  session ← on_adapter (mgets _session);
  tools ← mgets (oa_tools env session);
  oa_update_tools env session (gate_tools tools).

Definition update_session (new_session : uuid) : M (sys W) unit :=
  on_adapter (mmod (fun a => a .[_session := new_session])) ;; _gate_session_tools.

(** *** The interface *)

Definition tool_uses (events : list session_event) : list tool_call :=
  omap (fun ev => match ev with
                  | ToolUse name input status =>
                      Some {| tc_tool_name := name; tc_input := input; tc_status := status |}
                  | _ => None
                  end) events.

(** The events of a message to the overseer's session *)
Definition overseer_send (message : string) : M (sys W) (list session_event) :=
  session ← on_adapter (mgets _session); ae_send agents None session message.

Definition send_event (event : overseer_event) : M (sys W) unit :=
  events ← overseer_send (oa_prepare_event env event);
  let tool_calls := tool_uses events in
  on_adapter (mmod (fun a => a .[_current_tool_calls := tool_calls]
                              .[_last_tool_calls ::= <[event_type event := tool_calls]>])).

Definition send_correction (message : string) : M (sys W) unit :=
  events ← overseer_send message;
  on_adapter (mmod (fun a => a .[_current_tool_calls := tool_uses events])).

Definition is_degraded (event_type : string) : M (sys W) bool :=
  on_monitor (HealthMonitor_is_degraded (oa_threshold env) event_type).

Definition verify_actions (event_type : string) : M (sys W) (list string) :=
  calls ← on_adapter (mgets _current_tool_calls);
  let schema := _check_schema_validation env calls in
  consistency ← liftr (_check_constraint_consistency env calls);
  repetition ← on_adapter (_check_repetition env event_type);
  s ← mget;
  proportionality ← liftr (_check_proportionality env calls s);
  let errors := schema ++ consistency ++ repetition ++ proportionality in
  let is_repetition := existsb (str_in "Repetition") errors in
  on_monitor (record_event (oa_window_size env) event_type (bool_decide (errors = [])) is_repetition) ;;
  mret errors.

Definition refine_context (task_name raw_context : string) : M (sys W) string :=
  events ← overseer_send (ae_render_template agents "refine_context"
    [("task_name", task_name); ("raw_context", raw_context)]%string);
  let refined := String.concat "" (result_texts events) in
  mret (if decide (refined = EmptyString) then raw_context else refined).

(** *** Hand-off: overseer/_handoff.py *)

(** [used >= int(limit * 0.9)] *)
Definition check_handoff_needed (session : uuid) (model_context_limit : Z) : M (sys W) bool :=
  totals ← mgets (ae_totals agents session);
  mret (bool_decide (Z.quot (9 * model_context_limit) 10 <= u_input_tokens totals + u_output_tokens totals)%Z).

Definition handoff_request : string :=
  "Produce a detailed summary of this conversation for handoff to a new session. Include: all decisions made, active constraints, current assumptions, workflow status, and any pending actions.".

Definition perform_handoff (session : uuid) : M (sys W) uuid :=
  events ← ae_send agents None session handoff_request;
  let summary := String.concat "" (result_texts events) in
  old ← mgets (oa_resume_id env session);
  on_store (tl_write_event (Some (_run_id cfg)) "session_handoff"
    (VDict [("old_session_id", VStr old); ("summary_length", VInt (Z.of_nat (String.length summary)))]%string)
    None (_run_principal_id cfg)) ;;
  new_session ← oa_create_session env session;
  id ← mgets (oa_resume_id env session);
  ae_send agents None new_session
    ("You are continuing from a previous session. Here is the context summary:" +:+ newline +:+ newline +:+
     summary +:+ newline +:+ newline +:+ "Previous session ID: " +:+ id)%string ;;
  mret new_session.

Definition _check_session_handoff : M (sys W) unit :=
  match oa_handoff_checker env, oa_handoff_performer env with
  | Some handoff_checker, Some handoff_performer =>
      session ← on_adapter (mgets _session);
      needed ← handoff_checker session (ae_model_context_limit agents);
      if needed : bool then
        new_session ← handoff_performer session;
        update_session new_session
      else mret tt
  | _, _ => mret tt
  end.

(** The adapter implements the interface of [OverseerLink]. *)
Definition OverseerAdapter : overseer_env W := {|
  ov_is_degraded := is_degraded;
  ov_send_event := send_event;
  ov_send_correction := send_correction;
  ov_verify_actions := verify_actions;
  ov_check_handoff := _check_session_handoff
|}.
End adapter.

(** ** A store with an adapter beside it *)

Record with_adapter (W : Type) := WithAdapter { wa_world : W; wa_adapter : adapter }.
Arguments WithAdapter {W} _ _.
Arguments wa_world {W} _.
Arguments wa_adapter {W} _.
#[export] Instance eta_with_adapter {W} : Eta (with_adapter W) := fun w => {|
  wa_world := wa_world w; wa_adapter := wa_adapter w |}.

Section beside.
Context {W : Type} `{TraceStore W, TraceLog W}.

Definition in_world {A} (m : M W A) : M (with_adapter W) A := zoom wa_world (fun x w => w .[wa_world := x]) m.

#[export] Instance beside_store : TraceStore (with_adapter W) := {
  ts_create_task run parent name ty config := in_world (ts_create_task run parent name ty config);
  ts_transition_task id new reason p := in_world (ts_transition_task id new reason p);
  ts_status w := ts_status (wa_world w);
  ts_inv w := ts_inv (wa_world w)
}.

#[export] Instance beside_log : TraceLog (with_adapter W) := {
  tl_write_event run ty data task p := in_world (tl_write_event run ty data task p);
  tl_create_task_attempt id n := in_world (tl_create_task_attempt id n);
  tl_complete_task_attempt id out so cr v se k c d := in_world (tl_complete_task_attempt id out so cr v se k c d);
  tl_fail_task_attempt id error se k c d := in_world (tl_fail_task_attempt id error se k c d);
  tl_create_iteration id n v := in_world (tl_create_iteration id n v);
  tl_complete_iteration id out so cr := in_world (tl_complete_iteration id out so cr);
  tl_fail_iteration id e := in_world (tl_fail_iteration id e)
}.

#[export] Instance beside_adapter : HasAdapter (with_adapter W) := {
  ad_get := wa_adapter;
  ad_put a w := w .[wa_adapter := a]
}.

#[export] Instance beside_adapter_laws : HasAdapterLaws (with_adapter W).
Proof.
  split; [done|by intros []|done|]. intros run ty data task p [w a]. simpl. unfold in_world, zoom. simpl.
  by destruct (tl_write_event run ty data task p w).
Qed.

(** The store keeps its laws. *)
#[export] Instance beside_store_laws `{!TraceStoreLaws W} : TraceStoreLaws (with_adapter W).
Proof.
  split.
  - intros run parent name ty config [w a] Hinv.
    destruct (ts_create_law run parent name ty config w Hinv) as (id & w' & E & Hinv' & Hn & Hs).
    exists id, (WithAdapter w' a). split_and!; [|done..]. simpl. unfold in_world, zoom. simpl. by rewrite E.
  - intros id new reason p [w a] old Hinv Hst.
    pose proof (ts_transition_law id new reason p w old Hinv Hst) as Hlaw.
    destruct (validate_task_transition old new) as [e|]; destruct Hlaw as (w' & E & Hinv' & Hs);
      exists (WithAdapter w' a); (split; [simpl; unfold in_world, zoom; simpl; by rewrite E|done]).
Qed.
End beside.
