(* ===== verification/OverseerSpec.v ===== *)
(** What the overseer's adapter guarantees the scheduler: which tools an autonomy level lets through, what
    the verification of a response accepts, and when the scheduler stops asking it. *)
From Stdlib Require Import QArith Qcanon.
From S2P Require Import Prelude PyDict Text Types Transitions Validator Pipeline Store Scheduler Budget TaskDispatch OverseerLink AgentExecution Workflow Overseer.
Close Scope Q_scope.

(** ** Health *)

Section window.
Implicit Types (w : list health_event).

Definition failures w : nat := postcheck_failures (_compute_metrics w).

Lemma failures_app w w' : failures (w ++ w') = failures w + failures w'.
Proof. unfold failures, _compute_metrics. simpl. by rewrite filter_app, length_app. Qed.

Lemma rate_over k n : 0 < n -> dec_ltb default_threshold (rate k n) = true <-> 3 * n < 10 * k.
Proof.
  intros Hn. rewrite dec_ltb_lt. unfold rate. rewrite decide_True by done.
  unfold Qclt, default_threshold, decimal_of. simpl. rewrite !Qred_correct. unfold Qlt. simpl. lia.
Qed.

(** Failures in more than three of ten responses *)
Lemma failing_over w : 3 * length w < 10 * failures w -> over_threshold default_threshold (_compute_metrics w) = true.
Proof.
  intros Hw. assert (Hn : 0 < length w) by (destruct w; [cbv in Hw|simpl]; lia).
  unfold over_threshold. by rewrite (proj2 (rate_over _ _ Hn)).
Qed.

Lemma append_window_small size e w : length w < size -> append_window size e w = w ++ [e].
Proof.
  intros Hw. unfold append_window. rewrite length_app. simpl.
  replace (length w + 1 - size) with 0 by lia. done.
Qed.
End window.

(** ** Autonomy *)

(** [level] grants no more than [level']. *)
Definition level_le (level level' : AutonomyLevel) : bool :=
  match level, level' with
  | LOW, _ | _, MAX => true
  | MEDIUM, (MEDIUM | HIGH) | HIGH, HIGH => true
  | _, _ => false
  end.

Lemma autonomy_monotone level level' a :
  level_le level level' = true -> is_autonomous level a = true -> is_autonomous level' a = true.
Proof.
  unfold is_autonomous. rewrite !orb_true_iff, !bool_decide_eq_true.
  destruct level, level'; try done; intros _; unfold _RULES; set_solver.
Qed.

(** ** Constraints *)

Section consistency.
Context {W : Type} (env : adapter_env W).

Lemma check_call_run errors seen inp key :
  constraint_key inp = Ok key ->
  exists message, check_constraint_call env (errors, seen) inp =
    Ok (if decide (key ∈ seen) then (errors ++ [message], seen) else (errors, seen ++ [key])).
Proof.
  intros E. eexists. unfold check_constraint_call. rewrite E. cbn [mbind result_bind].
  destruct (decide (key ∈ seen)); reflexivity.
Qed.

Lemma consistency_fold inps keys errors seen :
  Forall2 (fun inp key => constraint_key inp = Ok key) inps keys ->
  exists errors' seen', rfold (check_constraint_call env) (errors, seen) inps = Ok (errors ++ errors', seen') /\
    (errors' = [] <-> NoDup keys /\ forall key, key ∈ keys -> key ∉ seen).
Proof.
  intros Hk. revert errors seen. induction Hk as [|inp key inps keys Hinp Hk IH]; intros errors seen.
  { exists [], seen. rewrite app_nil_r. split; [done|]. split; [|done]. intros _. split; [constructor|].
    intros key ?%not_elem_of_nil. done. }
  cbn [rfold]. destruct (check_call_run errors seen inp key Hinp) as [message ->]. cbn [mbind result_bind].
  case_decide as Hin.
  - destruct (IH (errors ++ [message]) seen) as (errors' & seen' & E & _).
    rewrite <- app_assoc in E. eexists _, seen'. split; [exact E|]. split; [done|].
    intros [_ Hs]. exfalso. apply (Hs key); [left|done].
  - destruct (IH errors (seen ++ [key])) as (errors' & seen' & E & Hiff).
    exists errors', seen'. split; [exact E|]. rewrite Hiff, NoDup_cons. split.
    + intros [Hnd Hs]. assert (key ∉ keys) by (intros Hc; apply (Hs key Hc); set_solver).
      split; [done|]. intros k [->|Hk']%elem_of_cons; [done|]. specialize (Hs k Hk'). set_solver.
    + intros [[Hn Hnd] Hs]. split; [done|]. intros k Hk' Hk2.
      apply elem_of_app in Hk2 as [Hk2|Hk2]; [by apply (Hs k); [right|]|]. apply list_elem_of_singleton in Hk2. by subst k.
Qed.

(** Two constraints of one kind never pass.  The tool [add_constraint] takes a kind, a text, a tier and
    arguments, and no field [glob]; the consistency check compares kinds and globs.  So it accepts a
    response exactly when its constraints are of pairwise different kinds, whatever their arguments and
    tiers - advisory constraints and constraints on different globs included. *)
Theorem constraints_of_one_kind_rejected calls (kinds : list string) :
  (fun inp : dict string value => inp !! "kind"%string) <$> constraint_inputs calls = (fun k => Some (VStr k)) <$> kinds ->
  (forall inp, inp ∈ constraint_inputs calls -> inp !! "glob"%string = None) ->
  exists errors, _check_constraint_consistency env calls = Ok errors /\ (errors = [] <-> NoDup kinds).
Proof.
  intros Hkinds Hglob. set (key k := (VStr k, VStr EmptyString)).
  assert (Hf : Forall2 (fun inp key => constraint_key inp = Ok key) (constraint_inputs calls) (key <$> kinds)).
  { revert kinds Hkinds Hglob. induction (constraint_inputs calls) as [|inp inps IH]; intros [|k kinds]; try done.
    intros [= Hk Hks] Hglob. constructor.
    - unfold constraint_key. rewrite Hk, (Hglob inp) by left. done.
    - apply IH; [exact Hks|]. intros i Hi. apply Hglob. by right. }
  destruct (consistency_fold _ _ [] [] Hf) as (errors & seen & E & Hiff). exists errors.
  unfold _check_constraint_consistency. rewrite E. split; [done|]. rewrite Hiff.
  assert (Hnd : NoDup (key <$> kinds) <-> NoDup kinds).
  { split; [apply NoDup_fmap_1|]. apply NoDup_fmap_2. intros k k' [= ->]. done. }
  rewrite Hnd. split; [by intros [? _]|]. intros ?. split; [done|]. intros k _ ?%not_elem_of_nil. done.
Qed.
End consistency.

Section adapter.
Context {W : Type} `{TraceStore W, HasAdapterLaws W}.
Context (cfg : sched_config) (env : adapter_env W).
Context (sinks : list (overseer_event -> M (sys W) unit)) (fields : overseer_event -> list (string * value)).
Implicit Types (s : sys W) (t : string).

Abbreviation send := (_send_overseer_event cfg (Some (OverseerAdapter env)) sinks fields).

Definition windows_of s : windows := _windows (ad_get (store s)).
Definition window_of t s : list health_event := default [] (windows_of s !! t).

(** The monitor's answer for an event type *)
Definition degraded t s : bool :=
  match window_of t s with
  | [] => false
  | w => over_threshold (oa_threshold env) (_compute_metrics w)
  end.

(** Code that leaves the monitor alone: sessions, sinks and what a hand-off calls. *)
Definition calm {A} (m : M (sys W) A) : Prop := forall ws, keeps (fun s => windows_of s = ws) m.

Record calm_env := {
  ce_send timeout session message : calm (ae_send (oa_agents env) timeout session message);
  ce_update session tools : calm (oa_update_tools env session tools);
  ce_checker f session limit : oa_handoff_checker env = Some f -> calm (f session limit);
  ce_performer f session : oa_handoff_performer env = Some f -> calm (f session);
  ce_sink sink e : sink ∈ sinks -> calm (sink e)
}.

Definition kept (P : windows -> Prop) {A} (m : M (sys W) A) : Prop := keeps (fun s => P (windows_of s)) m.

Lemma calm_kept {A} P (m : M (sys W) A) : calm m -> kept P m.
Proof. intros Hm s Hs. by rewrite (Hm _ s eq_refl). Qed.

Lemma kept_adapter {A} P (m : M adapter A) : keeps (fun a => P (_windows a)) m -> kept P (on_adapter m).
Proof.
  intros Hm s Hs. unfold on_adapter, on_store, zoom, windows_of in *. simpl.
  specialize (Hm _ Hs). destruct (m (ad_get (store s))) as [r a]. simpl in *. by rewrite ad_get_put.
Qed.

Lemma kept_monitor {A} P (m : M windows A) : keeps P m -> kept P (on_monitor m).
Proof.
  intros Hm. apply kept_adapter. intros a Ha. unfold zoom. specialize (Hm _ Ha). by destruct (m (_windows a)).
Qed.

Lemma kept_write_event P run ty data task p : kept P (on_store (tl_write_event run ty data task p)).
Proof.
  intros s Hs. unfold on_store, zoom, windows_of in *. simpl.
  pose proof (ad_write_event run ty data task p (store s)) as E.
  destruct (tl_write_event run ty data task p (store s)) as [r w]. simpl in *. by rewrite E.
Qed.

Lemma kept_liftr {A} P (r : result A) : kept P (liftr r).
Proof. apply keeps_liftr. Qed.

Lemma kept_bind {A B} P (m : M (sys W) A) (k : A -> M (sys W) B) :
  kept P m -> (forall a, kept P (k a)) -> kept P (m ≫= k).
Proof. apply keeps_bind. Qed.

(** Reading or changing anything but the monitor *)
Lemma kept_session P : kept P (on_adapter (W := W) (mgets _session)).
Proof. apply kept_adapter, keeps_mgets. Qed.

Lemma kept_send P message : calm_env -> kept P (overseer_send env message).
Proof. intros Hc. apply kept_bind; [apply kept_session|]. intros id. apply calm_kept, Hc. Qed.

Lemma kept_repetition P t : kept P (on_adapter (W := W) (_check_repetition env t)).
Proof.
  apply kept_adapter. unfold _check_repetition. case_decide; [apply keeps_ret|].
  apply keeps_bind; [apply keeps_mgets|]. intros current. apply keeps_bind; [apply keeps_mgets|]. intros previous.
  apply keeps_bind; [by apply keeps_mmod|]. intros _.
  destruct current, previous as [[|]|]; try apply keeps_ret. case_decide; apply keeps_ret.
Qed.

Lemma kept_send_event P e : calm_env -> kept P (send_event env e).
Proof. intros Hc. apply kept_bind; [by apply kept_send|]. intros events. apply kept_adapter. by apply keeps_mmod. Qed.

Lemma kept_send_correction P m : calm_env -> kept P (send_correction env m).
Proof. intros Hc. apply kept_bind; [by apply kept_send|]. intros events. apply kept_adapter. by apply keeps_mmod. Qed.

Lemma kept_update_session P id : calm_env -> kept P (update_session env id).
Proof.
  intros Hc. apply kept_bind; [by apply kept_adapter, keeps_mmod|]. intros _.
  apply kept_bind; [apply kept_session|]. intros session. apply kept_bind; [apply keeps_mgets|]. intros tools.
  apply calm_kept, Hc.
Qed.

Lemma kept_handoff P : calm_env -> kept P (_check_session_handoff env).
Proof.
  intros Hc. unfold _check_session_handoff. destruct (oa_handoff_checker env) as [checker|] eqn:E1; [|apply keeps_ret].
  destruct (oa_handoff_performer env) as [performer|] eqn:E2; [|apply keeps_ret].
  apply kept_bind; [apply kept_session|]. intros session.
  apply kept_bind; [by apply calm_kept, ce_checker|]. intros [|]; [|apply keeps_ret].
  apply kept_bind; [by apply calm_kept, ce_performer|]. intros new. by apply kept_update_session.
Qed.

Lemma kept_sinks P e : calm_env -> kept P (_dispatch_to_overseer_sinks sinks e).
Proof.
  intros Hc. apply keeps_mfor. intros sink Hin. apply keeps_catch; [by apply calm_kept, ce_sink|].
  intros ex. apply keeps_ret.
Qed.

Lemma kept_headless P e : kept P (_handle_headless_event cfg fields e).
Proof.
  unfold _handle_headless_event. destruct (default _DEFAULT_FALLBACK _); try apply keeps_ret; [apply keeps_throw|].
  apply kept_bind; [apply kept_write_event|]. intros _. case_decide; [apply keeps_throw|apply keeps_ret].
Qed.

(** ** What the monitor sees of an event *)

Lemma adapter_eta a : {| _session := _session a; _windows := _windows a; _last_tool_calls := _last_tool_calls a;
  _previous_tool_calls := _previous_tool_calls a; _current_tool_calls := _current_tool_calls a |} = a.
Proof. by destruct a. Qed.

Lemma get_window_run t ws :
  _get_window t ws = (Ok (default [] (ws !! t)), if decide (ws !! t = None) then <[t := []]> ws else ws).
Proof. unfold _get_window, mbind, M_bind. simpl. by destruct (ws !! t). Qed.

Lemma is_degraded_run t s :
  exists s', is_degraded env t s = (Ok (degraded t s), s') /\ (forall k, window_of k s' = window_of k s) /\
    (is_Some (windows_of s !! t) -> s' = s).
Proof.
  unfold is_degraded, on_monitor, on_adapter, on_store, zoom. simpl.
  unfold HealthMonitor_is_degraded, mbind, M_bind. rewrite get_window_run.
  fold (windows_of s). fold (window_of t s). unfold degraded.
  set (ws := if decide (windows_of s !! t = None) then _ else _).
  eexists. split; [by destruct (window_of t s)|]. split.
  - intros k. destruct (window_of t s) eqn:Ew; unfold window_of, windows_of at 1; simpl; rewrite ad_get_put; simpl.
    all: unfold ws; case_decide as Hn; [|done]; rewrite dict_lookup_insert; case_decide as Hk; [|done];
      subst k; unfold window_of; by rewrite Hn.
  - intros Hsome. assert (Ews : ws = windows_of s).
    { unfold ws. rewrite decide_False; [done|]. intros Hn. rewrite Hn in Hsome. by destruct Hsome. }
    destruct (window_of t s); rewrite Ews; unfold windows_of; destruct s as [x w]; simpl.
    all: by rewrite adapter_eta, ad_put_get.
Qed.

Lemma record_run t ok rep s :
  exists s', on_monitor (record_event (oa_window_size env) t ok rep) s = (Ok tt, s') /\
    forall k, windows_of s' !! k =
      if decide (k = t)
      then Some (append_window (oa_window_size env) {| he_success := ok; he_is_repetition := rep |} (window_of t s))
      else windows_of s !! k.
Proof.
  unfold on_monitor, on_adapter, on_store, zoom. simpl.
  unfold record_event, mbind, M_bind. rewrite get_window_run. fold (windows_of s). fold (window_of t s). simpl.
  eexists. split; [done|]. intros k. unfold windows_of at 1. simpl. rewrite ad_get_put. simpl.
  rewrite dict_lookup_insert. case_decide as Hk; [done|]. case_decide; [by rewrite dict_lookup_insert_ne|done].
Qed.

(** The windows read as those of [s]. *)
Definition same_windows s (ws : windows) : Prop := forall k, default [] (ws !! k) = window_of k s.

Lemma kept_wp {A} P (m : M (sys W) A) s :
  kept P m -> P (windows_of s) -> wp m (fun _ s' => P (windows_of s')) (fun _ s' => P (windows_of s')) s.
Proof. intros Hm Hs. specialize (Hm s Hs). unfold wp. by destruct (m s) as [[a|e] s']. Qed.

(** A verified response adds one entry, which says whether there was something to complain about. *)
Lemma verify_actions_wp t s :
  wp (verify_actions env t)
    (fun errors s' => exists rep, window_of t s' =
       append_window (oa_window_size env) {| he_success := bool_decide (errors = []); he_is_repetition := rep |} (window_of t s))
    (fun _ _ => True) s.
Proof.
  assert (Hk : forall A (m : M (sys W) A) (Q : A -> sys W -> Prop) s0, same_windows s (windows_of s0) ->
    kept (same_windows s) m -> (forall a s', same_windows s (windows_of s') -> Q a s') -> wp m Q (fun _ _ => True) s0).
  { intros A m Q s0 Hs0 Hm HQ. eapply wp_mono; [by apply kept_wp|done|done]. }
  unfold verify_actions. apply wp_bind, Hk; [done|by apply kept_adapter, keeps_mgets|]. intros calls s1 H1'.
  apply wp_bind, Hk; [done|apply kept_liftr|]. intros consistency s2 H2'.
  apply wp_bind, Hk; [done|apply kept_repetition|]. intros repetition s3 H3'.
  apply wp_bind. apply (wp_mgets (fun s => s)).
  apply wp_bind, Hk; [done|apply kept_liftr|]. intros proportionality s4 H4'.
  set (errors := _ ++ _). apply wp_bind. unfold wp.
  destruct (record_run t (bool_decide (errors = [])) (existsb (str_in "Repetition") errors) s4) as (s5 & -> & H5').
  simpl. eexists. unfold window_of at 1. rewrite H5', decide_True by done. simpl. f_equal. apply H4'.
Qed.

(** ** The degraded stay degraded *)

Lemma kept_record P t ok rep :
  (forall ws w, P ws -> P (<[t := w]> ws)) -> kept P (on_monitor (record_event (oa_window_size env) t ok rep)).
Proof.
  intros HP. apply kept_monitor. unfold record_event. apply keeps_bind; [|intros window; by apply keeps_mmod; auto].
  unfold _get_window. apply keeps_bind; [apply keeps_mget|]. intros ws. destruct (ws !! t); [apply keeps_ret|].
  apply keeps_bind; [by apply keeps_mmod; auto|]. intros _. apply keeps_ret.
Qed.

Lemma kept_verify P t :
  (forall ws w, P ws -> P (<[t := w]> ws)) -> kept P (verify_actions env t).
Proof.
  intros HP. unfold verify_actions. apply kept_bind; [by apply kept_adapter, keeps_mgets|]. intros calls.
  apply kept_bind; [apply kept_liftr|]. intros consistency. apply kept_bind; [apply kept_repetition|]. intros repetition.
  apply kept_bind; [apply keeps_mget|]. intros s. apply kept_bind; [apply kept_liftr|]. intros proportionality.
  apply kept_bind; [by apply kept_record|]. intros _. apply keeps_ret.
Qed.

Lemma kept_verify_loop P e left first errors :
  calm_env -> (forall ws w, P ws -> P (<[event_type e := w]> ws)) ->
  kept P (verify_loop (OverseerAdapter env) left first e errors).
Proof.
  intros Hc HP. revert first errors. induction left as [|left IH]; intros first errors; [apply keeps_ret|]. simpl.
  apply kept_bind; [destruct first; [by apply kept_send_event|by apply kept_send_correction]|]. intros _.
  apply kept_bind; [by apply kept_verify|]. intros [|e1 es]; [apply keeps_ret|apply IH].
Qed.

Lemma degraded_window t s (ws : windows) :
  default [] (ws !! t) = window_of t s -> degraded t s = true -> exists w, ws !! t = Some w /\ w = window_of t s.
Proof.
  unfold degraded. intros Hw. destruct (window_of t s) as [|h l]; [done|].
  intros _. destruct (ws !! t) as [w|]; [|done]. by exists w.
Qed.

Lemma send_degraded e s :
  degraded (event_type e) s = true ->
  send e s = (_handle_headless_event cfg fields e ;; _dispatch_to_overseer_sinks sinks e) s.
Proof.
  intros Hd. destruct (is_degraded_run (event_type e) s) as (s' & E & _ & Hs').
  rewrite Hd in E. rewrite Hs' in E by (destruct (degraded_window (event_type e) s (windows_of s)) as (w & -> & _); by eauto).
  unfold _send_overseer_event. erewrite M_bind_ok by exact E. done.
Qed.

(** Sending any event leaves a degraded type's window alone. *)
Lemma send_keeps_degraded t w e s :
  calm_env -> windows_of s !! t = Some w -> degraded t s = true -> windows_of (snd (send e s)) !! t = Some w.
Proof.
  intros Hc Hw Hd. destruct (decide (event_type e = t)) as [<-|Hne].
  - rewrite send_degraded by done.
    apply (kept_bind (fun ws => ws !! event_type e = Some w)); [apply kept_headless|intros _; by apply kept_sinks|done].
  - assert (HP : forall (ws : windows) v, ws !! t = Some w -> <[event_type e := v]> ws !! t = Some w).
    { intros ws v Hws. by rewrite dict_lookup_insert_ne. }
    apply (kept_bind (fun ws => ws !! t = Some w)); [| |done].
    + apply kept_monitor. unfold HealthMonitor_is_degraded. apply keeps_bind.
      * unfold _get_window. apply keeps_bind; [apply keeps_mget|]. intros ws.
        destruct (ws !! event_type e); [apply keeps_ret|].
        apply keeps_bind; [apply keeps_mmod; auto|intros _; apply keeps_ret].
      * intros window. destruct window; apply keeps_ret.
    + intros [|].
      * apply kept_bind; [apply kept_headless|intros _; by apply kept_sinks].
      * apply kept_bind; [by apply kept_verify_loop|intros _].
        apply kept_bind; [by apply kept_sinks|intros _]. by apply kept_handoff.
Qed.

(** Sending events one after the other, whatever they raise. *)
Definition send_all (events : list overseer_event) s : sys W := foldl (fun s e => snd (send e s)) s events.

Lemma send_all_degraded t w events s :
  calm_env -> windows_of s !! t = Some w -> degraded t s = true ->
  windows_of (send_all events s) !! t = Some w /\ degraded t (send_all events s) = true.
Proof.
  intros Hc. revert s. induction events as [|e events IH]; intros s Hw Hd; [done|].
  change (send_all (e :: events) s) with (send_all events (snd (send e s))).
  assert (Hw' : windows_of (snd (send e s)) !! t = Some w) by by apply send_keeps_degraded.
  apply IH; [done|]. revert Hd. unfold degraded, window_of. by rewrite Hw, Hw'.
Qed.

(** ** One failed response *)

Lemma verify_loop_window t left first e errors s :
  calm_env -> event_type e = t -> length (window_of t s) + left <= oa_window_size env ->
  wp (verify_loop (OverseerAdapter env) left first e errors)
    (fun _ s' => exists rest, window_of t s' = window_of t s ++ rest /\
       length rest <= left /\ length rest <= failures rest + 1) (fun _ _ => True) s.
Proof.
  intros Hc He. revert first errors s. induction left as [|left IH]; intros first errors s Hl; simpl.
  { apply wp_ret. exists []. rewrite app_nil_r. simpl. split_and!; [done|lia|lia]. }
  apply wp_bind. eapply wp_mono; [apply (kept_wp (same_windows s))|intros u s1 Hs1|done].
  { destruct first; [by apply kept_send_event|by apply kept_send_correction]. }
  { by intros k. }
  apply wp_bind. rewrite He. eapply wp_mono; [apply verify_actions_wp|intros errs s2 [rep Hs2]|done].
  rewrite append_window_small in Hs2 by (unfold window_of at 1; rewrite Hs1; lia).
  unfold window_of at 2 in Hs2. rewrite Hs1 in Hs2.
  destruct errs as [|err errs].
  { apply wp_ret. eexists. split; [exact Hs2|]. simpl. lia. }
  eapply wp_mono; [apply IH|intros _ s3 (rest & Hs3 & Hn & Hf)|done].
  { rewrite Hs2, length_app. simpl. lia. }
  eexists (_ :: rest). rewrite Hs3, Hs2, <- app_assoc. split; [reflexivity|].
  change (?x :: rest) with ([x] ++ rest). rewrite length_app, failures_app. simpl.
  change (failures [_]) with 1. lia.
Qed.

Lemma gate_name tool : tl_name (_gate_tool env tool) = tl_name tool.
Proof. unfold _gate_tool. by case_match. Qed.

Lemma gate_twice tool : _gate_tool env (_gate_tool env tool) = _gate_tool env tool.
Proof.
  unfold _gate_tool at 1. rewrite gate_name. destruct (is_autonomous _ _) eqn:Ea; [done|].
  unfold _gate_tool. by rewrite Ea.
Qed.

Lemma gate_cases tool :
  is_autonomous (oa_level env) (action_type_of (tl_name tool)) = true /\ _gate_tool env tool = tool \/
  is_autonomous (oa_level env) (action_type_of (tl_name tool)) = false /\
    forall args s, tl_execute (_gate_tool env tool) args s = (Ok (blocked env tool (action_type_of (tl_name tool))), s).
Proof. unfold _gate_tool. destruct (is_autonomous _ _); [by left|by right]. Qed.

Lemma degraded_by_failures t s :
  oa_threshold env = default_threshold -> 3 * length (window_of t s) < 10 * failures (window_of t s) ->
  degraded t s = true.
Proof.
  intros Hthr Hf. unfold degraded. rewrite Hthr. pose proof (failing_over (window_of t s) Hf) as Ho.
  destruct (window_of t s); [cbv in Hf; lia|done].
Qed.

(** ** Main theorems *)

(** Gating by autonomy.  Of the tools an adapter hands its session, one whose action the autonomy level
    covers is the original; any other keeps its name and answers that it is blocked, whatever it is asked,
    and changes nothing.  Gating tools again, as after a hand-off, makes no difference, and a tool let
    through at a level is let through at every higher one. *)
Theorem gated_tools i tools tool :
  gate_tools env tools !! i = Some tool ->
  exists original, tools !! i = Some original /\ tl_name tool = tl_name original /\
    (is_autonomous (oa_level env) (action_type_of (tl_name original)) = true /\ tool = original /\
       (forall level, level_le (oa_level env) level = true ->
          is_autonomous level (action_type_of (tl_name original)) = true) \/
     requires_approval (oa_level env) (action_type_of (tl_name original)) = true /\
       forall args s, tl_execute tool args s = (Ok (blocked env original (action_type_of (tl_name original))), s)) /\
    gate_tools env (gate_tools env tools) !! i = Some tool.
Proof.
  unfold gate_tools. rewrite !list_lookup_fmap. destruct (tools !! i) as [original|]; [|done].
  intros [= <-]. exists original. simpl. rewrite gate_twice. split_and!; [done|apply gate_name| |done].
  destruct (gate_cases original) as [[Ea ->]|[Ea Hs]]; [left|right; split; [unfold requires_approval; by rewrite Ea|done]].
  split_and!; [done|done|]. intros level Hl. by eapply autonomy_monotone.
Qed.

(** Once degraded, always degraded.  When the monitor holds the overseer degraded for a type of event, no
    sequence of events changes that, of this type or another, whatever the sessions do and whatever is raised: the
    fallback that handles such an event records no outcome, so the window of the type never moves again and
    the overseer never hears of these events. *)
Theorem degraded_for_good t events s :
  calm_env -> degraded t s = true ->
  let s' := send_all events s in
  window_of t s' = window_of t s /\ degraded t s' = true /\
  forall e, event_type e = t ->
    send e s' = (_handle_headless_event cfg fields e ;; _dispatch_to_overseer_sinks sinks e) s'.
Proof.
  intros Hc Hd s'. destruct (degraded_window t s (windows_of s) eq_refl Hd) as (w & Hw & Ew).
  destruct (send_all_degraded t w events s Hc Hw Hd) as [Hw' Hd']. split_and!; [|done|].
  - unfold window_of at 1, s'. rewrite Hw'. done.
  - intros e <-. by apply send_degraded.
Qed.

(** C23. One bad response is enough.  With the monitor's default threshold, when the overseer's first or second
    response to a type of event does not verify, it is degraded for that type, although it corrects
    itself at once: sending the event returns with the failed response counted against one or two that
    verified.  The window holds four responses or more, and what the adapter awaits leaves its monitor alone
    ([calm_env]). *)
Theorem failed_response_degrades e s s1 s' err errs :
  calm_env -> oa_threshold env = default_threshold -> 4 <= oa_window_size env ->
  length (window_of (event_type e) s) <= 1 ->
  (send_event env e ;; verify_actions env (event_type e)) (snd (is_degraded env (event_type e) s)) =
    (Ok (err :: errs), s1) ->
  send e s = (Ok tt, s') -> degraded (event_type e) s' = true.
Proof.
  intros Hc Hthr Hsize Hshort Hv Hsend. set (t := event_type e) in *.
  destruct (degraded t s) eqn:Hd.
  { destruct (degraded_window t s (windows_of s) eq_refl Hd) as (w & Hw & _).
    pose proof (send_keeps_degraded t w e s Hc Hw Hd) as Hw'. rewrite Hsend in Hw'. simpl in Hw'.
    revert Hd. unfold degraded, window_of. by rewrite Hw, Hw'. }
  destruct (is_degraded_run t s) as (s0 & E0 & Hs0 & _). rewrite Hd in E0. rewrite E0 in Hv. simpl in Hv.
  assert (Hw : wp (send_event env e ;; verify_actions env t) (fun errs s1 => exists rep, window_of t s1 =
     window_of t s ++ [{| he_success := bool_decide (errs = []); he_is_repetition := rep |}]) (fun _ _ => True) s0).
  { apply wp_bind. eapply wp_mono; [apply (kept_wp (same_windows s)); [by apply kept_send_event|exact Hs0]| |done].
    intros u s2 H2'. eapply wp_mono; [apply verify_actions_wp|intros errs' s3 [rep H3']|done]. exists rep.
    change (window_of t s2) with (default [] (windows_of s2 !! t)) in H3'. rewrite H2' in H3'.
    by rewrite append_window_small in H3' by lia. }
  unfold wp in Hw. rewrite Hv in Hw. destruct Hw as [rep Hw1].
  assert (Hl : wp (send e) (fun _ s' => degraded t s' = true) (fun _ _ => True) s).
  2: { unfold wp in Hl. by rewrite Hsend in Hl. }
  unfold _send_overseer_event. eapply wp_bind_run; [exact E0|]. cbv iota.
  apply wp_bind. change (verify_loop (OverseerAdapter env) max_attempts true e []) with
    (send_event env e ;; verify_actions env t ≫= fun errors =>
       match errors with [] => mret [] | _ => verify_loop (OverseerAdapter env) 2 false e errors end).
  apply wp_regroup. eapply wp_bind_run; [exact Hv|]. cbv iota.
  eapply wp_mono; [apply (verify_loop_window t); [done|done|]|intros errs2 s2 (rest & Hw2 & Hn & Hf)|done].
  { rewrite Hw1, length_app. simpl. lia. }
  assert (Hd2 : forall s3, same_windows s2 (windows_of s3) -> degraded t s3 = true).
  { intros s3 Hs3. specialize (Hs3 t). change (window_of t s3 = window_of t s2) in Hs3.
    apply degraded_by_failures; [done|]. rewrite Hs3, Hw2, Hw1, !length_app, !failures_app.
    rewrite bool_decide_false by done. change (failures [_]) with 1. simpl. lia. }
  apply wp_bind. eapply wp_mono; [apply (kept_wp (same_windows s2)); [by apply kept_sinks|done]|intros u s3 Hs3|done].
  eapply wp_mono; [apply (kept_wp (same_windows s2)); [by apply kept_handoff|exact Hs3]|intros u' s4 Hs4|done].
  by apply Hd2.
Qed.
End adapter.

(** ** Witnesses

    An overseer that answers an event with two constraints of one kind, and anything else with one. *)

Abbreviation world := (with_adapter mem_store).

Definition idle_tasks : task_env world := {|
  te_run_checks checks ctx := mret [];
  te_send_decision id name := mret tt;
  te_import m f := NoAttribute;
  te_wait_for name seconds := mret None;
  te_agent task id parent variables := mret (task_result None None []);
  te_paused := mret tt;
  te_blocked := mret tt;
  te_render_notepad s := ""%string;
  te_str v := ""%string;
  te_exn_str e := ""%string;
  te_str_int n := ""%string;
  te_json_dumps v := ""%string
|}.

Definition no_usage : Usage := {|
  u_input_tokens := 0; u_output_tokens := 0; u_reasoning_tokens := 0; u_cache_read_tokens := 0;
  u_cache_write_tokens := 0 |}.

Definition lint (arguments : value) : dict string value :=
  Dict [("kind", VStr "lint_clean"); ("text", VStr "lint"); ("tier", VStr "mechanical"); ("args", arguments)]%string.
Definition on_glob (glob : string) : dict string value := lint (VDict [("glob"%string, VStr glob)]).

Definition constrain (arguments : dict string value) : session_event := ToolUse "add_constraint" arguments "completed".

Definition hasty_agents : agent_env world := {|
  ae_task := idle_tasks;
  ae_transports := [];
  ae_open_session provider model task id n previous := mret n;
  ae_totals session s := no_usage;
  ae_send timeout session prompt :=
    mret (if decide (prompt = "event"%string) then [constrain (on_glob "src/*"); constrain (on_glob "docs/*"); Result "done"]
          else [constrain (on_glob "src/*"); Result "done"]);
  ae_resume session continuation message := mret [];
  ae_close session := mret tt;
  ae_refresh := mret tt;
  ae_assemble_prompt task id variables n attempt_id prior := mret ""%string;
  ae_resolve_task_variables text variables := Ok text;
  ae_render_template name args := name;
  ae_exn_type e := "Exception"%string;
  ae_session_name id n := "S"%string;
  ae_elapsed id s := 0%Z;
  ae_json_loads text := None;
  ae_jsonschema v schema := None;
  ae_send_overseer e := mret tt;
  ae_model_context_limit := 1000;
  ae_percent used limit := VNone;
  ae_turns := 5
|}.

Definition hasty (level : AutonomyLevel) : adapter_env world := {|
  oa_agents := hasty_agents;
  oa_prepare_event e := "event"%string;
  oa_task_spec args := Raise (ValueError "validation error");
  oa_level := level;
  oa_threshold := default_threshold;
  oa_window_size := default_window_size;
  oa_budget_limit := None;
  oa_spent_fn := None;
  oa_proportionality_threshold := None;
  oa_decimal v := None;
  oa_repr v := match v with VStr s => s | _ => ""%string end;
  oa_str_decimal d := ""%string;
  oa_percent d := ""%string;
  oa_tools session s := [];
  oa_update_tools session tools := mret tt;
  oa_resume_id session s := ""%string;
  oa_create_session session := mret session;
  oa_handoff_checker := None;
  oa_handoff_performer := None
|}.

Definition overseen_cfg : sched_config := {|
  _run_id := 100; _run_principal_id := 101; _agents := ∅; _categories := ∅;
  _budget_exhaustion_policy := BLOCK_NEW; _pricing := None; _mechanical_constraints := [] |}.

Definition no_fields (e : overseer_event) : list (string * value) := [].

Lemma hasty_calm level : calm_env (W := world) (hasty level) [].
Proof.
  split; simpl; try done; [intros timeout session message ws|intros session tools ws|intros sink e ?%not_elem_of_nil; done].
  - apply keeps_ret.
  - apply keeps_ret.
Qed.

Definition overseen : sys world := Sys sched_init (WithAdapter mem_store_init
  {| _session := 1%Z; _windows := ∅; _last_tool_calls := ∅; _previous_tool_calls := ∅; _current_tool_calls := [] |}).

Definition started : overseer_event := RunStarted "build" VNone.

Abbreviation send_started := (_send_overseer_event overseen_cfg (Some (OverseerAdapter (hasty MAX))) [] no_fields started).

(** Both constraints are accepted by the tool, on different paths; the check takes them for duplicates. *)
Lemma constraints_of_one_kind_rejected_witness :
  exists errors, _check_constraint_consistency (hasty MAX)
    (tool_uses [constrain (on_glob "src/*"); constrain (on_glob "docs/*")]) = Ok errors /\
    (errors = [] <-> NoDup ["lint_clean"; "lint_clean"]%string).
Proof.
  apply (constraints_of_one_kind_rejected (hasty MAX)); [reflexivity|].
  intros inp [->|[->|?%not_elem_of_nil]%elem_of_cons]%elem_of_cons; [reflexivity|reflexivity|done].
Defined.

(** Corrected at once, the type is degraded all the same. *)
Lemma failed_response_degrades_witness :
  degraded (W := world) (hasty MAX) "RunStarted" (snd (send_started overseen)) = true.
Proof.
  eapply (failed_response_degrades overseen_cfg (hasty MAX) [] no_fields started overseen).
  - apply hasty_calm.
  - reflexivity.
  - apply (bool_decide_eq_true_1 (4 <= 10)). reflexivity.
  - vm_compute. lia.
  - vm_compute. reflexivity.
  - vm_compute. reflexivity.
Defined.

Lemma degraded_for_good_witness :
  degraded (W := world) (hasty MAX) "RunStarted" (send_all overseen_cfg (hasty MAX) [] no_fields
    [started; InboxRejected 1 "no"; started] (snd (send_started overseen))) = true.
Proof.
  apply (degraded_for_good overseen_cfg (hasty MAX) [] no_fields "RunStarted"
    [started; InboxRejected 1 "no"; started] (snd (send_started overseen))); [apply hasty_calm|].
  vm_compute. reflexivity.
Defined.

(** [create_task] at the lowest level *)
Definition creating : Tool (sys world) := {|
  tl_name := "create_task"; tl_description := ""; tl_parameters := VNone;
  tl_execute args := smod (fun x => x .[_paused := false]) ;; mret {| data := VNone; text := "created" |};
  tl_suspending := false; tl_namespace := "task.lifecycle"; tl_tags := ["lifecycle"]; tl_deferred := false;
  tl_location := "anywhere"; tl_capabilities := [] |}%string.

Lemma gated_tools_witness :
  exists out, tl_execute (_gate_tool (hasty LOW) creating) ∅ overseen = (Ok out, overseen).
Proof.
  destruct (gated_tools (hasty LOW) 0 [creating] (_gate_tool (hasty LOW) creating)) as (original & E & _ & [H|H] & _).
  - reflexivity.
  - destruct H as [H _]. injection E as <-. discriminate H.
  - destruct H as [_ H]. injection E as <-. eexists. apply H.
Defined.
