(* ===== verification/Stream.v ===== *)
(** Streams of a model provider: the events of transport/_events.py and the parsers of server-sent events,
    [parse_stream] of transport/providers/_anthropic.py, _openai.py and _google.py.

    Bytes and decoded text are both [string]s: text is kept as its UTF-8 bytes, and decoding is the check that it
    is such.  [json.loads] is a parameter.  A field the parsers hand on is given the type its users need; the
    sources find a wrong type a step later, when they join texts or add counts. *)
From S2P Require Import Prelude PyDict Text Scheduler.

(** ** transport/_events.py, transport/_state_machine.py *)

Record ContentBlock := {
  cb_type : string;
  cb_text : option string;
  cb_tool_use_id : option string;
  cb_tool_name : option string;
  cb_tool_input : option value
}.

(** [messages] is a list object of the transport ([Transport]). *)
Record Continuation := {
  executed_results : list value;
  remaining_blocks : list ContentBlock;
  ct_session_id : option string;
  ct_messages : nat
}.

Inductive transport_event :=
| StepStart (session_id : string)
| Text (text : string)
| StreamDelta (text : string)
| Thinking (text : string)
| StreamToolUse (tool_use_id tool_name : string) (tool_input : value)
| StreamUsage (usage : Usage)
| ToolUse (tool_use_id tool_name : string) (input : value) (output status : string) (error : option string)
    (duration_ms : Z) (typed_output : option value)
| StepFinish (reason : string) (usage : Usage)
| ApiRetry (attempt max_retries delay_ms status_code : Z) (error : string)
| Error (name message : string) (status_code : Z)
| Result (text session_id : string) (totals : Usage) (tool_calls : Z)
| SessionSuspended (continuation : Continuation) (session_id : option string)
| LivenessWarning (elapsed_seconds : decimal)
| StuckDetected (elapsed_seconds : decimal)
| UnknownEvent (raw : value)
| RateLimit (resets_at : option string) (limit remaining : option Z) (utilization : option decimal)
| ToolExecuting (tool_use_id tool_name : string) (tool_input : value).

(** [Usage()] *)
Definition no_usage : Usage := {|
  u_input_tokens := 0; u_output_tokens := 0; u_reasoning_tokens := 0; u_cache_read_tokens := 0;
  u_cache_write_tokens := 0 |}.

(** ** Text *)

(** The bytes that may still have to come before a character is complete, each in its range. *)
Fixpoint utf8_ok (expected : list (nat * nat)) (s : string) : bool :=
  match s with
  | EmptyString => bool_decide (expected = [])
  | String a s' =>
      let n := Ascii.nat_of_ascii a in
      match expected with
      | (lo, hi) :: expected' => Nat.leb lo n && Nat.leb n hi && utf8_ok expected' s'
      | [] =>
          if Nat.ltb n 128 then utf8_ok [] s'
          else if Nat.leb 194 n && Nat.leb n 223 then utf8_ok [(128, 191)] s'
          else if Nat.eqb n 224 then utf8_ok [(160, 191); (128, 191)] s'
          else if Nat.eqb n 237 then utf8_ok [(128, 159); (128, 191)] s'
          else if Nat.leb 225 n && Nat.leb n 239 then utf8_ok [(128, 191); (128, 191)] s'
          else if Nat.eqb n 240 then utf8_ok [(144, 191); (128, 191); (128, 191)] s'
          else if Nat.leb 241 n && Nat.leb n 243 then utf8_ok [(128, 191); (128, 191); (128, 191)] s'
          else if Nat.eqb n 244 then utf8_ok [(128, 143); (128, 191); (128, 191)] s'
          else false
      end
  end.

(** [b.decode("utf-8")] *)
Definition decode (b : string) : result string :=
  if utf8_ok [] b then Ok b else Raise (OtherError "UnicodeDecodeError").

Definition LF : Ascii.ascii := Ascii.ascii_of_nat 10.
Definition CR : Ascii.ascii := Ascii.ascii_of_nat 13.

(** The complete lines of a buffer, and what is left after the last line feed. *)
Fixpoint split_lines (s : string) : list string * string :=
  match s with
  | EmptyString => ([], EmptyString)
  | String a s' =>
      let '(lines, rest) := split_lines s' in
      if decide (a = LF) then (EmptyString :: lines, rest)
      else match lines with
           | [] => ([], String a rest)
           | line :: lines' => (String a line :: lines', rest)
           end
  end.

(** ** Reading JSON data *)

Definition as_dict (v : value) : result (list (string * value)) :=
  match v with VDict d => Ok d | _ => Raise (OtherError "AttributeError") end.
Definition as_list (v : value) : result (list value) :=
  match v with VList l => Ok l | _ => Raise (TypeError "not iterable") end.
Definition as_text (v : value) : result string :=
  match v with VStr s => Ok s | _ => Raise (TypeError "expected str") end.
Definition as_int (v : value) : result Z :=
  match v with VInt n => Ok n | _ => Raise (TypeError "expected int") end.
Definition as_opt_text (v : value) : result (option string) :=
  match v with VStr s => Ok (Some s) | VNone => Ok None | _ => Raise (TypeError "expected str") end.

(** [v.get(k, default)] *)
Definition get_or (k : string) (default : value) (v : value) : result value :=
  d ← as_dict v; Ok (match assoc k d with Some x => x | None => default end).
(** [v[k]] *)
Definition item (k : string) (v : value) : result value :=
  match v with VDict d => or_raise (assoc k d) (KeyError k) | _ => Raise (TypeError "not subscriptable") end.
(** [v.get(k, 0)], a number *)
Definition count (k : string) (v : value) : result Z := n ← get_or k (VInt 0) v; as_int n.
(** [v.get(k, {}) or {}] *)
Definition details_of (k : string) (v : value) : result value :=
  d ← get_or k (VDict []) v; Ok (if falsy d then VDict [] else d).

(** ** Parsing in chunks

    [on_line] treats one line: the new state, the events, and whether the generator returns. *)
Section sse.
Context {St : Type} (decode_chunk : string -> result string).
Context (on_line : St -> string -> result (St * list transport_event * bool)).

Fixpoint run_lines (st : St) (lines : list string) : result (St * list transport_event * bool) :=
  match lines with
  | [] => Ok (st, [], false)
  | line :: lines' =>
      '(st, events, stop) ← on_line st line;
      if stop : bool then Ok (st, events, true)
      else
        '(st, events', stop) ← run_lines st lines';
        Ok (st, events ++ events', stop)
  end.

Fixpoint run_chunks (st : St) (buffer : string) (chunks : list string) : result (list transport_event) :=
  match chunks with
  | [] => Ok []
  | chunk :: chunks' =>
      text ← decode_chunk chunk;
      let '(lines, buffer) := split_lines (buffer +:+ text) in
      '(st, events, stop) ← run_lines st lines;
      if stop : bool then Ok events
      else events' ← run_chunks st buffer chunks'; Ok (events ++ events')
  end.
End sse.

Section parsers.
Context (loads : string -> result value).

(** [json.loads(s)], or [{}] where it is not JSON *)
Definition loads_or_empty (s : string) : result value :=
  match loads s with Raise JSONDecodeError => Ok (VDict []) | r => r end.

(** *** AnthropicProvider.parse_stream *)

Record anthropic_stream := {
  as_event_type : string;
  current_tool_id : option string;
  current_tool_name : option string;
  current_tool_json_parts : list string;
  (** [input_usage], all zero while it is empty *)
  input_usage : Usage
}.
#[export] Instance eta_anthropic_stream : Eta anthropic_stream := fun s => {|
  as_event_type := as_event_type s; current_tool_id := current_tool_id s; current_tool_name := current_tool_name s;
  current_tool_json_parts := current_tool_json_parts s; input_usage := input_usage s |}.

Definition anthropic_init : anthropic_stream := {|
  as_event_type := ""; current_tool_id := None; current_tool_name := None; current_tool_json_parts := [];
  input_usage := no_usage |}.

Definition content_block_start (st : anthropic_stream) (data : value) : result anthropic_stream :=
  content_block ← get_or "content_block" (VDict []) data;
  ty ← get_or "type" VNone content_block;
  if decide (ty = VStr "tool_use") then
    id ← get_or "id" (VStr "") content_block; id ← as_opt_text id;
    name ← get_or "name" (VStr "") content_block; name ← as_opt_text name;
    Ok (st .[current_tool_id := id] .[current_tool_name := name] .[current_tool_json_parts := []])
  else Ok st.

Definition content_block_delta (st : anthropic_stream) (data : value) :
    result (anthropic_stream * list transport_event) :=
  delta ← item "delta" data;
  delta_type ← item "type" delta;
  if decide (delta_type = VStr "text_delta") then
    text ← item "text" delta; text ← as_text text; Ok (st, [StreamDelta text])
  else if decide (delta_type = VStr "thinking_delta") then
    text ← item "thinking" delta; text ← as_text text; Ok (st, [Thinking text])
  else if decide (delta_type = VStr "input_json_delta") then
    part ← get_or "partial_json" (VStr "") delta; part ← as_text part;
    Ok (st .[current_tool_json_parts ::= fun parts => parts ++ [part]], [])
  else Ok (st, [UnknownEvent delta]).

Definition content_block_stop (st : anthropic_stream) : result (anthropic_stream * list transport_event) :=
  match current_tool_id st with
  | None => Ok (st, [])
  | Some id =>
      let json_str := String.concat "" (current_tool_json_parts st) in
      tool_input ← (if decide (json_str = EmptyString) then Ok (VDict []) else loads_or_empty json_str);
      Ok (st .[current_tool_id := None] .[current_tool_name := None] .[current_tool_json_parts := []],
          [StreamToolUse id (default ""%string (current_tool_name st)) tool_input])
  end.

Definition message_start (st : anthropic_stream) (data : value) : result anthropic_stream :=
  message ← get_or "message" (VDict []) data;
  msg_usage ← get_or "usage" (VDict []) message;
  if falsy msg_usage then Ok st
  else
    input ← count "input_tokens" msg_usage;
    cache_read ← count "cache_read_input_tokens" msg_usage;
    cache_write ← count "cache_creation_input_tokens" msg_usage;
    Ok (st .[input_usage := {| u_input_tokens := input; u_output_tokens := 0; u_reasoning_tokens := 0;
                               u_cache_read_tokens := cache_read; u_cache_write_tokens := cache_write |}]).

Definition message_delta (st : anthropic_stream) (data : value) : result (list transport_event) :=
  usage_data ← get_or "usage" (VDict []) data;
  if falsy usage_data then Ok []
  else
    output ← count "output_tokens" usage_data;
    let u := input_usage st in
    Ok [StreamUsage {| u_input_tokens := u_input_tokens u; u_output_tokens := output; u_reasoning_tokens := 0;
                       u_cache_read_tokens := u_cache_read_tokens u; u_cache_write_tokens := u_cache_write_tokens u |}].

(** The data of an event, by the type the line before gave *)
Definition anthropic_data (st : anthropic_stream) (data : value) :
    result (anthropic_stream * list transport_event * bool) :=
  let event_type := as_event_type st in
  if decide (event_type = "content_block_start"%string) then st ← content_block_start st data; Ok (st, [], false)
  else if decide (event_type = "content_block_delta"%string) then
    '(st, events) ← content_block_delta st data; Ok (st, events, false)
  else if decide (event_type = "content_block_stop"%string) then
    '(st, events) ← content_block_stop st; Ok (st, events, false)
  else if decide (event_type = "message_start"%string) then st ← message_start st data; Ok (st, [], false)
  else if decide (event_type = "message_delta"%string) then
    events ← message_delta st data; Ok (st, events, false)
  else if decide (event_type = "message_stop"%string) then Ok (st, [], true)
  else Ok (st, if decide (event_type = "ping"%string) then [] else [UnknownEvent data], false).

Definition anthropic_line (st : anthropic_stream) (line_bytes : string) :
    result (anthropic_stream * list transport_event * bool) :=
  line ← decode line_bytes;
  let line := rstrip (fun a => bool_decide (a = CR)) line in
  if str_prefix "event: " line then Ok (st .[as_event_type := str_drop 7 line], [], false)
  else if str_prefix "data: " line then data ← loads (str_drop 6 line); anthropic_data st data
  else Ok (st, [], false).

(** The buffer holds bytes; a line is decoded when it is complete. *)
Definition anthropic_parse_stream (byte_stream : list string) : result (list transport_event) :=
  run_chunks Ok anthropic_line anthropic_init "" byte_stream.

(** What the other two do with a line first: nothing to an empty line, a comment or another field. *)
Definition data_line (line : string) : option string :=
  let line := strip line in
  if bool_decide (line = EmptyString) || str_prefix ":" line then None
  else if str_prefix "data: " line then Some (str_drop 6 line) else None.

(** *** OpenAIProvider.parse_stream *)

Record pending_call := { pc_id : string; pc_name : string; pc_arguments : string }.
#[export] Instance eta_pending_call : Eta pending_call := fun c => {|
  pc_id := pc_id c; pc_name := pc_name c; pc_arguments := pc_arguments c |}.

(** [sorted(tool_calls.items())] *)
Fixpoint openai_calls (calls : list (Z * pending_call)) : result (list transport_event) :=
  match calls with
  | [] => Ok []
  | (_, tc) :: calls' =>
      tool_input ← loads_or_empty (pc_arguments tc);
      events ← openai_calls calls';
      Ok (StreamToolUse (pc_id tc) (pc_name tc) tool_input :: events)
  end.

Definition openai_usage (usage_data : value) : result (list transport_event) :=
  if falsy usage_data then Ok []
  else
    completion_details ← details_of "completion_tokens_details" usage_data;
    prompt_details ← details_of "prompt_tokens_details" usage_data;
    input ← count "prompt_tokens" usage_data;
    output ← count "completion_tokens" usage_data;
    reasoning ← count "reasoning_tokens" completion_details;
    cached ← count "cached_tokens" prompt_details;
    Ok [StreamUsage {| u_input_tokens := input; u_output_tokens := output; u_reasoning_tokens := reasoning;
                       u_cache_read_tokens := cached; u_cache_write_tokens := 0 |}].

Definition openai_call_delta (tool_calls : dict Z pending_call) (tc_delta : value) : result (dict Z pending_call) :=
  idx ← count "index" tc_delta;
  d ← as_dict tc_delta;
  let tc := default {| pc_id := ""; pc_name := ""; pc_arguments := "" |} (tool_calls !! idx) in
  tc ← (match assoc "id" d with Some v => s ← as_text v; Ok (tc .[pc_id := s]) | None => Ok tc end);
  func ← get_or "function" (VDict []) tc_delta; func ← as_dict func;
  tc ← (match assoc "name" func with Some v => s ← as_text v; Ok (tc .[pc_name := s]) | None => Ok tc end);
  tc ← (match assoc "arguments" func with
        | Some v => s ← as_text v; Ok (tc .[pc_arguments := (pc_arguments tc +:+ s)%string])
        | None => Ok tc
        end);
  Ok (<[idx := tc]> tool_calls).

Definition openai_delta (tool_calls : dict Z pending_call) (delta : value) :
    result (dict Z pending_call * list transport_event) :=
  text ← get_or "content" VNone delta;
  said ← (if falsy text then Ok [] else s ← as_text text; Ok [StreamDelta s]);
  d ← as_dict delta;
  let unknown := filter (fun kv => kv.1 ∉ ["role"; "content"; "tool_calls"]%string) d in
  deltas ← get_or "tool_calls" (VList []) delta; deltas ← as_list deltas;
  tool_calls ← rfold openai_call_delta tool_calls deltas;
  Ok (tool_calls, said ++ (match unknown with [] => [] | _ => [UnknownEvent (VDict unknown)] end)).

Definition openai_line (tool_calls : dict Z pending_call) (line : string) :
    result (dict Z pending_call * list transport_event * bool) :=
  match data_line line with
  | None => Ok (tool_calls, [], false)
  | Some data =>
      if decide (data = "[DONE]"%string) then
        events ← openai_calls (sort_by fst (ditems tool_calls)); Ok (tool_calls, events, true)
      else
        parsed ← loads data;
        usage_data ← get_or "usage" VNone parsed;
        used ← openai_usage usage_data;
        choices ← get_or "choices" (VList []) parsed; choices ← as_list choices;
        match choices with
        | [] => Ok (tool_calls, used, false)
        | choice :: _ =>
            delta ← get_or "delta" (VDict []) choice;
            '(tool_calls, events) ← openai_delta tool_calls delta;
            Ok (tool_calls, used ++ events, false)
        end
  end.

(** The buffer holds text: each chunk is decoded when it comes. *)
Definition openai_parse_stream (byte_stream : list string) : result (list transport_event) :=
  run_chunks decode openai_line ∅ "" byte_stream.

(** *** GoogleProvider.parse_stream *)

Definition google_part (part : value) : result transport_event :=
  d ← as_dict part;
  match assoc "text" d, assoc "functionCall" d with
  | Some text, _ => text ← as_text text; Ok (StreamDelta text)
  | None, Some fc =>
      name ← item "name" fc; name ← as_text name;
      id ← get_or "id" (VStr name) fc; id ← as_text id;
      args ← get_or "args" (VDict []) fc;
      Ok (StreamToolUse id name args)
  | None, None => Ok (UnknownEvent part)
  end.

Fixpoint google_parts (parts : list value) : result (list transport_event) :=
  match parts with
  | [] => Ok []
  | part :: parts' => event ← google_part part; events ← google_parts parts'; Ok (event :: events)
  end.

Definition google_usage (usage_meta : value) : result (list transport_event) :=
  if falsy usage_meta then Ok []
  else
    input ← count "promptTokenCount" usage_meta;
    output ← count "candidatesTokenCount" usage_meta;
    Ok [StreamUsage {| u_input_tokens := input; u_output_tokens := output; u_reasoning_tokens := 0;
                       u_cache_read_tokens := 0; u_cache_write_tokens := 0 |}].

Definition google_line (st : unit) (line : string) : result (unit * list transport_event * bool) :=
  match data_line line with
  | None => Ok (st, [], false)
  | Some data_str =>
      match loads data_str with
      | Raise JSONDecodeError => Ok (st, [], false)
      | Raise e => Raise e
      | Ok data =>
          candidates ← get_or "candidates" (VList []) data; candidates ← as_list candidates;
          said ← (match candidates with
                  | [] => Ok []
                  | candidate :: _ =>
                      content ← get_or "content" (VDict []) candidate;
                      parts ← get_or "parts" (VList []) content; parts ← as_list parts;
                      google_parts parts
                  end);
          usage_meta ← get_or "usageMetadata" VNone data;
          used ← google_usage usage_meta;
          Ok (st, said ++ used, false)
      end
  end.

Definition google_parse_stream (byte_stream : list string) : result (list transport_event) :=
  run_chunks decode google_line tt "" byte_stream.
End parsers.
