(* ===== verification/StreamSpec.v ===== *)
(** Theorems about [Stream]: how the bytes of a response are cut into chunks. *)
From S2P Require Import Prelude PyDict Text Scheduler Stream.

(** The chunks of a stream, put together *)
Definition joined (chunks : list string) : string := foldr String.append ""%string chunks.

(** ** Lines *)

(** The lines of a text, cut anywhere *)
Lemma split_lines_app s t :
  split_lines (s +:+ t) =
  let '(lines, rest) := split_lines s in
  let '(lines', rest') := split_lines (rest +:+ t) in (lines ++ lines', rest').
Proof.
  induction s as [|a s IH]; [simpl; rewrite str_app_nil; by destruct (split_lines t)|].
  rewrite str_app_cons. simpl. rewrite IH.
  destruct (split_lines s) as [lines rest]. destruct (split_lines (rest +:+ t)) as [lines' rest'] eqn:E.
  case_decide as Ha; simpl; [by rewrite E|].
  destruct lines as [|line lines]; [|by rewrite E].
  rewrite str_app_cons. simpl. rewrite E, decide_False by done. by destruct lines'.
Qed.

(** What is left of a buffer holds no complete line. *)
Lemma split_lines_rest s lines rest : split_lines s = (lines, rest) -> split_lines rest = ([], rest).
Proof.
  revert lines rest. induction s as [|a s IH]; intros lines rest; simpl; [by intros [= <- <-]|].
  destruct (split_lines s) as [lines' rest'] eqn:E. case_decide as Ha; [intros [= <- <-]; by eapply IH|].
  destruct lines' as [|line lines']; intros [= <- <-]; [|by eapply IH].
  simpl. rewrite (IH [] rest' eq_refl). by rewrite decide_False.
Qed.

Lemma joined_app l1 l2 : joined (l1 ++ l2) = (joined l1 +:+ joined l2)%string.
Proof. induction l1 as [|c l1 IH]; [done|]. simpl. by rewrite IH, str_app_assoc. Qed.

Section sse.
Context {St : Type} (on_line : St -> string -> result (St * list transport_event * bool)).

Lemma run_lines_app st l1 l2 :
  run_lines on_line st (l1 ++ l2) =
  '(st, events, stop) ← run_lines on_line st l1;
  if stop : bool then Ok (st, events, true)
  else '(st, events', stop) ← run_lines on_line st l2; Ok (st, events ++ events', stop).
Proof.
  revert st. induction l1 as [|line l1 IH]; intros st; simpl.
  - by destruct (run_lines on_line st l2) as [[[? ?] ?]|].
  - destruct (on_line st line) as [[[st1 events] []]|]; simpl; [done| |done]. rewrite IH.
    destruct (run_lines on_line st1 l1) as [[[st2 events2] []]|]; simpl; [done| |done].
    destruct (run_lines on_line st2 l2) as [[[? ?] ?]|]; simpl; [|done]. by rewrite app_assoc.
Qed.

(** A parser that decodes whole lines does not see the chunks. *)
Lemma run_chunks_joined chunks st buffer :
  split_lines buffer = ([], buffer) ->
  run_chunks Ok on_line st buffer chunks = run_chunks Ok on_line st "" [(buffer +:+ joined chunks)%string].
Proof.
  revert st buffer. induction chunks as [|chunk chunks IH]; intros st buffer Hb.
  - simpl. by rewrite str_app_nil_r, str_app_nil, Hb.
  - cbn [run_chunks mbind result_bind joined foldr]. rewrite str_app_nil.
    change (foldr String.append ""%string chunks) with (joined chunks).
    rewrite <- (str_app_assoc buffer), (split_lines_app (buffer +:+ chunk)).
    destruct (split_lines (buffer +:+ chunk)) as [lines rest] eqn:E.
    destruct (split_lines (rest +:+ joined chunks)) as [lines' rest'] eqn:E'.
    rewrite run_lines_app. destruct (run_lines on_line st lines) as [[[st1 events] []]|]; simpl; [done| |done].
    rewrite IH by (by eapply split_lines_rest). simpl. rewrite str_app_nil, E'.
    destruct (run_lines on_line st1 lines') as [[[st2 events2] []]|]; simpl; [done| |done].
    by rewrite !app_nil_r.
Qed.

(** Where every chunk decodes by itself, so does a parser that decodes chunks. *)
Lemma run_chunks_decoded chunks st buffer :
  Forall (fun c => decode c = Ok c) chunks ->
  run_chunks decode on_line st buffer chunks = run_chunks Ok on_line st buffer chunks.
Proof.
  intros Hc. revert st buffer. induction Hc as [|chunk chunks E Hc IH]; intros st buffer; [done|].
  simpl. rewrite E. simpl. destruct (split_lines (buffer +:+ chunk)) as [lines rest].
  destruct (run_lines on_line st lines) as [[[st1 events] []]|]; simpl; [done| |done]. by rewrite IH.
Qed.
End sse.

(** ** UTF-8 *)

Lemma utf8_ok_app expected s t :
  utf8_ok expected s = true -> utf8_ok [] t = true -> utf8_ok expected (s +:+ t) = true.
Proof.
  intros Hs Ht. revert expected Hs.
  induction s as [|a s IH]; intros expected; [by simpl; intros ->%bool_decide_eq_true|].
  rewrite str_app_cons. cbn [utf8_ok]. destruct expected as [|[lo hi] expected].
  - repeat (lazymatch goal with |- (if ?b then _ else _) = true -> _ => destruct b; [apply IH|] end). done.
  - rewrite !andb_true_iff. intros [Hr Hs]. split; [done|]. by apply IH.
Qed.

Lemma decode_ok s : decode s = Ok s <-> utf8_ok [] s = true.
Proof. unfold decode. by destruct (utf8_ok [] s). Qed.

Lemma joined_decodes chunks :
  Forall (fun c => decode c = Ok c) chunks -> decode (joined chunks) = Ok (joined chunks).
Proof.
  intros Hc. apply decode_ok. induction Hc as [|chunk chunks E Hc IH]; [done|].
  apply utf8_ok_app; [by apply decode_ok|done].
Qed.

(** The chunks of a text parser, each of them decodable *)
Lemma run_chunks_text {St} (on_line : St -> string -> result (St * list transport_event * bool)) st chunks :
  Forall (fun c => decode c = Ok c) chunks ->
  run_chunks decode on_line st "" chunks = run_chunks decode on_line st "" [joined chunks].
Proof.
  intros Hc. rewrite !run_chunks_decoded by (by try (constructor; [apply joined_decodes|])).
  by rewrite run_chunks_joined.
Qed.

(** ** What streams consist of *)

(** The events a response is read as *)
Definition stream_event (e : transport_event) : bool :=
  match e with
  | StreamDelta _ | Thinking _ | StreamToolUse _ _ _ | StreamUsage _ | UnknownEvent _ => true
  | _ => false
  end.

Section stream_events.
Context {St : Type} (decode_chunk : string -> result string).
Context (on_line : St -> string -> result (St * list transport_event * bool)).
Context (Hline : forall st line st' events stop,
  on_line st line = Ok (st', events, stop) -> forallb stream_event events = true).

Lemma run_lines_events lines st st' events stop :
  run_lines on_line st lines = Ok (st', events, stop) -> forallb stream_event events = true.
Proof.
  revert st st' events stop. induction lines as [|line lines IH]; intros st st' events stop; simpl.
  - by intros [= <- <- <-].
  - destruct (on_line st line) as [[[st1 events1] []]|] eqn:E; simpl; [|destruct (run_lines _ _ _) as [[[]]|] eqn:E2|];
      try done; intros [= <- <- <-]; rewrite ?forallb_app, ?(Hline _ _ _ _ _ E); [done|]. by rewrite (IH _ _ _ _ E2).
Qed.

Lemma run_chunks_events chunks st buffer events :
  run_chunks decode_chunk on_line st buffer chunks = Ok events -> forallb stream_event events = true.
Proof.
  revert st buffer events. induction chunks as [|chunk chunks IH]; intros st buffer events; simpl; [by intros [= <-]|].
  destruct (decode_chunk chunk) as [text|]; simpl; [|done].
  destruct (split_lines (buffer +:+ text)) as [lines rest].
  destruct (run_lines on_line st lines) as [[[st1 events1] []]|] eqn:E; simpl; [| |done].
  - intros [= <-]. by eapply run_lines_events.
  - destruct (run_chunks _ _ _ _ _) as [events2|] eqn:E2; simpl; [|done]. intros [= <-].
    rewrite forallb_app, (IH _ _ _ E2). by rewrite (run_lines_events _ _ _ _ _ E).
Qed.
End stream_events.

(** Go through the binds of a computation that returned. *)
Ltac ok_inv H :=
  repeat lazymatch type of H with
  | Ok _ = Ok _ => injection H; clear H; intros; subst
  | Raise _ = Ok _ => discriminate H
  | mbind _ ?m = _ => let E := fresh "E" in destruct m eqn:E; simpl in H; [|discriminate H]
  | (let '(_, _) := ?p in _) = _ => destruct p
  | (if ?b then _ else _) = _ => destruct b
  | (match ?x with _ => _ end) = _ => destruct x
  end.

Section parsers.
Context (loads : string -> result value).

Lemma content_block_delta_events st data st' events :
  content_block_delta st data = Ok (st', events) -> forallb stream_event events = true.
Proof. unfold content_block_delta. intros H. by ok_inv H. Qed.

Lemma content_block_stop_events st st' events :
  content_block_stop loads st = Ok (st', events) -> forallb stream_event events = true.
Proof. unfold content_block_stop. intros H. by ok_inv H. Qed.

Lemma message_delta_events st data events :
  message_delta st data = Ok events -> forallb stream_event events = true.
Proof. unfold message_delta. intros H. by ok_inv H. Qed.

Lemma anthropic_line_events st line st' events stop :
  anthropic_line loads st line = Ok (st', events, stop) -> forallb stream_event events = true.
Proof.
  unfold anthropic_line, anthropic_data. intros H.
  ok_inv H; eauto using content_block_delta_events, content_block_stop_events, message_delta_events.
  by case_decide.
Qed.

Lemma openai_calls_events calls events : openai_calls loads calls = Ok events -> forallb stream_event events = true.
Proof.
  revert events. induction calls as [|[i tc] calls IH]; intros events; simpl; [by intros [= <-]|].
  destruct (loads_or_empty loads _); simpl; [|done].
  destruct (openai_calls loads calls) as [events'|]; simpl; [|done]. intros [= <-]. simpl. by apply IH.
Qed.

Lemma openai_usage_events v events : openai_usage v = Ok events -> forallb stream_event events = true.
Proof. unfold openai_usage. intros H. by ok_inv H. Qed.

Lemma openai_delta_events calls v calls' events :
  openai_delta calls v = Ok (calls', events) -> forallb stream_event events = true.
Proof.
  unfold openai_delta. intros H. ok_inv H. rewrite forallb_app, andb_true_iff.
  split; [by ok_inv E0|by destruct (filter _ a1)].
Qed.

Lemma openai_line_events calls line calls' events stop :
  openai_line loads calls line = Ok (calls', events, stop) -> forallb stream_event events = true.
Proof.
  unfold openai_line. intros H. ok_inv H; rewrite ?forallb_app, ?andb_true_iff;
    eauto using openai_calls_events, openai_usage_events, openai_delta_events.
Qed.

Lemma google_parts_events parts events : google_parts parts = Ok events -> forallb stream_event events = true.
Proof.
  revert events. induction parts as [|part parts IH]; intros events; simpl; [by intros [= <-]|].
  destruct (google_part part) as [e|] eqn:E; simpl; [|done].
  destruct (google_parts parts) as [events'|]; simpl; [|done]. intros [= <-]. simpl.
  rewrite (IH _ eq_refl), andb_true_r. unfold google_part in E. by ok_inv E.
Qed.

Lemma google_usage_events v events : google_usage v = Ok events -> forallb stream_event events = true.
Proof. unfold google_usage. intros H. by ok_inv H. Qed.

Lemma google_line_events st line st' events stop :
  google_line loads st line = Ok (st', events, stop) -> forallb stream_event events = true.
Proof.
  unfold google_line. intros H.
  assert (Hparts : forall candidates said,
    match candidates with
    | [] => Ok []
    | candidate :: _ =>
        content ← get_or "content" (VDict []) candidate;
        parts ← get_or "parts" (VList []) content; parts ← as_list parts;
        google_parts parts
    end = Ok said -> forallb stream_event said = true).
  { intros [|c cs] said Hs; ok_inv Hs; eauto using google_parts_events. }
  ok_inv H; rewrite ?forallb_app, ?andb_true_iff; eauto using google_usage_events.
Qed.

(** Every provider reads a response as such events. *)
Lemma anthropic_stream_events chunks events :
  anthropic_parse_stream loads chunks = Ok events -> forallb stream_event events = true.
Proof. apply run_chunks_events, anthropic_line_events. Qed.
Lemma openai_stream_events chunks events :
  openai_parse_stream loads chunks = Ok events -> forallb stream_event events = true.
Proof. apply run_chunks_events, openai_line_events. Qed.
Lemma google_stream_events chunks events :
  google_parse_stream loads chunks = Ok events -> forallb stream_event events = true.
Proof. apply run_chunks_events, google_line_events. Qed.

(** An undecodable first chunk *)
Lemma run_chunks_undecodable {St} (on_line : St -> string -> result (St * list transport_event * bool)) st chunk chunks :
  utf8_ok [] chunk = false -> run_chunks decode on_line st "" (chunk :: chunks) = Raise (OtherError "UnicodeDecodeError").
Proof. intros E. simpl. unfold decode. by rewrite E. Qed.

(** How the bytes of an Anthropic response are cut into chunks makes no difference to the events it is read
    as, nor to the exception: lines are put together before they are decoded.  The OpenAI and Google parsers
    decode each chunk by itself: the cuts make no difference when every chunk holds whole characters, but a first
    chunk that ends inside a character raises, though the response as a whole may be well formed. *)
Theorem chunk_boundaries chunks :
  anthropic_parse_stream loads chunks = anthropic_parse_stream loads [joined chunks] /\
  (Forall (fun c => decode c = Ok c) chunks ->
     openai_parse_stream loads chunks = openai_parse_stream loads [joined chunks] /\
     google_parse_stream loads chunks = google_parse_stream loads [joined chunks]) /\
  forall chunk, utf8_ok [] chunk = false ->
    openai_parse_stream loads (chunk :: chunks) = Raise (OtherError "UnicodeDecodeError") /\
    google_parse_stream loads (chunk :: chunks) = Raise (OtherError "UnicodeDecodeError").
Proof.
  split; [by apply run_chunks_joined|]. split.
  - intros Hc. split; by apply run_chunks_text.
  - intros chunk E. split; by apply run_chunks_undecodable.
Qed.
End parsers.

(** ** A server's side of the Anthropic protocol *)

Section server.
Context (loads : string -> result value) (dumps : value -> string).

(** Events with their types, as the lines of a response *)
Definition sse_event (e : string * value) : string :=
  "event: " +:+ e.1 +:+ String LF ("data: " +:+ dumps e.2 +:+ String LF (String LF EmptyString)).
Definition sse_bytes (l : list (string * value)) : string := joined (sse_event <$> l).

(** Reading them one by one *)
Fixpoint read_data (st : anthropic_stream) (l : list (string * value)) :
    result (anthropic_stream * list transport_event * bool) :=
  match l with
  | [] => Ok (st, [], false)
  | (ty, data) :: l' =>
      '(st, events, stop) ← anthropic_data loads (st .[as_event_type := ty]) data;
      if stop : bool then Ok (st, events, true)
      else '(st, events', stop) ← read_data st l'; Ok (st, events ++ events', stop)
  end.

(** Text that can be put on a line *)
Definition line_text (s : string) : bool :=
  bool_decide (split_lines s = ([], s)) && utf8_ok [] s && bool_decide (rstrip (fun a => bool_decide (a = CR)) s = s).

Lemma rstrip_app f p s : rstrip f p = p -> rstrip f s = s -> rstrip f (p +:+ s) = (p +:+ s)%string.
Proof.
  intros Hp Hs. induction p as [|a p IH]; [done|]. rewrite str_app_cons. simpl in *.
  destruct (rstrip f p) as [|b r] eqn:E.
  - destruct (f a) eqn:Ea; rewrite ?Ea in Hp; [done|]. injection Hp as <-. rewrite str_app_nil, Hs. destruct s; simpl; by rewrite ?Ea.
  - injection Hp as Hp. rewrite IH by done. by destruct p.
Qed.

(** A line of a field and its content *)
Lemma line_of_field p s :
  line_text p = true -> line_text s = true ->
  decode (p +:+ s) = Ok (p +:+ s)%string /\ rstrip (fun a => bool_decide (a = CR)) (p +:+ s) = (p +:+ s)%string.
Proof.
  unfold line_text. rewrite !andb_true_iff, !bool_decide_eq_true. intros [[_ Hu] Hr] [[_ Hu'] Hr'].
  split; [|by apply rstrip_app]. apply decode_ok. by apply utf8_ok_app.
Qed.

Lemma split_lines_cons a s :
  split_lines (String a s) = ([], String a s) <-> a <> LF /\ split_lines s = ([], s).
Proof.
  simpl. destruct (split_lines s) as [[|line lines] rest]; case_decide as Ha;
    (split; [intros [=]|intros [? [=]]]); by simplify_eq.
Qed.

(** A text without a line feed before another text *)
Lemma split_lines_prefix s t :
  split_lines s = ([], s) ->
  split_lines (s +:+ t) =
  let '(lines, rest) := split_lines t in
  match lines with [] => ([], (s +:+ rest)%string) | line :: lines' => ((s +:+ line)%string :: lines', rest) end.
Proof.
  induction s as [|a s IH]; [intros _; rewrite str_app_nil; by destruct (split_lines t) as [[] ?]|].
  intros [Ha Hs]%split_lines_cons. rewrite str_app_cons. simpl. rewrite IH by done.
  destruct (split_lines t) as [[|line lines] rest]; [by rewrite decide_False|by rewrite decide_False].
Qed.

Lemma split_line p s t :
  split_lines p = ([], p) -> split_lines s = ([], s) ->
  split_lines (p +:+ s +:+ String LF t) =
  let '(lines, rest) := split_lines t in ((p +:+ s)%string :: lines, rest).
Proof.
  intros Hp Hs. rewrite split_lines_prefix, split_lines_prefix by done. simpl.
  destruct (split_lines t) as [lines rest]. simpl. by rewrite str_app_nil_r.
Qed.

Lemma split_sse_event e t :
  line_text e.1 = true -> line_text (dumps e.2) = true ->
  split_lines (sse_event e +:+ t) =
  let '(lines, rest) := split_lines t in
  (("event: " +:+ e.1)%string :: ("data: " +:+ dumps e.2)%string :: EmptyString :: lines, rest).
Proof.
  unfold line_text. rewrite !andb_true_iff, !bool_decide_eq_true. intros [[Ht _] _] [[Hd _] _].
  unfold sse_event. rewrite (str_app_assoc "event: "), (str_app_assoc e.1), (str_app_cons LF), (str_app_assoc "data: "),
    (str_app_assoc (dumps e.2)), (str_app_cons LF).
  change (String LF "" +:+ t)%string with (String LF t).
  rewrite split_line by done. rewrite split_line by done. simpl. by destruct (split_lines t).
Qed.

Lemma split_sse_bytes l :
  Forall (fun e => line_text e.1 = true /\ line_text (dumps e.2) = true) l ->
  split_lines (sse_bytes l) =
  (concat ((fun e => ["event: " +:+ e.1; "data: " +:+ dumps e.2; ""]%string) <$> l), EmptyString).
Proof.
  induction 1 as [|e l [Ht Hd] Hl IH]; [done|].
  change (sse_bytes (e :: l)) with (sse_event e +:+ sse_bytes l)%string.
  by rewrite split_sse_event, IH by done.
Qed.

(** An event that fits on lines and reads back *)
Definition sendable (e : string * value) : Prop :=
  line_text e.1 = true /\ line_text (dumps e.2) = true /\ loads (dumps e.2) = Ok e.2.

Lemma anthropic_event_line st ty :
  line_text ty = true -> anthropic_line loads st ("event: " +:+ ty) = Ok (st .[as_event_type := ty], [], false).
Proof.
  intros Ht. destruct (line_of_field "event: " ty eq_refl Ht) as [Hd Hr].
  unfold anthropic_line. rewrite Hd. cbn [mbind result_bind]. by rewrite Hr.
Qed.

Lemma anthropic_data_line st data :
  line_text (dumps data) = true -> loads (dumps data) = Ok data ->
  anthropic_line loads st ("data: " +:+ dumps data) = anthropic_data loads st data.
Proof.
  intros Ht Hloads. destruct (line_of_field "data: " (dumps data) eq_refl Ht) as [Hd Hr].
  unfold anthropic_line. rewrite Hd. cbn [mbind result_bind]. rewrite Hr.
  change (str_prefix "event: " ("data: " +:+ dumps data)) with false.
  change (str_prefix "data: " ("data: " +:+ dumps data)) with true.
  change (str_drop 6 ("data: " +:+ dumps data)) with (dumps data). by rewrite Hloads.
Qed.

Lemma run_lines_read_data l st :
  Forall sendable l ->
  run_lines (anthropic_line loads) st
    (concat ((fun e => ["event: " +:+ e.1; "data: " +:+ dumps e.2; ""]%string) <$> l)) = read_data st l.
Proof.
  intros Hl. revert st. induction Hl as [|[ty data] l (Ht & Hd & Hloads) Hl IH]; intros st; [done|].
  cbn [fmap list_fmap concat app run_lines fst snd].
  rewrite anthropic_event_line by done. cbn [mbind result_bind]. rewrite anthropic_data_line by done.
  cbn [read_data]. destruct (anthropic_data loads _ data) as [[[st1 events] []]|]; cbn [mbind result_bind]; [done| |done].
  change (anthropic_line loads st1 "") with (@Ok (anthropic_stream * list transport_event * bool) (st1, [], false)).
  cbn [mbind result_bind]. rewrite IH. by destruct (read_data st1 l) as [[[] ?]|].
Qed.

(** C27. Events that a server writes the way the Anthropic API does - a line "event: TYPE", a line "data: " with the
    JSON of the event on that one line, and an empty line ([sse_bytes], [sendable]) - are treated by the Anthropic
    parser in their order, each once, up to the first that ends the message and no further, however the response is
    cut into chunks.  (Other forms that server-sent events allow, such as "data:" without a blank or data on several
    lines, are not claimed to be read.) *)
Theorem anthropic_reads_what_was_sent chunks l :
  joined chunks = sse_bytes l -> Forall sendable l ->
  anthropic_parse_stream loads chunks = ('(_, events, _) ← read_data anthropic_init l; Ok events).
Proof.
  intros E Hl. unfold anthropic_parse_stream. rewrite run_chunks_joined, E by done.
  cbn [run_chunks mbind result_bind]. rewrite !str_app_nil, split_sse_bytes, run_lines_read_data; [|done|].
  2: { eapply Forall_impl; [exact Hl|]. by intros e (? & ? & ?). }
  destruct (read_data anthropic_init l) as [[[st events] []]|]; simpl; by rewrite ?app_nil_r.
Qed.
End server.

(** *** Concrete responses *)

(** A character of two bytes, and a text that is one JSON value *)
Definition e_acute : string := String (Ascii.ascii_of_nat 195) (String (Ascii.ascii_of_nat 169) "").
Definition loads_none (s : string) : result value :=
  if decide (s = "{}"%string) then Ok (VDict []) else Raise JSONDecodeError.
Definition dumps_none (v : value) : string := match v with VDict [] => "{}" | _ => "null" end.

Definition half_character : string := String (Ascii.ascii_of_nat 195) "".
Definition other_half : string := String (Ascii.ascii_of_nat 169) "".

Lemma chunk_boundaries_witness :
  openai_parse_stream loads_none ["dat"; "a: {}"; String LF ""]%string =
    openai_parse_stream loads_none [joined ["dat"; "a: {}"; String LF ""]%string] /\
  anthropic_parse_stream loads_none ["data: "%string; half_character; other_half] =
    anthropic_parse_stream loads_none [joined ["data: "%string; half_character; other_half]] /\
  openai_parse_stream loads_none [half_character; other_half] = Raise (OtherError "UnicodeDecodeError") /\
  decode (joined [half_character; other_half]) = Ok e_acute.
Proof.
  split; [|split; [|split]].
  - apply (chunk_boundaries loads_none). by repeat constructor.
  - apply (chunk_boundaries loads_none).
  - by apply (chunk_boundaries loads_none [other_half]).
  - reflexivity.
Defined.

Lemma anthropic_reads_what_was_sent_witness :
  let l := [("message_start", VDict []); ("error", VDict []); ("message_stop", VDict []); ("ping", VDict [])]%string in
  Forall (sendable loads_none dumps_none) l /\
  anthropic_parse_stream loads_none [sse_bytes dumps_none l] = Ok [UnknownEvent (VDict [])].
Proof.
  intros l. assert (Hl : Forall (sendable loads_none dumps_none) l) by (by repeat constructor).
  split; [done|].
  rewrite (anthropic_reads_what_was_sent loads_none dumps_none [sse_bytes dumps_none l] l); [reflexivity| |done].
  simpl. apply str_app_nil_r.
Defined.

(** ** Tool calls that come in pieces *)

Section pieces.
Context (loads : string -> result value).

Lemma concat_joined l : String.concat "" l = joined l.
Proof.
  induction l as [|s [|s' l] IH]; [done|simpl; by rewrite str_app_nil_r|].
  change (String.concat "" (s :: s' :: l)) with (s +:+ "" +:+ String.concat "" (s' :: l))%string. by rewrite IH, str_app_nil.
Qed.

(** The arguments of a call: [{}] for no text and for text that is not JSON *)
Definition call_arguments (json : string) : result value :=
  if decide (json = EmptyString) then Ok (VDict []) else loads_or_empty loads json.

(** The events of one call *)
Definition block_start (id name : string) : string * value :=
  ("content_block_start", VDict [("content_block", VDict [("type", VStr "tool_use"); ("id", VStr id);
                                                          ("name", VStr name)])])%string.
Definition json_delta (part : string) : string * value :=
  ("content_block_delta", VDict [("delta", VDict [("type", VStr "input_json_delta"); ("partial_json", VStr part)])])%string.
Definition block_stop : string * value := ("content_block_stop"%string, VDict []).

Lemma read_parts parts tail st :
  exists st', current_tool_id st' = current_tool_id st /\ current_tool_name st' = current_tool_name st /\
    current_tool_json_parts st' = current_tool_json_parts st ++ parts /\
    read_data loads st ((json_delta <$> parts) ++ tail) = read_data loads st' tail.
Proof.
  revert st. induction parts as [|part parts IH]; intros st; [exists st; by rewrite app_nil_r|].
  destruct (IH (st .[as_event_type := "content_block_delta"%string] .[current_tool_json_parts ::= fun ps => ps ++ [part]]))
    as (st' & Hi & Hn & Hp & E).
  exists st'. split_and!; [done|done|by rewrite Hp; simpl; rewrite <- app_assoc|].
  change ((json_delta <$> part :: parts) ++ tail) with (json_delta part :: ((json_delta <$> parts) ++ tail)).
  simpl in *. rewrite E. by destruct (read_data loads st' tail) as [[[] ?]|].
Qed.

Lemma read_call st id name parts :
  ('(_, events, _) ← read_data loads st (block_start id name :: (json_delta <$> parts) ++ [block_stop]); Ok events) =
  (input ← call_arguments (joined parts); Ok [StreamToolUse id name input]).
Proof.
  simpl. set (st0 := Build_anthropic_stream _ _ _ _ _).
  destruct (read_parts parts [block_stop] st0) as (st' & Hi & Hn & Hp & E).
  rewrite E. simpl. rewrite Hi, Hn, Hp. unfold anthropic_data, content_block_stop. simpl.
  rewrite concat_joined. unfold call_arguments.
  case_decide; [done|]. by destruct (loads_or_empty loads (joined parts)).
Qed.

(** Pieces of OpenAI's calls, each for the call with some index *)
Record call_piece := {
  p_index : Z;
  p_id : option string;
  p_name : option string;
  p_arguments : option string
}.

Definition field (k : string) (o : option string) : list (string * value) :=
  match o with Some s => [(k, VStr s)] | None => [] end.

Definition piece_json (p : call_piece) : value :=
  VDict (("index"%string, VInt (p_index p)) :: field "id" (p_id p) ++
         [("function"%string, VDict (field "name" (p_name p) ++ field "arguments" (p_arguments p)))]).

Definition no_call : pending_call := {| pc_id := ""; pc_name := ""; pc_arguments := "" |}.
Definition add_piece (tc : pending_call) (p : call_piece) : pending_call := {|
  pc_id := default (pc_id tc) (p_id p); pc_name := default (pc_name tc) (p_name p);
  pc_arguments := pc_arguments tc +:+ default ""%string (p_arguments p) |}.

Lemma call_delta_piece calls p :
  openai_call_delta calls (piece_json p) =
  Ok (<[p_index p := add_piece (default no_call (calls !! p_index p)) p]> calls).
Proof.
  destruct p as [i [s1|] [s2|] [s3|]]; unfold openai_call_delta, add_piece; simpl;
    by rewrite ?str_app_nil_r; destruct (calls !! i) as [[]|].
Qed.

Lemma add_pieces ps tc :
  foldl add_piece tc ps = {|
    pc_id := default (pc_id tc) (last (omap p_id ps)); pc_name := default (pc_name tc) (last (omap p_name ps));
    pc_arguments := pc_arguments tc +:+ joined (omap p_arguments ps) |}.
Proof.
  revert tc. induction ps as [|p ps IH]; intros tc; [simpl; rewrite str_app_nil_r; by destruct tc|].
  simpl. rewrite IH. destruct p as [i s1 s2 s3]. simpl. rewrite str_app_assoc.
  f_equal; [destruct s1|destruct s2|destruct s3]; simpl; try done.
  - rewrite last_cons. change (list_omap _ _ p_id ps) with (omap p_id ps). by destruct (last (omap p_id ps)).
  - rewrite last_cons. change (list_omap _ _ p_name ps) with (omap p_name ps). by destruct (last (omap p_name ps)).
Qed.

Lemma openai_pieces calls ps :
  exists calls', rfold openai_call_delta calls (piece_json <$> ps) = Ok calls' /\
    forall i, calls' !! i = match filter (fun p => p_index p = i) ps with
                            | [] => calls !! i
                            | qs => Some (foldl add_piece (default no_call (calls !! i)) qs)
                            end.
Proof.
  revert calls. induction ps as [|p ps IH]; intros calls; [by exists calls|].
  cbn [fmap list_fmap rfold]. rewrite call_delta_piece. cbn [mbind result_bind].
  destruct (IH (<[p_index p := add_piece (default no_call (calls !! p_index p)) p]> calls)) as (calls' & E & H).
  exists calls'. split; [done|]. intros i. rewrite H, filter_cons. case_decide as Hi.
  - subst i. rewrite dict_lookup_insert_eq. by destruct (filter _ ps).
  - by rewrite dict_lookup_insert_ne.
Qed.

(** However a model's tool calls are cut into pieces, they are put together again.  The Anthropic parser makes
    one call of the pieces of an input, with the parsed text as its input - or an empty input for no text or text
    that is not JSON.  The OpenAI parser, whose pieces of several calls may be mixed, makes one call for each
    index: its id and name the last ones given, its arguments the pieces with its index in order. *)
Theorem calls_reassembled :
  (forall st id name parts,
     ('(_, events, _) ← read_data loads st (block_start id name :: (json_delta <$> parts) ++ [block_stop]); Ok events) =
     (input ← call_arguments (joined parts); Ok [StreamToolUse id name input])) /\
  forall ps, exists calls, rfold openai_call_delta ∅ (piece_json <$> ps) = Ok calls /\
    forall i, let qs := filter (fun p => p_index p = i) ps in
      calls !! i = if decide (qs = []) then None
                   else Some {| pc_id := default ""%string (last (omap p_id qs));
                                pc_name := default ""%string (last (omap p_name qs));
                                pc_arguments := joined (omap p_arguments qs) |}.
Proof.
  split; [apply read_call|]. intros ps.
  destruct (openai_pieces ∅ ps) as (calls & E & H). exists calls. split; [done|]. intros i qs. rewrite H.
  fold qs. destruct qs as [|q qs]; [done|]. rewrite add_pieces. by case_decide.
Qed.
End pieces.
