(* ===== verification/Provider.v ===== *)
(** Model providers: transport/_provider.py and the formats of transport/providers/_anthropic.py, _openai.py
    and _google.py, and what the transport may rely on - which tool calls a message makes and which it
    answers.

    Messages are JSON values; [json.dumps] and [json.loads] are parameters. *)
From S2P Require Import Prelude PyDict Text Scheduler Stream.

Record RetryPolicy := {
  max_retries : nat;
  backoff_base_seconds : decimal;
  backoff_max_seconds : decimal;
  jitter : bool
}.

Record api_request := {
  rq_url : string;
  rq_headers : list (string * string);
  rq_json_body : list (string * value)
}.

Record Provider := {
  build_request : list value -> list value -> string -> string -> result api_request;
  parse_response : value -> result (list ContentBlock);
  parse_stream : list string -> result (list transport_event);
  extract_usage : value -> result Usage;
  format_tool_result : string -> string -> bool -> value;
  wrap_tool_results : list value -> list value;
  format_assistant_message : list ContentBlock -> value
}.

Definition text_block (ty text : string) : ContentBlock := {|
  cb_type := ty; cb_text := Some text; cb_tool_use_id := None; cb_tool_name := None; cb_tool_input := None |}.
Definition tool_block (id name : string) (input : value) : ContentBlock := {|
  cb_type := "tool_use"; cb_text := None; cb_tool_use_id := Some id; cb_tool_name := Some name;
  cb_tool_input := Some input |}.

(** [data[k]], a text *)
Definition text_item (k : string) (v : value) : result string := x ← item k v; as_text x.

(** [tool.get("deferred")] *)
Definition deferred (tool : value) : result bool := d ← get_or "deferred" VNone tool; Ok (negb (falsy d)).

Definition not_loaded : string := " (Schema not loaded -- call load_tools to load full schema first.)".

Section providers.
Context (loads : string -> result value) (dumps : value -> string).

(** ** Anthropic *)

Record AnthropicProvider := {
  an_api_key : string;
  an_base_url : string;
  an_api_version : string;
  an_max_tokens : Z
}.

Definition _format_anthropic_tool (tool : value) : result value :=
  name ← item "name" tool;
  description ← item "description" tool;
  parameters ← item "parameters" tool;
  defer ← deferred tool;
  Ok (VDict ([("name", name); ("description", description); ("input_schema", parameters)]%string ++
             (if defer : bool then [("defer_loading"%string, VBool true)] else []))).

Definition anthropic_build_request (p : AnthropicProvider) (messages tools : list value) (system model : string) :
    result api_request :=
  specs ← rmap _format_anthropic_tool tools;
  Ok {| rq_url := an_base_url p +:+ "/v1/messages";
        rq_headers := [("x-api-key", an_api_key p); ("anthropic-version", an_api_version p);
                       ("content-type", "application/json")]%string;
        rq_json_body := ([("model", VStr model); ("max_tokens", VInt (an_max_tokens p)); ("system", VStr system);
                          ("messages", VList messages); ("stream", VBool true)]%string ++
                         match specs with [] => [] | _ => [("tools"%string, VList specs)] end) |}.

Definition anthropic_parse_item (it : value) : result ContentBlock :=
  block_type ← text_item "type" it;
  if decide (block_type = "text"%string) then text ← text_item "text" it; Ok (text_block "text" text)
  else if decide (block_type = "tool_use"%string) then
    id ← text_item "id" it; name ← text_item "name" it; input ← item "input" it; Ok (tool_block id name input)
  else if decide (block_type = "thinking"%string) then
    text ← text_item "thinking" it; Ok (text_block "thinking" text)
  else Ok (text_block block_type (dumps it)).

Definition anthropic_parse_response (response : value) : result (list ContentBlock) :=
  content ← item "content" response; items ← as_list content; rmap anthropic_parse_item items.

Definition anthropic_extract_usage (response : value) : result Usage :=
  usage ← item "usage" response;
  input ← count "input_tokens" usage;
  output ← count "output_tokens" usage;
  reasoning ← count "reasoning_tokens" usage;
  cache_read ← count "cache_read_input_tokens" usage;
  cache_write ← count "cache_creation_input_tokens" usage;
  Ok {| u_input_tokens := input; u_output_tokens := output; u_reasoning_tokens := reasoning;
        u_cache_read_tokens := cache_read; u_cache_write_tokens := cache_write |}.

Definition anthropic_tool_result (tool_use_id content : string) (is_error : bool) : value :=
  VDict ([("type", VStr "tool_result"); ("tool_use_id", VStr tool_use_id); ("content", VStr content)]%string ++
         (if is_error then [("is_error"%string, VBool true)] else [])).

Definition anthropic_wrap (results : list value) : list value :=
  [VDict [("role", VStr "user"); ("content", VList results)]%string].

Definition anthropic_content (b : ContentBlock) : option value :=
  if decide (cb_type b = "text"%string) then
    Some (VDict [("type", VStr "text"); ("text", vopt (cb_text b))]%string)
  else if decide (cb_type b = "tool_use"%string) then
    Some (VDict [("type", VStr "tool_use"); ("id", vopt (cb_tool_use_id b)); ("name", vopt (cb_tool_name b));
                 ("input", default VNone (cb_tool_input b))]%string)
  else if decide (cb_type b = "thinking"%string) then
    Some (VDict [("type", VStr "thinking"); ("thinking", vopt (cb_text b))]%string)
  else None.

Definition anthropic_assistant (blocks : list ContentBlock) : value :=
  VDict [("role", VStr "assistant"); ("content", VList (omap anthropic_content blocks))]%string.

Definition anthropic (p : AnthropicProvider) : Provider := {|
  build_request := anthropic_build_request p;
  parse_response := anthropic_parse_response;
  parse_stream := anthropic_parse_stream loads;
  extract_usage := anthropic_extract_usage;
  format_tool_result := anthropic_tool_result;
  wrap_tool_results := anthropic_wrap;
  format_assistant_message := anthropic_assistant |}.

(** ** OpenAI *)

Record OpenAIProvider := { oai_api_key : string; oai_base_url : string }.

Definition _format_openai_tool (tool : value) : result value :=
  defer ← deferred tool;
  name ← item "name" tool;
  if defer : bool then
    description ← text_item "description" tool;
    Ok (VDict [("name", name); ("description", VStr (description +:+ not_loaded));
               ("parameters", VDict [("type", VStr "object"); ("properties", VDict [])])]%string)
  else
    description ← item "description" tool;
    parameters ← item "parameters" tool;
    Ok (VDict [("name", name); ("description", description); ("parameters", parameters)]%string).

Definition openai_build_request (p : OpenAIProvider) (messages tools : list value) (system model : string) :
    result api_request :=
  specs ← rmap (fun t => f ← _format_openai_tool t;
                         Ok (VDict [("type", VStr "function"); ("function", f)]%string)) tools;
  Ok {| rq_url := oai_base_url p +:+ "/chat/completions";
        rq_headers := [("Authorization", "Bearer " +:+ oai_api_key p); ("Content-Type", "application/json")]%string;
        rq_json_body := ([("model", VStr model);
                          ("messages", VList (VDict [("role", VStr "system"); ("content", VStr system)] :: messages));
                          ("stream", VBool true); ("stream_options", VDict [("include_usage", VBool true)])]%string ++
                         match specs with [] => [] | _ => [("tools"%string, VList specs)] end) |}.

Definition openai_parse_call (tc : value) : result ContentBlock :=
  id ← text_item "id" tc;
  func ← item "function" tc;
  name ← text_item "name" func;
  arguments ← text_item "arguments" func;
  input ← loads arguments;
  Ok (tool_block id name input).

Definition openai_parse_response (response : value) : result (list ContentBlock) :=
  choices ← item "choices" response; choices ← as_list choices;
  choice ← or_raise (head choices) (OtherError "IndexError");
  message ← item "message" choice;
  content ← get_or "content" VNone message;
  said ← (match content with VNone => Ok [] | _ => text ← as_text content; Ok [text_block "text" text] end);
  calls ← get_or "tool_calls" (VList []) message; calls ← as_list calls;
  blocks ← rmap openai_parse_call calls;
  Ok (said ++ blocks).

Definition openai_extract_usage (response : value) : result Usage :=
  usage ← get_or "usage" (VDict []) response;
  completion_details ← details_of "completion_tokens_details" usage;
  prompt_details ← details_of "prompt_tokens_details" usage;
  input ← count "prompt_tokens" usage;
  output ← count "completion_tokens" usage;
  reasoning ← count "reasoning_tokens" completion_details;
  cached ← count "cached_tokens" prompt_details;
  Ok {| u_input_tokens := input; u_output_tokens := output; u_reasoning_tokens := reasoning;
        u_cache_read_tokens := cached; u_cache_write_tokens := 0 |}.

Definition openai_tool_result (tool_use_id content : string) (is_error : bool) : value :=
  VDict [("role", VStr "tool"); ("tool_call_id", VStr tool_use_id); ("content", VStr content)]%string.

Definition openai_wrap (results : list value) : list value := results.

Definition openai_call (b : ContentBlock) : value :=
  VDict [("id", vopt (cb_tool_use_id b)); ("type", VStr "function");
         ("function", VDict [("name", vopt (cb_tool_name b));
                             ("arguments", VStr (dumps (default VNone (cb_tool_input b))))])]%string.

Definition openai_assistant (blocks : list ContentBlock) : value :=
  let text_parts := omap cb_text (filter (fun b => cb_type b = "text"%string) blocks) in
  let tool_calls := openai_call <$> filter (fun b => cb_type b = "tool_use"%string) blocks in
  VDict ([("role", VStr "assistant");
          ("content", match text_parts with [] => VNone | _ => VStr (String.concat " " text_parts) end)]%string ++
         match tool_calls with [] => [] | _ => [("tool_calls"%string, VList tool_calls)] end).

Definition openai (p : OpenAIProvider) : Provider := {|
  build_request := openai_build_request p;
  parse_response := openai_parse_response;
  parse_stream := openai_parse_stream loads;
  extract_usage := openai_extract_usage;
  format_tool_result := openai_tool_result;
  wrap_tool_results := openai_wrap;
  format_assistant_message := openai_assistant |}.

(** ** Google *)

Record GoogleProvider := { go_api_key : string; go_base_url : string }.

(** A message or part with one text *)
Definition text_part (v : value) : value := VDict [("text"%string, v)].

Definition _convert_content_block (block : value) : result (list value) :=
  block_type ← get_or "type" (VStr "") block;
  if decide (block_type = VStr "text") then text ← get_or "text" (VStr "") block; Ok [text_part text]
  else if decide (block_type = VStr "tool_use") then
    name ← get_or "name" (VStr "") block;
    args ← get_or "input" (VDict []) block;
    tool_id ← get_or "id" VNone block;
    Ok [VDict [("functionCall"%string, VDict ([("name", name); ("args", args)]%string ++
                 (if falsy tool_id then [] else [("id"%string, tool_id)])))]]
  else if decide (block_type = VStr "tool_result") then
    name ← get_or "tool_use_id" (VStr "") block;
    content ← get_or "content" (VStr "") block;
    Ok [VDict [("functionResponse", VDict [("name", name); ("response", VDict [("result", content)])])]%string]
  else Ok [text_part (VStr (dumps block))].

(** One block of a list: a text, a dict, or something to leave out *)
Definition convert_block (block : value) : result (list value) :=
  match block with
  | VStr _ => Ok [text_part block]
  | VDict _ => _convert_content_block block
  | _ => Ok []
  end.

Definition _extract_parts (msg : value) : result (list value) :=
  content ← get_or "content" VNone msg;
  match content with
  | VStr _ => Ok [text_part content]
  | VList blocks => parts ← rmap convert_block blocks; Ok (concat parts)
  | _ =>
      d ← as_dict msg;
      match assoc "parts" d with
      | Some parts => as_list parts
      | None => Ok [text_part (VStr "")]
      end
  end.

Definition _map_role (role : value) : string :=
  if decide (role = VStr "assistant" \/ role = VStr "model") then "model" else "user".

Definition _convert_messages (messages : list value) : result (list value) :=
  rmap (fun msg =>
    role ← get_or "role" (VStr "user") msg;
    parts ← _extract_parts msg;
    Ok (VDict [("role", VStr (_map_role role)); ("parts", VList parts)]%string)) messages.

Definition _convert_tool (tool : value) : result value :=
  name ← item "name" tool;
  d ← as_dict tool;
  defer ← deferred tool;
  described ← (match assoc "description" d with
               | None => Ok []
               | Some desc =>
                   if defer : bool then text ← as_text desc; Ok [("description"%string, VStr (text +:+ not_loaded))]
                   else Ok [("description"%string, desc)]
               end);
  let typed := if defer : bool then []
               else match assoc "parameters" d, assoc "input_schema" d with
                    | Some parameters, _ | None, Some parameters => [("parameters"%string, parameters)]
                    | None, None => []
                    end in
  Ok (VDict ([("name"%string, name)] ++ described ++ typed)).

Definition google_build_request (p : GoogleProvider) (messages tools : list value) (system model : string) :
    result api_request :=
  contents ← _convert_messages messages;
  declarations ← rmap _convert_tool tools;
  Ok {| rq_url := go_base_url p +:+ "/models/" +:+ model +:+ ":streamGenerateContent?alt=sse";
        rq_headers := [("x-goog-api-key", go_api_key p); ("Content-Type", "application/json")]%string;
        rq_json_body := [("contents"%string, VList contents)] ++
                         (if decide (system = EmptyString) then []
                          else [("system_instruction", VDict [("parts", VList [text_part (VStr system)])])]%string) ++
                         match declarations with
                         | [] => []
                         | _ => [("tools", VList [VDict [("functionDeclarations", VList declarations)]])]%string
                         end |}.

Definition google_parse_part (part : value) : result ContentBlock :=
  d ← as_dict part;
  match assoc "text" d, assoc "functionCall" d with
  | Some text, _ => text ← as_text text; Ok (text_block "text" text)
  | None, Some fc =>
      name ← text_item "name" fc;
      id ← get_or "id" (VStr name) fc; id ← as_text id;
      args ← get_or "args" (VDict []) fc;
      Ok (tool_block id name args)
  | None, None => Ok (text_block "unknown" (dumps part))
  end.

Definition google_parse_response (response : value) : result (list ContentBlock) :=
  candidates ← get_or "candidates" (VList []) response; candidates ← as_list candidates;
  match candidates with
  | [] => Ok []
  | candidate :: _ =>
      content ← get_or "content" (VDict []) candidate;
      parts ← get_or "parts" (VList []) content; parts ← as_list parts;
      rmap google_parse_part parts
  end.

Definition google_extract_usage (response : value) : result Usage :=
  usage ← get_or "usageMetadata" (VDict []) response;
  input ← count "promptTokenCount" usage;
  output ← count "candidatesTokenCount" usage;
  Ok {| u_input_tokens := input; u_output_tokens := output; u_reasoning_tokens := 0; u_cache_read_tokens := 0;
        u_cache_write_tokens := 0 |}.

Definition google_tool_result (tool_use_id content : string) (is_error : bool) : value :=
  VDict [("functionResponse", VDict [("name", VStr tool_use_id);
                                     ("response", VDict [("result", VStr content)])])]%string.

Definition google_wrap (results : list value) : list value :=
  [VDict [("role", VStr "user"); ("parts", VList results)]%string].

(** [b.tool_use_id and b.tool_use_id != b.tool_name] *)
Definition call_id (b : ContentBlock) : list (string * value) :=
  match cb_tool_use_id b with
  | Some id => if decide (id <> EmptyString /\ Some id <> cb_tool_name b) then [("id"%string, VStr id)] else []
  | None => []
  end.

Definition google_part_of (b : ContentBlock) : option value :=
  if decide (cb_type b = "text"%string /\ is_Some (cb_text b)) then Some (text_part (vopt (cb_text b)))
  else if decide (cb_type b = "tool_use"%string) then
    let input := default VNone (cb_tool_input b) in
    Some (VDict [("functionCall"%string, VDict ([("name", vopt (cb_tool_name b));
                    ("args", if falsy input then VDict [] else input)]%string ++ call_id b))])
  else None.

Definition google_assistant (blocks : list ContentBlock) : value :=
  VDict [("role", VStr "model"); ("parts", VList (omap google_part_of blocks))]%string.

Definition google (p : GoogleProvider) : Provider := {|
  build_request := google_build_request p;
  parse_response := google_parse_response;
  parse_stream := google_parse_stream loads;
  extract_usage := google_extract_usage;
  format_tool_result := google_tool_result;
  wrap_tool_results := google_wrap;
  format_assistant_message := google_assistant |}.
End providers.
