(* ===== verification/ProviderSpec.v ===== *)
(** What the transport relies on in a provider's message formats - which tool calls a message makes and which it
    answers - with the three providers as instances, and the round trips of the formats. *)
From S2P Require Import Prelude PyDict Text Scheduler Stream StreamSpec Provider.

(** ** Calls and answers *)

(** A tool call as the transport makes it of a stream *)
Definition is_call (b : ContentBlock) : Prop :=
  cb_type b = "tool_use"%string /\ is_Some (cb_tool_use_id b) /\ is_Some (cb_tool_name b).
Definition block_id (b : ContentBlock) : string := default ""%string (cb_tool_use_id b).
Definition calls_of (blocks : list ContentBlock) : list ContentBlock :=
  filter (fun b => cb_type b = "tool_use"%string) blocks.

(** The ids of the calls a message makes and of those it answers *)
Class MessageView := {
  mv_uses : value -> list string;
  mv_answers : value -> list string
}.

Section awaits.
Context `{MessageView}.

(** [open] without [ids], which it starts with *)
Definition answered (ids open : list string) : option (list string) :=
  if decide (take (length ids) open = ids) then Some (drop (length ids) open) else None.

(** The calls still to be answered after [history], when [open] are before it; [None] if a message answers what
    nobody called, or says something else while calls are unanswered. *)
Fixpoint awaits (open : list string) (history : list value) : option (list string) :=
  match history with
  | [] => Some open
  | m :: history' =>
      match mv_answers m with
      | [] => match open with [] => awaits (mv_uses m) history' | _ => None end
      | ids => match mv_uses m with
               | [] => open' ← answered ids open; awaits open' history'
               | _ => None
               end
      end
  end.

(** Every call is answered, in order, before anything else is said. *)
Definition paired (history : list value) : Prop := awaits [] history = Some [].

Lemma awaits_app open h1 h2 : awaits open (h1 ++ h2) = awaits open h1 ≫= fun open => awaits open h2.
Proof.
  revert open. induction h1 as [|m h1 IH]; intros open; [done|]. simpl.
  destruct (mv_answers m) as [|x ids]; [by destruct open|]. destruct (mv_uses m); [|done].
  destruct (answered (x :: ids) open) as [open'|]; simpl; [|done]. apply IH.
Qed.

(** While calls are unanswered nothing but an answer can follow. *)
Lemma awaits_stuck x open m history : mv_answers m = [] -> awaits (x :: open) (m :: history) = None.
Proof. simpl. by intros ->. Qed.

(** The part of a paired history from a message on is paired exactly if the message answers nothing. *)
Lemma paired_from h m h' : paired (h ++ m :: h') -> paired (m :: h') <-> mv_answers m = [].
Proof.
  unfold paired. rewrite awaits_app. destruct (awaits [] h) as [open|]; simpl; [|done]. intros Hp.
  destruct (mv_answers m) as [|x ids] eqn:Em; [by destruct open|].
  split; [|done]. destruct (mv_uses m); done.
Qed.
End awaits.

(** What the formats of a provider promise: [good] ids survive. *)
Class ProviderLaws (p : Provider) `{MessageView} (good : string -> Prop) := {
  assistant_uses blocks :
    Forall (fun b => is_call b /\ good (block_id b)) (calls_of blocks) ->
    mv_uses (format_assistant_message p blocks) = block_id <$> calls_of blocks;
  assistant_answers blocks : mv_answers (format_assistant_message p blocks) = [];
  user_uses text : mv_uses (VDict [("role", VStr "user"); ("content", VStr text)])%string = [];
  user_answers text : mv_answers (VDict [("role", VStr "user"); ("content", VStr text)])%string = [];
  wrap_answers ids results :
    Forall2 (fun i r => exists content is_error, r = format_tool_result p i content is_error) ids results ->
    ids <> [] -> awaits ids (wrap_tool_results p results) = Some [];
  stream_is_events chunks events : parse_stream p chunks = Ok events -> forallb stream_event events = true
}.

Lemma answered_all ids : answered ids ids = Some [].
Proof. unfold answered. by rewrite decide_True, drop_all by apply firstn_all. Qed.

(** A dictionary in a list, by its fields *)
Definition entries (k : string) (m : value) : list value :=
  match vget k m with Some (VList l) => l | _ => [] end.

Section anthropic.
Context (loads : string -> result value) (dumps : value -> string) (p : AnthropicProvider).

Definition content_ids (ty key : string) (m : value) : list string :=
  omap (fun it => if decide (vget "type" it = Some (VStr ty)) then vstr (vget key it) else None) (entries "content" m).

Definition anthropic_view : MessageView := {|
  mv_uses := content_ids "tool_use" "id"; mv_answers := content_ids "tool_result" "tool_use_id" |}.
#[local] Existing Instance anthropic_view.

Lemma anthropic_items_ids blocks :
  Forall is_call (calls_of blocks) ->
  content_ids "tool_use" "id" (anthropic_assistant blocks) = block_id <$> calls_of blocks.
Proof.
  unfold content_ids, anthropic_assistant, entries. simpl. unfold calls_of.
  induction blocks as [|b blocks IH]; [done|]. rewrite filter_cons. simpl. unfold anthropic_content at 1.
  case_decide as Ht; case_decide as Hu.
  - by rewrite Hu in Ht.
  - intros [(_ & [i Hi] & [n Hn]) Hb]%Forall_cons. unfold block_id at 1. simpl. rewrite Hi. simpl. f_equal. by apply IH.
  - simpl. apply IH.
  - intros Hb. case_decide; simpl; by apply IH.
Qed.

Lemma anthropic_items_answers blocks : content_ids "tool_result" "tool_use_id" (anthropic_assistant blocks) = [].
Proof.
  unfold content_ids, anthropic_assistant, entries. simpl.
  induction blocks as [|b blocks IH]; [done|]. simpl. unfold anthropic_content at 1.
  repeat case_decide; simpl; done.
Qed.

Lemma anthropic_results_ids ids results :
  Forall2 (fun i r => exists content is_error, r = anthropic_tool_result i content is_error) ids results ->
  content_ids "tool_result" "tool_use_id" (VDict [("role", VStr "user"); ("content", VList results)])%string = ids /\
  content_ids "tool_use" "id" (VDict [("role", VStr "user"); ("content", VList results)])%string = [].
Proof.
  unfold content_ids, entries. simpl. induction 1 as [|i r ids results (content & is_error & ->) Hr [IH1 IH2]]; [done|].
  simpl. split; [f_equal; apply IH1|apply IH2].
Qed.

#[export] Instance anthropic_laws : ProviderLaws (anthropic loads dumps p) (fun _ => True).
Proof.
  split; simpl; try done.
  - intros blocks Hb. apply anthropic_items_ids. eapply Forall_impl; [exact Hb|]. by intros b [? _].
  - apply anthropic_items_answers.
  - intros ids results Hr Hi. destruct (anthropic_results_ids ids results Hr) as [E1 E2].
    simpl. rewrite E1, E2. destruct ids; [done|]. by rewrite answered_all.
  - apply anthropic_stream_events.
Qed.
End anthropic.

Section openai.
Context (loads : string -> result value) (dumps : value -> string) (p : OpenAIProvider).

Definition option_ids (o : option string) : list string := match o with Some i => [i] | None => [] end.

Definition openai_view : MessageView := {|
  mv_uses := fun m => omap (fun tc => vstr (vget "id" tc)) (entries "tool_calls" m);
  mv_answers := fun m => if decide (vget "role" m = Some (VStr "tool")) then option_ids (vstr (vget "tool_call_id" m))
                         else [] |}.
#[local] Existing Instance openai_view.

Lemma openai_calls_ids blocks :
  Forall is_call blocks -> omap (fun tc => vstr (vget "id" tc)) (openai_call dumps <$> blocks) = block_id <$> blocks.
Proof.
  induction 1 as [|b blocks (_ & [i Hi] & _) Hb IH]; [done|]. unfold block_id at 1. simpl. rewrite Hi. simpl.
  f_equal. apply IH.
Qed.

Lemma openai_results_answer ids results :
  Forall2 (fun i r => exists content is_error, r = openai_tool_result i content is_error) ids results ->
  awaits (H := openai_view) ids results = Some [].
Proof.
  induction 1 as [|i r ids results (content & is_error & ->) Hr IH]; [done|].
  simpl. unfold answered. simpl. rewrite take_0, decide_True by done. simpl. by rewrite drop_0.
Qed.

#[export] Instance openai_laws : ProviderLaws (openai loads dumps p) (fun _ => True).
Proof.
  split; simpl; try done.
  - intros blocks Hb. unfold openai_assistant, entries. fold (calls_of blocks).
    destruct (calls_of blocks) as [|b calls] eqn:E; [done|].
    rewrite <- (openai_calls_ids (b :: calls)); [reflexivity|]. eapply Forall_impl; [exact Hb|]. by intros b' [? _].
  - intros ids results Hr _. by apply openai_results_answer.
  - apply openai_stream_events.
Qed.
End openai.

Section google.
Context (loads : string -> result value) (dumps : value -> string) (p : GoogleProvider).

(** A call without an id is known by its name. *)
Definition function_call_id (part : value) : option string :=
  call ← vget "functionCall" part;
  match vstr (vget "id" call) with Some i => Some i | None => vstr (vget "name" call) end.
Definition function_response_id (part : value) : option string :=
  response ← vget "functionResponse" part; vstr (vget "name" response).

Definition google_view : MessageView := {|
  mv_uses := fun m => omap function_call_id (entries "parts" m);
  mv_answers := fun m => omap function_response_id (entries "parts" m) |}.
#[local] Existing Instance google_view.

Lemma google_call_id b :
  is_call b -> block_id b <> ""%string ->
  google_part_of b ≫= function_call_id = Some (block_id b) /\ google_part_of b ≫= function_response_id = None.
Proof.
  intros (Ht & [i Hi] & [n Hn]) Hb. unfold block_id in *. rewrite Hi in *. simpl in Hb.
  unfold google_part_of. rewrite Ht. rewrite (decide_False (P := "tool_use"%string = "text"%string /\ _)) by (by intros [? _]).
  simpl. unfold call_id. rewrite Hi, Hn. unfold function_call_id. simpl. case_decide as Hd; simpl; [done|].
  destruct (decide (i = n)) as [->|Hin]; [done|]. exfalso. apply Hd. split; [done|congruence].
Qed.

Lemma google_no_call b : cb_type b <> "tool_use"%string -> google_part_of b = None \/ exists v, google_part_of b = Some (text_part v).
Proof.
  intros Ht. unfold google_part_of. rewrite (decide_False (P := cb_type b = "tool_use"%string)) by done.
  case_decide; [right; by eexists|by left].
Qed.

Lemma google_items blocks :
  Forall (fun b => is_call b /\ block_id b <> ""%string) (calls_of blocks) ->
  omap function_call_id (omap google_part_of blocks) = block_id <$> calls_of blocks /\
  omap function_response_id (omap google_part_of blocks) = [].
Proof.
  unfold calls_of. induction blocks as [|b blocks IH]; [done|]. rewrite filter_cons. case_decide as Ht.
  - intros [[Hb Hi] Hbs]%Forall_cons. destruct (google_call_id b Hb Hi) as [E1 E2], (IH Hbs) as [IH1 IH2].
    simpl. destruct (google_part_of b) as [part|] eqn:E; simpl in *; [|done].
    rewrite E1, E2. split; [f_equal; apply IH1|apply IH2].
  - intros Hbs. specialize (IH Hbs). simpl. destruct (google_no_call b Ht) as [->|[v ->]]; exact IH.
Qed.

Lemma google_response_items blocks : omap function_response_id (omap google_part_of blocks) = [].
Proof.
  induction blocks as [|b blocks IH]; [done|]. simpl. unfold google_part_of at 1. repeat case_decide; exact IH.
Qed.

Lemma google_results ids results :
  Forall2 (fun i r => exists content is_error, r = google_tool_result i content is_error) ids results ->
  omap function_response_id results = ids /\ omap function_call_id results = [].
Proof.
  induction 1 as [|i r ids results (content & is_error & ->) Hr [IH1 IH2]]; [done|].
  simpl. split; [f_equal; apply IH1|apply IH2].
Qed.

#[export] Instance google_laws : ProviderLaws (google loads dumps p) (fun i => i <> ""%string).
Proof.
  split; simpl; try done.
  - intros blocks Hb. by apply google_items.
  - intros blocks. apply google_response_items.
  - intros ids results Hr Hi. destruct (google_results ids results Hr) as [E1 E2].
    unfold entries. simpl. rewrite E1, E2. destruct ids; [done|]. by rewrite answered_all.
  - apply google_stream_events.
Qed.
End google.

(** ** Round trips *)

(** The blocks a response consists of: texts, thoughts, and calls with an id and an object as input *)
Definition response_block (b : ContentBlock) : Prop :=
  (exists text, b = text_block "text" text) \/ (exists text, b = text_block "thinking" text) \/
  (exists id name input, id <> ""%string /\ b = tool_block id name (VDict input)).

Lemma rmap_ok {A B} (f : A -> result B) (g : A -> B) l : Forall (fun x => f x = Ok (g x)) l -> rmap f l = Ok (g <$> l).
Proof. induction 1 as [|x l E Hl IH]; [done|]. simpl. by rewrite E, IH. Qed.

Section round_trips.
Context (loads : string -> result value) (dumps : value -> string).

Lemma anthropic_items_parse blocks :
  Forall response_block blocks -> rmap (anthropic_parse_item dumps) (omap anthropic_content blocks) = Ok blocks.
Proof.
  induction 1 as [|b blocks Hb Hbs IH]; [done|].
  destruct Hb as [[text ->]|[[text ->]|(i & n & d & Hi & ->)]]; cbn [omap list_omap]; simpl;
    change (list_omap _ _ anthropic_content blocks) with (omap anthropic_content blocks); by rewrite IH.
Qed.

Lemma google_parts_parse blocks :
  Forall response_block blocks ->
  rmap (google_parse_part dumps) (omap google_part_of blocks) =
    Ok (filter (fun b => cb_type b <> "thinking"%string) blocks).
Proof.
  induction 1 as [|b blocks Hb Hbs IH]; [done|]. rewrite filter_cons.
  destruct Hb as [[text ->]|[[text ->]|(i & n & d & Hi & ->)]]; cbn [omap list_omap].
  - unfold google_part_of at 1. rewrite decide_True by (split; [done|by eexists]). simpl.
    change (list_omap _ _ google_part_of blocks) with (omap google_part_of blocks). by rewrite IH.
  - unfold google_part_of at 1. rewrite decide_False by (by intros [? _]). simpl. exact IH.
  - unfold google_part_of at 1. rewrite decide_False by (by intros [? _]). simpl. unfold call_id. simpl.
    change (list_omap _ _ google_part_of blocks) with (omap google_part_of blocks).
    rewrite IH. destruct d as [|kv d]; case_decide as Hd; simpl; try done.
    + assert (i = n) as -> by (destruct (decide (i = n)); [done|exfalso; apply Hd; split; congruence]). done.
    + assert (i = n) as -> by (destruct (decide (i = n)); [done|exfalso; apply Hd; split; congruence]). done.
Qed.

Lemma openai_calls_parse calls :
  Forall (fun b => exists i n d, b = tool_block i n (VDict d) /\ loads (dumps (VDict d)) = Ok (VDict d)) calls ->
  rmap (openai_parse_call loads) (openai_call dumps <$> calls) = Ok calls.
Proof.
  induction 1 as [|b calls (i & n & d & -> & Hd) Hc IH]; [done|].
  assert (E : openai_parse_call loads (openai_call dumps (tool_block i n (VDict d))) = Ok (tool_block i n (VDict d))).
  { unfold openai_parse_call. simpl. by rewrite Hd. }
  rewrite fmap_cons. cbn [rmap]. by rewrite E, IH.
Qed.

(** C30. The two halves of each provider's format fit: what [format_assistant_message] makes of a turn - of texts,
    thoughts, and calls with an id and an object as input - is read by [parse_response], as the content of a response,
    as follows.  With Anthropic it is the same blocks; with Google the same without the thoughts; with OpenAI the
    thoughts are lost, the texts, if there are any, become one, joined by blanks, and the calls follow it whatever
    their places were, if JSON gives their inputs back.  (The code parses responses so, not its own history.) *)
Theorem assistant_messages_read_back blocks :
  Forall response_block blocks ->
  anthropic_parse_response dumps (anthropic_assistant blocks) = Ok blocks /\
  google_parse_response dumps
    (VDict [("candidates", VList [VDict [("content", google_assistant blocks)]])])%string =
    Ok (filter (fun b => cb_type b <> "thinking"%string) blocks) /\
  (Forall (fun b => exists d, cb_tool_input b = Some d /\ loads (dumps d) = Ok d) (calls_of blocks) ->
   openai_parse_response loads
     (VDict [("choices", VList [VDict [("message", openai_assistant dumps blocks)]])])%string =
     Ok (match omap cb_text (filter (fun b => cb_type b = "text"%string) blocks) with
         | [] => []
         | texts => [text_block "text" (String.concat " " texts)]
         end ++ calls_of blocks)).
Proof.
  intros Hb. split; [|split].
  - simpl. by apply anthropic_items_parse.
  - simpl. by apply google_parts_parse.
  - intros Hd. unfold openai_assistant, openai_parse_response. fold (calls_of blocks).
    assert (Hp : rmap (openai_parse_call loads) (openai_call dumps <$> calls_of blocks) = Ok (calls_of blocks)).
    { apply openai_calls_parse. rewrite Forall_forall in Hd |- *. intros b Hin.
      destruct (Hd b Hin) as (d & E & Hl). apply list_elem_of_filter in Hin as [Ht Hin].
      rewrite Forall_forall in Hb. destruct (Hb b Hin) as [[text ->]|[[text ->]|(i & n & d' & Hi & ->)]]; try done.
      injection E as <-. by exists i, n, d'. }
    destruct (omap cb_text _) as [|t ts]; destruct (calls_of blocks) as [|b calls] eqn:E;
      rewrite ?fmap_cons in *; simpl in *; by rewrite ?Hp.
Qed.
End round_trips.

(** A turn with a thought, a text and a call *)
Definition a_turn : list ContentBlock :=
  [text_block "thinking" "which file?"; text_block "text" "Reading."; tool_block "c1" "read" (VDict [])]%string.

Lemma assistant_messages_read_back_witness :
  anthropic_parse_response dumps_none (anthropic_assistant a_turn) = Ok a_turn /\
  openai_parse_response loads_none
    (VDict [("choices", VList [VDict [("message", openai_assistant dumps_none a_turn)]])])%string =
    Ok [text_block "text" "Reading."; tool_block "c1" "read" (VDict [])]%string.
Proof.
  assert (Hb : Forall response_block a_turn).
  { constructor; [right; left; by eexists|]. constructor; [left; by eexists|].
    constructor; [right; right; by exists "c1"%string, "read"%string, []|]. constructor. }
  destruct (assistant_messages_read_back loads_none dumps_none a_turn Hb) as (Ha & _ & Ho).
  split; [exact Ha|]. apply Ho. constructor; [by eexists|constructor].
Defined.
