(* ===== verification/Transport.v ===== *)
(** transport/_transport.py: sending a message to a model and running the tools it calls, with
    transport/_state_machine.py and transport/_liveness.py.

    A transport lives in a state [S] that tools may change ([HasTransport]): a tool may itself send messages
    over the same transport.  Histories are list objects, named by numbers, since a session, a step context
    and a continuation may share one.  The generators [send] and [resume] hand each event to [emit].  HTTP, the
    clock, randomness and sleeping are parameters. *)
From stdpp Require Import pretty.
From Stdlib Require QArith Qround.
From S2P Require Import Prelude PyDict Text Pipeline Scheduler Stream Provider.

Inductive TransportState := CALLING_API | EXECUTING_TOOLS | SUSPENDED | DONE.

(** ** transport/_liveness.py *)

Record LivenessMonitor := {
  health_threshold : decimal;
  stuck_threshold : decimal;
  last_event_time : option decimal
}.
#[export] Instance eta_LivenessMonitor : Eta LivenessMonitor := fun m => {|
  health_threshold := health_threshold m; stuck_threshold := stuck_threshold m;
  last_event_time := last_event_time m |}.

Definition LivenessMonitor_init : LivenessMonitor := {|
  health_threshold := decimal_Z 30; stuck_threshold := decimal_Z 120; last_event_time := None |}.

Definition monitor_record_event (now : decimal) (m : LivenessMonitor) : LivenessMonitor :=
  m .[last_event_time := Some now].

Definition elapsed (now : decimal) (m : LivenessMonitor) : option decimal :=
  (fun last => (now - last)%dec) <$> last_event_time m.

Inductive liveness := Healthy | Warning | Stuck.

Definition monitor_check (now : decimal) (m : LivenessMonitor) : option liveness :=
  (fun e => if dec_ltb (stuck_threshold m) e then Stuck
            else if dec_ltb (health_threshold m) e then Warning else Healthy) <$> elapsed now m.

Definition monitor_reset (m : LivenessMonitor) : LivenessMonitor := m .[last_event_time := None].

(** ** The state of a transport *)

Record transport := {
  _sessions : dict string nat;
  (** the list objects and the next number *)
  tr_lists : gmap nat (list value);
  tr_next : nat
}.
#[export] Instance eta_transport : Eta transport := fun t => {|
  _sessions := _sessions t; tr_lists := tr_lists t; tr_next := tr_next t |}.

Class HasTransport (S : Type) := {
  tr_get : S -> transport;
  tr_put : transport -> S -> S
}.

Class HasTransportLaws (S : Type) `{HasTransport S} := {
  tr_get_put t s : tr_get (tr_put t s) = t;
  tr_put_get s : tr_put (tr_get s) s = s;
  tr_put_put t t' s : tr_put t (tr_put t' s) = tr_put t s
}.

(** What a request comes to: a stream that was read to its end, with the times of its last event and of
    its end; another status; or an [httpx.HTTPError]. *)
Inductive http_outcome :=
| Streamed (chunks : list string) (last_event now : decimal)
| Refused (status_code : Z) (headers : dict string string) (body : string)
| HTTPError (what : string).

Record transport_env (S : Type) := {
  tv_provider : Provider;
  tv_retry : RetryPolicy;
  tv_max_history_turns : option Z;
  tv_http : api_request -> M S http_outcome;
  tv_sleep : decimal -> M S unit;
  (** [random.random()] *)
  tv_random : M S decimal;
  (** [str(uuid7())] *)
  tv_uuid : M S string;
  (** [monotonic_ns] *)
  tv_now : S -> Z;
  tv_exn_str : exn -> string;
  (** [int(s)] *)
  tv_int : string -> result Z
}.
Arguments tv_provider {S} _.
Arguments tv_retry {S} _.
Arguments tv_max_history_turns {S} _.
Arguments tv_http {S} _ _.
Arguments tv_sleep {S} _ _.
Arguments tv_random {S} _.
Arguments tv_uuid {S} _.
Arguments tv_now {S} _ _.
Arguments tv_exn_str {S} _ _.
Arguments tv_int {S} _ _.

(** [_StepContext]; its history is a list object *)
Record step_context (S : Type) := {
  cx_history : nat;
  cx_tool_specs : list value;
  cx_tool_map : dict string (Tool S);
  cx_model : string;
  cx_system_prompt : string;
  cx_session_id : string;
  cx_totals : Usage;
  cx_total_tool_calls : Z;
  cx_pending_tool_blocks : list ContentBlock;
  cx_last_usage : option Usage;
  cx_suspended_tool_results : list value
}.
Arguments cx_history {S} _.
Arguments cx_tool_specs {S} _.
Arguments cx_tool_map {S} _.
Arguments cx_model {S} _.
Arguments cx_system_prompt {S} _.
Arguments cx_session_id {S} _.
Arguments cx_totals {S} _.
Arguments cx_total_tool_calls {S} _.
Arguments cx_pending_tool_blocks {S} _.
Arguments cx_last_usage {S} _.
Arguments cx_suspended_tool_results {S} _.
#[export] Instance eta_step_context {S} : Eta (step_context S) := fun c => {|
  cx_history := cx_history c; cx_tool_specs := cx_tool_specs c; cx_tool_map := cx_tool_map c;
  cx_model := cx_model c; cx_system_prompt := cx_system_prompt c; cx_session_id := cx_session_id c;
  cx_totals := cx_totals c; cx_total_tool_calls := cx_total_tool_calls c;
  cx_pending_tool_blocks := cx_pending_tool_blocks c; cx_last_usage := cx_last_usage c;
  cx_suspended_tool_results := cx_suspended_tool_results c |}.

(** ** Pure helpers *)

(** [_validate_tool_args]; the arguments of a call are a JSON object, a schema's lists hold texts. *)
Definition texts (v : value) : list string := match v with VList l => omap (fun x => vstr (Some x)) l | _ => [] end.

Definition _validate_tool_args (args : dict string value) (schema : value) : option string :=
  let required := texts (default (VList []) (vget "required" schema)) in
  match filter (fun f => args !! f = None) required with
  | f :: _ => Some ("Missing required field: " +:+ f)%string
  | [] =>
      let properties := default (VDict []) (vget "properties" schema) in
      if falsy (default (VBool true) (vget "additionalProperties" schema)) then
        match filter (fun key => vget key properties = None) (dkeys args) with
        | key :: _ => Some ("Unknown field: " +:+ key)%string
        | [] => None
        end
      else None
  end.

Definition is_user (msg : value) : bool := bool_decide (vget "role" msg = Some (VStr "user")).

(** The indices at which turns start *)
Definition turn_starts (history : list value) : list nat :=
  filter (fun i => (is_user <$> history !! i) = Some true) (seq 0 (length history)).

Definition _compact_history (history : list value) (max_turns : Z) : list value :=
  if (max_turns <=? 0)%Z then history
  else
    let starts := turn_starts history in
    if (Z.of_nat (length starts) <=? max_turns)%Z then history
    else drop (default 0 (starts !! (length starts - Z.to_nat max_turns))) history.

Definition add_usage (a b : Usage) : Usage := {|
  u_input_tokens := u_input_tokens a + u_input_tokens b;
  u_output_tokens := u_output_tokens a + u_output_tokens b;
  u_reasoning_tokens := u_reasoning_tokens a + u_reasoning_tokens b;
  u_cache_read_tokens := u_cache_read_tokens a + u_cache_read_tokens b;
  u_cache_write_tokens := u_cache_write_tokens a + u_cache_write_tokens b |}.

Definition _accumulate_usage {S} (usage : Usage) (ctx : step_context S) : step_context S :=
  ctx .[cx_totals ::= fun t => add_usage t usage] .[cx_last_usage := Some usage].

(** [_categorize_blocks]: text, thinking, tool use, unknown *)
Definition of_type (ty : string) (blocks : list ContentBlock) : list ContentBlock :=
  filter (fun b => cb_type b = ty) blocks.
Definition known_types : list string := ["text"; "thinking"; "tool_use"]%string.
Definition unknown_blocks (blocks : list ContentBlock) : list ContentBlock :=
  filter (fun b => cb_type b ∉ known_types) blocks.

Definition _build_finish_events {S} (ctx : step_context S) (usage : Usage) (text_blocks : list ContentBlock) :
    list transport_event :=
  [StepFinish "end_turn" usage;
   Result (String.concat " " (omap cb_text text_blocks)) (cx_session_id ctx) (cx_totals ctx) (cx_total_tool_calls ctx)].

(** The content blocks of a stream *)
Definition stream_texts (events : list transport_event) : list string :=
  omap (fun e => match e with StreamDelta text => Some text | _ => None end) events.
Definition stream_thoughts (events : list transport_event) : list string :=
  omap (fun e => match e with Thinking text => Some text | _ => None end) events.
Definition stream_calls (events : list transport_event) : list ContentBlock :=
  omap (fun e => match e with StreamToolUse id name input => Some (tool_block id name input) | _ => None end) events.
Definition stream_usage (events : list transport_event) : Usage :=
  default no_usage (last (omap (fun e => match e with StreamUsage usage => Some usage | _ => None end) events)).

(** Joined into one block, if there is any *)
Definition joined_block (ty : string) (parts : list string) : list ContentBlock :=
  match parts with [] => [] | _ => [text_block ty (String.concat "" parts)] end.

Definition stream_blocks (events : list transport_event) : list ContentBlock :=
  joined_block "thinking" (stream_thoughts events) ++ joined_block "text" (stream_texts events) ++ stream_calls events.

Definition tool_spec {S} (t : Tool S) : value :=
  VDict ([("name", VStr (tl_name t)); ("description", VStr (tl_description t)); ("parameters", tl_parameters t)]%string ++
         if tl_deferred t then [("deferred"%string, VBool true)] else []).

(** [{t.name: t for t in tools}] *)
Definition tool_map_of {S} (tools : list (Tool S)) : dict string (Tool S) :=
  foldl (fun d t => <[tl_name t := t]> d) ∅ tools.

Definition user_message (message : string) : value :=
  VDict [("role", VStr "user"); ("content", VStr message)]%string.

Definition _TRANSIENT_STATUS_CODES : list Z := [429; 500; 502; 503]%Z.

Definition dec_min (a b : decimal) : decimal := if dec_leb a b then a else b.

(** [int(delay * 1000)] *)
Definition milliseconds (delay : decimal) : Z := Qround.Qfloor (Qcanon.this (delay * decimal_Z 1000)%dec).

(** [headers.get(a, headers.get(b))] *)
Definition header (headers : dict string string) (a b : string) : option string :=
  match headers !! a with Some v => Some v | None => headers !! b end.

Definition int_header (to_int : string -> result Z) (o : option string) : result (option Z) :=
  match o with Some s => n ← to_int s; Ok (Some n) | None => Ok None end.

Definition _parse_rate_limit_headers (to_int : string -> result Z) (headers : dict string string) :
    result (option transport_event) :=
  let resets_at := headers !! "retry-after"%string in
  limit ← int_header to_int (header headers "x-ratelimit-limit-requests" "x-ratelimit-limit-tokens");
  remaining ← int_header to_int (header headers "x-ratelimit-remaining-requests" "x-ratelimit-remaining-tokens");
  let utilization := match limit, remaining with
                     | Some limit, Some remaining =>
                         if (0 <? limit)%Z
                         then Some (decimal_Z 1 - decimal_Z remaining / decimal_Z limit)%dec else None
                     | _, _ => None
                     end in
  Ok (match resets_at, limit, remaining with
      | None, None, None => None
      | _, _, _ => Some (RateLimit resets_at limit remaining utilization)
      end).

Section transport.
Context {S : Type} `{HasTransport S}.
Context (env : transport_env S) (emit : transport_event -> M S unit).

Definition on_transport {A} (m : M transport A) : M S A := zoom tr_get tr_put m.
Definition tget {A} (f : transport -> A) : M S A := mgets (fun s => f (tr_get s)).
Definition tmod (f : transport -> transport) : M S unit := on_transport (mmod f).

(** A new list object *)
Definition new_list (l : list value) : M S nat :=
  i ← tget tr_next;
  tmod (fun t => t .[tr_lists ::= <[i := l]>] .[tr_next := Datatypes.S i]) ;;
  mret i.

Definition list_at (i : nat) (t : transport) : list value := default [] (tr_lists t !! i).
Definition update_list (i : nat) (f : list value -> list value) : M S unit :=
  tmod (fun t => t .[tr_lists ::= alter f i]).

Definition inject_history (session_id : string) (messages : list value) : M S unit :=
  i ← new_list messages;
  tmod (fun t => t .[_sessions ::= <[session_id := i]>]).

(** ** Requests *)

Definition backoff (attempt : nat) : M S decimal :=
  let delay := dec_min (backoff_base_seconds (tv_retry env) * decimal_Z (2 ^ Z.of_nat attempt))%dec
                       (backoff_max_seconds (tv_retry env)) in
  if jitter (tv_retry env) then factor ← tv_random env; mret (delay * factor)%dec else mret delay.

(** Waiting for the next attempt, and the event that says so *)
Definition retry_later (attempt : nat) (status_code : Z) (error : string) : M S transport_event :=
  delay ← backoff attempt;
  tv_sleep env delay ;;
  mret (ApiRetry (Z.of_nat attempt + 1) (Z.of_nat (max_retries (tv_retry env))) (milliseconds delay) status_code error).

(** The same if attempts are left *)
Definition retry_if_left (attempt : nat) (status_code : Z) (error : string) : M S (list transport_event) :=
  if decide (attempt < max_retries (tv_retry env))
  then event ← retry_later attempt status_code error; mret [event]
  else mret [].

Fixpoint request_loop (left : nat) (attempt : nat) (request : api_request) (retry_events : list transport_event)
    (last_status : Z) (last_error : string) : M S (option (list transport_event) * list transport_event) :=
  match left with
  | 0 =>
      mret (None, retry_events ++ [Error "max_retries_exceeded" ("Failed after " +:+
        pretty (max_retries (tv_retry env) + 1) +:+ " attempts: " +:+ last_error)%string last_status])
  | Datatypes.S left' =>
      outcome ← tv_http env request;
      match outcome with
      | Streamed chunks last_event now =>
          collected ← liftr (parse_stream (tv_provider env) chunks);
          let monitor := match collected with
                         | [] => LivenessMonitor_init
                         | _ => monitor_record_event last_event LivenessMonitor_init
                         end in
          let seconds := default (decimal_Z 0) (elapsed now monitor) in
          match monitor_check now monitor with
          | Some Warning => mret (Some collected, retry_events ++ [LivenessWarning seconds])
          | Some Stuck =>
              let retry_events := retry_events ++ [StuckDetected seconds] in
              if decide (attempt < max_retries (tv_retry env)) then
                event ← retry_later attempt 0 "Stream stuck: no events received";
                request_loop left' (attempt + 1) request (retry_events ++ [event]) last_status last_error
              else mret (Some collected, retry_events)
          | _ => mret (Some collected, retry_events)
          end
      | Refused status_code headers body =>
          error_body ← liftr (decode body);
          limited ← (if decide (status_code = 429)%Z
                     then liftr (_parse_rate_limit_headers (tv_int env) headers) else mret None);
          let retry_events := retry_events ++ match limited with Some event => [event] | None => [] end in
          if decide (status_code ∈ _TRANSIENT_STATUS_CODES) then
            retried ← retry_if_left attempt status_code error_body;
            request_loop left' (attempt + 1) request (retry_events ++ retried) status_code error_body
          else
            mret (None, retry_events ++
              [Error "api_error" ("HTTP " +:+ pretty status_code +:+ ": " +:+ error_body)%string status_code])
      | HTTPError what =>
          retried ← retry_if_left attempt 0 what;
          request_loop left' (attempt + 1) request (retry_events ++ retried) 0 what
      end
  end.

Definition _send_streaming_with_retry (request : api_request) :
    M S (option (list transport_event) * list transport_event) :=
  request_loop (max_retries (tv_retry env) + 1) 0 request [] 0 "".

(** [json_body[k] = v] *)
Definition set_body (k : string) (v : value) (request : api_request) : api_request := {|
  rq_url := rq_url request; rq_headers := rq_headers request;
  rq_json_body := assoc_set k v (rq_json_body request) |}.

(** ** Steps *)

Abbreviation step_result := (TransportState * list transport_event * step_context S)%type.

Definition _step_calling_api (ctx : step_context S) : M S step_result :=
  messages ← tget (list_at (cx_history ctx));
  request ← liftr (build_request (tv_provider env) messages (cx_tool_specs ctx) (cx_system_prompt ctx) (cx_model ctx));
  '(stream_events, retry_events) ← _send_streaming_with_retry (set_body "stream" (VBool true) request);
  match stream_events with
  | None => mret (DONE, retry_events, ctx)
  | Some stream_events =>
      let blocks := stream_blocks stream_events in
      let said := match stream_texts stream_events with [] => [] | parts => [Text (String.concat "" parts)] end in
      let unknown := (fun b => UnknownEvent (VDict (("type"%string, VStr (cb_type b)) ::
                        match cb_text b with Some text => [("text"%string, VStr text)] | None => [] end)))
                       <$> unknown_blocks blocks in
      let events := retry_events ++ stream_events ++ said ++ unknown in
      let usage := stream_usage stream_events in
      let ctx := _accumulate_usage usage ctx in
      update_list (cx_history ctx) (fun h => h ++ [format_assistant_message (tv_provider env) blocks]) ;;
      match of_type "tool_use" blocks with
      | [] => mret (DONE, events ++ _build_finish_events ctx usage (of_type "text" blocks), ctx)
      | tool_use_blocks => mret (EXECUTING_TOOLS, events, ctx .[cx_pending_tool_blocks := tool_use_blocks])
      end
  end.

(** The name, the input and the id of a call, with what stands for a missing one *)
Definition call_name (block : ContentBlock) : string := default ""%string (cb_tool_name block).
Definition call_input (block : ContentBlock) : value :=
  match cb_tool_input block with Some v => if falsy v then VDict [] else v | None => VDict [] end.
Definition call_id_of (block : ContentBlock) : string := default ""%string (cb_tool_use_id block).

(** The tool of a call and its arguments, or what is wrong with them *)
Definition find_tool (ctx : step_context S) (block : ContentBlock) : result (string + Tool S * dict string value) :=
  match cx_tool_map ctx !! call_name block with
  | None => Ok (inl ("Unknown tool: " +:+ call_name block)%string)
  | Some tool =>
      args ← as_dict (call_input block);
      Ok (match _validate_tool_args (Dict args) (tl_parameters tool) with
          | Some error => inl error
          | None => inr (tool, Dict args)
          end)
  end.

Definition tool_result (block : ContentBlock) (content : string) (is_error : bool) : value :=
  format_tool_result (tv_provider env) (call_id_of block) content is_error.

(** The event and the result of a call that failed *)
Definition call_failed (block : ContentBlock) (error : string) (duration_ms : Z) : transport_event * value :=
  (ToolUse (call_id_of block) (call_name block) (call_input block) "" "error" (Some error) duration_ms None,
   tool_result block ("Error: " +:+ error)%string true).

Definition executing (block : ContentBlock) : transport_event :=
  ToolExecuting (call_id_of block) (call_name block) (call_input block).

(** Only [ToolError] is caught. *)
Definition execute_call (block : ContentBlock) (tool : Tool S) (args : dict string value) :
    M S (transport_event * value) :=
  start ← mgets (tv_now env);
  r ← mtry (tl_execute tool args);
  now ← mgets (tv_now env);
  let duration_ms := ((now - start) / 1000000)%Z in
  match r with
  | Ok out =>
      mret (ToolUse (call_id_of block) (call_name block) (call_input block) (text out) "success" None duration_ms
              (Some (data out)),
            tool_result block (text out) false)
  | Raise (ToolError what) => mret (call_failed block (tv_exn_str env (ToolError what)) duration_ms)
  | Raise e => mthrow e
  end.

(** [for i, block in enumerate(ctx.pending_tool_blocks)]: the events and results so far; at the end also the
    blocks left when a suspending tool was called. *)
Fixpoint tool_loop (ctx : step_context S) (blocks : list ContentBlock) (events : list transport_event)
    (results : list value) (calls : Z) :
    M S (list transport_event * list value * Z * option (list ContentBlock)) :=
  match blocks with
  | [] => mret (events, results, calls, None)
  | block :: blocks' =>
      found ← liftr (find_tool ctx block);
      match found with
      | inl error =>
          let '(event, result) := call_failed block error 0 in
          tool_loop ctx blocks' (events ++ [event]) (results ++ [result]) (calls + 1)
      | inr (tool, args) =>
          '(event, result) ← execute_call block tool args;
          let events := events ++ [executing block; event] in
          if tl_suspending tool then mret (events, results ++ [result], (calls + 1)%Z, Some blocks')
          else tool_loop ctx blocks' events (results ++ [result]) (calls + 1)
      end
  end.

Definition _step_executing_tools (ctx : step_context S) : M S step_result :=
  '(events, results, calls, rest_blocks) ← tool_loop ctx (cx_pending_tool_blocks ctx) [] [] (cx_total_tool_calls ctx);
  let ctx := ctx .[cx_total_tool_calls := calls] in
  match rest_blocks with
  | Some blocks =>
      mret (SUSPENDED, events, ctx .[cx_suspended_tool_results := results] .[cx_pending_tool_blocks := blocks])
  | None =>
      update_list (cx_history ctx) (fun h => h ++ wrap_tool_results (tv_provider env) results) ;;
      mret (CALLING_API, events, ctx .[cx_pending_tool_blocks := []])
  end.

Definition step (state : TransportState) (ctx : step_context S) : M S step_result :=
  match state with
  | CALLING_API => _step_calling_api ctx
  | EXECUTING_TOOLS => _step_executing_tools ctx
  | _ => mret (state, [], ctx)
  end.

(** [while state not in (DONE, SUSPENDED)]: at most [turns] steps, where the source has no bound. *)
Fixpoint drive (turns : nat) (state : TransportState) (ctx : step_context S) :
    M S (TransportState * step_context S) :=
  match state with
  | DONE | SUSPENDED => mret (state, ctx)
  | _ =>
      match turns with
      | 0 => mthrow (OtherError "no turns left")
      | Datatypes.S turns' =>
          '(state, events, ctx) ← step state ctx;
          mfor events emit ;;
          drive turns' state ctx
      end
  end.

(** The loop, and the event that tells of a suspension with a copy of the history *)
Definition drive_to_end (turns : nat) (ctx : step_context S) : M S unit :=
  '(state, ctx) ← drive turns CALLING_API ctx;
  match state with
  | SUSPENDED =>
      history ← tget (list_at (cx_history ctx));
      messages ← new_list history;
      emit (SessionSuspended {|
        executed_results := cx_suspended_tool_results ctx; remaining_blocks := cx_pending_tool_blocks ctx;
        ct_session_id := Some (cx_session_id ctx); ct_messages := messages |} (Some (cx_session_id ctx)))
  | _ => mret tt
  end.

Definition start_context (history : nat) (model system_prompt session_id : string) (tools : list (Tool S)) :
    step_context S := {|
  cx_history := history; cx_tool_specs := tool_spec <$> tools; cx_tool_map := tool_map_of tools; cx_model := model;
  cx_system_prompt := system_prompt; cx_session_id := session_id; cx_totals := no_usage; cx_total_tool_calls := 0;
  cx_pending_tool_blocks := []; cx_last_usage := None; cx_suspended_tool_results := [] |}.

(** [self._sessions.setdefault(session_id, [])] *)
Definition session_history (session_id : string) : M S nat :=
  known ← tget (fun t => _sessions t !! session_id);
  match known with
  | Some history => mret history
  | None =>
      history ← new_list [];
      tmod (fun t => t .[_sessions ::= <[session_id := history]>]) ;;
      mret history
  end.

Definition send (turns : nat) (message model system_prompt : string) (tools : list (Tool S))
    (session_id : option string) : M S unit :=
  session_id ← (match session_id with Some id => mret id | None => tv_uuid env end);
  history ← session_history session_id;
  update_list history (fun h => h ++ [user_message message]) ;;
  (match tv_max_history_turns env with
   | Some n => update_list history (fun h => _compact_history h n)
   | None => mret tt
   end) ;;
  emit (StepStart session_id) ;;
  drive_to_end turns (start_context history model system_prompt session_id tools).

(** [for block in continuation.remaining_blocks] *)
Fixpoint resume_loop (ctx : step_context S) (blocks : list ContentBlock) (results : list value) (calls : Z) :
    M S (list value * Z) :=
  match blocks with
  | [] => mret (results, calls)
  | block :: blocks' =>
      found ← liftr (find_tool ctx block);
      '(event, result) ← (match found with
                          | inl error => mret (call_failed block error 0)
                          | inr (tool, args) => emit (executing block) ;; execute_call block tool args
                          end);
      emit event ;;
      resume_loop ctx blocks' (results ++ [result]) (calls + 1)
  end.

(** What the awaited task came to is not used. *)
Definition resume (turns : nat) (continuation : Continuation) (_await_result model system_prompt : string)
    (tools : list (Tool S)) : M S unit :=
  match ct_session_id continuation with
  | None => mthrow (ValueError "Continuation has no session_id")
  | Some session_id =>
      let history := ct_messages continuation in
      tmod (fun t => t .[_sessions ::= <[session_id := history]>]) ;;
      let ctx := start_context history model system_prompt session_id tools in
      '(remaining_results, calls) ← resume_loop ctx (remaining_blocks continuation) [] 0;
      update_list history
        (fun h => h ++ wrap_tool_results (tv_provider env) (executed_results continuation ++ remaining_results)) ;;
      drive_to_end turns (ctx .[cx_total_tool_calls := calls])
  end.
End transport.
