(* ===== verification/TransportDemo.v ===== *)
(** A scripted world for [Transport]: responses given in advance, a tool that reads and one that suspends. *)
From S2P Require Import Prelude PyDict Text Pipeline Scheduler Stream StreamSpec Provider ProviderSpec Transport.

Record demo := {
  dm_transport : transport;
  dm_log : list transport_event;
  dm_http : list http_outcome;
  dm_requests : nat
}.
#[export] Instance eta_demo : Eta demo := fun d => {|
  dm_transport := dm_transport d; dm_log := dm_log d; dm_http := dm_http d; dm_requests := dm_requests d |}.
#[export] Instance demo_has_transport : HasTransport demo := {|
  tr_get := dm_transport; tr_put := fun t d => d .[dm_transport := t] |}.
#[export] Instance demo_laws : HasTransportLaws demo.
Proof. split; by intros; destruct s. Qed.

(** JSON texts are words of a table. *)
Definition demo_table : list (string * value) :=
  [("start", VDict [("message", VDict [("usage", VDict [("input_tokens", VInt 100)])])]);
   ("call", VDict [("content_block", VDict [("type", VStr "tool_use"); ("id", VStr "c1"); ("name", VStr "read")])]);
   ("wait", VDict [("content_block", VDict [("type", VStr "tool_use"); ("id", VStr "c2"); ("name", VStr "wait")])]);
   ("text", VDict [("delta", VDict [("type", VStr "text_delta"); ("text", VStr "done")])]);
   ("delta", VDict [("usage", VDict [("output_tokens", VInt 10)])]); ("{}", VDict [])]%string.
Definition demo_loads (s : string) : result value := or_raise (assoc s demo_table) JSONDecodeError.

Definition demo_response (events : list (string * string)) : http_outcome :=
  Streamed [joined ((fun e => "event: " +:+ e.1 +:+ String LF ("data: " +:+ e.2 +:+ String LF (String LF EmptyString)))%string
                      <$> events)] (decimal_Z 1) (decimal_Z 2).
Definition response_with (calls : list string) : http_outcome :=
  demo_response ([("message_start", "start")]%string ++
    (calls ≫= fun word => [("content_block_start", word); ("content_block_stop", "{}")]%string) ++
    [("content_block_delta", "text"); ("message_delta", "delta"); ("message_stop", "{}")]%string).

Definition demo_provider : Provider :=
  anthropic demo_loads dumps_none {| an_api_key := "k"; an_base_url := "u"; an_api_version := "v"; an_max_tokens := 10 |}.

Definition scripted_env {S} (http : M S http_outcome) : transport_env S := {|
  tv_provider := demo_provider;
  tv_retry := {| max_retries := 1; backoff_base_seconds := decimal_Z 1; backoff_max_seconds := decimal_Z 60; jitter := false |};
  tv_max_history_turns := None;
  tv_http := fun _ => http;
  tv_sleep := fun _ => mret tt;
  tv_random := mret (decimal_Z 1);
  tv_uuid := mret "s1"%string;
  tv_now := fun _ => 0%Z;
  tv_exn_str := fun _ => "error"%string;
  tv_int := fun _ => Ok 0%Z
|}.
Definition demo_env_with (respond : demo -> http_outcome) : transport_env demo :=
  scripted_env (fun d => (Ok (respond d), d .[dm_http ::= tail] .[dm_requests ::= fun n => n + 1])).
(** The responses given, and then none *)
Definition demo_env : transport_env demo := demo_env_with (fun d => default (HTTPError "down") (head (dm_http d))).
Definition demo_emit (e : transport_event) : M demo unit := mmod (fun d => d .[dm_log ::= fun l => l ++ [e]]).

Definition demo_tool {S} (name : string) (suspending : bool) : Tool S := {|
  tl_name := name; tl_description := ""; tl_parameters := VDict [];
  tl_execute := fun _ => mret {| data := VNone; text := "text" |}; tl_suspending := suspending;
  tl_namespace := ""; tl_tags := []; tl_deferred := false; tl_location := ""; tl_capabilities := [] |}.
Definition demo_tools : list (Tool demo) := [demo_tool "read" false; demo_tool "wait" true].

Definition demo_start (http : list http_outcome) : demo := {|
  dm_transport := {| _sessions := ∅; tr_lists := ∅; tr_next := 0 |}; dm_log := []; dm_http := http; dm_requests := 0 |}.

Definition demo_send (http : list http_outcome) : result unit * demo :=
  send demo_env demo_emit 10 "hello" "model" "system" demo_tools (Some "s1"%string) (demo_start http).

(** A call, its answer, and the model's answer; a suspended turn *)
Definition demo_answered : result unit * demo := demo_send [response_with ["call"%string]; response_with []].
Definition demo_suspended : result unit * demo := demo_send [response_with ["wait"; "call"]%string; response_with []].

Lemma demo_tool_in t : t ∈ demo_tools -> forall args, tl_execute t args = mret {| data := VNone; text := "text" |}.
Proof. unfold demo_tools. rewrite !elem_of_cons. by intros [-> |[-> |Ht%not_elem_of_nil]] args. Qed.

#[export] Instance demo_provider_laws : ProviderLaws (H := anthropic_view) (tv_provider demo_env) (fun _ => True).
Proof. apply anthropic_laws. Qed.

(** Two calls of the model, the first of which calls a tool: 200 tokens in, of which [StepFinish] reports
    only the 100 of the second. *)
Definition demo_two : transport_env demo :=
  demo_env_with (fun d => if decide (dm_requests d = 0) then response_with ["call"%string] else response_with []).

#[export] Instance demo_two_laws : ProviderLaws (H := anthropic_view) (tv_provider demo_two) (fun _ => True).
Proof. apply anthropic_laws. Qed.

