(* ===== verification/TransportSpec.v ===== *)
(** Theorems about [Transport]: what compaction keeps of a history, and that the histories of sessions pair every
    tool call with its answer - across sends, suspensions and resumptions, whatever the tools do apart from
    touching the history. *)
From stdpp Require Import pretty.
From S2P Require Import Prelude PyDict Text Pipeline Scheduler Stream StreamSpec Provider ProviderSpec Transport TransportDemo.

(** ** Compaction *)

Definition user_turns (history : list value) : list value := filter (fun m => is_user m = true) history.

Lemma turn_starts_before history k :
  k <= length history ->
  length (filter (fun i => (is_user <$> history !! i) = Some true) (seq 0 k)) = length (user_turns (take k history)).
Proof.
  induction k as [|k IH]; intros Hk; [done|].
  destruct (lookup_lt_is_Some_2 history k) as [m Hm]; [lia|].
  rewrite (take_S_r _ _ m) by done. rewrite seq_S, filter_app, length_app, IH by lia.
  unfold user_turns. rewrite filter_app, length_app. f_equal. simpl.
  rewrite !filter_cons, !filter_nil, Hm. simpl. by destruct (is_user m).
Qed.

Lemma length_turn_starts history : length (turn_starts history) = length (user_turns history).
Proof. unfold turn_starts. rewrite turn_starts_before, firstn_all by done. done. Qed.

(** Where the j-th turn starts *)
Lemma turn_start history j k :
  turn_starts history !! j = Some k ->
  (is_user <$> history !! k) = Some true /\ length (user_turns (take k history)) = j.
Proof.
  intros Hj. assert (Hin := list_elem_of_lookup_2 _ _ _ Hj). unfold turn_starts in *.
  apply list_elem_of_filter in Hin as [Hu Hin]. split; [done|].
  apply elem_of_seq in Hin. rewrite <- turn_starts_before by lia.
  replace (length history) with (k + (1 + (length history - k - 1))) in Hj by lia.
  rewrite !seq_app, filter_app in Hj. simpl in Hj. rewrite filter_cons_True in Hj by done.
  set (l := filter _ (seq 0 k)) in *.
  assert (Hl : k ∉ l) by (unfold l; rewrite list_elem_of_filter, elem_of_seq; lia).
  destruct (decide (j < length l)) as [Hlt|Hge].
  { rewrite lookup_app_l in Hj by done. exfalso. apply Hl. by eapply list_elem_of_lookup_2. }
  rewrite lookup_app_r in Hj by lia. destruct (j - length l) as [|n] eqn:En; [lia|].
  simpl in Hj. apply list_elem_of_lookup_2, list_elem_of_filter in Hj as [_ Hj]. apply elem_of_seq in Hj. lia.
Qed.

(** Compaction cuts before a user message, and keeps [max_turns] of them. *)
Lemma compact_history_cuts history n :
  _compact_history history n = history \/
  exists h m h', history = h ++ m :: h' /\ is_user m = true /\ _compact_history history n = m :: h' /\
    Z.of_nat (length (user_turns (m :: h'))) = n.
Proof.
  unfold _compact_history. destruct (n <=? 0)%Z eqn:En; [by left|].
  destruct (Z.of_nat (length (turn_starts history)) <=? n)%Z eqn:El; [by left|right].
  apply Z.leb_gt in En, El.
  destruct (lookup_lt_is_Some_2 (turn_starts history) (length (turn_starts history) - Z.to_nat n)) as [k Hk]; [lia|].
  rewrite Hk. simpl. destruct (turn_start _ _ _ Hk) as [Hu Ht].
  destruct (history !! k) as [m|] eqn:Em; [|done]. injection Hu as Hu.
  exists (take k history), m, (drop (S k) history).
  rewrite <- drop_S, take_drop by done. split_and!; [done..|].
  pose proof (length_turn_starts history) as Hlen. rewrite <- (take_drop k history) in Hlen at 2.
  unfold user_turns in *. rewrite filter_app, length_app, Ht in Hlen. lia.
Qed.

Section compaction.
Context `{MessageView}.

(** Compacting a history keeps its last [max_turns] user messages and what follows the first of them.  The
    calls in what is kept stay paired with their answers exactly if that first message answers no call. *)
Theorem compaction_pairing history n :
  paired history ->
  let kept := _compact_history history n in
  kept = history \/
  exists dropped m rest, history = dropped ++ m :: rest /\ kept = m :: rest /\ is_user m = true /\
    Z.of_nat (length (user_turns kept)) = n /\ (paired kept <-> mv_answers m = []).
Proof.
  intros Hp kept. destruct (compact_history_cuts history n) as [E|(h & m & h' & E & Hu & Ek & Hn)]; [by left|right].
  exists h, m, h'. unfold kept. rewrite Ek. split_and!; try done. apply (paired_from h). by rewrite <- E.
Qed.
End compaction.

(** With OpenAI's format user messages answer nothing, with Anthropic's the answers are user messages. *)
Lemma openai_user_answers m : is_user m = true -> mv_answers (MessageView := openai_view) m = [].
Proof. intros Hu%bool_decide_eq_true. simpl. by rewrite Hu. Qed.

(** A conversation with one tool call, and the next message of the user *)
Definition one_call : list value :=
  [user_message "read it"; anthropic_assistant [tool_block "c1" "read" (VDict [])];
   VDict [("role", VStr "user"); ("content", VList [anthropic_tool_result "c1" "text" false])];
   anthropic_assistant [text_block "text" "done"]; user_message "thanks"]%string.

(** Keeping two turns of it drops the call and keeps its answer. *)
Lemma compaction_pairing_witness :
  paired (H := anthropic_view) one_call /\
  length (_compact_history one_call 2) = 3 /\
  ~ paired (H := anthropic_view) (_compact_history one_call 2).
Proof.
  assert (Hp : paired (H := anthropic_view) one_call) by reflexivity. split; [done|]. split; [reflexivity|].
  destruct (compaction_pairing (H := anthropic_view) one_call 2 Hp)
    as [E|(dropped & m & rest & _ & E & _ & _ & Hiff)]; [discriminate E|].
  rewrite Hiff. injection E as <- _. discriminate.
Defined.

(** ** Calls and their answers *)

Section histories.
Context {S : Type} {HT : HasTransport S} {HTL : HasTransportLaws S}.
Context (env : transport_env S) (emit : transport_event -> M S unit).
Context {HV : MessageView} {good : string -> Prop} {Hlaws : ProviderLaws (tv_provider env) good}.
(** the events handed on so far; the list object that holds the history *)
Context (log : S -> list transport_event) (h : nat).
Implicit Types (s : S) (l : list value) (evs : list transport_event).

Definition holds l evs s : Prop := tr_lists (tr_get s) !! h = Some l /\ h < tr_next (tr_get s) /\ log s = evs.

(** Code that leaves this history alone, and hands on nothing in this session's name *)
Definition minds {A} (m : M S A) : Prop := forall l evs, keeps (holds l evs) m.

(** The calls of a response have ids that survive. *)
Definition good_calls (events : list transport_event) : Prop :=
  Forall (fun b => good (block_id b)) (stream_calls events).

Record considerate (tools : list (Tool S)) : Prop := {
  cs_http r : minds (tv_http env r);
  cs_http_good r s : wp (tv_http env r) (fun o _ =>
    match o with
    | Streamed chunks _ _ => forall events, parse_stream (tv_provider env) chunks = Ok events -> good_calls events
    | _ => True
    end) (fun _ _ => True) s;
  cs_sleep d : minds (tv_sleep env d);
  cs_random : minds (tv_random env);
  cs_uuid : minds (tv_uuid env);
  cs_tools t args : t ∈ tools -> minds (tl_execute t args);
  cs_emit e s : wp (emit e) (fun _ s' => tr_get s' = tr_get s /\ log s' = log s ++ [e])
                  (fun _ s' => tr_get s' = tr_get s) s;
  cs_log t s : log (tr_put t s) = log s
}.

Context (tools : list (Tool S)) (Hc : considerate tools).

Lemma minds_bind {A B} (m : M S A) (k : A -> M S B) : minds m -> (forall a, minds (k a)) -> minds (m ≫= k).
Proof. intros Hm Hk l evs. apply keeps_bind; [apply Hm|intros a; apply Hk]. Qed.
Lemma minds_ret {A} (a : A) : minds (mret a).
Proof. intros l evs. apply keeps_ret. Qed.
Lemma minds_mgets {A} (f : S -> A) : minds (mgets f).
Proof. intros l evs. apply keeps_mgets. Qed.
Lemma minds_liftr {A} (r : result A) : minds (liftr r).
Proof. intros l evs. apply keeps_liftr. Qed.
Lemma minds_mtry {A} (m : M S A) : minds m -> minds (mtry m).
Proof. intros Hm l evs. by apply keeps_mtry. Qed.

Lemma minds_backoff attempt : minds (backoff env attempt).
Proof.
  unfold backoff. destruct (jitter _); [|apply minds_ret].
  apply minds_bind; [apply (cs_random _ Hc)|intros; apply minds_ret].
Qed.

Lemma minds_retry_later attempt code error : minds (retry_later env attempt code error).
Proof.
  unfold retry_later. apply minds_bind; [apply minds_backoff|intros delay].
  apply minds_bind; [apply (cs_sleep _ Hc)|intros; apply minds_ret].
Qed.

Lemma minds_retry_if_left attempt code error : minds (retry_if_left env attempt code error).
Proof.
  unfold retry_if_left. case_decide; [|apply minds_ret].
  apply minds_bind; [apply minds_retry_later|intros; apply minds_ret].
Qed.

(** What a minding computation does to the goal *)
Lemma wp_minds {A} (m : M S A) l evs s Q E :
  minds m -> holds l evs s ->
  (forall a s', holds l evs s' -> Q a s') -> (forall e s', holds l evs s' -> E e s') -> wp m Q E s.
Proof. intros Hm Hs HQ HE. eapply wp_mono; [apply (wp_kept (holds l evs)); [apply Hm|exact Hs]| |]; auto. Qed.

(** *** Steps *)

Lemma request_loop_minds l evs left : forall attempt request told code error s,
  holds l evs s ->
  wp (request_loop env left attempt request told code error)
    (fun r s' => holds l evs s' /\ match r.1 with Some events => good_calls events | None => True end)
    (fun _ => holds l evs) s.
Proof.
  induction left as [|left IH]; intros attempt request told code error s Hs; [by apply wp_ret|].
  cbn [request_loop]. apply wp_bind.
  eapply wp_mono; [eapply wp_keeps; [apply (cs_http _ Hc)|exact Hs|apply (cs_http_good _ Hc)]| |by intros e s' [_ ?]].
  cbn beta. intros outcome s1 [Hgood H1]. destruct outcome as [chunks last_event now|status headers body|what].
  - apply wp_bind, wp_liftr; [|done]. intros collected Ec. specialize (Hgood collected Ec).
    destruct (monitor_check now _) as [[]|]; try by apply wp_ret.
    case_decide; [|by apply wp_ret]. apply wp_bind.
    eapply wp_minds; [apply minds_retry_later|exact H1| |done]. intros e s2 H2. by apply IH.
  - apply wp_bind, wp_liftr; [|done]. intros error_body _. apply wp_bind.
    eapply (wp_minds (if decide _ then _ else _)); [case_decide; [apply minds_liftr|apply minds_ret]|exact H1| |done].
    intros limited s2 H2. case_decide; [|by apply wp_ret]. apply wp_bind.
    eapply wp_minds; [apply minds_retry_if_left|exact H2| |done]. intros retried s3 H3. by apply IH.
  - apply wp_bind. eapply wp_minds; [apply minds_retry_if_left|exact H1| |done]. intros retried s3 H3. by apply IH.
Qed.

(** The list object changes as the source's list does. *)
Lemma update_list_holds f l evs s Q E :
  holds l evs s -> (forall s', holds (f l) evs s' -> Q tt s') -> wp (update_list h f) Q E s.
Proof.
  intros (Hl & Hn & Hlog) HQ. unfold update_list, tmod, on_transport, zoom. apply HQ.
  unfold holds. rewrite tr_get_put, (cs_log _ Hc). split_and!; [|done|done]. simpl. by rewrite lookup_alter_eq, Hl.
Qed.

Lemma new_list_holds x l evs s Q E :
  holds l evs s -> (forall i s', holds l evs s' -> tr_lists (tr_get s') !! i = Some x -> Q i s') -> wp (new_list x) Q E s.
Proof.
  intros (Hl & Hn & Hlog) HQ. unfold new_list, tget, tmod, on_transport, zoom. apply wp_bind, wp_mgets, wp_bind. simpl.
  apply wp_ret, HQ.
  - unfold holds. rewrite tr_get_put, (cs_log _ Hc). simpl. split_and!; [|lia|done]. rewrite lookup_insert_ne; [done|lia].
  - rewrite tr_get_put. simpl. by rewrite lookup_insert_eq.
Qed.

Lemma stream_calls_are_calls events b : b ∈ stream_calls events -> is_call b.
Proof.
  intros (e & _ & He)%list_elem_of_omap. destruct e; simplify_eq/=. split_and!; [done|by eexists|by eexists].
Qed.

Lemma calls_of_stream events : calls_of (stream_blocks events) = stream_calls events.
Proof.
  unfold calls_of, stream_blocks. rewrite !filter_app.
  assert (Hn : forall ty parts, ty <> "tool_use"%string ->
    filter (fun b => cb_type b = "tool_use"%string) (joined_block ty parts) = []).
  { intros ty [|x xs] Ht; [done|]. simpl. by rewrite filter_cons_False. }
  rewrite !Hn by done. simpl. apply filter_all. intros b Hb. by apply stream_calls_are_calls in Hb as [? _].
Qed.

(** A result is the answer to a call *)
Definition answers_to (id : string) (r : value) : Prop :=
  exists content is_error, r = format_tool_result (tv_provider env) id content is_error.

(** What a history is like in each state of the transport *)
Definition history_in (state : TransportState) (ctx : step_context S) l : Prop :=
  match state with
  | CALLING_API | DONE => paired l
  | EXECUTING_TOOLS =>
      cx_pending_tool_blocks ctx <> [] /\ awaits [] l = Some (block_id <$> cx_pending_tool_blocks ctx)
  | SUSPENDED =>
      exists ids, ids <> [] /\ Forall2 answers_to ids (cx_suspended_tool_results ctx) /\
        awaits [] l = Some (ids ++ (block_id <$> cx_pending_tool_blocks ctx))
  end.

(** What stays as it is in a context *)
Definition same_call (ctx ctx' : step_context S) : Prop :=
  cx_history ctx' = cx_history ctx /\ cx_tool_map ctx' = cx_tool_map ctx /\ cx_session_id ctx' = cx_session_id ctx.

(** The state after a step, and where an exception leaves the history *)
Definition stepped (ctx : step_context S) l evs (r : TransportState * list transport_event * step_context S) s : Prop :=
  let '(state, _, ctx') := r in
  exists m, holds (l ++ m) evs s /\ history_in state ctx' (l ++ m) /\ same_call ctx ctx'.
Definition interrupted l evs s : Prop := exists m, holds (l ++ m) evs s /\ is_Some (awaits [] (l ++ m)).

Lemma calling_api_stepped ctx l evs s :
  holds l evs s -> cx_history ctx = h -> paired l ->
  wp (_step_calling_api env ctx) (stepped ctx l evs) (fun _ => interrupted l evs) s.
Proof.
  intros Hs Hh Hp.
  assert (Hi : forall s', holds l evs s' -> interrupted l evs s').
  { intros s' Hs'. exists []. rewrite app_nil_r. split; [done|]. by rewrite Hp. }
  unfold _step_calling_api. apply wp_bind, wp_mgets, wp_bind, wp_liftr; [|intros e _; by apply Hi].
  intros request _. apply wp_bind.
  eapply wp_mono; [by apply request_loop_minds| |intros e s1 H1; by apply Hi].
  intros [[events|] told] s1 [H1 Hg]; cbn [fst] in Hg.
  2: { apply wp_ret. exists []. rewrite app_nil_r. by split_and!. }
  apply wp_bind. assert (Hh' : cx_history (_accumulate_usage (stream_usage events) ctx) = h) by done. rewrite Hh'.
  eapply update_list_holds; [exact H1|]. intros s2 H2.
  assert (Ha : awaits [] (l ++ [format_assistant_message (tv_provider env) (stream_blocks events)]) =
               Some (block_id <$> stream_calls events)).
  { rewrite awaits_app, Hp. simpl. rewrite assistant_answers, assistant_uses; rewrite calls_of_stream; [done|].
    unfold good_calls in Hg. rewrite Forall_forall in Hg |- *. intros b Hb.
    split; [by eapply stream_calls_are_calls|by apply Hg]. }
  change (of_type "tool_use" (stream_blocks events)) with (calls_of (stream_blocks events)). rewrite calls_of_stream.
  destruct (stream_calls events) as [|b bs] eqn:E; apply wp_ret; eexists; split_and!; try exact H2; try done.
Qed.

Definition uses_tools (ctx : step_context S) : Prop := forall name t, cx_tool_map ctx !! name = Some t -> t ∈ tools.

Lemma call_failed_answers b error duration : answers_to (block_id b) (call_failed env b error duration).2.
Proof. eexists _, _. reflexivity. Qed.

Lemma execute_call_answers b t args l evs s :
  t ∈ tools -> holds l evs s ->
  wp (execute_call env b t args) (fun r s' => answers_to (block_id b) r.2 /\ holds l evs s') (fun _ => holds l evs) s.
Proof.
  intros Ht Hs. unfold execute_call. apply wp_bind, wp_mgets, wp_bind.
  eapply wp_minds; [apply minds_mtry, (cs_tools _ Hc _ _ Ht)|exact Hs| |done]. intros r s1 H1.
  apply wp_bind, wp_mgets. destruct r as [out|[]]; try (by apply wp_throw); apply wp_ret; split; try done.
  - eexists _, _. reflexivity.
  - apply call_failed_answers.
Qed.

Lemma find_tool_in ctx b t args : uses_tools ctx -> find_tool ctx b = Ok (inr (t, args)) -> t ∈ tools.
Proof.
  unfold find_tool. intros Hu. destruct (cx_tool_map ctx !! call_name b) as [t'|] eqn:E; [|done].
  destruct (as_dict _); simpl; [|done]. case_match; [done|]. intros [= <- <-]. by eapply Hu.
Qed.

(** The calls a loop over [blocks] answered, in order *)
Definition looped (blocks : list ContentBlock) (ids : list string) (results : list value)
    (rest : option (list ContentBlock)) : Prop :=
  exists ids', Forall2 answers_to (ids ++ ids') results /\
    match rest with
    | None => ids' = block_id <$> blocks
    | Some rest => ids' <> [] /\ (block_id <$> blocks) = ids' ++ (block_id <$> rest)
    end.

Lemma looped_next b blocks ids results rest :
  looped blocks (ids ++ [block_id b]) results rest -> looped (b :: blocks) ids results rest.
Proof.
  intros (ids' & Hr & Hm). exists (block_id b :: ids'). rewrite <- app_assoc in Hr. split; [exact Hr|].
  rewrite fmap_cons. destruct rest as [rest|]; [|by rewrite Hm]. destruct Hm as [_ ->]. by split.
Qed.

Lemma answers_snoc ids id results r : Forall2 answers_to ids results -> answers_to id r ->
  Forall2 answers_to (ids ++ [id]) (results ++ [r]).
Proof. intros Hr Hi. apply Forall2_app; [done|by repeat constructor]. Qed.

Lemma tool_loop_answers ctx l evs blocks : forall events ids results calls s,
  uses_tools ctx -> holds l evs s -> Forall2 answers_to ids results ->
  wp (tool_loop env ctx blocks events results calls)
    (fun r s' => holds l evs s' /\ looped blocks ids r.1.1.2 r.2) (fun _ => holds l evs) s.
Proof.
  induction blocks as [|b blocks IH]; intros events ids results calls s Hu Hs Hr.
  { apply wp_ret. split; [done|]. exists []. by rewrite app_nil_r. }
  cbn [tool_loop]. apply wp_bind, wp_liftr; [|done]. intros [error|[t args]] Ef.
  - pose proof (call_failed_answers b error 0) as Ha. destruct (call_failed env b error 0) as [event r]. simpl in Ha.
    eapply wp_mono; [apply IH; [done|done|by apply answers_snoc]| |done].
    intros a s1 [H1 Hl]. split; [done|]. by apply looped_next.
  - apply find_tool_in in Ef; [|done]. apply wp_bind.
    eapply wp_mono; [by apply execute_call_answers| |done]. intros [event r] s1 [Ha H1]. simpl in Ha.
    case_match eqn:Es.
    + apply wp_ret. split; [done|]. exists [block_id b]. split; [by apply answers_snoc|done].
    + eapply wp_mono; [apply IH; [done|done|by apply answers_snoc]| |done].
      intros a s2 [H2 Hl]. split; [done|]. by apply looped_next.
Qed.

Lemma executing_tools_stepped ctx l evs s :
  holds l evs s -> cx_history ctx = h -> uses_tools ctx -> history_in EXECUTING_TOOLS ctx l ->
  wp (_step_executing_tools env ctx) (stepped ctx l evs) (fun _ => interrupted l evs) s.
Proof.
  intros Hs Hh Hu [Hne Hp].
  assert (Hi : forall s', holds l evs s' -> interrupted l evs s').
  { intros s' Hs'. exists []. rewrite app_nil_r. split; [done|]. by rewrite Hp. }
  unfold _step_executing_tools. apply wp_bind.
  eapply wp_mono; [apply (tool_loop_answers ctx l evs _ _ [] []); [done|done|constructor]| |intros e s1 H1; by apply Hi].
  intros [[[events results] calls] rest] s1 [H1 (ids & Hr & Hm)]. simpl in Hr, Hm.
  destruct rest as [rest|].
  - destruct Hm as [Hids Hm]. apply wp_ret. exists []. rewrite app_nil_r. split_and!; [done| |done].
    exists ids. simpl. by rewrite Hp, Hm.
  - subst ids. apply wp_bind. simpl. rewrite Hh. eapply update_list_holds; [exact H1|]. intros s2 H2.
    apply wp_ret. eexists. split_and!; [exact H2| |done].
    simpl. unfold paired. rewrite awaits_app, Hp. simpl. apply wrap_answers; [done|].
    by destruct (cx_pending_tool_blocks ctx).
Qed.

Lemma step_stepped state ctx l evs s :
  holds l evs s -> cx_history ctx = h -> uses_tools ctx -> history_in state ctx l ->
  wp (step env state ctx) (stepped ctx l evs) (fun _ => interrupted l evs) s.
Proof.
  intros Hs Hh Hu Hp. destruct state; simpl.
  - by apply calling_api_stepped.
  - by apply executing_tools_stepped.
  - apply wp_ret. exists []. by rewrite app_nil_r.
  - apply wp_ret. exists []. by rewrite app_nil_r.
Qed.

(** *** The loop *)

(** Where an exception after a step leaves things *)
Definition broken_off l s : Prop := exists m evs, holds (l ++ m) evs s /\ is_Some (awaits [] (l ++ m)).

Lemma emit_one e l evs s :
  holds l evs s ->
  wp (emit e) (fun _ s' => holds l (evs ++ [e]) s' /\ tr_get s' = tr_get s) (fun _ s' => exists evs', holds l evs' s') s.
Proof.
  intros (Hl & Hn & <-). eapply wp_mono; [apply (cs_emit _ Hc)| |].
  - intros u s1 [E1 E2]. split; [|done]. unfold holds. by rewrite E1, E2.
  - intros e' s1 E1. exists (log s1). unfold holds. by rewrite E1.
Qed.

Lemma emit_all events l evs s :
  holds l evs s -> wp (mfor events emit) (fun _ => holds l (evs ++ events)) (fun _ s' => exists evs', holds l evs' s') s.
Proof.
  revert evs s. induction events as [|e events IH]; intros evs s Hs; [apply wp_ret; by rewrite app_nil_r|].
  cbn [mfor]. apply wp_bind. eapply wp_mono; [by apply emit_one| |done]. intros u s1 [H1 _].
  eapply wp_mono; [apply (IH _ _ H1)| |done]. intros v s2 H2. by rewrite <- app_assoc in H2.
Qed.

Lemma history_in_some state ctx l : history_in state ctx l -> is_Some (awaits [] l).
Proof. destruct state; simpl; [by intros ->|by intros [_ ->]|by intros (? & _ & _ & ->)|by intros ->]. Qed.

(** The loop ends with the history of a final state, having handed events on. *)
Lemma drive_ends turns : forall state ctx l evs s,
  holds l evs s -> cx_history ctx = h -> uses_tools ctx -> history_in state ctx l ->
  wp (drive env emit turns state ctx)
    (fun r s' => exists m more, holds (l ++ m) (evs ++ more) s' /\ history_in r.1 r.2 (l ++ m) /\ same_call ctx r.2 /\
       (r.1 = DONE \/ r.1 = SUSPENDED))
    (fun _ => broken_off l) s.
Proof.
  induction turns as [|turns IH]; intros state ctx l evs s Hs Hh Hu Hp.
  { destruct state; try (apply wp_throw; exists [], evs; rewrite app_nil_r; split; [done|by eapply history_in_some]);
      apply wp_ret; exists [], []; rewrite !app_nil_r; split_and!; auto; done. }
  assert (Hgo : state <> DONE -> state <> SUSPENDED ->
    wp ('(state, events, ctx) ← step env state ctx; mfor events emit ;; drive env emit turns state ctx)
      (fun r s' => exists m more, holds (l ++ m) (evs ++ more) s' /\ history_in r.1 r.2 (l ++ m) /\ same_call ctx r.2 /\
         (r.1 = DONE \/ r.1 = SUSPENDED))
      (fun _ => broken_off l) s).
  { intros _ _. apply wp_bind. eapply wp_mono; [by apply step_stepped| |].
    2: { intros e s1 (m & H1 & Hm). by exists m, evs. }
    intros [[state1 events] ctx1] s1 (m & H1 & Hp1 & Hsame). destruct Hsame as (Hsh & Htm & Hid). apply wp_bind.
    eapply wp_mono; [by apply emit_all| |].
    2: { intros e s2 [evs' H2]. exists m, evs'. split; [done|by eapply history_in_some]. }
    intros u s2 H2. eapply wp_mono; [apply (IH _ ctx1 _ _ _ H2); [congruence| |done]| |].
    - intros name t. rewrite Htm. apply Hu.
    - intros r s3 (m' & more & H3 & Hp3 & (Hs3 & Ht3 & Hi3) & Hd). exists (m ++ m'), (events ++ more).
      rewrite !app_assoc. split_and!; [done|done|unfold same_call; split_and!; congruence|done].
    - intros e s3 (m' & evs' & H3 & Hp3). exists (m ++ m'), evs'. by rewrite app_assoc. }
  destruct state; try (by apply Hgo); apply wp_ret; exists [], []; rewrite !app_nil_r; split_and!; auto; done.
Qed.

(** A continuation that has what it takes to go on: the history with the calls of its last message, the results
    of the first of these, and the others. *)
Definition continues (k : Continuation) (session_id : string) l s : Prop :=
  ct_session_id k = Some session_id /\ tr_lists (tr_get s) !! ct_messages k = Some l /\
  exists ids, ids <> [] /\ Forall2 answers_to ids (executed_results k) /\
    awaits [] l = Some (ids ++ (block_id <$> remaining_blocks k)).

(** How a turn can end: with every call answered, or with a continuation as its last event *)
Definition turn_over (session_id : string) l s : Prop :=
  exists m evs, holds (l ++ m) evs s /\
    (paired (l ++ m) \/ exists k, last evs = Some (SessionSuspended k (Some session_id)) /\ continues k session_id (l ++ m) s).

Lemma drive_to_end_over turns ctx l evs s :
  holds l evs s -> cx_history ctx = h -> uses_tools ctx -> paired l ->
  wp (drive_to_end env emit turns ctx) (fun _ => turn_over (cx_session_id ctx) l) (fun _ => broken_off l) s.
Proof.
  intros Hs Hh Hu Hp. unfold drive_to_end. apply wp_bind. eapply wp_mono; [by apply drive_ends| |done].
  intros [state ctx1] s1 (m & more & H1 & Hp1 & (Hh1 & _ & Hid) & Hd). simpl in Hp1, Hh1, Hid, Hd.
  destruct Hd as [-> | ->].
  { apply wp_ret. exists m, (evs ++ more). split; [done|by left]. }
  destruct Hp1 as (ids & Hne & Hr & Hp1). apply wp_bind, wp_mgets.
  assert (El : list_at (cx_history ctx1) (tr_get s1) = l ++ m).
  { unfold list_at. rewrite Hh1, Hh. by rewrite (proj1 H1). }
  rewrite El. apply wp_bind. eapply new_list_holds; [exact H1|]. intros i s2 H2 Hi.
  eapply wp_mono; [by apply emit_one| |].
  - intros u s3 [H3 E3]. exists m. eexists. split; [exact H3|right].
    eexists. rewrite last_snoc, Hid. split; [done|]. split_and!; [done|by rewrite E3|]. by exists ids.
  - intros e s3 [evs' H3]. exists m, evs'. split; [done|]. by rewrite Hp1.
Qed.

Lemma tool_map_of_in (ts : list (Tool S)) name t : tool_map_of ts !! name = Some t -> t ∈ ts.
Proof.
  unfold tool_map_of. induction ts as [|t' ts IH] using rev_ind; [done|]. rewrite foldl_app. simpl.
  rewrite elem_of_app, list_elem_of_singleton. destruct (decide (tl_name t' = name)) as [->|Hn].
  - rewrite dict_lookup_insert_eq. intros [= ->]. by right.
  - rewrite dict_lookup_insert_ne by done. left. by apply IH.
Qed.

(** Compaction that cannot separate answers from their calls: none, or of a format whose user messages answer
    nothing *)
Definition keeps_pairs : Prop := tv_max_history_turns env = None \/ forall m, is_user m = true -> mv_answers m = [].

Lemma compacted_paired l n : keeps_pairs -> tv_max_history_turns env = Some n -> paired l -> paired (_compact_history l n).
Proof.
  intros [Hk|Hk] Hn Hp; [congruence|].
  destruct (compact_history_cuts l n) as [->|(a & m & b & E & Hu & -> & _)]; [done|].
  apply (paired_from a); [by rewrite <- E|by apply Hk].
Qed.

Lemma tmod_holds f l evs s Q E :
  holds l evs s -> tr_lists (f (tr_get s)) !! h = Some l -> h < tr_next (f (tr_get s)) ->
  (forall s', holds l evs s' -> Q tt s') -> wp (tmod f) Q E s.
Proof.
  intros (_ & _ & Hlog) Hl Hn HQ. unfold tmod, on_transport, zoom. apply HQ.
  unfold holds. by rewrite tr_get_put, (cs_log _ Hc).
Qed.

(** The history of a session: the list object [h], or none yet and [h] the next one *)
Definition history_of (session_id : string) l s : Prop :=
  match _sessions (tr_get s) !! session_id with
  | Some i => i = h /\ holds l (log s) s
  | None => l = [] /\ h = tr_next (tr_get s)
  end.

Lemma session_history_holds session_id l s Q E :
  history_of session_id l s -> (forall s', holds l (log s) s' -> Q h s') -> wp (session_history session_id) Q E s.
Proof.
  unfold history_of, session_history, tget. intros Hh HQ. apply wp_bind, wp_mgets. simpl.
  destruct (_sessions (tr_get s) !! session_id) as [i|].
  - destruct Hh as [-> Hh]. by apply wp_ret, HQ.
  - destruct Hh as [-> Hh]. unfold new_list, tget, tmod, on_transport, zoom.
    rewrite Hh in HQ. apply HQ. unfold holds. rewrite Hh. rewrite !tr_get_put, !(cs_log _ Hc). simpl.
    rewrite lookup_insert_eq. split_and!; [done|lia|done].
Qed.

(** The history a message is sent with *)
Definition sent_history l (message : string) : list value :=
  let l := l ++ [user_message message] in
  match tv_max_history_turns env with Some n => _compact_history l n | None => l end.

Lemma sent_history_paired l message : keeps_pairs -> paired l -> paired (sent_history l message).
Proof.
  intros Hk Hp. assert (Hp' : paired (l ++ [user_message message])).
  { unfold paired. rewrite awaits_app, Hp. simpl. unfold user_message. by rewrite user_answers, user_uses. }
  unfold sent_history. destruct (tv_max_history_turns env) as [n|] eqn:E; [|done]. by apply compacted_paired.
Qed.

(** C5. Sending a message keeps a history paired.  Suppose each call in the session's history is answered before
    anything else is said - as in a new one -, the transport does not compact histories or its format keeps
    answers out of the user's messages, as OpenAI's does ([keeps_pairs]; with the others compaction can separate
    them: [compaction_pairing]), and what is awaited - requests, tools, the sink of events - leaves the
    transport's lists alone ([considerate]).  Then whatever tools the model calls in answer to the message -
    known or not, with the right arguments or not, succeeding or failing with a ToolError - each call in the
    history afterwards is answered before anything else is said; unless a tool suspended the turn, whose last
    event is then a continuation that holds the answers so far and the calls still to be made.  Even an exception
    leaves a history whose only unanswered calls are those of its last message. *)
Theorem send_pairs_calls turns message model system_prompt session_id l s :
  keeps_pairs -> history_of session_id l s -> paired l ->
  wp (send env emit turns message model system_prompt tools (Some session_id))
    (fun _ => turn_over session_id (sent_history l message)) (fun _ => broken_off (sent_history l message)) s.
Proof.
  intros Hk Hh Hp. unfold send. apply wp_bind, wp_ret, wp_bind. eapply session_history_holds; [exact Hh|].
  intros s1 H1. apply wp_bind. eapply update_list_holds; [exact H1|]. intros s2 H2. apply wp_bind.
  assert (Hsent : forall s', holds (sent_history l message) (log s) s' ->
    wp (emit (StepStart session_id) ;; drive_to_end env emit turns (start_context h model system_prompt session_id tools))
      (fun _ => turn_over session_id (sent_history l message)) (fun _ => broken_off (sent_history l message)) s').
  { intros s3 H3. pose proof (sent_history_paired l message Hk Hp) as Hp'. apply wp_bind.
    eapply wp_mono; [by apply emit_one| |].
    - intros u s4 [H4 _]. apply (drive_to_end_over _ (start_context h model system_prompt session_id tools) _ _ _ H4); [done| |done].
      intros name t. apply tool_map_of_in.
    - intros e s4 [evs H4]. exists [], evs. rewrite app_nil_r. split; [done|]. by rewrite Hp'. }
  unfold sent_history in *. destruct (tv_max_history_turns env) as [n|].
  - eapply update_list_holds; [exact H2|]. exact Hsent.
  - apply wp_ret. by apply Hsent.
Qed.

Lemma resume_loop_answers ctx l blocks : forall ids results calls evs s,
  uses_tools ctx -> holds l evs s -> Forall2 answers_to ids results ->
  wp (resume_loop env emit ctx blocks results calls)
    (fun r s' => exists evs', holds l evs' s' /\ Forall2 answers_to (ids ++ (block_id <$> blocks)) r.1)
    (fun _ s' => exists evs', holds l evs' s') s.
Proof.
  induction blocks as [|b blocks IH]; intros ids results calls evs s Hu Hs Hr.
  { apply wp_ret. exists evs. by rewrite app_nil_r. }
  cbn [resume_loop]. apply wp_bind, wp_liftr; [|intros e _; by exists evs]. intros found Ef. apply wp_bind.
  assert (Hf : wp (match found with
                   | inl error => mret (call_failed env b error 0)
                   | inr (tool, args) => emit (executing b) ;; execute_call env b tool args
                   end)
    (fun r s' => answers_to (block_id b) r.2 /\ exists evs', holds l evs' s') (fun _ s' => exists evs', holds l evs' s') s).
  { destruct found as [error|[t args]].
    - apply wp_ret. split; [apply call_failed_answers|by exists evs].
    - apply find_tool_in in Ef; [|done]. apply wp_bind. eapply wp_mono; [by apply emit_one| |done].
      intros u s1 [H1 _]. eapply wp_mono; [by apply execute_call_answers| |]; [|intros e s2 H2; eexists; exact H2].
      intros r s2 [Ha H2]. split; [done|]. by eexists. }
  eapply wp_mono; [exact Hf| |done]. intros [event r] s1 [Ha [evs1 H1]]. simpl in Ha. apply wp_bind.
  eapply wp_mono; [by apply emit_one| |done]. intros u s2 [H2 _].
  rewrite fmap_cons, (cons_middle (block_id b)), app_assoc. eapply (IH (ids ++ [block_id b])); [done|exact H2|by apply answers_snoc].
Qed.

(** C6. Resuming a suspended turn answers exactly the calls that were left, in order, adds the answers to those
    the continuation holds, and goes on as a turn that was never suspended: with every call answered or suspended
    again.  The continuation is one of the session's history ([continues]), and what is awaited leaves the
    transport's lists alone ([considerate]). *)
Theorem resume_pairs_calls turns k await_result model system_prompt session_id l s :
  continues k session_id l s -> ct_messages k = h -> h < tr_next (tr_get s) ->
  wp (resume env emit turns k await_result model system_prompt tools)
    (fun _ s' => exists results, Forall2 answers_to (block_id <$> remaining_blocks k) results /\
       turn_over session_id (l ++ wrap_tool_results (tv_provider env) (executed_results k ++ results)) s')
    (fun _ => broken_off l) s.
Proof.
  intros (Hk & Hl & ids & Hne & Hr & Ha) Hm Hn. unfold resume. rewrite Hk. apply wp_bind.
  assert (Hs : holds l (log s) s) by (rewrite Hm in Hl; done).
  eapply tmod_holds; [exact Hs|by rewrite <- Hm|done|]. intros s1 H1. simpl. apply wp_bind.
  assert (Hu : uses_tools (start_context h model system_prompt session_id tools)).
  { intros name t. apply tool_map_of_in. }
  rewrite Hm. eapply wp_mono; [apply (resume_loop_answers _ l _ [] [] 0 (log s)); [exact Hu|exact H1|constructor]| |].
  2: { intros e s2 [evs H2]. exists [], evs. rewrite app_nil_r. split; [done|]. by rewrite Ha. }
  intros [results calls] s2 (evs & H2 & Hres). simpl in Hres. apply wp_bind.
  eapply update_list_holds; [exact H2|]. intros s3 H3.
  assert (Hp : paired (l ++ wrap_tool_results (tv_provider env) (executed_results k ++ results))).
  { unfold paired. rewrite awaits_app, Ha. simpl. apply wrap_answers; [by apply Forall2_app|by destruct ids]. }
  pose proof (drive_to_end_over turns ((start_context h model system_prompt session_id tools)
    .[cx_total_tool_calls := calls]) _ _ _ H3 eq_refl Hu Hp) as Hd.
  eapply wp_mono; [exact Hd| |].
  - intros u s4 H4. by exists results.
  - intros e s4 (m & evs' & H4 & Ha4). rewrite <- app_assoc in *. by eexists _, _.
Qed.
End histories.

(** *** Scripted runs *)

Lemma demo_considerate h : considerate demo_env demo_emit (good := fun _ => True) dm_log h demo_tools.
Proof.
  split; try (intros; intros l evs s Hs; exact Hs); try done.
  - intros r s. unfold wp. simpl. destruct (default _ _); try done. intros events _. by apply Forall_true.
  - intros t args Ht l evs s Hs. rewrite demo_tool_in by done. exact Hs.
Qed.

(** How a run from the start ends, by the theorem *)
Definition demo_over (r : result unit * demo) : Prop :=
  let l := sent_history demo_env [] "hello" in
  match r with
  | (Ok _, d) => turn_over (HV := anthropic_view) demo_env dm_log 0 "s1" l d
  | (Raise _, d) => broken_off (HV := anthropic_view) dm_log 0 l d
  end.

Lemma send_pairs_calls_witness :
  fst demo_answered = Ok tt /\ demo_over demo_answered /\
  fst demo_suspended = Ok tt /\ demo_over demo_suspended /\
  exists k, last (dm_log (snd demo_suspended)) = Some (SessionSuspended k (Some "s1"%string)).
Proof.
  assert (Hw : forall http, demo_over (demo_send http)).
  { intros http. apply (send_pairs_calls (HV := anthropic_view) demo_env demo_emit dm_log 0 demo_tools (demo_considerate 0)).
    - by left.
    - by split.
    - reflexivity. }
  split_and!; [vm_compute; reflexivity|apply Hw|vm_compute; reflexivity|apply Hw|vm_compute; by eexists].
Defined.

(** Going on after the suspension *)
Definition no_continuation : Continuation := {|
  executed_results := []; remaining_blocks := []; ct_session_id := None; ct_messages := 0 |}.
Definition demo_continuation : Continuation :=
  match last (dm_log (snd demo_suspended)) with Some (SessionSuspended k _) => k | _ => no_continuation end.
Definition demo_history : list value := list_at (ct_messages demo_continuation) (dm_transport (snd demo_suspended)).
Definition demo_resume : M demo unit := resume demo_env demo_emit 10 demo_continuation "result" "model" "system" demo_tools.

Lemma resume_pairs_calls_witness :
  fst (demo_resume (snd demo_suspended)) = Ok tt /\
  exists results, Forall2 (answers_to demo_env) (block_id <$> remaining_blocks demo_continuation) results /\
    turn_over (HV := anthropic_view) demo_env dm_log 1 "s1"
      (demo_history ++ wrap_tool_results demo_provider (executed_results demo_continuation ++ results))
      (snd (demo_resume (snd demo_suspended))).
Proof.
  assert (Hw : wp demo_resume
    (fun _ s' => exists results, Forall2 (answers_to demo_env) (block_id <$> remaining_blocks demo_continuation) results /\
       turn_over (HV := anthropic_view) demo_env dm_log 1 "s1"
         (demo_history ++ wrap_tool_results demo_provider (executed_results demo_continuation ++ results)) s')
    (fun _ => broken_off (HV := anthropic_view) dm_log 1 demo_history) (snd demo_suspended)).
  { unfold demo_resume.
    apply (resume_pairs_calls (HV := anthropic_view) demo_env demo_emit dm_log 1 demo_tools (demo_considerate 1)).
    - split; [vm_compute; reflexivity|]. split; [vm_compute; reflexivity|]. exists ["c2"%string].
      split; [done|]. split; [|vm_compute; reflexivity].
      replace (executed_results demo_continuation) with [format_tool_result demo_provider "c2" "text" false]
        by (vm_compute; reflexivity).
      constructor; [|constructor]. by eexists _, _.
    - vm_compute. reflexivity.
    - apply Nat.ltb_lt. vm_compute. reflexivity. }
  assert (E : fst (demo_resume (snd demo_suspended)) = Ok tt) by (vm_compute; reflexivity).
  split; [exact E|]. exact (wp_returned _ _ _ _ _ Hw E).
Defined.

