(* ===== verification/TransportReports.v ===== *)
(** Theorems about [Transport]: how many requests are made, and what the events of a turn report of them. *)
From stdpp Require Import pretty.
From S2P Require Import Prelude PyDict Text Pipeline Scheduler Stream StreamSpec Provider ProviderSpec Transport TransportDemo TransportSpec.

(** ** Requests *)

Section requests.
Context {S : Type} (env : transport_env S).

(** What counts requests counts nothing else *)
Context (requests : S -> nat).
Context (http_counts : forall r s, requests (snd (tv_http env r s)) = requests s + 1).
Context (sleep_free : forall d n, keeps (fun s => requests s = n) (tv_sleep env d)).
Context (random_free : forall n, keeps (fun s => requests s = n) (tv_random env)).

Lemma backoff_free attempt n : keeps (fun s => requests s = n) (backoff env attempt).
Proof. unfold backoff. destruct (jitter _); eauto with pydb. Qed.

Lemma retry_later_free attempt code error n : keeps (fun s => requests s = n) (retry_later env attempt code error).
Proof. unfold retry_later. eauto using backoff_free with pydb. Qed.

Lemma retry_if_left_free attempt code error n : keeps (fun s => requests s = n) (retry_if_left env attempt code error).
Proof. unfold retry_if_left. case_decide; eauto using retry_later_free with pydb. Qed.

Definition is_retry (e : transport_event) : bool := match e with ApiRetry _ _ _ _ _ => true | _ => false end.
Definition is_error_event (e : transport_event) : bool := match e with Error _ _ _ => true | _ => false end.
Definition retries (told : list transport_event) : nat := length (filter (fun e => is_retry e = true) told).
Definition is_none {A} (o : option A) : bool := match o with None => true | Some _ => false end.

Lemma retries_app l1 l2 : retries (l1 ++ l2) = retries l1 + retries l2.
Proof. unfold retries. by rewrite filter_app, length_app. Qed.

Lemma retries_one e : retries [e] = if is_retry e then 1 else 0.
Proof. unfold retries. rewrite filter_cons. case_decide as Hr; destruct (is_retry e); done. Qed.

(** Waiting makes no request, and is told of *)
Lemma retry_later_wp attempt code error n s :
  requests s = n ->
  wp (retry_later env attempt code error)
    (fun e s' => requests s' = n /\ is_retry e = true /\ is_error_event e = false) (fun _ s' => requests s' = n) s.
Proof.
  intros Hs. unfold retry_later. apply wp_bind.
  eapply wp_mono; [apply (wp_kept (fun s => requests s = n)), Hs; apply backoff_free| |done]. simpl. intros delay s1 H1.
  apply wp_bind. eapply wp_mono; [apply (wp_kept (fun s => requests s = n)), H1; apply sleep_free| |done].
  simpl. intros _ s2 H2. by apply wp_ret.
Qed.

Lemma retry_if_left_wp attempt left code error n s :
  requests s = n -> attempt + left = max_retries (tv_retry env) ->
  wp (retry_if_left env attempt code error)
    (fun told s' => requests s' = n /\ retries told = Nat.min 1 left /\ existsb is_error_event told = false)
    (fun _ s' => requests s' = n) s.
Proof.
  intros Hs Ha. unfold retry_if_left. case_decide as Hl.
  - apply wp_bind. eapply wp_mono; [by apply retry_later_wp| |done]. cbn beta. intros e s1 (H1 & Hr & He).
    apply wp_ret. rewrite retries_one, Hr. cbn [existsb]. rewrite He. split_and!; [done|lia|done].
  - apply wp_ret. split_and!; [done|change (retries []) with 0; lia|done].
Qed.

(** What a loop with [left] attempts has done when it is over *)
Definition loop_done (left n : nat) (told : list transport_event)
    (r : option (list transport_event) * list transport_event) (s : S) : Prop :=
  exists more, r.2 = told ++ more /\ requests s = n + Nat.min 1 left + retries more /\ retries more <= left - 1 /\
    existsb is_error_event more = is_none r.1.
Definition loop_raised (left n : nat) (s : S) : Prop := n <= requests s <= n + left.

Lemma loop_next left n told more r s :
  loop_done left (n + 1) (told ++ more) r s ->
  retries more = Nat.min 1 left -> existsb is_error_event more = false -> loop_done (Datatypes.S left) n told r s.
Proof.
  intros (m & E & Hr & Hle & He) Hm Hne. exists (more ++ m).
  rewrite E, <- app_assoc, retries_app, existsb_app, Hne. split_and!; [done|lia|lia|done].
Qed.

(** The last iteration *)
Lemma loop_ends left n told more r s :
  requests s = n + 1 -> r.2 = told ++ more -> retries more = 0 -> existsb is_error_event more = is_none r.1 ->
  loop_done (Datatypes.S left) n told r s.
Proof. intros Hs E Hm He. exists more. split_and!; [done|lia|lia|done]. Qed.

Lemma request_loop_counts left : forall attempt request told code error n s,
  attempt + left = max_retries (tv_retry env) + 1 -> requests s = n ->
  wp (request_loop env left attempt request told code error) (loop_done left n told) (fun _ => loop_raised left n) s.
Proof.
  induction left as [|left IH]; intros attempt request told code error n s Ha Hs.
  - apply wp_ret. eexists. split; [reflexivity|]. rewrite retries_one, Hs. simpl. split_and!; [lia|lia|done].
  - assert (Hraise : forall s', requests s' = n + 1 -> loop_raised (Datatypes.S left) n s').
    { unfold loop_raised. intros s' ->. lia. }
    assert (Hnext : forall code error more s', requests s' = n + 1 -> retries more = Nat.min 1 left ->
      existsb is_error_event more = false ->
      wp (request_loop env left (attempt + 1) request (told ++ more) code error) (loop_done (Datatypes.S left) n told)
        (fun _ => loop_raised (Datatypes.S left) n) s').
    { intros code' error' more s' Hs' Hm He. eapply wp_mono; [apply (IH _ _ _ _ _ (n + 1)); [lia|done]| |].
      - intros r s2 H2. by eapply loop_next.
      - unfold loop_raised. intros e s2. lia. }
    cbn [request_loop]. apply wp_bind. pose proof (http_counts request s) as Hc. rewrite Hs in Hc.
    unfold wp at 1. destruct (tv_http env request s) as [[outcome|e] s1]; simpl in Hc; [|by apply Hraise].
    destruct outcome as [chunks last_event now|status headers body|what].
    + apply wp_bind, wp_liftr; [|intros e _; by apply Hraise]. intros collected _.
      destruct (monitor_check now _) as [[]|]; try (apply wp_ret, (loop_ends _ _ _ []); by rewrite ?app_nil_r).
      * apply wp_ret. by eapply loop_ends.
      * case_decide as Hl; [|apply wp_ret; by eapply loop_ends].
        apply wp_bind. eapply wp_mono; [by apply retry_later_wp| |intros e s2 H2; by apply Hraise].
        cbn beta. intros e s2 (H2 & Hr & He). rewrite <- app_assoc. apply Hnext; [done| |by simpl; rewrite He].
        rewrite (retries_app [_] [e]), !retries_one, Hr. cbn [is_retry]. lia.
    + apply wp_bind, wp_liftr; [|intros e _; by apply Hraise]. intros error_body _.
      apply wp_bind. assert (Hlim : wp (if decide (status = 429)%Z
        then liftr (_parse_rate_limit_headers (tv_int env) headers) else mret None)
        (fun limited s2 => requests s2 = n + 1 /\ match limited with Some e => is_retry e = false /\ is_error_event e = false
                                                   | None => True end)
        (fun _ s2 => requests s2 = n + 1) s1).
      { case_decide; [|by apply wp_ret]. apply wp_liftr; [|done]. intros limited Hl. split; [done|].
        unfold _parse_rate_limit_headers in Hl. ok_inv Hl; repeat case_match; by simplify_eq. }
      eapply wp_mono; [exact Hlim| |intros e s2 H2; by apply Hraise]. clear Hlim. intros limited s2 (H2 & Hl).
      set (more := match limited with Some e => [e] | None => [] end).
      assert (Hm : retries more = 0 /\ existsb is_error_event more = false).
      { unfold more. destruct limited as [e|]; [|done]. destruct Hl as [Hr He]. 
        rewrite retries_one, Hr. simpl. by rewrite He. }
      case_decide as Ht.
      * apply wp_bind. eapply wp_mono; [apply (retry_if_left_wp _ left); [done|lia]| |intros e s3 H3; by apply Hraise].
        cbn beta. intros retried s3 (H3 & Hr & He). rewrite <- app_assoc. apply Hnext; [done| |].
        -- rewrite retries_app. lia.
        -- by rewrite existsb_app, (proj2 Hm), He.
      * apply wp_ret. eapply loop_ends; [done|simpl; by rewrite <- app_assoc| |].
        -- rewrite retries_app, retries_one. cbn [is_retry]. lia.
        -- rewrite existsb_app. simpl. by rewrite orb_true_r.
    + apply wp_bind. eapply wp_mono; [apply (retry_if_left_wp _ left); [done|lia]| |intros e s3 H3; by apply Hraise].
      cbn beta. intros retried s3 (H3 & Hr & He). by apply Hnext.
Qed.

(** C28. Sending a request makes between one and [max_retries] + 1 requests, each but the last announced by one
    [ApiRetry]; nothing came of them exactly if the events told say so with an [Error].  Waiting and random numbers
    make no request. *)
Theorem requests_bounded request s :
  wp (_send_streaming_with_retry env request)
    (fun r s' => requests s' = requests s + 1 + retries r.2 /\ retries r.2 <= max_retries (tv_retry env) /\
       (r.1 = None <-> existsb is_error_event r.2 = true))
    (fun _ s' => requests s <= requests s' <= requests s + max_retries (tv_retry env) + 1) s.
Proof.
  unfold _send_streaming_with_retry.
  eapply wp_mono; [apply (request_loop_counts _ 0 _ _ _ _ (requests s)); [lia|done]| |].
  - intros [got told] s' (more & E & Hr & Hle & He). cbn [fst snd app] in *. subst told. split_and!; [lia|lia|].
    rewrite He. by destruct got.
  - unfold loop_raised. intros e s'. lia.
Qed.
End requests.

(** ** What a turn reports *)

Definition usages (events : list transport_event) : list Usage :=
  omap (fun e => match e with StreamUsage usage => Some usage | _ => None end) events.
Definition sum_usage (l : list Usage) : Usage := foldl add_usage no_usage l.
(** The events that end or suspend a turn *)
Definition is_finish (e : transport_event) : bool :=
  match e with StepFinish _ _ | Result _ _ _ _ | SessionSuspended _ _ => true | _ => false end.
Definition unfinished (events : list transport_event) : Prop := existsb is_finish events = false.

Lemma add_no_usage u : add_usage u no_usage = u.
Proof. destruct u. unfold add_usage. simpl. f_equal; lia. Qed.

Lemma usages_app l1 l2 : usages (l1 ++ l2) = usages l1 ++ usages l2.
Proof. apply omap_app. Qed.
Lemma sum_usage_app l1 l2 : sum_usage (l1 ++ l2) = foldl add_usage (sum_usage l1) l2.
Proof. apply foldl_app. Qed.
Lemma unfinished_app l1 l2 : unfinished (l1 ++ l2) <-> unfinished l1 /\ unfinished l2.
Proof. unfold unfinished. by rewrite existsb_app, orb_false_iff. Qed.

Definition is_tool_use (e : transport_event) : bool :=
  match e with ToolUse _ _ _ _ _ _ _ _ => true | _ => false end.
(** No tool ends among them. *)
Definition plain (events : list transport_event) : Prop := existsb is_tool_use events = false.

(** The events of a turn, cut after each [ToolUse]: the transport runs at least one tool between two responses
    of the model, so each part has the events of at most one response. *)
Fixpoint responses_from (r : list transport_event) (events : list transport_event) : list (list transport_event) :=
  match events with
  | [] => [r]
  | e :: events' => if is_tool_use e then (r ++ [e]) :: responses_from [] events' else responses_from (r ++ [e]) events'
  end.
Definition responses : list transport_event -> list (list transport_event) := responses_from [].

(** The events since the last tool ended: with them the last response *)
Definition last_response (events : list transport_event) : list transport_event := default [] (last (responses events)).
(** The sum of the usages of the responses *)
Definition spent (events : list transport_event) : Usage := sum_usage (stream_usage <$> responses events).

Lemma plain_app l1 l2 : plain (l1 ++ l2) <-> plain l1 /\ plain l2.
Proof. unfold plain. by rewrite existsb_app, orb_false_iff. Qed.
Lemma stream_usage_app l1 l2 :
  stream_usage (l1 ++ l2) = if decide (usages l2 = []) then stream_usage l1 else stream_usage l2.
Proof.
  unfold stream_usage. fold (usages (l1 ++ l2)) (usages l1) (usages l2). rewrite usages_app.
  case_decide as E; [by rewrite E, app_nil_r|]. rewrite last_app. by destruct (last (usages l2)) eqn:El; [|apply last_None in El].
Qed.
Lemma stream_usage_quiet_l l1 l2 : usages l1 = [] -> stream_usage (l1 ++ l2) = stream_usage l2.
Proof. intros E. unfold stream_usage. fold (usages (l1 ++ l2)) (usages l2). by rewrite usages_app, E. Qed.
Lemma stream_usage_quiet_r l1 l2 : usages l2 = [] -> stream_usage (l1 ++ l2) = stream_usage l1.
Proof. intros E. by rewrite stream_usage_app, decide_True. Qed.
Lemma stream_usage_none l : usages l = [] -> stream_usage l = no_usage.
Proof. intros E. unfold stream_usage. fold (usages l). by rewrite E. Qed.

(** Cutting goes on where it was: with the part that was open. *)
Lemma responses_from_app r l1 l2 :
  exists done r', responses_from r l1 = done ++ [r'] /\ responses_from r (l1 ++ l2) = done ++ responses_from r' l2.
Proof.
  revert r. induction l1 as [|e l1 IH]; intros r; [by exists [], r|]. simpl. destruct (is_tool_use e).
  - destruct (IH []) as (done & r' & E1 & E2). exists ((r ++ [e]) :: done), r'. by rewrite E1, E2.
  - apply IH.
Qed.
Lemma responses_from_plain r l : plain l -> responses_from r l = [r ++ l].
Proof.
  revert r. induction l as [|e l IH]; intros r; [by rewrite app_nil_r|].
  unfold plain. simpl. rewrite orb_false_iff. intros [-> Hl]. by rewrite IH, <- app_assoc.
Qed.
Lemma responses_app events more :
  exists done r', responses events = done ++ [r'] /\ last_response events = r' /\
    responses (events ++ more) = done ++ responses_from r' more.
Proof.
  destruct (responses_from_app [] events more) as (done & r' & E1 & E2). exists done, r'. unfold last_response, responses.
  by rewrite E1, last_snoc.
Qed.

Lemma last_response_plain events more : plain more -> last_response (events ++ more) = last_response events ++ more.
Proof.
  intros Hp. destruct (responses_app events more) as (done & r' & E1 & E2 & E3).
  unfold last_response at 1. by rewrite E3, responses_from_plain, last_snoc, E2.
Qed.
Lemma last_response_tool events more e : is_tool_use e = true -> last_response (events ++ more ++ [e]) = [].
Proof.
  intros He. rewrite app_assoc. destruct (responses_app (events ++ more) [e]) as (done & r' & E1 & E2 & E3).
  unfold last_response at 1. rewrite E3. simpl. by rewrite He, last_app.
Qed.

(** Events without a usage change no sum. *)
Lemma spent_quiet events more : usages more = [] -> spent (events ++ more) = spent events.
Proof.
  intros Hm. destruct (responses_app events more) as (done & r' & E1 & _ & E3). unfold spent. rewrite E1, E3.
  rewrite !fmap_app, !sum_usage_app. clear E1 E3. generalize (sum_usage (stream_usage <$> done)). revert r' Hm.
  induction more as [|e more IH]; intros r Hm t; [done|].
  assert (Hm' : usages more = [] /\ usages [e] = []) by (change (e :: more) with ([e] ++ more) in Hm; rewrite usages_app in Hm;
    by apply app_eq_nil in Hm as [-> ->]).
  destruct Hm' as [Hm' He]. simpl. destruct (is_tool_use e); simpl; rewrite ?IH by done; simpl;
    rewrite stream_usage_quiet_r by done; [|done]. by rewrite (stream_usage_none []), add_no_usage.
Qed.
(** A response after the others adds its usage. *)
Lemma spent_response events more :
  usages (last_response events) = [] -> plain more ->
  spent (events ++ more) = add_usage (spent events) (stream_usage more).
Proof.
  intros Hl Hp. destruct (responses_app events more) as (done & r' & E1 & E2 & E3). unfold spent. rewrite E1, E3.
  rewrite responses_from_plain by done. rewrite !fmap_app, !sum_usage_app. simpl. rewrite E2 in Hl.
  by rewrite stream_usage_quiet_l, (stream_usage_none r'), add_no_usage.
Qed.

Section reports.
Context {S : Type} {HT : HasTransport S} {HTL : HasTransportLaws S}.
Context (env : transport_env S) (emit : transport_event -> M S unit).
Context {HV : MessageView} {good : string -> Prop} {Hlaws : ProviderLaws (tv_provider env) good}.
Context (log : S -> list transport_event) (tools : list (Tool S)).
Implicit Types (s : S) (evs : list transport_event).

(** Code that hands on nothing in this session's name *)
Definition silent {A} (m : M S A) : Prop := forall evs, keeps (fun s => log s = evs) m.

(** Nobody else hands events on. *)
Record reporting : Prop := {
  rp_http r : silent (tv_http env r);
  rp_sleep d : silent (tv_sleep env d);
  rp_random : silent (tv_random env);
  rp_uuid : silent (tv_uuid env);
  rp_tools t args : t ∈ tools -> silent (tl_execute t args);
  rp_emit e s : wp (emit e) (fun _ s' => log s' = log s ++ [e]) (fun _ _ => True) s;
  rp_put t s : log (tr_put t s) = log s
}.

Context (Hr : reporting).

Lemma silent_wp {A} (m : M S A) evs s Q E :
  silent m -> log s = evs -> (forall a s', log s' = evs -> Q a s') -> (forall e s', E e s') -> wp m Q E s.
Proof.
  intros Hm Hs HQ HE. eapply wp_mono; [apply (wp_kept (fun s => log s = evs)); [apply Hm|exact Hs]| |]; auto.
Qed.

Lemma silent_bind {A B} (m : M S A) (k : A -> M S B) : silent m -> (forall a, silent (k a)) -> silent (m ≫= k).
Proof. intros Hm Hk evs. apply keeps_bind; [apply Hm|intros a; apply Hk]. Qed.
Lemma silent_ret {A} (a : A) : silent (mret a).
Proof. intros evs. apply keeps_ret. Qed.
Lemma silent_tmod f : silent (tmod f).
Proof. intros evs s Hs. unfold tmod, on_transport, zoom. simpl. by rewrite (rp_put Hr). Qed.
Lemma silent_tget {A} (f : transport -> A) : silent (tget f).
Proof. intros evs. apply keeps_mgets. Qed.
Lemma silent_new_list l : silent (new_list l).
Proof.
  unfold new_list. apply silent_bind; [apply silent_tget|intros i].
  apply silent_bind; [apply silent_tmod|intros; apply silent_ret].
Qed.

Lemma silent_retry_later attempt code error :
  silent (retry_later env attempt code error).
Proof.
  unfold retry_later. apply silent_bind.
  - unfold backoff. destruct (jitter _); [|apply silent_ret].
    apply silent_bind; [apply (rp_random Hr)|intros; apply silent_ret].
  - intros delay. apply silent_bind; [apply (rp_sleep Hr)|intros; apply silent_ret].
Qed.

(** What is told about an attempt reports no usage and ends nothing. *)
Definition idle (events : list transport_event) : Prop := usages events = [] /\ unfinished events.
(** Nor does a tool end in it. *)
Definition remark (events : list transport_event) : Prop := idle events /\ plain events.

Lemma idle_app l1 l2 : idle l1 -> idle l2 -> idle (l1 ++ l2).
Proof. intros [U1 F1] [U2 F2]. split; [by rewrite usages_app, U1, U2|by apply unfinished_app]. Qed.
Lemma remark_app l1 l2 : remark l1 -> remark l2 -> remark (l1 ++ l2).
Proof. intros [I1 P1] [I2 P2]. split; [by apply idle_app|by apply plain_app]. Qed.

Lemma retry_later_remark attempt code error evs s :
  log s = evs ->
  wp (retry_later env attempt code error) (fun e s' => remark [e] /\ log s' = evs) (fun _ _ => True) s.
Proof.
  intros Hs. unfold retry_later. apply wp_bind. eapply (silent_wp (backoff env attempt)); [|exact Hs| |done].
  { unfold backoff. destruct (jitter _); [|apply silent_ret].
    apply silent_bind; [apply (rp_random Hr)|intros; apply silent_ret]. }
  intros delay s1 H1. apply wp_bind. eapply silent_wp; [apply (rp_sleep Hr)|exact H1| |done].
  intros u s2 H2. by apply wp_ret.
Qed.

Lemma retry_if_left_remark attempt code error evs s :
  log s = evs ->
  wp (retry_if_left env attempt code error) (fun told s' => remark told /\ log s' = evs) (fun _ _ => True) s.
Proof.
  intros Hs. unfold retry_if_left. case_decide; [|by apply wp_ret].
  apply wp_bind. eapply wp_mono; [by apply retry_later_remark| |done]. intros e s1 H1. by apply wp_ret.
Qed.

Lemma request_loop_remark evs left : forall attempt request told code error s,
  log s = evs -> remark told ->
  wp (request_loop env left attempt request told code error)
    (fun r s' => log s' = evs /\ remark r.2 /\
       match r.1 with
       | Some events => forallb stream_event events = true
       | None => existsb is_error_event r.2 = true
       end)
    (fun _ _ => True) s.
Proof.
  induction left as [|left IH]; intros attempt request told code error s Hs Ht.
  { apply wp_ret. split_and!; [done|by apply remark_app|]. cbn. by rewrite existsb_app, orb_true_r. }
  cbn [request_loop]. apply wp_bind.
  eapply (silent_wp (tv_http env request)); [apply (rp_http Hr)|exact Hs| |done]. intros outcome s1 H1. destruct outcome as [chunks last_event now|status headers body|what].
  - apply wp_bind, wp_liftr; [|done]. intros collected Ec.
    assert (Hev : forallb stream_event collected = true) by (by eapply stream_is_events).
    destruct (monitor_check now _) as [[]|]; try (by apply wp_ret).
    + apply wp_ret. split_and!; [done|by apply remark_app|done].
    + case_decide; [|apply wp_ret; split_and!; [done|by apply remark_app|done]]. apply wp_bind.
      eapply wp_mono; [by apply retry_later_remark| |done]. intros e s2 [He H2].
      apply IH; [done|]. apply remark_app; [by apply remark_app|done].
  - apply wp_bind, wp_liftr; [|done]. intros error_body _. apply wp_bind.
    assert (Hlim : wp (if decide (status = 429)%Z
        then liftr (_parse_rate_limit_headers (tv_int env) headers) else mret None)
        (fun limited s2 => log s2 = evs /\ match limited with Some e => remark [e] | None => True end)
        (fun _ _ => True) s1).
    { case_decide; [|by apply wp_ret]. apply wp_liftr; [|done]. intros limited Hl. split; [done|].
      unfold _parse_rate_limit_headers in Hl. ok_inv Hl; repeat case_match; by simplify_eq. }
    eapply wp_mono; [exact Hlim| |done]. clear Hlim. intros limited s2 [H2 Hl].
    assert (Ht2 : remark (told ++ match limited with Some e => [e] | None => [] end)).
    { apply remark_app; [done|by destruct limited]. }
    case_decide; [|apply wp_ret; split_and!; [done|by apply remark_app|cbn; by rewrite existsb_app, orb_true_r]].
    apply wp_bind. eapply wp_mono; [by apply retry_if_left_remark| |done]. intros retried s3 [Hi H3].
    apply IH; [done|by apply remark_app].
  - apply wp_bind. eapply wp_mono; [by apply retry_if_left_remark| |done]. intros retried s3 [Hi H3].
    apply IH; [done|by apply remark_app].
Qed.

(** [t] is the sum of the usages of the responses among [events], which end nothing. *)
Definition accounted (events : list transport_event) (t : Usage) : Prop := unfinished events /\ t = spent events.

(** The end of a turn: [StepFinish] with the usage of the last response, [Result] with the sum of all *)
Definition ended (session_id : string) (events : list transport_event) : Prop :=
  exists before text calls, unfinished before /\
    events = before ++ [StepFinish "end_turn" (stream_usage (last_response before));
                        Result text session_id (spent before) calls].

Lemma accounted_idle events more t : accounted events t -> idle more -> accounted (events ++ more) t.
Proof. intros [F ->] [U F']. split; [by apply unfinished_app|by rewrite spent_quiet]. Qed.

Lemma stream_unfinished events : forallb stream_event events = true -> unfinished events /\ plain events.
Proof.
  unfold unfinished, plain. induction events as [|e events IH]; [done|]. simpl. rewrite andb_true_iff. intros [He Hes].
  destruct (IH Hes) as [-> ->]. by destruct e.
Qed.

(** Where the events so far must stand before a step *)
Definition ready (state : TransportState) (ctx : step_context S) (events : list transport_event) : Prop :=
  match state with
  | CALLING_API => usages (last_response events) = []
  | EXECUTING_TOOLS => cx_pending_tool_blocks ctx <> []
  | DONE => existsb is_error_event events = true
  | SUSPENDED => True
  end.

(** What a step reports: events that go on with those so far, or end the turn *)
Definition step_reported (ctx : step_context S) (events : list transport_event)
    (r : TransportState * list transport_event * step_context S) : Prop :=
  cx_session_id r.2 = cx_session_id ctx /\ cx_tool_map r.2 = cx_tool_map ctx /\
  ((accounted (events ++ r.1.2) (cx_totals r.2) /\ ready r.1.1 r.2 (events ++ r.1.2)) \/
   r.1.1 = DONE /\ ended (cx_session_id ctx) (events ++ r.1.2)).

Lemma calling_api_reports ctx events s :
  accounted events (cx_totals ctx) -> usages (last_response events) = [] ->
  wp (_step_calling_api env ctx) (fun r s' => log s' = log s /\ step_reported ctx events r) (fun _ _ => True) s.
Proof.
  intros [Hun Ht] Hfresh. unfold _step_calling_api. apply wp_bind, wp_mgets, wp_bind, wp_liftr; [|done].
  intros request _. apply wp_bind.
  eapply wp_mono; [by apply (request_loop_remark (log s))| |done].
  intros [[got|] told] s1 (H1 & Htold & Hev); cbn [fst snd] in *.
  2: { apply wp_ret. split; [done|]. split_and!; [done..|left]. split; [apply accounted_idle; [done|apply Htold]|].
       cbn [ready fst snd]. by rewrite existsb_app, Hev, orb_true_r. }
  set (said := match stream_texts got with [] => [] | _ => _ end).
  set (unknown := (fun b => UnknownEvent _) <$> unknown_blocks (stream_blocks got)).
  assert (Hsaid : remark said) by (unfold said; by destruct (stream_texts got)).
  assert (Hunknown : remark unknown).
  { unfold unknown. generalize (unknown_blocks (stream_blocks got)). intros l. induction l as [|b l [[] ]]; done. }
  destruct (stream_unfinished got Hev) as [Hgot Hplain]. destruct Htold as [[Ut Ft] Pt], (remark_app _ _ Hsaid Hunknown) as [[Ua Fa] Pa].
  set (new := told ++ got ++ said ++ unknown).
  assert (unfinished new /\ plain new) as [Fn Pn] by (split; [by apply unfinished_app; split; [|apply unfinished_app]|by apply plain_app; split; [|apply plain_app]]).
  assert (Eu : stream_usage new = stream_usage got).
  { unfold new. rewrite stream_usage_quiet_l by done. by apply stream_usage_quiet_r. }
  assert (Hacc : accounted (events ++ new) (cx_totals (_accumulate_usage (stream_usage got) ctx))).
  { split; [by apply unfinished_app|]. by rewrite spent_response, Eu, <- Ht. }
  apply wp_bind. eapply silent_wp; [apply silent_tmod|exact H1| |done]. intros u s2 H2.
  destruct (of_type "tool_use" (stream_blocks got)) as [|b blocks]; apply wp_ret; (split; [done|]); split_and!; try done;
    [right; split; [done|]|by left].
  exists (events ++ new). eexists _, _. split; [apply Hacc|]. rewrite last_response_plain by done.
  rewrite stream_usage_quiet_l, Eu by done. rewrite <- (proj2 Hacc). unfold new. cbn [fst snd]. rewrite <- !app_assoc. reflexivity.
Qed.

(** The last event says that a tool ended. *)
Definition closed_by_tool (events : list transport_event) : Prop := exists l e, events = l ++ [e] /\ is_tool_use e = true.

Lemma tool_loop_idle ctx blocks : forall events results calls s,
  uses_tools tools ctx -> idle events -> blocks <> [] \/ closed_by_tool events ->
  wp (tool_loop env ctx blocks events results calls)
    (fun r s' => log s' = log s /\ idle r.1.1.1 /\ closed_by_tool r.1.1.1) (fun _ _ => True) s.
Proof.
  induction blocks as [|b blocks IH]; intros events results calls s Hu He Hb; [apply wp_ret; by destruct Hb|].
  clear Hb. cbn [tool_loop]. apply wp_bind, wp_liftr; [|done]. intros [error|[t args]] Ef.
  - cbn [call_failed]. apply IH; [done|by apply idle_app|right]. by eexists _, _.
  - apply find_tool_in with (tools := tools) in Ef; [|done]. apply wp_bind.
    assert (Hx : wp (execute_call env b t args) (fun r s' => log s' = log s /\ idle [r.1] /\ is_tool_use r.1 = true) (fun _ _ => True) s).
    { unfold execute_call. apply wp_bind, wp_mgets, wp_bind.
      eapply (silent_wp _ (log s)); [intros l; apply keeps_mtry, (rp_tools Hr _ _ Ef)|done| |done]. intros r s1 H1.
      apply wp_bind, wp_mgets. destruct r as [out|[]]; try (by apply wp_throw); by apply wp_ret. }
    eapply wp_mono; [exact Hx| |done]. intros [event r] s1 (H1 & Hi & Hend). cbn [fst] in Hi, Hend.
    assert (Hi2 : idle (events ++ [executing b; event])) by (apply idle_app; [done|by destruct event]).
    assert (Hc2 : closed_by_tool (events ++ [executing b; event])).
    { exists (events ++ [executing b]), event. by rewrite <- app_assoc. }
    case_match; [by apply wp_ret|]. eapply wp_mono; [apply IH; [done|done|by right]| |done].
    intros a s2 [H2 Ha]. by rewrite H2.
Qed.

Lemma step_reports state ctx events s :
  uses_tools tools ctx -> accounted events (cx_totals ctx) -> ready state ctx events ->
  wp (step env state ctx) (fun r s' => log s' = log s /\ step_reported ctx events r) (fun _ _ => True) s.
Proof.
  intros Hu Ha Hready.
  assert (Hstay : forall state, ready state ctx events -> step_reported ctx events (state, [], ctx)).
  { intros state' Hst. split_and!; [done..|left]. cbn [fst snd]. by rewrite app_nil_r. }
  destruct state; simpl; [by apply calling_api_reports| |by apply wp_ret; split; [|apply Hstay]..].
  unfold _step_executing_tools. apply wp_bind. eapply wp_mono; [apply tool_loop_idle; [done|done|by left]| |done].
  intros [[[new results] calls] [rest|]] s1 (H1 & Hi & Hcl); cbn [fst snd] in *.
  - apply wp_ret. split; [done|]. split_and!; [done..|left]. split; [by apply accounted_idle|done].
  - apply wp_bind. eapply silent_wp; [apply silent_tmod|exact H1| |done]. intros u s2 H2. apply wp_ret.
    split; [done|]. split_and!; [done..|left]. split; [by apply accounted_idle|].
    destruct Hcl as (l & e & -> & He). simpl. by rewrite last_response_tool.
Qed.

Lemma emit_all_logs events s : wp (mfor events emit) (fun _ s' => log s' = log s ++ events) (fun _ _ => True) s.
Proof.
  revert s. induction events as [|e events IH]; intros s; [apply wp_ret; by rewrite app_nil_r|].
  cbn [mfor]. apply wp_bind. eapply wp_mono; [apply (rp_emit Hr)| |done]. intros u s1 H1.
  eapply wp_mono; [apply IH| |done]. intros v s2 H2. by rewrite H2, H1, <- app_assoc.
Qed.

Lemma drive_done turns ctx : drive env emit turns DONE ctx = mret (DONE, ctx).
Proof. by destruct turns. Qed.

(** What a loop reports of the events it hands on after [before] *)
Definition reports (ctx : step_context S) (before : list transport_event)
    (r : TransportState * step_context S) s : Prop :=
  exists events, log s = before ++ events /\ cx_session_id r.2 = cx_session_id ctx /\
    (unfinished events /\ (r.1 = SUSPENDED \/ r.1 = DONE /\ existsb is_error_event events = true) \/
     r.1 = DONE /\ ended (cx_session_id ctx) events).

Lemma drive_reports turns before : forall state ctx events s,
  uses_tools tools ctx -> accounted events (cx_totals ctx) -> ready state ctx events -> log s = before ++ events ->
  wp (drive env emit turns state ctx) (reports ctx before) (fun _ _ => True) s.
Proof.
  assert (Hfail : forall ctx events s, accounted events (cx_totals ctx) -> ready DONE ctx events ->
    log s = before ++ events -> reports ctx before (DONE, ctx) s).
  { intros ctx events s [Hun _] He Hs. exists events. split_and!; [done|done|left; split; [done|by right]]. }
  assert (Hsusp : forall ctx events s, accounted events (cx_totals ctx) -> log s = before ++ events ->
    reports ctx before (SUSPENDED, ctx) s).
  { intros ctx events s [Hun _] Hs. exists events. split_and!; [done|done|left; split; [done|by left]]. }
  induction turns as [|turns IH]; intros state ctx events s Hu Ha Hready Hs.
  { destruct state; try done; apply wp_ret; [by eapply Hsusp|by eapply Hfail]. }
  assert (Hgo : wp ('(state, events, ctx) ← step env state ctx; mfor events emit ;; drive env emit turns state ctx)
    (reports ctx before) (fun _ _ => True) s).
  { apply wp_bind. eapply wp_mono; [by apply step_reports| |done].
    intros [[state1 new] ctx1] s1 (H1 & Hid & Htm & Hrep). cbn [fst snd] in *. apply wp_bind.
    eapply wp_mono; [apply emit_all_logs| |done]. intros u s2 H2. rewrite H1, Hs, <- app_assoc in H2.
    destruct Hrep as [[Hacc Hr1]|[-> Hend]].
    - eapply wp_mono; [apply (IH _ _ (events ++ new)); [intros name t; rewrite Htm; apply Hu|done..]| |done].
      intros r s3 (all & H3 & Hid3 & Hr3). exists all. rewrite Hid in *. done.
    - rewrite drive_done. apply wp_ret. exists (events ++ new). split_and!; [done|done|by right]. }
  destruct state; [exact Hgo|exact Hgo|apply wp_ret; by eapply Hsusp|apply wp_ret; by eapply Hfail].
Qed.

(** How the events of a turn end: with an [Error] of a request and no end, with a suspension, or with a [StepFinish]
    that has the usage of the last response and a [Result] that has the sum of the usages of all *)
Definition failed (events : list transport_event) : Prop := unfinished events /\ existsb is_error_event events = true.
Definition turn_events (events : list transport_event) : Prop :=
  failed events \/
  (exists before continuation session_id, unfinished before /\
     events = before ++ [SessionSuspended continuation session_id]) \/
  exists session_id, ended session_id events.

Lemma silent_session_history session_id : silent (session_history session_id).
Proof.
  unfold session_history. apply silent_bind; [apply silent_tget|intros [i|]; [apply silent_ret|]].
  apply silent_bind; [apply silent_new_list|intros i].
  apply silent_bind; [apply silent_tmod|intros; apply silent_ret].
Qed.

(** A turn's events from a context whose totals are zero, after events that report nothing *)
Lemma drive_to_end_reports turns ctx before events s :
  uses_tools tools ctx -> cx_totals ctx = no_usage -> remark events -> log s = before ++ events ->
  wp (drive_to_end env emit turns ctx) (fun _ s' => exists events, log s' = before ++ events /\ turn_events events)
    (fun _ _ => True) s.
Proof.
  intros Hu Ht [[Hue Hun] Hpl] Hs. unfold drive_to_end. apply wp_bind.
  eapply wp_mono; [apply (drive_reports turns before CALLING_API ctx events)| |done]; [done| | |done|].
  - split; [done|]. rewrite Ht. symmetry. exact (spent_quiet [] events Hue).
  - simpl. change events with ([] ++ events). by rewrite last_response_plain.
  - intros [state ctx1] s5 (all & H5 & Hid & Hrep). cbn [fst snd] in *.
    destruct Hrep as [[Hun5 [->|[-> He5]]]|[-> Hend]].
    + apply wp_bind, wp_mgets, wp_bind. eapply silent_wp; [apply silent_new_list|exact H5| |done]. intros i s6 H6.
      eapply wp_mono; [apply (rp_emit Hr)| |done]. intros u7 s7 H7.
      eexists. split; [rewrite H7, H6, <- app_assoc; reflexivity|right; left]. by eexists _, _, _.
    + apply wp_ret. exists all. split; [done|by left].
    + apply wp_ret. exists all. split; [done|right; right]. by eexists.
Qed.

Lemma send_reports turns message model system_prompt session_id s :
  wp (send env emit turns message model system_prompt tools session_id)
    (fun _ s' => exists events, log s' = log s ++ events /\ turn_events events) (fun _ _ => True) s.
Proof.
  unfold send. apply wp_bind.
  eapply (silent_wp (match session_id with Some _ => _ | None => _ end) (log s)); [|done| |done].
  { destruct session_id; [apply silent_ret|apply (rp_uuid Hr)]. }
  clear session_id. intros session_id s0 H0. apply wp_bind.
  eapply silent_wp; [apply silent_session_history|exact H0| |done].
  intros h s1 H1. apply wp_bind. eapply silent_wp; [apply silent_tmod|exact H1| |done]. intros u2 s2 H2.
  apply wp_bind. eapply (silent_wp (match tv_max_history_turns env with Some _ => _ | None => _ end)); [|exact H2| |done].
  { destruct (tv_max_history_turns env); [apply silent_tmod|apply silent_ret]. }
  intros u3 s3 H3. apply wp_bind. eapply wp_mono; [apply (rp_emit Hr)| |done]. intros u4 s4 H4. rewrite H3 in H4.
  by apply (drive_to_end_reports turns (start_context h model system_prompt session_id tools) _ [StepStart session_id] _
    (fun name t => tool_map_of_in tools name t) eq_refl).
Qed.
End reports.

(** ** What a turn leaves alone *)

Section leaves_alone.
Context {S : Type} {HT : HasTransport S}.
Context (env : transport_env S) (emit : transport_event -> M S unit) (tools : list (Tool S)) (P : S -> Prop).

(** If [m] returns, [P] still holds. *)
Definition returning {A} (m : M S A) : Prop := forall s, P s -> wp m (fun _ => P) (fun _ _ => True) s.

Lemma returning_bind {A B} (m : M S A) (k : A -> M S B) : returning m -> (forall a, returning (k a)) -> returning (m ≫= k).
Proof. intros Hm Hk s Hs. apply wp_bind. eapply wp_mono; [by apply Hm| |done]. intros a s1 H1. by apply Hk. Qed.
Lemma returning_keeps {A} (m : M S A) : keeps P m -> returning m.
Proof. intros Hm s Hs. eapply wp_mono; [by apply wp_kept| |]; done. Qed.
Lemma returning_ret {A} (a : A) : returning (mret a).
Proof. by intros s Hs. Qed.
Lemma returning_throw {A} (e : exn) : returning (mthrow e : M S A).
Proof. by intros s Hs. Qed.
Lemma returning_mgets {A} (f : S -> A) : returning (mgets f).
Proof. by intros s Hs. Qed.
Lemma returning_liftr {A} (r : result A) : returning (liftr r).
Proof. destruct r; [apply returning_ret|apply returning_throw]. Qed.
Lemma returning_mfor {A} (l : list A) f : (forall x, returning (f x)) -> returning (mfor l f).
Proof. intros Hf. induction l as [|x l IH]; [apply returning_ret|]. by apply returning_bind. Qed.

Record leaving : Prop := {
  lv_http r : keeps P (tv_http env r);
  lv_sleep d : keeps P (tv_sleep env d);
  lv_random : keeps P (tv_random env);
  lv_uuid : keeps P (tv_uuid env);
  lv_tools t args : t ∈ tools -> keeps P (tl_execute t args);
  lv_emit e : returning (emit e);
  lv_put t s : P s -> P (tr_put t s)
}.
Context (Hl : leaving).

Create HintDb leaves discriminated.
#[local] Hint Resolve returning_bind returning_ret returning_throw returning_mgets returning_liftr returning_mfor
  lv_emit : leaves.

Lemma leaves_tmod f : returning (tmod f).
Proof. intros s Hs. by apply (lv_put Hl). Qed.
Lemma leaves_tget {A} (f : transport -> A) : returning (tget f).
Proof. apply returning_mgets. Qed.
#[local] Hint Resolve leaves_tmod leaves_tget : leaves.

Lemma leaves_new_list l : returning (new_list l).
Proof. unfold new_list. eauto 6 with leaves. Qed.

Lemma leaves_retry_later attempt code error : returning (retry_later env attempt code error).
Proof.
  unfold retry_later, backoff. apply returning_bind.
  - destruct (jitter _); [|apply returning_ret].
    apply returning_bind; [apply returning_keeps, (lv_random Hl)|auto with leaves].
  - intros delay. apply returning_bind; [apply returning_keeps, (lv_sleep Hl)|auto with leaves].
Qed.

Lemma leaves_retry_if_left attempt code error : returning (retry_if_left env attempt code error).
Proof. unfold retry_if_left. case_decide; eauto using leaves_retry_later with leaves. Qed.

Lemma leaves_request_loop left : forall attempt request told code error,
  returning (request_loop env left attempt request told code error).
Proof.
  induction left as [|left IH]; intros attempt request told code error; [apply returning_ret|].
  cbn [request_loop]. apply returning_bind; [apply returning_keeps, (lv_http Hl)|]. intros [chunks l n|code' hs b|what].
  - apply returning_bind; [apply returning_liftr|]. intros collected.
    destruct (monitor_check n _) as [[]|]; try apply returning_ret.
    case_decide; [|apply returning_ret]. apply returning_bind; [apply leaves_retry_later|]. intros e. apply IH.
  - apply returning_bind; [apply returning_liftr|]. intros error_body.
    apply returning_bind; [case_decide; auto with leaves|]. intros limited. case_decide; [|apply returning_ret].
    apply returning_bind; [apply leaves_retry_if_left|]. intros retried. apply IH.
  - apply returning_bind; [apply leaves_retry_if_left|]. intros retried. apply IH.
Qed.

Lemma leaves_execute_call b t args : t ∈ tools -> returning (execute_call env b t args).
Proof.
  intros Ht. unfold execute_call. apply returning_bind; [apply returning_mgets|]. intros start.
  apply returning_bind; [apply returning_keeps, keeps_mtry, (lv_tools Hl _ _ Ht)|]. intros r.
  apply returning_bind; [apply returning_mgets|]. intros now. destruct r as [out|[]]; auto with leaves.
Qed.

Lemma leaves_tool_loop ctx blocks : forall events results calls,
  uses_tools tools ctx -> returning (tool_loop env ctx blocks events results calls).
Proof.
  induction blocks as [|b blocks IH]; intros events results calls Hu; [apply returning_ret|].
  cbn [tool_loop]. intros s Hs. apply wp_bind, wp_liftr; [|done]. intros [error|[t args]] Ef.
  - cbn [call_failed]. by apply IH.
  - apply find_tool_in with (tools := tools) in Ef; [|done].
    revert s Hs. apply returning_bind; [by apply leaves_execute_call|]. intros [event r].
    case_match; [apply returning_ret|by apply IH].
Qed.

Lemma leaves_step state ctx : uses_tools tools ctx -> returning (step env state ctx).
Proof.
  intros Hu. destruct state; simpl; try apply returning_ret.
  - unfold _step_calling_api. apply returning_bind; [apply leaves_tget|intros messages].
    apply returning_bind; [apply returning_liftr|intros request].
    apply returning_bind; [apply leaves_request_loop|]. intros [[events|] told]; [|apply returning_ret].
    apply returning_bind; [apply leaves_tmod|intros u]. case_match; apply returning_ret.
  - unfold _step_executing_tools. apply returning_bind; [by apply leaves_tool_loop|].
    intros [[[events results] calls] [rest|]]; [apply returning_ret|].
    apply returning_bind; [apply leaves_tmod|intros u; apply returning_ret].
Qed.

(** The steps of a turn use the tools it was started with. *)
Lemma step_tools state ctx s :
  wp (step env state ctx) (fun r _ => cx_tool_map r.2 = cx_tool_map ctx) (fun _ _ => True) s.
Proof.
  assert (Hany : forall A (m : M S A) Q (s' : S), (forall a s'', Q a s'') -> wp m Q (fun _ _ => True) s').
  { intros A m Q s' HQ. unfold wp. destruct (m s') as [[a|e] s'']; [apply HQ|done]. }
  destruct state; simpl; try by apply wp_ret.
  - unfold _step_calling_api. apply wp_bind, Hany. intros messages s1. apply wp_bind, Hany. intros request s2.
    apply wp_bind, Hany. intros [[events|] told] s3; [|by apply wp_ret].
    apply wp_bind, Hany. intros u s4. case_match; by apply wp_ret.
  - unfold _step_executing_tools. apply wp_bind, Hany. intros [[[events results] calls] [rest|]] s1; [by apply wp_ret|].
    apply wp_bind, Hany. intros u s2. by apply wp_ret.
Qed.

Lemma leaves_drive turns : forall state ctx, uses_tools tools ctx -> returning (drive env emit turns state ctx).
Proof.
  induction turns as [|turns IH]; intros state ctx Hu.
  { destruct state; [apply returning_throw|apply returning_throw|apply returning_ret|apply returning_ret]. }
  assert (Hgo : returning ('(state, events, ctx) ← step env state ctx; mfor events emit ;; drive env emit turns state ctx)).
  { intros s Hs. apply wp_bind. eapply wp_mono; [apply (wp_and _ _ _ _ _ _ (leaves_step state ctx Hu s Hs) (step_tools state ctx s))| |done].
    intros [[state1 events] ctx1] s1 [H1 Htm]. simpl in Htm. revert s1 H1.
    apply returning_bind; [apply returning_mfor; intros e; apply (lv_emit Hl)|]. intros u.
    apply IH. intros name t. rewrite Htm. apply Hu. }
  destruct state; [exact Hgo|exact Hgo|apply returning_ret|apply returning_ret].
Qed.

Lemma leaves_drive_to_end turns ctx : uses_tools tools ctx -> returning (drive_to_end env emit turns ctx).
Proof.
  intros Hu. unfold drive_to_end. apply returning_bind; [by apply leaves_drive|]. intros [state ctx1].
  destruct state; try apply returning_ret.
  apply returning_bind; [apply leaves_tget|intros history].
  apply returning_bind; [apply leaves_new_list|intros messages]. apply (lv_emit Hl).
Qed.

Lemma leaves_send turns message model system_prompt session_id :
  returning (send env emit turns message model system_prompt tools session_id).
Proof.
  unfold send. apply returning_bind; [destruct session_id; [apply returning_ret|apply returning_keeps, (lv_uuid Hl)]|].
  intros id. apply returning_bind.
  { unfold session_history. apply returning_bind; [apply leaves_tget|]. intros [i|]; [apply returning_ret|].
    apply returning_bind; [apply leaves_new_list|intros i].
    apply returning_bind; [apply leaves_tmod|intros; apply returning_ret]. }
  intros h. apply returning_bind; [apply leaves_tmod|intros u1].
  apply returning_bind; [destruct (tv_max_history_turns env); [apply leaves_tmod|apply returning_ret]|intros u2].
  apply returning_bind; [apply (lv_emit Hl)|intros u3]. apply leaves_drive_to_end. intros name t. apply tool_map_of_in.
Qed.
End leaves_alone.

(** *** Scripted runs *)

Lemma demo_reporting : reporting demo_two demo_emit dm_log demo_tools.
Proof.
  split; try (intros; intros evs s Hs; exact Hs); try done.
  - intros t args Ht evs s Hs. rewrite demo_tool_in by done. exact Hs.
Qed.

Definition demo_two_send : M demo unit := send demo_two demo_emit 10 "hello" "model" "system" demo_tools (Some "s1"%string).
Definition io_tokens (input output : Z) : Usage := {|
  u_input_tokens := input; u_output_tokens := output; u_reasoning_tokens := 0; u_cache_read_tokens := 0;
  u_cache_write_tokens := 0 |}.

(** A server that is down *)
Definition demo_down : transport_env demo := demo_env_with (fun _ => HTTPError "down").
Definition demo_request : api_request := {| rq_url := ""; rq_headers := []; rq_json_body := [] |}.

Lemma requests_bounded_witness :
  let r := _send_streaming_with_retry demo_down demo_request (demo_start []) in
  (exists told, fst r = Ok (None, told) /\ retries told = 1) /\
  wp (_send_streaming_with_retry demo_down demo_request)
    (fun r s' => dm_requests s' = 0 + 1 + retries r.2 /\ retries r.2 <= 1 /\
       (r.1 = None <-> existsb is_error_event r.2 = true))
    (fun _ s' => 0 <= dm_requests s' <= 0 + 1 + 1) (demo_start []).
Proof.
  split; [eexists; split; vm_compute; reflexivity|].
  refine (requests_bounded demo_down dm_requests _ _ _ demo_request (demo_start [])); [done|by intros d n s|by intros n s].
Defined.
