(* ===== verification/Session.v ===== *)
(** session/_session.py and _factory.py: a session of an agent over a transport, with its totals, its
    transcript in the trace store and the consumers of its events.

    Tools, handlers and sinks are objects named by numbers; what they do is a parameter.  The generators [send]
    and [resume] hand each event to [consumer], which stands for the loop that reads them. *)
From stdpp Require Import pretty.
From S2P Require Import Prelude PyDict Text Pipeline Types Trace TraceReader Scheduler Stream Provider Transport.

Record session := {
  _model : string;
  _system_prompt : string;
  _tools : list nat;
  ss_run_id : uuid;
  _session_id : option string;
  _sinks : list nat;
  (** the tasks not done yet, each a sink and its event *)
  _sink_tasks : list (nat * transport_event);
  ss_totals : Usage;
  turn_count : Z;
  _event_handlers : dict string (list nat)
}.
#[export] Instance eta_session : Eta session := fun s => {|
  _model := _model s; _system_prompt := _system_prompt s; _tools := _tools s; ss_run_id := ss_run_id s;
  _session_id := _session_id s; _sinks := _sinks s; _sink_tasks := _sink_tasks s; ss_totals := ss_totals s;
  turn_count := turn_count s; _event_handlers := _event_handlers s |}.

(** The local variables of a running [send] or [resume] *)
Record turn_locals := {
  result_text : string;
  tool_calls_list : list value;
  session_id_captured : bool
}.
#[export] Instance eta_turn_locals : Eta turn_locals := fun t => {|
  result_text := result_text t; tool_calls_list := tool_calls_list t; session_id_captured := session_id_captured t |}.
Definition locals_init : turn_locals := {| result_text := ""; tool_calls_list := []; session_id_captured := false |}.

(** A transport, a session that uses it, and the rest of the world *)
Record chat (W : Type) := {
  ch_transport : transport;
  ch_session : session;
  ch_turn : turn_locals;
  ch_world : W
}.
Arguments ch_transport {W} _.
Arguments ch_session {W} _.
Arguments ch_turn {W} _.
Arguments ch_world {W} _.
#[export] Instance eta_chat {W} : Eta (chat W) := fun c => {|
  ch_transport := ch_transport c; ch_session := ch_session c; ch_turn := ch_turn c; ch_world := ch_world c |}.
#[export] Instance chat_has_transport {W} : HasTransport (chat W) := {|
  tr_get := ch_transport; tr_put := fun t c => c .[ch_transport := t] |}.
#[export] Instance chat_laws {W} : HasTransportLaws (chat W).
Proof. split; by intros; destruct s. Qed.

(** What a session asks of the trace store *)
Class TranscriptStore (W : Type) := {
  ts_write_transcript_entry : uuid -> uuid -> Z -> string -> string -> option value -> option value -> M W unit;
  ts_read_session_token_counts : uuid -> M W (list value);
  ts_read_session_turn_count : uuid -> M W Z;
  ts_read_transcript : uuid -> M W (list TranscriptEntry)
}.

Record session_env (W : Type) := {
  se_transport : transport_env (chat W);
  se_tool : nat -> Tool (chat W);
  se_handler : nat -> transport_event -> M (chat W) unit;
  (** [sink.on_event] *)
  se_sink : nat -> transport_event -> M (chat W) unit;
  (** [uuid.UUID(s)] *)
  se_uuid : string -> result uuid
}.
Arguments se_transport {W} _.
Arguments se_tool {W} _ _.
Arguments se_handler {W} _ _ _.
Arguments se_sink {W} _ _ _.
Arguments se_uuid {W} _ _.

(** [type(event)] *)
Definition event_type (e : transport_event) : string :=
  match e with
  | StepStart _ => "StepStart" | Text _ => "Text" | StreamDelta _ => "StreamDelta" | Thinking _ => "Thinking"
  | StreamToolUse _ _ _ => "StreamToolUse" | StreamUsage _ => "StreamUsage" | ToolUse _ _ _ _ _ _ _ _ => "ToolUse"
  | StepFinish _ _ => "StepFinish" | ApiRetry _ _ _ _ _ => "ApiRetry" | Error _ _ _ => "Error"
  | Result _ _ _ _ => "Result" | SessionSuspended _ _ => "SessionSuspended" | LivenessWarning _ => "LivenessWarning"
  | StuckDetected _ => "StuckDetected" | UnknownEvent _ => "UnknownEvent" | RateLimit _ _ _ _ => "RateLimit"
  | ToolExecuting _ _ _ => "ToolExecuting"
  end.

Definition session_init (model system_prompt : string) (tools : list nat) (run_id : uuid) (session_id : option string)
    (sinks : list nat) : session := {|
  _model := model; _system_prompt := system_prompt; _tools := tools; ss_run_id := run_id; _session_id := session_id;
  _sinks := sinks; _sink_tasks := []; ss_totals := no_usage; turn_count := 0; _event_handlers := ∅ |}.

(** ** Operations on the session *)

Definition update_tools (tools : list nat) (s : session) : session := s .[_tools := tools].
Definition on (event_type : string) (handler : nat) (s : session) : session :=
  s .[_event_handlers := <[event_type := default [] (_event_handlers s !! event_type) ++ [handler]]> (_event_handlers s)].
Definition add_sink (sink : nat) (s : session) : session := s .[_sinks ::= fun l => l ++ [sink]].

(** [l.remove(x)] without the error *)
Fixpoint remove_first (x : nat) (l : list nat) : list nat :=
  match l with [] => [] | y :: l' => if decide (x = y) then l' else y :: remove_first x l' end.
Definition remove_sink (sink : nat) (s : session) : session := s .[_sinks ::= remove_first sink].

Definition _dispatch_to_sinks (event : transport_event) (s : session) : session :=
  s .[_sink_tasks ::= fun l => l ++ ((fun sink => (sink, event)) <$> _sinks s)].

Definition _accumulate_tokens (usage : Usage) (s : session) : session := s .[ss_totals ::= fun t => add_usage t usage].

Definition _compute_token_delta (snapshot : Usage) (s : session) : value :=
  let t := ss_totals s in
  VDict [("input_tokens", VInt (u_input_tokens t - u_input_tokens snapshot));
         ("output_tokens", VInt (u_output_tokens t - u_output_tokens snapshot));
         ("reasoning_tokens", VInt (u_reasoning_tokens t - u_reasoning_tokens snapshot));
         ("cache_read_tokens", VInt (u_cache_read_tokens t - u_cache_read_tokens snapshot));
         ("cache_write_tokens", VInt (u_cache_write_tokens t - u_cache_write_tokens snapshot))]%string.

Definition resume_id (s : session) : result string := or_raise (_session_id s) (RuntimeError "No session ID available").

(** What the transcript keeps of a tool call *)
Definition tool_call_entry (e : transport_event) : option value :=
  match e with
  | ToolUse _ tool_name input output status _ _ _ =>
      Some (VDict [("tool_name", VStr tool_name); ("input", input); ("output", VStr output);
                   ("status", VStr status)])%string
  | _ => None
  end.

Section session.
Context {W : Type} `{TranscriptStore W} (env : session_env W) (consumer : transport_event -> M (chat W) unit).

Definition sget {A} (f : session -> A) : M (chat W) A := mgets (fun c => f (ch_session c)).
Definition smod (f : session -> session) : M (chat W) unit := mmod (fun c => c .[ch_session ::= f]).
Definition lget {A} (f : turn_locals -> A) : M (chat W) A := mgets (fun c => f (ch_turn c)).
Definition lmod (f : turn_locals -> turn_locals) : M (chat W) unit := mmod (fun c => c .[ch_turn ::= f]).
Definition on_chat_world {A} (m : M W A) : M (chat W) A := zoom ch_world (fun w c => c .[ch_world := w]) m.

Definition _dispatch_handlers (event : transport_event) : M (chat W) unit :=
  handlers ← sget (fun s => default [] (_event_handlers s !! event_type event));
  mfor handlers (fun h => se_handler env h event).

(** A row of the transcript, of this session *)
Definition write_entry (turn : Z) (role content : string) (tool_calls tokens : option value) : M (chat W) unit :=
  s ← sget (fun s => s);
  session_id ← liftr (se_uuid env (default ""%string (_session_id s)));
  on_chat_world (ts_write_transcript_entry session_id (ss_run_id s) turn role content tool_calls tokens).

Definition _try_capture_session (session_id : option string) (turn : Z) (message : string) : M (chat W) unit :=
  known ← sget _session_id;
  (match session_id, known with Some _, None => smod (fun s => s .[_session_id := session_id]) | _, _ => mret tt end) ;;
  captured ← lget session_id_captured;
  known ← sget _session_id;
  match captured, known with
  | false, Some _ =>
      write_entry turn "user" message None None ;;
      lmod (fun l => l .[session_id_captured := true])
  | _, _ => mret tt
  end.

(** The part of the loops of [send] and [resume] before the event is handed on *)
Definition note_event (capture : option string -> M (chat W) unit) (event : transport_event) : M (chat W) unit :=
  match event with
  | Result text session_id _ _ => lmod (fun l => l .[result_text := text]) ;; capture (Some session_id)
  | StepFinish _ usage => smod (_accumulate_tokens usage)
  | SessionSuspended _ session_id => capture session_id
  | _ => match tool_call_entry event with
         | Some entry => lmod (fun l => l .[tool_calls_list ::= fun calls => calls ++ [entry]])
         | None => mret tt
         end
  end.

Definition on_event (capture : option string -> M (chat W) unit) (event : transport_event) : M (chat W) unit :=
  note_event capture event ;;
  consumer event ;;
  _dispatch_handlers event ;;
  smod (_dispatch_to_sinks event).

(** The assistant's row *)
Definition write_assistant (turn : Z) (snapshot : Usage) : M (chat W) unit :=
  locals ← lget (fun l => l);
  tokens ← sget (_compute_token_delta snapshot);
  let calls := tool_calls_list locals in
  write_entry turn "assistant" (result_text locals)
    (match calls with [] => None | _ => Some (VDict [("calls"%string, VList calls)]) end) (Some tokens).

(** A new turn: its number and the totals before it *)
Definition begin_turn : M (chat W) (Z * Usage) :=
  smod (fun s => s .[turn_count ::= Z.succ]) ;;
  lmod (fun _ => locals_init) ;;
  sget (fun s => (turn_count s, ss_totals s)).

Definition session_tools : M (chat W) (list (Tool (chat W))) := sget (fun s => se_tool env <$> _tools s).

Definition session_send (turns : nat) (message : string) : M (chat W) unit :=
  '(current_turn, snapshot) ← begin_turn;
  s ← sget (fun s => s);
  tools ← session_tools;
  Transport.send (se_transport env) (on_event (fun id => _try_capture_session id current_turn message)) turns message
    (_model s) (_system_prompt s) tools (_session_id s) ;;
  known ← sget _session_id;
  captured ← lget session_id_captured;
  match known, captured with
  | Some _, true => write_assistant current_turn snapshot
  | _, _ => mret tt
  end.

Definition session_resume (turns : nat) (continuation : Continuation) (result : string) : M (chat W) unit :=
  '(current_turn, snapshot) ← begin_turn;
  s ← sget (fun s => s);
  tools ← session_tools;
  Transport.resume (se_transport env) (on_event (fun _ => mret tt)) turns continuation result (_model s)
    (_system_prompt s) tools ;;
  known ← sget _session_id;
  match known with
  | Some _ =>
      write_entry current_turn "user" ("[resume: " +:+ result +:+ "]")%string None None ;;
      write_assistant current_turn snapshot
  | None => mret tt
  end.

(** A task of a sink runs to its end, whatever it raises. *)
Definition close : M (chat W) unit :=
  tasks ← sget _sink_tasks;
  mfor tasks (fun '(sink, event) => mtry (se_sink env sink event) ;; mret tt) ;;
  smod (fun s => s .[_sink_tasks := []]).

(** ** session/_factory.py *)

(** [d.get(k, "")], a text in any row the session wrote *)
Definition call_text (k : string) (default_text : string) (call : value) : string :=
  default default_text (vstr (vget k call)).
Definition call_summary (call : value) : string :=
  ("[Tool: " +:+ call_text "tool_name" "unknown" call +:+ " -> " +:+ call_text "output" "" call +:+ "]")%string.

Definition entry_content (entry : TranscriptEntry) : string :=
  let content := te_content entry in
  match decide (te_role entry = "assistant"%string), te_tool_calls entry with
  | left _, Some calls =>
      match vget "calls" calls with
      | Some (VList (call :: call_list)) =>
          String.concat (String LF EmptyString)
            ((if decide (content = EmptyString) then [] else [content]) ++ (call_summary <$> call :: call_list))
      | _ => content
      end
  | _, _ => content
  end.

Definition _transcript_to_messages (transcript : list TranscriptEntry) : list value :=
  (fun entry => VDict [("role", VStr (te_role entry)); ("content", VStr (entry_content entry))]%string) <$> transcript.

(** The counts in a row; [tokens.get(k, 0)] *)
Definition row_usage (tokens : value) : result Usage :=
  input ← count "input_tokens" tokens;
  output ← count "output_tokens" tokens;
  reasoning ← count "reasoning_tokens" tokens;
  cache_read ← count "cache_read_tokens" tokens;
  cache_write ← count "cache_write_tokens" tokens;
  Ok {| u_input_tokens := input; u_output_tokens := output; u_reasoning_tokens := reasoning;
        u_cache_read_tokens := cache_read; u_cache_write_tokens := cache_write |}.

Definition add_row (totals : Usage) (tokens : value) : result Usage :=
  if falsy tokens then Ok totals else usage ← row_usage tokens; Ok (add_usage totals usage).

(** With a backend to read from ([backend], or the functions over a pool) *)
Definition create_session (model system_prompt : string) (tools : list nat) (run_id : uuid)
    (session_id : option string) (has_backend : bool) (sinks : list nat) : M (chat W) unit :=
  smod (fun _ => session_init model system_prompt tools run_id session_id sinks) ;;
  match session_id, has_backend with
  | Some session_id, true =>
      sid ← liftr (se_uuid env session_id);
      rows ← on_chat_world (ts_read_session_token_counts sid);
      totals ← liftr (rfold add_row no_usage rows);
      smod (fun s => s .[ss_totals := totals]) ;;
      turns ← on_chat_world (ts_read_session_turn_count sid);
      smod (fun s => s .[turn_count := turns]) ;;
      transcript ← on_chat_world (ts_read_transcript sid);
      match transcript with
      | [] => mret tt
      | _ => inject_history session_id (_transcript_to_messages transcript)
      end
  | _, _ => mret tt
  end.
End session.
