(* ===== verification/SessionSpec.v ===== *)
(** Theorems about [Session]: the totals and the transcript of a session as functions of the events of its turns,
    what they miss, and what reopening a session restores. *)
From stdpp Require Import pretty.
From S2P Require Import Prelude PyDict Text Pipeline Types Store Trace TraceReader Scheduler Stream StreamSpec Provider ProviderSpec Transport TransportDemo TransportSpec TransportReports Session.

(** ** What a session asks of a store, and gets *)

(** A row of a transcript, without its time *)
Record row := { rw_turn : Z; rw_role : string; rw_content : string; rw_tool_calls : option value; rw_tokens : option value }.
Definition entry_row (e : TranscriptEntry) : row := {|
  rw_turn := te_turn e; rw_role := te_role e; rw_content := te_content e; rw_tool_calls := te_tool_calls e;
  rw_tokens := te_tokens e |}.

Class TranscriptStoreLaws (W : Type) `{TranscriptStore W} (rows : W -> uuid -> list row) := {
  ts_write_law sid run turn role content calls tokens w :
    exists w', ts_write_transcript_entry sid run turn role content calls tokens w = (Ok tt, w') /\
      forall u, rows w' u = rows w u ++ if decide (sid = u)
        then [{| rw_turn := turn; rw_role := role; rw_content := content; rw_tool_calls := calls; rw_tokens := tokens |}]
        else [];
  ts_read_law sid w : exists entries, ts_read_transcript sid w = (Ok entries, w) /\ entry_row <$> entries = rows w sid;
  ts_counts_law sid w : ts_read_session_token_counts sid w = (Ok (omap rw_tokens (rows w sid)), w);
  ts_turns_law sid w : ts_read_session_turn_count sid w = (Ok (Z.of_nat (length (rows w sid))), w)
}.

(** The in-memory backend is such a store. *)
#[export] Instance mem_transcript_store : TranscriptStore mem_store := {|
  ts_write_transcript_entry sid run turn role content calls tokens :=
    id ← fresh; now ← fresh; in_backend (write_transcript_entry id now sid run turn role content calls tokens);
  ts_read_session_token_counts sid := mgets (fun s => read_session_token_counts (ms_backend s) sid);
  ts_read_session_turn_count sid := mgets (fun s => read_session_turn_count (ms_backend s) sid);
  ts_read_transcript sid := mgets (fun s => read_transcript (ms_backend s) sid) |}.

Definition mem_rows (s : mem_store) (sid : uuid) : list row := entry_row <$> read_transcript (ms_backend s) sid.

#[export] Instance mem_transcript_laws : TranscriptStoreLaws mem_store mem_rows.
Proof.
  split.
  - intros sid run turn role content calls tokens w. eexists. split; [reflexivity|]. intros u.
    unfold mem_rows, read_transcript. simpl. rewrite filter_app, !fmap_app. f_equal.
    rewrite filter_cons, filter_nil. simpl. by case_decide.
  - intros sid w. eexists. by split; [reflexivity|].
  - intros sid w. simpl. unfold mgets, mem_rows, read_transcript, read_session_token_counts. do 2 f_equal.
    rewrite <- list_fmap_compose. induction (filter _ _) as [|t l IH]; [done|]. simpl. unfold compose in *. simpl.
    destruct (tx_tokens t); [f_equal; apply IH|apply IH].
  - intros sid w. simpl. unfold mgets, mem_rows, read_transcript, read_session_turn_count. by rewrite !length_fmap.
Qed.

(** ** A turn seen through its events *)

Section turns.
Context {W : Type} `{TranscriptStore W} (rows : W -> uuid -> list row) `{!TranscriptStoreLaws W rows}.
Context (env : session_env W) (consumer : transport_event -> M (chat W) unit).
(** the events handed to the consumer so far; the transcript looked at *)
Context (log : W -> list transport_event) (u : uuid).
Context (write_logs : forall sid run turn role content calls tokens w,
  log (snd (ts_write_transcript_entry sid run turn role content calls tokens w)) = log w).

(** What nobody but the session itself changes *)
Record view := {
  vw_log : list transport_event;
  vw_rows : list row;
  vw_totals : Usage;
  vw_session_id : option string;
  vw_turn_count : Z;
  vw_locals : turn_locals
}.
#[local] Instance eta_view : Eta view := fun v => {|
  vw_log := vw_log v; vw_rows := vw_rows v; vw_totals := vw_totals v; vw_session_id := vw_session_id v;
  vw_turn_count := vw_turn_count v; vw_locals := vw_locals v |}.

Definition mine (c : chat W) : view := {|
  vw_log := log (ch_world c); vw_rows := rows (ch_world c) u; vw_totals := ss_totals (ch_session c);
  vw_session_id := _session_id (ch_session c); vw_turn_count := turn_count (ch_session c); vw_locals := ch_turn c |}.

(** Code that leaves it alone *)
Definition bystander {A} (m : M (chat W) A) : Prop := forall v, keeps (fun c => mine c = v) m.

Lemma bystander_keeps {A} (m : M (chat W) A) (R : view -> Prop) : bystander m -> keeps (fun c => R (mine c)) m.
Proof. intros Hm c Hc. by rewrite (Hm (mine c) c eq_refl). Qed.

(** A row, if it is of the transcript looked at *)
Definition add_entry (r : row) (v : view) : view :=
  v .[vw_rows ::= fun l => l ++ match se_uuid env (default ""%string (vw_session_id v)) with
                                | Ok sid => if decide (sid = u) then [r] else []
                                | Raise _ => []
                                end].

Definition captured (turn : Z) (message : string) (session_id : option string) (v : view) : view :=
  let v := match session_id, vw_session_id v with
           | Some _, None => v .[vw_session_id := session_id]
           | _, _ => v
           end in
  match session_id_captured (vw_locals v), vw_session_id v with
  | false, Some _ =>
      add_entry {| rw_turn := turn; rw_role := "user"; rw_content := message; rw_tool_calls := None; rw_tokens := None |} v
        .[vw_locals ::= fun l => l .[session_id_captured := true]]
  | _, _ => v
  end.

(** A view after an event *)
Definition seen (turn : Z) (message : string) (v : view) (event : transport_event) : view :=
  let v := match event with
           | Result text session_id _ _ =>
               captured turn message (Some session_id) (v .[vw_locals ::= fun l => l .[result_text := text]])
           | StepFinish _ usage => v .[vw_totals ::= fun t => add_usage t usage]
           | SessionSuspended _ session_id => captured turn message session_id v
           | _ => match tool_call_entry event with
                  | Some entry => v .[vw_locals ::= fun l => l .[tool_calls_list ::= fun calls => calls ++ [entry]]]
                  | None => v
                  end
           end in
  v .[vw_log ::= fun l => l ++ [event]].

Lemma write_entry_view turn role content calls tokens c :
  wp (write_entry env turn role content calls tokens)
    (fun _ c' => mine c' = add_entry {| rw_turn := turn; rw_role := role; rw_content := content; rw_tool_calls := calls;
                                        rw_tokens := tokens |} (mine c)) (fun _ _ => True) c.
Proof.
  unfold write_entry. apply wp_bind, wp_mgets, wp_bind, wp_liftr; [|done]. intros sid Es.
  unfold on_chat_world, zoom, wp. destruct (ts_write_law sid (ss_run_id (ch_session c)) turn role content calls tokens (ch_world c))
    as (w' & Ew & Hw). pose proof (write_logs sid (ss_run_id (ch_session c)) turn role content calls tokens (ch_world c)) as Hl.
  rewrite Ew in Hl |- *. simpl in Hl. unfold mine, add_entry. simpl. rewrite Hl, Hw. f_equal. f_equal.
  by rewrite Es.
Qed.

Lemma capture_view turn message session_id c :
  wp (_try_capture_session env session_id turn message) (fun _ c' => mine c' = captured turn message session_id (mine c))
    (fun _ _ => True) c.
Proof.
  unfold _try_capture_session. apply wp_bind, wp_mgets.
  set (v1 := match session_id, vw_session_id (mine c) with
             | Some _, None => (mine c) .[vw_session_id := session_id]
             | _, _ => mine c
             end).
  assert (Hcap : forall c1, mine c1 = v1 ->
    wp (captured ← lget session_id_captured;
        known ← sget _session_id;
        match captured, known with
        | false, Some _ =>
            write_entry env turn "user" message None None ;;
            lmod (fun l => l .[session_id_captured := true])
        | _, _ => mret tt
        end) (fun _ c' => mine c' = captured turn message session_id (mine c)) (fun _ _ => True) c1).
  { intros c1 H1. unfold captured. fold v1. rewrite <- H1. apply wp_bind, wp_mgets, wp_bind, wp_mgets.
    change (vw_session_id (mine c1)) with (_session_id (ch_session c1)).
    change (session_id_captured (vw_locals (mine c1))) with (session_id_captured (ch_turn c1)).
    destruct (session_id_captured (ch_turn c1)); [by apply wp_ret|].
    destruct (_session_id (ch_session c1)) as [known|] eqn:Ek; [|by apply wp_ret].
    apply wp_bind. eapply wp_mono; [apply write_entry_view| |done]. intros x c2 H2. apply wp_mmod.
    assert (Em : mine (c2 .[ch_turn ::= fun l => l .[session_id_captured := true]]) =
                 (mine c2) .[vw_locals ::= fun l => l .[session_id_captured := true]]) by reflexivity.
    by rewrite Em, H2. }
  apply wp_bind. change (_session_id (ch_session c)) with (vw_session_id (mine c)).
  destruct session_id as [x|]; [|apply wp_ret, Hcap; reflexivity].
  destruct (vw_session_id (mine c)) eqn:E; [apply wp_ret|apply wp_mmod]; apply Hcap; unfold v1; try rewrite E; reflexivity.
Qed.

(** How the session's code treats an event *)
Lemma note_event_view turn message e c :
  wp (note_event (fun id => _try_capture_session env id turn message) e)
    (fun _ c' => (mine c') .[vw_log ::= fun l => l ++ [e]] = seen turn message (mine c) e) (fun _ _ => True) c.
Proof.
  unfold note_event, seen. destruct e; simpl; try (by apply wp_ret); try (by apply wp_mmod).
  - apply wp_bind, wp_mmod. eapply wp_mono; [apply capture_view| |done]. intros x c1 H1.
    etransitivity; [exact (f_equal (fun v => v .[vw_log ::= fun l => l ++ [_]]) H1)|reflexivity].
  - eapply wp_mono; [apply capture_view| |done]. intros x c1 H1.
    etransitivity; [exact (f_equal (fun v => v .[vw_log ::= fun l => l ++ [_]]) H1)|reflexivity].
Qed.

Context {HV : MessageView} {good : string -> Prop} {Hlaws : ProviderLaws (tv_provider (se_transport env)) good}.

(** The others leave the session's view alone, and the consumer only keeps the events. *)
Record considerate_chat : Prop := {
  cc_http r : bystander (tv_http (se_transport env) r);
  cc_sleep d : bystander (tv_sleep (se_transport env) d);
  cc_random : bystander (tv_random (se_transport env));
  cc_uuid : bystander (tv_uuid (se_transport env));
  cc_tool n args : bystander (tl_execute (se_tool env n) args);
  cc_handler n e : bystander (se_handler env n e);
  cc_consumer e c : wp (consumer e) (fun _ c' => mine c' = (mine c) .[vw_log ::= fun l => l ++ [e]]) (fun _ _ => True) c
}.
Context (Hc : considerate_chat).

Lemma on_event_view turn message e c :
  wp (on_event env consumer (fun id => _try_capture_session env id turn message) e)
    (fun _ c' => mine c' = seen turn message (mine c) e) (fun _ _ => True) c.
Proof.
  unfold on_event. apply wp_bind. eapply wp_mono; [apply note_event_view| |done]. intros x1 c1 H1.
  apply wp_bind. eapply wp_mono; [apply (cc_consumer Hc)| |done]. intros x2 c2 H2. rewrite <- H1, <- H2.
  apply wp_bind. unfold _dispatch_handlers. apply wp_bind, wp_mgets.
  eapply wp_mono; [apply (wp_kept (fun c => mine c = mine c2)); [|reflexivity]| |done].
  { apply keeps_mfor. intros n _. apply (cc_handler Hc). }
  intros x3 c3 H3. apply wp_mmod. rewrite <- H3. reflexivity.
Qed.

(** A turn of the transport changes the view as its events say. *)
Definition after_events turn message (v0 : view) (c : chat W) : Prop :=
  exists events, mine c = foldl (seen turn message) v0 events.

Lemma transport_leaves turn message v0 tools :
  (forall t, t ∈ tools -> exists n, t = se_tool env n) ->
  leaving (se_transport env) (on_event env consumer (fun id => _try_capture_session env id turn message)) tools
    (after_events turn message v0).
Proof.
  intros Ht.
  assert (Hb : forall A (m : M (chat W) A), bystander m -> keeps (after_events turn message v0) m).
  { intros A m Hm. by apply (bystander_keeps m (fun v => exists events, v = foldl (seen turn message) v0 events)). }
  split.
  - intros r. apply Hb, (cc_http Hc).
  - intros d. apply Hb, (cc_sleep Hc).
  - apply Hb, (cc_random Hc).
  - apply Hb, (cc_uuid Hc).
  - intros t args Hin. destruct (Ht t Hin) as [n ->]. apply Hb, (cc_tool Hc).
  - intros e c (events & Hv). eapply wp_mono; [apply on_event_view| |done]. intros x c' H'.
    exists (events ++ [e]). by rewrite foldl_app, <- Hv.
  - by intros t c.
Qed.

Lemma seen_log turn message v e : vw_log (seen turn message v e) = vw_log v ++ [e].
Proof.
  assert (Hcap : forall sid v, vw_log (captured turn message sid v) = vw_log v).
  { intros sid v'. unfold captured. destruct sid, (vw_session_id v') eqn:E; simpl; repeat case_match; done. }
  destruct e; simpl; rewrite ?Hcap; done.
Qed.

Lemma seen_logs turn message events : forall v, vw_log (foldl (seen turn message) v events) = vw_log v ++ events.
Proof.
  induction events as [|e events IH]; intros v; simpl; [by rewrite app_nil_r|]. by rewrite IH, seen_log, <- app_assoc.
Qed.

Lemma transport_reports turn message tools :
  (forall t, t ∈ tools -> exists n, t = se_tool env n) ->
  reporting (se_transport env) (on_event env consumer (fun id => _try_capture_session env id turn message))
    (fun c => log (ch_world c)) tools.
Proof.
  intros Ht.
  assert (Hb : forall A (m : M (chat W) A), bystander m -> silent (fun c => log (ch_world c)) m).
  { intros A m Hm evs. by apply (bystander_keeps m (fun v => vw_log v = evs)). }
  split.
  - intros r. apply Hb, (cc_http Hc).
  - intros d. apply Hb, (cc_sleep Hc).
  - apply Hb, (cc_random Hc).
  - apply Hb, (cc_uuid Hc).
  - intros t args Hin. destruct (Ht t Hin) as [n ->]. apply Hb, (cc_tool Hc).
  - intros e c. eapply wp_mono; [apply on_event_view| |done]. intros x c' H'.
    change (vw_log (mine c') = vw_log (mine c) ++ [e]). by rewrite H', seen_log.
  - done.
Qed.

Lemma session_tools_in (ts : list nat) t : t ∈ se_tool env <$> ts -> exists n, t = se_tool env n.
Proof. intros (n & -> & _)%list_elem_of_fmap. by exists n. Qed.

(** The view at the start of a turn, and after its last row *)
Definition begun (v : view) : view := v .[vw_turn_count ::= Z.succ] .[vw_locals := locals_init].

Definition delta (before after : Usage) : value := VDict
  [("input_tokens", VInt (u_input_tokens after - u_input_tokens before));
   ("output_tokens", VInt (u_output_tokens after - u_output_tokens before));
   ("reasoning_tokens", VInt (u_reasoning_tokens after - u_reasoning_tokens before));
   ("cache_read_tokens", VInt (u_cache_read_tokens after - u_cache_read_tokens before));
   ("cache_write_tokens", VInt (u_cache_write_tokens after - u_cache_write_tokens before))]%string.

(** The row of the assistant *)
Definition assistant_row (turn : Z) (before : Usage) (v : view) : row := {|
  rw_turn := turn; rw_role := "assistant"; rw_content := result_text (vw_locals v);
  rw_tool_calls := match tool_calls_list (vw_locals v) with
                   | [] => None
                   | _ => Some (VDict [("calls"%string, VList (tool_calls_list (vw_locals v)))])
                   end;
  rw_tokens := Some (delta before (vw_totals v)) |}.

(** The end of [send]: a row if the session is known and the user's message was written *)
Definition closed_turn (turn : Z) (before : Usage) (v : view) : view :=
  match vw_session_id v, session_id_captured (vw_locals v) with
  | Some _, true => add_entry (assistant_row turn before v) v
  | _, _ => v
  end.

Lemma write_assistant_view turn before c :
  wp (write_assistant env turn before) (fun _ c' => mine c' = add_entry (assistant_row turn before (mine c)) (mine c))
    (fun _ _ => True) c.
Proof.
  unfold write_assistant. apply wp_bind, wp_mgets, wp_bind, wp_mgets. cbv zeta.
  eapply wp_mono; [apply write_entry_view| |done]. intros x c1 H1. rewrite H1. reflexivity.
Qed.

(** Whatever the transport, the tools and the server do, a turn of a session that returns is a function of the
    events it handed on. *)
Lemma send_view turns message c :
  wp (session_send env consumer turns message)
    (fun _ c' => exists events, turn_events events /\
       mine c' = closed_turn (turn_count (ch_session c) + 1) (ss_totals (ch_session c))
                   (foldl (seen (turn_count (ch_session c) + 1) message) (begun (mine c)) events))
    (fun _ _ => True) c.
Proof.
  unfold session_send, begin_turn. apply wp_bind, wp_bind, wp_mmod, wp_bind, wp_mmod, wp_mgets. cbn [fst snd].
  apply wp_bind, wp_mgets, wp_bind, wp_mgets. set (c1 := upd ch_turn _ _).
  assert (E1 : mine c1 = begun (mine c)) by reflexivity.
  change (ss_totals (ch_session c1)) with (ss_totals (ch_session c)).
  change (turn_count (ch_session c1)) with (Z.succ (turn_count (ch_session c))). rewrite Z.add_1_r.
  set (turn := Z.succ (turn_count (ch_session c))).
  apply wp_bind. eapply wp_mono.
  { apply wp_and.
    - apply (leaves_send _ _ _ (after_events turn message (begun (mine c)))).
      + apply transport_leaves. intros t. apply session_tools_in.
      + exists []. exact E1.
    - apply (send_reports _ _ (fun c => log (ch_world c)) _ (transport_reports turn message _ (session_tools_in _))). }
  2: done.
  intros x c2 [[events H2] (events' & Hlog & Hev)].
  assert (events' = events) as ->.
  { change (vw_log (mine c2) = vw_log (mine c1) ++ events') in Hlog. rewrite H2, seen_logs, <- E1 in Hlog.
    by apply app_inv_head in Hlog. } apply wp_bind, wp_mgets, wp_bind, wp_mgets.
  change (_session_id (ch_session c2)) with (vw_session_id (mine c2)).
  change (session_id_captured (ch_turn c2)) with (session_id_captured (vw_locals (mine c2))).
  destruct (vw_session_id (mine c2)) as [sid|] eqn:Es;
    [destruct (session_id_captured (vw_locals (mine c2))) eqn:Ec|].
  - eapply wp_mono; [apply write_assistant_view| |done]. intros y c3 H3. exists events. split; [done|].
    rewrite <- H2. unfold closed_turn. by rewrite Es, Ec.
  - apply wp_ret. exists events. split; [done|]. rewrite <- H2. unfold closed_turn. by rewrite Es, Ec.
  - apply wp_ret. exists events. split; [done|]. rewrite <- H2. unfold closed_turn. by rewrite Es.
Qed.

(** *** The totals *)

Definition finish_usages (events : list transport_event) : list Usage :=
  omap (fun e => match e with StepFinish _ usage => Some usage | _ => None end) events.

Lemma captured_totals turn message sid v : vw_totals (captured turn message sid v) = vw_totals v.
Proof. unfold captured. destruct sid, (vw_session_id v) eqn:E; simpl; repeat case_match; done. Qed.

Lemma seen_totals turn message events : forall v,
  vw_totals (foldl (seen turn message) v events) = foldl add_usage (vw_totals v) (finish_usages events).
Proof.
  induction events as [|e events IH]; intros v; [done|]. simpl. rewrite IH.
  destruct e; simpl; rewrite ?captured_totals; done.
Qed.

Lemma finish_usages_app l1 l2 : finish_usages (l1 ++ l2) = finish_usages l1 ++ finish_usages l2.
Proof. apply omap_app. Qed.

Lemma unfinished_usages events : unfinished events -> finish_usages events = [].
Proof.
  unfold unfinished. induction events as [|e events IH]; [done|]. simpl. rewrite orb_false_iff. intros [He Hes].
  destruct e; try done; by apply IH.
Qed.

Lemma closed_totals turn before v : vw_totals (closed_turn turn before v) = vw_totals v.
Proof. unfold closed_turn. by repeat case_match. Qed.
Lemma closed_log turn before v : vw_log (closed_turn turn before v) = vw_log v.
Proof. unfold closed_turn. by repeat case_match. Qed.

(** C7. A session counts only the last response of each turn.  When a model first calls tools and then answers,
    the [Result] of a turn that returns has the sum of the usages of all its responses, but the session's totals -
    which its transcript, and the costs charged for its task, are taken from - grow by exactly the usage of the last
    response, the one after the last tool ended; a turn that returns otherwise was suspended, or a request failed and
    an [Error] was told, and leaves them.  (The usage of
    a response is the one it reports last, if any.)  The server, the tools and the handlers of events leave the
    session's own data alone. *)
Theorem session_counts_last_response turns message c :
  wp (session_send env consumer turns message)
    (fun _ c' => exists events, log (ch_world c') = log (ch_world c) ++ events /\
       (((failed events \/ exists before k sid, unfinished before /\ events = before ++ [SessionSuspended k sid]) /\
         ss_totals (ch_session c') = ss_totals (ch_session c)) \/
        exists before text session_id calls, unfinished before /\
          let u := stream_usage (last_response before) in
          let total := sum_usage (stream_usage <$> responses before) in
          events = before ++ [StepFinish "end_turn" u; Result text session_id total calls] /\
          ss_totals (ch_session c') = add_usage (ss_totals (ch_session c)) u))
    (fun _ _ => True) c.
Proof.
  eapply wp_mono; [apply send_view| |done]. intros x c' (events & Hev & Hv). exists events.
  change (log (ch_world c')) with (vw_log (mine c')). change (ss_totals (ch_session c')) with (vw_totals (mine c')).
  rewrite Hv, closed_totals, closed_log, seen_totals, seen_logs. split; [done|].
  destruct Hev as [Hun|[(before & k & sid & Hun & ->)|(sid & before & text & calls & Hun & ->)]]; [left|left|right].
  - split; [by left|]. by rewrite unfinished_usages by apply Hun.
  - split; [right; by exists before, k, sid|]. by rewrite finish_usages_app, unfinished_usages.
  - exists before, text, sid, calls. split; [done|]. split; [done|].
    by rewrite finish_usages_app, unfinished_usages.
Qed.

(** *** The transcript of a session with an id *)

(** The events that end or suspend a turn, at which the user's message is written *)
Definition captures (e : transport_event) : bool :=
  match e with Result _ _ _ _ | SessionSuspended _ _ => true | _ => false end.
Definition texts_of_results (events : list transport_event) : list string :=
  omap (fun e => match e with Result text _ _ _ => Some text | _ => None end) events.
Definition user_row (turn : Z) (message : string) : row := {|
  rw_turn := turn; rw_role := "user"; rw_content := message; rw_tool_calls := None; rw_tokens := None |}.

(** A session of the transcript looked at *)
Definition known (v : view) : Prop := exists x, vw_session_id v = Some x /\ se_uuid env x = Ok u.

Lemma add_known r v : known v -> add_entry r v = v .[vw_rows ::= fun l => l ++ [r]].
Proof. intros (x & Ex & Eu). unfold add_entry. rewrite Ex. simpl. rewrite Eu. by rewrite decide_True. Qed.

Lemma captured_known turn message sid v :
  known v -> captured turn message sid v =
    if session_id_captured (vw_locals v) then v
    else v .[vw_rows ::= fun l => l ++ [user_row turn message]] .[vw_locals ::= fun l => l .[session_id_captured := true]].
Proof.
  intros Hk. unfold captured. destruct Hk as (x & Ex & Eu) eqn:E.
  assert (Hv : (match sid, vw_session_id v with Some _, None => v .[vw_session_id := sid] | _, _ => v end) = v).
  { rewrite Ex. by destruct sid. }
  rewrite Hv, Ex. destruct (session_id_captured (vw_locals v)); [done|]. by rewrite add_known.
Qed.

(** What is in a view after the events of a turn *)
Record seen_all (turn : Z) (message : string) (v : view) (events : list transport_event) (v' : view) : Prop := {
  sa_session_id : vw_session_id v' = vw_session_id v;
  sa_turn_count : vw_turn_count v' = vw_turn_count v;
  sa_captured : session_id_captured (vw_locals v') = session_id_captured (vw_locals v) || existsb captures events;
  sa_rows : vw_rows v' = vw_rows v ++ if negb (session_id_captured (vw_locals v)) && existsb captures events
                                      then [user_row turn message] else [];
  sa_text : result_text (vw_locals v') = default (result_text (vw_locals v)) (last (texts_of_results events));
  sa_calls : tool_calls_list (vw_locals v') = tool_calls_list (vw_locals v) ++ omap tool_call_entry events
}.

Lemma seen_all_cons turn message v e events v1 v' :
  seen_all turn message v [e] v1 -> seen_all turn message v1 events v' -> seen_all turn message v (e :: events) v'.
Proof.
  intros [I1 T1 C1 R1 X1 L1] [I2 T2 C2 R2 X2 L2]. simpl in C1, R1, X1, L1. split.
  - congruence.
  - congruence.
  - rewrite C2, C1. simpl. by rewrite orb_false_r, orb_assoc.
  - rewrite R2, R1, C1, <- app_assoc. f_equal. simpl. rewrite orb_false_r.
    destruct (session_id_captured (vw_locals v)), (captures e); simpl; by rewrite ?app_nil_r.
  - rewrite X2, X1. simpl. destruct e; simpl; try done. rewrite last_cons. unfold texts_of_results.
    by destruct (last (omap _ events)).
  - rewrite L2, L1. simpl. destruct (tool_call_entry e); simpl; by rewrite <- ?app_assoc, ?app_nil_r.
Qed.

Lemma seen_one turn message v e : known v -> seen_all turn message v [e] (seen turn message v e).
Proof.
  intros Hk. unfold seen.
  destruct e; simpl; try (split; simpl; rewrite ?orb_false_r, ?andb_false_r, ?app_nil_r; done).
  - rewrite captured_known by exact Hk. simpl.
    destruct (session_id_captured (vw_locals v)) eqn:E; split; simpl; rewrite ?E, ?app_nil_r; done.
  - rewrite captured_known by exact Hk.
    destruct (session_id_captured (vw_locals v)) eqn:E; split; simpl; rewrite ?E, ?app_nil_r; done.
Qed.

Lemma seen_events turn message events : forall v, known v -> seen_all turn message v events (foldl (seen turn message) v events).
Proof.
  induction events as [|e events IH]; intros v Hk.
  { split; simpl; rewrite ?orb_false_r, ?andb_false_r, ?app_nil_r; done. }
  pose proof (seen_one turn message v e Hk) as H1. eapply seen_all_cons; [exact H1|]. apply IH.
  destruct Hk as (x & Ex & Eu). exists x. by rewrite (sa_session_id _ _ _ _ _ H1).
Qed.

(** The rows of a turn with these events *)
Definition turn_rows (turn : Z) (message : string) (before after : Usage) (events : list transport_event) : list row :=
  if existsb captures events then
    [user_row turn message;
     {| rw_turn := turn; rw_role := "assistant"; rw_content := default ""%string (last (texts_of_results events));
        rw_tool_calls := match omap tool_call_entry events with
                         | [] => None
                         | calls => Some (VDict [("calls"%string, VList calls)])
                         end;
        rw_tokens := Some (delta before after) |}]
  else [].

Lemma send_rows turns message c :
  known (mine c) ->
  wp (session_send env consumer turns message)
    (fun _ c' => exists events, turn_events events /\ log (ch_world c') = log (ch_world c) ++ events /\
       known (mine c') /\ turn_count (ch_session c') = (turn_count (ch_session c) + 1)%Z /\
       ss_totals (ch_session c') = foldl add_usage (ss_totals (ch_session c)) (finish_usages events) /\
       rows (ch_world c') u = rows (ch_world c) u ++
         turn_rows (turn_count (ch_session c) + 1) message (ss_totals (ch_session c)) (ss_totals (ch_session c')) events)
    (fun _ _ => True) c.
Proof.
  intros Hk. eapply wp_mono; [apply send_view| |done]. intros x c' (events & Hev & Hv). exists events.
  change (log (ch_world c')) with (vw_log (mine c')). change (ss_totals (ch_session c')) with (vw_totals (mine c')).
  change (turn_count (ch_session c')) with (vw_turn_count (mine c')).
  change (rows (ch_world c') u) with (vw_rows (mine c')).
  set (turn := (turn_count (ch_session c) + 1)%Z) in *. set (v := begun (mine c)) in *.
  assert (Hb : known v) by exact Hk.
  pose proof (seen_events turn message events v Hb) as [Hid Htc Hcap Hrows Htext Hcalls].
  pose proof (seen_totals turn message events v) as Htot. pose proof (seen_logs turn message events v) as Hlog.
  set (v' := foldl (seen turn message) v events) in *. simpl in Hid, Htc, Hcap, Hrows, Htext, Hcalls, Htot, Hlog.
  assert (Hk' : known v') by (destruct Hk as (y & Ey & Eu); exists y; by rewrite Hid).
  assert (Eclosed : closed_turn turn (ss_totals (ch_session c)) v' =
    if existsb captures events then v' .[vw_rows ::= fun l => l ++ [assistant_row turn (ss_totals (ch_session c)) v']] else v').
  { unfold closed_turn. destruct Hk' as (y & Ey & Eu). rewrite Ey, Hcap. simpl.
    destruct (existsb captures events); [|done]. apply add_known. by exists y. }
  rewrite Hv, Eclosed. unfold turn_rows. split; [done|].
  assert (Ht1 : (vw_turn_count v') = turn) by (rewrite Htc; unfold turn; lia).
  destruct (existsb captures events); simpl; (split_and!; [done|exact Hk'|done|done|]).
  - rewrite Hrows, <- app_assoc. simpl. unfold assistant_row. rewrite Htext, Hcalls. simpl.
    by destruct (omap tool_call_entry events).
  - by rewrite Hrows.
Qed.

(** The transcript of a turn of a session with an id: if the turn ended with a [Result] or was suspended, the
    user's message and one row of the assistant with the last [Result]'s text, the tool calls in order and the
    growth of the session's totals; nothing, if it ended otherwise. *)
Theorem turn_is_recorded turns message c :
  known (mine c) ->
  wp (session_send env consumer turns message)
    (fun _ c' => exists events, log (ch_world c') = log (ch_world c) ++ events /\
       turn_count (ch_session c') = (turn_count (ch_session c) + 1)%Z /\
       rows (ch_world c') u = rows (ch_world c) u ++
         turn_rows (turn_count (ch_session c) + 1) message (ss_totals (ch_session c)) (ss_totals (ch_session c')) events)
    (fun _ _ => True) c.
Proof.
  intros Hk. eapply wp_mono; [by apply send_rows| |done]. intros x c' (events & _ & Hlog & _ & Ht & _ & Hr).
  exists events. by split_and!.
Qed.

(** *** Opening a session again *)

(** The totals the rows of a transcript add up to *)
Definition rows_total (l : list row) : result Usage := rfold add_row no_usage (omap rw_tokens l).

Lemma rfold_app {A B} (f : A -> B -> result A) acc l1 l2 :
  rfold f acc (l1 ++ l2) = (acc ← rfold f acc l1; rfold f acc l2).
Proof.
  revert acc. induction l1 as [|x l1 IH]; intros acc; [done|]. simpl. destruct (f acc x) as [acc'|]; simpl; [apply IH|done].
Qed.

Lemma add_delta t before after : add_row t (delta before after) =
  Ok {| u_input_tokens := u_input_tokens t + (u_input_tokens after - u_input_tokens before);
        u_output_tokens := u_output_tokens t + (u_output_tokens after - u_output_tokens before);
        u_reasoning_tokens := u_reasoning_tokens t + (u_reasoning_tokens after - u_reasoning_tokens before);
        u_cache_read_tokens := u_cache_read_tokens t + (u_cache_read_tokens after - u_cache_read_tokens before);
        u_cache_write_tokens := u_cache_write_tokens t + (u_cache_write_tokens after - u_cache_write_tokens before) |}.
Proof. reflexivity. Qed.

Lemma turn_rows_total l turn message before after events :
  rows_total l = Ok before -> existsb captures events = true \/ after = before ->
  rows_total (l ++ turn_rows turn message before after events) = Ok after.
Proof.
  intros Hl He. unfold rows_total, turn_rows. destruct (existsb captures events).
  - rewrite omap_app, rfold_app. fold (rows_total l). rewrite Hl. cbn [mbind result_bind omap list_omap rw_tokens user_row].
    cbn [rfold]. rewrite add_delta. cbn [mbind result_bind]. destruct before, after. simpl. do 2 f_equal; lia.
  - destruct He as [He| ->]; [done|]. by rewrite app_nil_r.
Qed.

(** How many of the events are the end of a turn that is recorded *)
Definition ends (events : list transport_event) : nat := length (filter (fun e => captures e = true) events).

Lemma ends_app l1 l2 : ends (l1 ++ l2) = ends l1 + ends l2.
Proof. unfold ends. by rewrite filter_app, length_app. Qed.
Lemma ends_unfinished events : unfinished events -> ends events = 0 /\ existsb captures events = false.
Proof.
  unfold unfinished, ends. induction events as [|e events IH]; [done|]. simpl. rewrite orb_false_iff.
  intros [He [E1 E2]%IH]. rewrite filter_cons, E2. destruct e; done.
Qed.

(** The session's totals are those of its transcript, in which [recorded] turns have two rows each. *)
Definition in_step (recorded : nat) (c : chat W) : Prop :=
  known (mine c) /\ rows_total (rows (ch_world c) u) = Ok (ss_totals (ch_session c)) /\
  length (rows (ch_world c) u) = 2 * recorded.

(** A turn ends at most once, and a turn that does not end leaves the totals. *)
Lemma turn_ends before events :
  turn_events events -> ends events = (if existsb captures events then 1 else 0) /\
  (existsb captures events = true \/ foldl add_usage before (finish_usages events) = before).
Proof.
  intros [[Hun _]|[(l & k & sid & Hun & ->)|(sid & l & text & calls & Hun & ->)]];
    destruct (ends_unfinished _ Hun) as [E1 E2]; rewrite ?ends_app, ?existsb_app, ?E1, ?E2; [|by split; [|left]..].
  split; [done|right]. by rewrite unfinished_usages.
Qed.

Lemma send_in_step turns message recorded c :
  in_step recorded c ->
  wp (session_send env consumer turns message) (fun _ c' => exists events,
      log (ch_world c') = log (ch_world c) ++ events /\ turn_count (ch_session c') = (turn_count (ch_session c) + 1)%Z /\
      in_step (recorded + ends events) c') (fun _ _ => True) c.
Proof.
  intros (Hk & Ht & Hn). eapply wp_mono; [by apply send_rows| |done].
  intros x c' (events & Hev & Hlog & Hk' & Htc & Htot & Hr). exists events.
  destruct (turn_ends (ss_totals (ch_session c)) events Hev) as [He Hcases].
  split; [done|]. split; [done|]. unfold in_step. rewrite Hr. split_and!; [done| |].
  - apply turn_rows_total; [done|]. rewrite Htot. destruct Hcases; [by left|by right].
  - rewrite length_app, Hn, He. unfold turn_rows. destruct (existsb captures events); simpl; lia.
Qed.

Lemma sends_in_step turns messages recorded c :
  in_step recorded c ->
  wp (mfor messages (session_send env consumer turns)) (fun _ c' => exists events,
      log (ch_world c') = log (ch_world c) ++ events /\
      turn_count (ch_session c') = (turn_count (ch_session c) + Z.of_nat (length messages))%Z /\
      in_step (recorded + ends events) c') (fun _ _ => True) c.
Proof.
  revert recorded c. induction messages as [|m messages IH]; intros recorded c Hc'.
  { apply wp_ret. exists []. rewrite app_nil_r, Nat.add_0_r. split; [done|]. split; [simpl; lia|done]. }
  cbn [mfor]. apply wp_bind. eapply wp_mono; [by eapply send_in_step| |done]. intros x c1 (ev1 & E1 & T1 & H1).
  eapply wp_mono; [by eapply IH| |done]. intros y c2 (ev2 & E2 & T2 & H2). exists (ev1 ++ ev2).
  rewrite E2, E1, <- app_assoc, ends_app, Nat.add_assoc. split; [done|]. split; [simpl length; lia|done].
Qed.

Lemma inject_history_wp x messages (c : chat W) :
  wp (inject_history x messages) (fun _ c' => ch_session c' = ch_session c /\ ch_world c' = ch_world c /\
    exists i, _sessions (ch_transport c') !! x = Some i /\ tr_lists (ch_transport c') !! i = Some messages)
    (fun _ _ => False) c.
Proof.
  split; [done|]. split; [done|]. exists (tr_next (ch_transport c)). split; [apply dict_lookup_insert_eq|apply lookup_insert_eq].
Qed.

(** What [create_session] makes of a stored transcript *)
Lemma create_session_restores model system_prompt tools run_id x sinks total c :
  se_uuid env x = Ok u -> rows_total (rows (ch_world c) u) = Ok total ->
  wp (create_session env model system_prompt tools run_id (Some x) true sinks)
    (fun _ c' => ss_totals (ch_session c') = total /\ _session_id (ch_session c') = Some x /\
       turn_count (ch_session c') = Z.of_nat (length (rows (ch_world c) u)) /\ ch_world c' = ch_world c /\
       (rows (ch_world c) u = [] \/
        exists i entries, _sessions (ch_transport c') !! x = Some i /\ entry_row <$> entries = rows (ch_world c) u /\
          tr_lists (ch_transport c') !! i = Some (_transcript_to_messages entries)))
    (fun _ _ => False) c.
Proof.
  intros Hu Ht. unfold create_session. apply wp_bind, wp_mmod, wp_bind. rewrite Hu. apply wp_ret, wp_bind.
  set (c1 := upd ch_session _ c).
  unfold on_chat_world, zoom. unfold wp at 1. rewrite ts_counts_law. apply wp_bind.
  change (rows_total (rows (ch_world c) u) = Ok total) in Ht. unfold rows_total in Ht.
  change (ch_world c1) with (ch_world c). rewrite Ht. apply wp_ret, wp_bind, wp_mmod, wp_bind.
  unfold wp at 1. simpl. rewrite ts_turns_law. apply wp_bind, wp_mmod, wp_bind. unfold wp at 1. simpl.
  destruct (ts_read_law u (ch_world c)) as (entries & Er & Hr). rewrite Er. simpl.
  destruct entries as [|e entries].
  - apply wp_ret. simpl. split_and!; [done|done|done|done|]. left. by rewrite <- Hr.
  - eapply wp_mono; [apply inject_history_wp| |done]. intros y c2 (Es & Ew & i & Ei & El). rewrite Es.
    split_and!; [done|done|done|done|]. right. by exists i, (e :: entries).
Qed.

(** C29. Opening a session again after any number of turns gives it the totals it had - but not its count of
    turns: a turn that ended with a [Result] or was suspended has two rows in the transcript, any other none, and
    the rows are counted.  So the count is exactly twice the number of recorded turns; if every turn since the
    session's first was recorded it doubles.  The session has an id, its transcript is that of its turns so far
    ([in_step], as a new session with an id is), and the server, the tools and the handlers of events leave the
    session's own data alone. *)
Theorem reopened_session turns messages recorded model system_prompt tools run_id x sinks c :
  in_step recorded c -> se_uuid env x = Ok u ->
  wp (mfor messages (session_send env consumer turns) ;;
      before ← sget (fun s => s);
      create_session env model system_prompt tools run_id (Some x) true sinks ;;
      after ← sget (fun s => s);
      mret (before, after))
    (fun r c' => ss_totals r.2 = ss_totals r.1 /\
       turn_count r.1 = (turn_count (ch_session c) + Z.of_nat (length messages))%Z /\
       exists events, log (ch_world c') = log (ch_world c) ++ events /\
         turn_count r.2 = (2 * Z.of_nat (recorded + ends events))%Z)
    (fun _ _ => True) c.
Proof.
  intros Hc' Hu. apply wp_bind. eapply wp_mono; [by eapply sends_in_step| |done].
  intros x1 c1 (events & Hlog & Htc & Hk & Ht & Hn). apply wp_bind, wp_mgets, wp_bind.
  eapply wp_mono; [by apply create_session_restores| |done].
  intros x2 c2 (H1 & _ & H2 & Hw & _). apply wp_bind, wp_mgets, wp_ret. cbn [fst snd]. split; [done|]. split; [done|].
  exists events. rewrite Hw. split; [done|]. rewrite H2, Hn. lia.
Qed.
End turns.

(** ** A scripted session *)

Record diary := { dy_store : mem_store; dy_log : list transport_event; dy_requests : nat }.
#[export] Instance eta_diary : Eta diary := fun d => {|
  dy_store := dy_store d; dy_log := dy_log d; dy_requests := dy_requests d |}.

Definition in_store {A} (m : M mem_store A) : M diary A := zoom dy_store (fun s d => d .[dy_store := s]) m.
#[export] Instance diary_transcripts : TranscriptStore diary := {|
  ts_write_transcript_entry sid run turn role content calls tokens :=
    in_store (ts_write_transcript_entry sid run turn role content calls tokens);
  ts_read_session_token_counts sid := in_store (ts_read_session_token_counts sid);
  ts_read_session_turn_count sid := in_store (ts_read_session_turn_count sid);
  ts_read_transcript sid := in_store (ts_read_transcript sid) |}.

Definition diary_rows (d : diary) (sid : uuid) : list row := mem_rows (dy_store d) sid.

#[export] Instance diary_laws : TranscriptStoreLaws diary diary_rows.
Proof.
  split.
  - intros sid run turn role content calls tokens [s l n].
    destruct (ts_write_law sid run turn role content calls tokens s) as (s' & E & H).
    exists {| dy_store := s'; dy_log := l; dy_requests := n |}. split; [|exact H].
    unfold ts_write_transcript_entry at 1, diary_transcripts, in_store, zoom. cbn [dy_store]. by rewrite E.
  - intros sid [s l n]. destruct (ts_read_law sid s) as (entries & E & H). exists entries. split; [|exact H].
    unfold ts_read_transcript at 1, diary_transcripts, in_store, zoom. cbn [dy_store]. by rewrite E.
  - intros sid [s l n]. pose proof (ts_counts_law sid s) as E.
    unfold ts_read_session_token_counts at 1, diary_transcripts, in_store, zoom. cbn [dy_store]. by rewrite E.
  - intros sid [s l n]. pose proof (ts_turns_law sid s) as E.
    unfold ts_read_session_turn_count at 1, diary_transcripts, in_store, zoom. cbn [dy_store]. by rewrite E.
Qed.

(** A first response that calls a tool, then responses that answer *)
Definition diary_http : M (chat diary) http_outcome := fun c =>
  (Ok (if decide (dy_requests (ch_world c) = 0) then response_with ["call"%string] else response_with []),
   c .[ch_world ::= fun d => d .[dy_requests ::= fun n => n + 1]]).
Definition diary_env : session_env diary := {|
  se_transport := scripted_env diary_http; se_tool := fun _ => demo_tool "read" false;
  se_handler := fun _ _ => mret tt; se_sink := fun _ _ => mret tt; se_uuid := fun _ => Ok 7%Z |}.
Definition diary_consumer (e : transport_event) : M (chat diary) unit :=
  mmod (fun c => c .[ch_world ::= fun d => d .[dy_log ::= fun l => l ++ [e]]]).

Definition diary_start : chat diary := {|
  ch_transport := {| _sessions := ∅; tr_lists := ∅; tr_next := 0 |};
  ch_session := session_init "model" "system" [0] 1 (Some "s1"%string) []; ch_turn := locals_init;
  ch_world := {| dy_store := {| ms_backend := backend_init; ms_next := 1 |}; dy_log := []; dy_requests := 0 |} |}.

#[export] Instance diary_provider_laws : ProviderLaws (H := anthropic_view) (tv_provider (se_transport diary_env)) (fun _ => True).
Proof. apply anthropic_laws. Qed.

Lemma diary_considerate : considerate_chat diary_rows diary_env diary_consumer dy_log 7.
Proof.
  split; try (intros; intros v c Hc; exact Hc); done.
Qed.

Lemma diary_write sid run turn role content calls tokens d :
  dy_log (snd (ts_write_transcript_entry sid run turn role content calls tokens d)) = dy_log d.
Proof. done. Qed.

Definition diary_turn : M (chat diary) unit := session_send diary_env diary_consumer 10 "hello".

(** The turn costs 200 tokens; the session counts 100. *)
Definition counts_last (c c' : chat diary) : Prop :=
  exists events, dy_log (ch_world c') = dy_log (ch_world c) ++ events /\
    (((failed events \/ exists before k sid, unfinished before /\ events = before ++ [SessionSuspended k sid]) /\
      ss_totals (ch_session c') = ss_totals (ch_session c)) \/
     exists before text session_id calls, unfinished before /\
       let u := stream_usage (last_response before) in
       let total := sum_usage (stream_usage <$> responses before) in
       events = before ++ [StepFinish "end_turn" u; Result text session_id total calls] /\
       ss_totals (ch_session c') = add_usage (ss_totals (ch_session c)) u).

Lemma session_counts_last_response_witness :
  fst (diary_turn diary_start) = Ok tt /\
  ss_totals (ch_session (snd (diary_turn diary_start))) = io_tokens 100 10 /\
  sum_usage (stream_usage <$> responses (dy_log (ch_world (snd (diary_turn diary_start))))) = io_tokens 200 20 /\
  counts_last diary_start (snd (diary_turn diary_start)).
Proof.
  assert (E : fst (diary_turn diary_start) = Ok tt) by (vm_compute; reflexivity).
  split; [exact E|]. split; [vm_compute; reflexivity|]. split; [vm_compute; reflexivity|].
  refine (wp_returned diary_turn (fun _ => counts_last diary_start) _ _ _ _ E). unfold diary_turn.
  apply (session_counts_last_response (HV := anthropic_view) diary_rows diary_env diary_consumer dy_log 7 diary_write diary_considerate).
Defined.

Lemma turn_is_recorded_witness :
  fst (diary_turn diary_start) = Ok tt /\
  rw_role <$> diary_rows (ch_world (snd (diary_turn diary_start))) 7 = ["user"; "assistant"]%string /\
  exists events, dy_log (ch_world (snd (diary_turn diary_start))) = [] ++ events /\
    turn_count (ch_session (snd (diary_turn diary_start))) = 1%Z /\
    diary_rows (ch_world (snd (diary_turn diary_start))) 7 =
      turn_rows 1 "hello" no_usage (ss_totals (ch_session (snd (diary_turn diary_start)))) events.
Proof.
  assert (E : fst (diary_turn diary_start) = Ok tt) by (vm_compute; reflexivity).
  split; [exact E|]. split; [vm_compute; reflexivity|].
  refine (wp_returned diary_turn (fun _ c' => exists events, dy_log (ch_world c') = [] ++ events /\
    turn_count (ch_session c') = 1%Z /\ diary_rows (ch_world c') 7 = turn_rows 1 "hello" no_usage (ss_totals (ch_session c')) events)
    _ _ _ _ E).
  apply (turn_is_recorded (HV := anthropic_view) diary_rows diary_env diary_consumer dy_log 7 diary_write diary_considerate 10 "hello" diary_start).
  by exists "s1"%string.
Defined.

Definition diary_reopened : M (chat diary) (session * session) :=
  mfor ["hello"; "again"]%string (session_send diary_env diary_consumer 10) ;;
  before ← sget (fun s => s);
  create_session diary_env "model" "system" [0] 1 (Some "s1"%string) true [] ;;
  after ← sget (fun s => s);
  mret (before, after).

(** After two turns the session that is opened again has counted four. *)
Lemma reopened_session_witness :
  exists before after, fst (diary_reopened diary_start) = Ok (before, after) /\
    turn_count before = 2%Z /\ turn_count after = 4%Z /\
    ss_totals after = ss_totals before /\
    exists events, dy_log (ch_world (snd (diary_reopened diary_start))) = events /\
      turn_count after = (2 * Z.of_nat (ends events))%Z.
Proof.
  assert (E : exists r, fst (diary_reopened diary_start) = Ok r /\ turn_count r.1 = 2%Z /\ turn_count r.2 = 4%Z).
  { eexists. split; [vm_compute; reflexivity|]. by split. }
  destruct E as ([before after] & E & E1 & E2). exists before, after. split; [exact E|]. split; [exact E1|]. split; [exact E2|].
  assert (Hw : wp diary_reopened (fun r c' => ss_totals r.2 = ss_totals r.1 /\
       turn_count r.1 = (turn_count (ch_session diary_start) + Z.of_nat (length ["hello"; "again"]%string))%Z /\
       exists events, dy_log (ch_world c') = dy_log (ch_world diary_start) ++ events /\
         turn_count r.2 = (2 * Z.of_nat (0 + ends events))%Z) (fun _ _ => True) diary_start).
  { apply (reopened_session (HV := anthropic_view) diary_rows diary_env diary_consumer dy_log 7 diary_write diary_considerate
      10 ["hello"; "again"]%string 0 "model" "system" [0] 1 "s1" [] diary_start); [|reflexivity].
    unfold in_step. split; [exists "s1"%string; split; reflexivity|]. split; reflexivity. }
  pose proof (wp_returned diary_reopened _ _ _ _ Hw E) as (H1 & _ & events & H2 & H3).
  split; [exact H1|]. exists events. split; [exact H2|exact H3].
Defined.
