(* ===== verification/Identity.v ===== *)
(** Identity: the principals of identity/_inmemory.py, _registry.py and _resolver.py, and the services of
    services/_identity.py and _dispatch.py that create principals, sources and subscriptions.

    Ids and instants are arguments of the storage's methods; the services draw them from the clock of the
    [directory] they work on. *)
From S2P Require Import Prelude PyDict Text Types Dispatch.

(** ** protocols/_types/_identity.py, _auth.py *)

Record Principal := {
  pr_id : uuid;
  pr_kind : string;
  pr_external_ref : uuid;
  pr_display_name : option string;
  pr_created_at : time
}.
#[export] Instance eta_Principal : Eta Principal := fun p => {|
  pr_id := pr_id p; pr_kind := pr_kind p; pr_external_ref := pr_external_ref p;
  pr_display_name := pr_display_name p; pr_created_at := pr_created_at p |}.

Definition KIND_RUN : string := "run".
Definition KIND_CONSUMER : string := "consumer".
Definition KIND_SOURCE : string := "source".
Definition KIND_SYSTEM : string := "system".
Definition BUILTIN_KINDS : list string := [KIND_RUN; KIND_CONSUMER; KIND_SOURCE; KIND_SYSTEM].
Definition SYSTEM_PRINCIPAL_EXTERNAL_REF : uuid := 0.

Inductive TrustTier := ANONYMOUS | IDENTIFIED | VERIFIED | SYSTEM.

#[export] Instance TrustTier_eq_dec : EqDecision TrustTier.
Proof. solve_decision. Defined.

Record AuthContext := {
  ac_id : uuid;
  ac_consumer_id : option uuid;
  ac_scopes : list string;
  ac_trust_tier : TrustTier;
  ac_authenticated_via : string;
  ac_issued_at : time;
  ac_expires_at : option time
}.

(** ** identity/_inmemory.py *)

(** [run_ids_provider] is an argument of the sweep that calls it. *)
Record InMemoryPrincipalStorage := { _principals : dict uuid Principal }.
#[export] Instance eta_InMemoryPrincipalStorage : Eta InMemoryPrincipalStorage := fun s => {|
  _principals := _principals s |}.

Definition principals_init : InMemoryPrincipalStorage := {| _principals := ∅ |}.

Definition _find_by_ref (s : InMemoryPrincipalStorage) (kind : string) (external_ref : uuid) :
    option Principal :=
  head (filter (fun p => pr_kind p = kind /\ pr_external_ref p = external_ref) (dvalues (_principals s))).

Definition mint_principal (new_id : uuid) (now : time) (kind : string) (external_ref : uuid)
    (display_name : option string) : M InMemoryPrincipalStorage Principal :=
  existing ← mgets (fun s => _find_by_ref s kind external_ref);
  match existing with
  | Some p => mret p
  | None =>
      let principal := {| pr_id := new_id; pr_kind := kind; pr_external_ref := external_ref;
                          pr_display_name := display_name; pr_created_at := now |} in
      mmod (fun s => s .[_principals ::= <[pr_id principal := principal]>]) ;; mret principal
  end.

Definition get_principal (s : InMemoryPrincipalStorage) (principal_id : uuid) : option Principal :=
  _principals s !! principal_id.

Definition get_principal_by_ref (s : InMemoryPrincipalStorage) (kind : string) (external_ref : uuid) :
    option Principal := _find_by_ref s kind external_ref.

Definition list_principals (s : InMemoryPrincipalStorage) (kind : option string) : list Principal :=
  let principals := sort_by pr_created_at (dvalues (_principals s)) in
  match kind with
  | None => principals
  | Some k => filter (fun p => pr_kind p = k) principals
  end.

Definition update_display_name (principal_id : uuid) (display_name : string) :
    M InMemoryPrincipalStorage unit :=
  existing ← mgets (fun s => _principals s !! principal_id);
  match existing with
  | None => mthrow (KeyError "Principal not found")
  | Some p =>
      mmod (fun s => s .[_principals ::= <[principal_id := p .[pr_display_name := Some display_name]]>])
  end.

Definition delete_principal_row (principal_id : uuid) : M InMemoryPrincipalStorage unit :=
  mmod (fun s => s .[_principals ::= delete principal_id]).

Definition orphaned (run_ids : list uuid) (cutoff : time) (p : Principal) : bool :=
  bool_decide (pr_kind p = KIND_RUN) && bool_decide (pr_external_ref p ∉ run_ids) &&
  bool_decide (pr_created_at p < cutoff)%Z.

(** [sweep_orphaned_run_principals]; [run_ids] is what the provider returns, if there is one. *)
Definition sweep_principals (run_ids : option (list uuid)) (now : time) (older_than : Z) :
    M InMemoryPrincipalStorage Z :=
  match run_ids with
  | None => mret 0%Z
  | Some run_ids =>
      to_delete ← mgets (fun s =>
        fst <$> filter (fun kv => orphaned run_ids (now - older_than) kv.2) (ditems (_principals s)));
      mfor to_delete (fun pid => mmod (fun s => s .[_principals ::= delete pid])) ;;
      mret (Z.of_nat (length to_delete))
  end.

(** ** identity/_registry.py *)

(** The registered kinds, a set *)
Definition register_kind (kinds : list string) (kind : string) : result (list string) :=
  if bool_decide (kind = EmptyString) || bool_decide (strip kind = EmptyString) then
    Raise (ValueError "App-declared principal kind must be a non-blank string")
  else if bool_decide (kind ∈ kinds) then Raise (ValueError "Duplicate principal kind")
  else Ok (kinds ++ [kind]).

Definition KindRegistry (app_kinds : list string) : result (list string) :=
  rfold register_kind BUILTIN_KINDS app_kinds.

Definition validate_kind (kinds : list string) (kind : string) : result unit :=
  if bool_decide (kind ∈ kinds) then Ok tt else Raise (ValueError "Unknown principal kind").

(** ** identity/_resolver.py *)

Definition resolve_caller_principal (auth_context : AuthContext) (storage : InMemoryPrincipalStorage) :
    result Principal :=
  if decide (ac_trust_tier auth_context = SYSTEM) then
    or_raise (get_principal_by_ref storage KIND_SYSTEM SYSTEM_PRINCIPAL_EXTERNAL_REF)
      (RuntimeError "System principal not seeded")
  else
    match ac_consumer_id auth_context with
    | None => Raise (RuntimeError "Non-system auth context has no consumer_id")
    | Some consumer_id =>
        or_raise (get_principal_by_ref storage KIND_CONSUMER consumer_id)
          (RuntimeError "Consumer has no backing principal")
    end.

(** ** The services *)

Record directory := {
  dr_principals : InMemoryPrincipalStorage;
  dr_dispatch : InMemoryDispatchBackend;
  dr_clock : Z
}.
#[export] Instance eta_directory : Eta directory := fun d => {|
  dr_principals := dr_principals d; dr_dispatch := dr_dispatch d; dr_clock := dr_clock d |}.

Definition on_principals {A} (m : M InMemoryPrincipalStorage A) : M directory A :=
  zoom dr_principals (fun s d => d .[dr_principals := s]) m.
Definition on_dispatch {A} (m : M InMemoryDispatchBackend A) : M directory A :=
  zoom dr_dispatch (fun b d => d .[dr_dispatch := b]) m.

(** The next id, or instant *)
Definition tick : M directory Z :=
  n ← mgets dr_clock; mmod (fun d => d .[dr_clock ::= Z.succ]) ;; mret n.

(** *** services/_identity.py *)

Definition _NO_SELF_SUBSCRIPTION_KINDS : list string := [KIND_RUN; KIND_SOURCE; KIND_SYSTEM].

Definition _create_self_subscription (principal : Principal) (event_types : list string) :
    M directory unit :=
  now ← tick;
  sid ← tick;
  let sub := {|
    sub_id := sid;
    sub_filter := {| fp_event_types := Some event_types; fp_sources := None;
                     fp_principal_id := Some (pr_id principal); fp_data_predicates := None |};
    sub_enabled := true;
    sub_storage := "persistent";
    sub_principal_id := pr_id principal;
    sub_created_at := now |} in
  on_dispatch (create_subscription sub) ;;
  aid ← tick;
  on_dispatch (create_action {|
    sa_id := aid;
    sa_subscription_id := sub_id sub;
    sa_position := 0;
    sa_action := NotifyAction (pr_id principal) "self-subscription" (VDict []);
    sa_accumulator_config := None;
    sa_created_at := now |}) ;;
  mret tt.

Definition create_principal (kinds : list string) (kind : string) (external_ref : uuid)
    (display_name : option string) (notification_event_types : option (list string)) :
    M directory Principal :=
  if decide (kind = KIND_SYSTEM) then mthrow (ValueError "Refusing to create a system principal")
  else
    liftr (validate_kind kinds kind) ;;
    (if decide (kind ∈ _NO_SELF_SUBSCRIPTION_KINDS) then
       match notification_event_types with
       | Some _ => mthrow (ValueError "principals do not support self-subscriptions")
       | None => mret tt
       end
     else match notification_event_types with
          | None => mthrow (ValueError "principals must specify notification_event_types")
          | Some _ => mret tt
          end) ;;
    new_id ← tick;
    now ← tick;
    principal ← on_principals (mint_principal new_id now kind external_ref display_name);
    (match notification_event_types with
     | Some event_types => _create_self_subscription principal event_types
     | None => mret tt
     end) ;;
    mret principal.

Definition delete_principal (principal_id : uuid) : M directory unit :=
  existing ← mgets (fun d => get_principal (dr_principals d) principal_id);
  match existing with
  | Some p =>
      if decide (pr_kind p = KIND_SYSTEM) then
        mthrow (ValueError "Refusing to delete the system principal")
      else on_principals (delete_principal_row principal_id)
  | None => on_principals (delete_principal_row principal_id)
  end.

(** Five minutes, in microseconds *)
Definition _ORPHAN_SWEEP_AGE : Z := 300000000.

Definition sweep_orphaned_run_principals (run_ids : option (list uuid)) : M directory Z :=
  now ← tick;
  on_principals (sweep_principals run_ids now _ORPHAN_SWEEP_AGE).

(** api/_lifecycle.py: the system principal is minted at start-up. *)
Definition seed_system : M directory Principal :=
  new_id ← tick;
  now ← tick;
  on_principals (mint_principal new_id now KIND_SYSTEM SYSTEM_PRINCIPAL_EXTERNAL_REF (Some "system"%string)).

(** services/_dispatch_worker.py: the resolver the dispatch worker is given *)
Fixpoint resolve_sources (d : directory) (slugs : list string) : list uuid :=
  match slugs with
  | [] => []
  | slug :: slugs' =>
      match get_source_by_slug (dr_dispatch d) slug with
      | None => resolve_sources d slugs'
      | Some source =>
          match get_principal_by_ref (dr_principals d) KIND_SOURCE (src_id source) with
          | Some principal => pr_id principal :: resolve_sources d slugs'
          | None => resolve_sources d slugs'
          end
      end
  end.

Definition _make_source_principal_resolver (slugs : list string) : M directory (list uuid) :=
  mgets (fun d => resolve_sources d slugs).

(** *** services/_dispatch.py *)

Inductive action_class :=
| ScriptActionClass | LogActionClass | WorkflowActionClass | EventActionClass | NotifyActionClass.

Section subscribe.
(** pydantic: [model_validate] of an action class, and of an [accumulator_config] *)
Context (model_validate : action_class -> list (string * value) -> result Action).
Context (validate_accumulator : value -> result (option AccumulatorConfig)).

Definition _resolve_action_from_dict (action_data : list (string * value)) : result Action :=
  let has k := bool_decide (is_Some (assoc k action_data)) in
  if has "callable"%string then model_validate ScriptActionClass action_data
  else if has "message"%string then model_validate LogActionClass action_data
  else if has "workflow_path"%string then model_validate WorkflowActionClass action_data
  else if has "event_type"%string then model_validate EventActionClass action_data
  else if has "target_principal_id"%string then model_validate NotifyActionClass action_data
  else Raise (ValueError "Cannot determine action type").

(** [action_config.pop("action", action_config)]: a value that is no dict is no action, whichever of the
    checks below finds out. *)
Definition action_data_of (action_config : list (string * value)) : result (list (string * value)) :=
  match assoc "action"%string action_config with
  | None => Ok action_config
  | Some (VDict d) => Ok d
  | Some _ => Raise (TypeError "action is not a dict")
  end.

Fixpoint create_actions (sub : uuid) (now : time) (position : Z)
    (actions : list (list (string * value))) : M directory unit :=
  match actions with
  | [] => mret tt
  | action_config :: actions' =>
      let accumulator_config := default VNone (assoc "accumulator_config"%string action_config) in
      action_data ← liftr (action_data_of (assoc_del "accumulator_config"%string action_config));
      action ← liftr (_resolve_action_from_dict action_data);
      aid ← tick;
      config ← liftr (validate_accumulator accumulator_config);
      on_dispatch (create_action {|
        sa_id := aid; sa_subscription_id := sub; sa_position := position; sa_action := action;
        sa_accumulator_config := config; sa_created_at := now |}) ;;
      create_actions sub now (position + 1) actions'
  end.

Definition subscribe (caller_principal : Principal) (filter_pred : FilterPredicate)
    (actions : list (list (string * value))) (storage : string) : M directory uuid :=
  now ← tick;
  sid ← tick;
  on_dispatch (create_subscription {|
    sub_id := sid; sub_filter := filter_pred; sub_enabled := true; sub_storage := storage;
    sub_principal_id := pr_id caller_principal; sub_created_at := now |}) ;;
  create_actions sid now 0 actions ;;
  mret sid.
End subscribe.

Definition unsubscribe (subscription_id : uuid) : M directory unit :=
  existing ← mgets (fun d => get_subscription (dr_dispatch d) subscription_id);
  match existing with
  | None => mthrow (ValueError "subscription not found")
  | Some _ =>
      on_dispatch (delete_actions subscription_id) ;;
      on_dispatch (delete_subscription subscription_id)
  end.

(** [credential_exists] is the query over the pool, if there is one. *)
Definition create_source (credential_exists : option (uuid -> bool)) (caller_principal : Principal)
    (slug name : string) (credential_id : option uuid) (config : option value) : M directory uuid :=
  (match credential_id with
   | None => mret tt
   | Some credential_id =>
       match credential_exists with
       | None => mthrow (ValueError "create_source requires a database pool")
       | Some exists_ =>
           if exists_ credential_id then mret tt else mthrow (ValueError "Unknown credential_id")
       end
   end) ;;
  source_id ← tick;
  new_id ← tick;
  minted ← tick;
  on_principals (mint_principal new_id minted KIND_SOURCE source_id (Some slug)) ;;
  now ← tick;
  on_dispatch (Dispatch.create_source {|
    src_id := source_id; src_slug := slug; src_name := name; src_credential_id := credential_id;
    src_config := config; src_created_by := pr_id caller_principal; src_created_at := now |}).
