(* ===== verification/IdentitySpec.v ===== *)
(** Theorems about [Identity]: every actor has one principal, through any sequence of services, and what
    creating one, sweeping the orphans of runs and subscribing do exactly. *)
From S2P Require Import Prelude PyDict Text Types Dispatch Identity.

(** ** The storage *)

Definition ref_of (p : Principal) : string * uuid := (pr_kind p, pr_external_ref p).

Abbreviation principals s := (dvalues (_principals s)).

(** One row per id and per reference, and ids below [n] *)
Record pstore_ok (n : Z) (s : InMemoryPrincipalStorage) : Prop := {
  ps_wf : dwf (_principals s);
  ps_key : forall k p, _principals s !! k = Some p -> pr_id p = k /\ (k < n)%Z;
  ps_ref : forall k k' p p', _principals s !! k = Some p -> _principals s !! k' = Some p' ->
             ref_of p = ref_of p' -> k = k'
}.

Lemma pstore_ok_mono n n' s : (n <= n')%Z -> pstore_ok n s -> pstore_ok n' s.
Proof.
  intros Hn [Hwf Hk Hr]. constructor; [done| |done].
  intros k p Hp. destruct (Hk k p Hp). split; [done|lia].
Qed.

Lemma pstore_value n s p : pstore_ok n s -> p ∈ principals s <-> _principals s !! pr_id p = Some p.
Proof.
  intros [Hwf Hk _]. split.
  - intros Hp. apply dict_value_lookup in Hp as [k E]; [|done]. by destruct (Hk k p E) as [-> _].
  - apply dict_lookup_Some_value.
Qed.

(** The row found by reference is the one that has it. *)
Lemma find_by_ref_spec n s kind ref p :
  pstore_ok n s ->
  _find_by_ref s kind ref = Some p <-> _principals s !! pr_id p = Some p /\ ref_of p = (kind, ref).
Proof.
  intros Hs. unfold _find_by_ref, ref_of. split.
  - intros [Hp [<- <-]]%head_filter_Some. split; [|done]. by eapply pstore_value.
  - intros [Hp Href]. destruct (head _) as [q|] eqn:E.
    + apply head_filter_Some in E as [Hq [Ek Er]]. eapply pstore_value in Hq; [|exact Hs].
      assert (Hid : pr_id q = pr_id p).
      { apply (ps_ref _ _ Hs _ _ q p Hq Hp). unfold ref_of. rewrite Ek, Er. done. }
      rewrite Hid in Hq. congruence.
    + rewrite head_filter_None in E. exfalso. apply (E p).
      * by apply dict_lookup_Some_value with (pr_id p).
      * injection Href as <- <-. done.
Qed.

Lemma find_by_ref_None s kind ref k p :
  _find_by_ref s kind ref = None -> _principals s !! k = Some p -> ref_of p <> (kind, ref).
Proof.
  unfold _find_by_ref. rewrite head_filter_None. intros H Hp [= <- <-].
  apply (H p); [by eapply dict_lookup_Some_value|done].
Qed.

(** Minting finds the row or adds it: in any case it is then the row with this reference. *)
Lemma mint_spec n new_id now kind ref name s E :
  pstore_ok n s -> (n <= new_id)%Z ->
  wp (mint_principal new_id now kind ref name)
    (fun p s' => pstore_ok (Z.succ new_id) s' /\ _find_by_ref s' kind ref = Some p /\
       (_find_by_ref s kind ref = Some p /\ s' = s \/
        _find_by_ref s kind ref = None /\ pr_id p = new_id /\ pr_display_name p = name /\
        _principals s' = <[new_id := p]> (_principals s))) E s.
Proof.
  intros Hs Hn. unfold mint_principal. apply wp_bind, wp_mgets.
  destruct (_find_by_ref s kind ref) as [p|] eqn:Ef.
  { apply wp_ret. split_and!; [eapply pstore_ok_mono; [|exact Hs]; lia|done|by left]. }
  apply wp_bind, wp_mmod, wp_ret. cbn.
  match goal with |- context [<[new_id := ?p]> _] => set (q := p) end.
  assert (Hok : pstore_ok (Z.succ new_id) {| _principals := <[new_id := q]> (_principals s) |}).
  { constructor; cbn.
    - apply dwf_insert, Hs.
    - intros k p. rewrite dict_lookup_insert. case_decide as Ek; [intros [= <-]; subst; split; [done|lia]|].
      intros Hp. destruct (ps_key _ _ Hs k p Hp). split; [done|lia].
    - intros k k' p p'. rewrite !dict_lookup_insert.
      repeat case_decide; subst; try done; intros Hp Hp' Href.
      + injection Hp as <-. exfalso. by eapply (find_by_ref_None s kind ref); [| |symmetry].
      + injection Hp' as <-. exfalso. by eapply (find_by_ref_None s kind ref).
      + by eapply (ps_ref _ _ Hs). }
  split_and!; [exact Hok| |by right].
  eapply find_by_ref_spec; [exact Hok|]. split; [|done]. cbn. by rewrite dict_lookup_insert_eq.
Qed.

Lemma pstore_shrinks n s s' :
  dwf (_principals s') -> (forall k p, _principals s' !! k = Some p -> _principals s !! k = Some p) ->
  pstore_ok n s -> pstore_ok n s'.
Proof.
  intros Hwf Hsub [_ Hk Hr]. constructor; [done|by eauto|].
  intros k k' p p' Hp Hp'. by eapply Hr; apply Hsub.
Qed.

Lemma pstore_rename n s id name p :
  _principals s !! id = Some p -> pstore_ok n s ->
  pstore_ok n (s .[_principals ::= <[id := p .[pr_display_name := Some name]]>]).
Proof.
  intros Hp [Hwf Hk Hr]. constructor; cbn.
  - by apply dwf_insert.
  - intros k q. rewrite dict_lookup_insert. case_decide as E; [|apply Hk]. subst k.
    intros [= <-]. apply (Hk id p Hp).
  - intros k k' q q'. rewrite !dict_lookup_insert.
    repeat case_decide; subst; try done; intros Hq Hq' Href.
    + injection Hq as <-. by eapply Hr; [exact Hp|exact Hq'|].
    + injection Hq' as <-. by eapply Hr; [exact Hq|exact Hp|].
    + by eapply Hr.
Qed.

(** Deleting a list of keys *)
Lemma delete_all (keys : list uuid) s :
  mfor keys (fun pid => mmod (fun s => s .[_principals ::= delete pid])) s =
  (Ok tt, {| _principals := foldl (fun d k => delete k d) (_principals s) keys |}).
Proof.
  revert s. induction keys as [|k keys IH]; intros [d]; [done|].
  change (mfor (k :: keys) _ _) with
    (mfor keys (fun pid => mmod (fun s => s .[_principals ::= delete pid])) {| _principals := delete k d |}).
  by rewrite IH.
Qed.

Lemma lookup_foldl_delete (keys : list uuid) (d : dict uuid Principal) k :
  foldl (fun d k => delete k d) d keys !! k = if decide (k ∈ keys) then None else d !! k.
Proof.
  revert d. induction keys as [|k0 keys IH]; intros d; simpl; [done|].
  rewrite IH, dict_lookup_delete. repeat case_decide; set_solver.
Qed.
Lemma dwf_foldl_delete (keys : list uuid) (d : dict uuid Principal) :
  dwf d -> dwf (foldl (fun d k => delete k d) d keys).
Proof. revert d. induction keys as [|k keys IH]; intros d Hd; simpl; [done|]. by apply IH, dwf_delete. Qed.

(** Sweeping removes exactly the principals of runs that do not exist and are old enough. *)
Theorem sweep_effect n run_ids now older_than s E :
  pstore_ok n s ->
  wp (sweep_principals (Some run_ids) now older_than)
    (fun swept s' => pstore_ok n s' /\
       (forall k, _principals s' !! k =
          match _principals s !! k with
          | Some p => if orphaned run_ids (now - older_than) p then None else Some p
          | None => None
          end) /\
       swept = Z.of_nat (length (filter (fun p => orphaned run_ids (now - older_than) p) (principals s)))) E s.
Proof.
  intros Hs. unfold sweep_principals. apply wp_bind, wp_mgets.
  set (gone := fst <$> filter _ _). apply wp_bind. unfold wp at 1. rewrite delete_all. apply wp_ret. cbn.
  assert (Hgone : forall k, k ∈ gone <-> exists p, _principals s !! k = Some p /\
                    orphaned run_ids (now - older_than) p = true).
  { intros k. unfold gone. rewrite list_elem_of_fmap. split.
    - intros ([k' p] & -> & [Ho Hin]%list_elem_of_filter). exists p.
      split; [by apply dict_in_lookup; [apply Hs|]|by apply Is_true_true].
    - intros (p & Hp & Ho). exists (k, p). split; [done|]. apply list_elem_of_filter.
      split; [by apply Is_true_true|by apply dict_lookup_Some_in]. }
  assert (Hk : forall k, foldl (fun d k => delete k d) (_principals s) gone !! k =
     match _principals s !! k with
     | Some p => if orphaned run_ids (now - older_than) p then None else Some p
     | None => None end).
  { intros k. rewrite lookup_foldl_delete. destruct (_principals s !! k) as [p|] eqn:Ep.
    - case_decide as Hin.
      + apply Hgone in Hin as (q & Hq & Ho). rewrite Ep in Hq. injection Hq as <-. by rewrite Ho.
      + destruct (orphaned _ _ p) eqn:Ho; [|done]. exfalso. apply Hin, Hgone. by exists p.
    - by case_decide. }
  split_and!; [|exact Hk|].
  - eapply pstore_shrinks; [by apply dwf_foldl_delete, Hs| |exact Hs]. intros k p. cbn. rewrite Hk.
    destruct (_principals s !! k) as [q|]; [|done]. by destruct (orphaned _ _ q).
  - f_equal. unfold gone, principals. rewrite length_fmap. unfold dvalues. generalize (ditems (_principals s)).
    induction l as [|[k p] l IH]; [done|]. rewrite filter_cons, fmap_cons, filter_cons. simpl.
    destruct (orphaned _ _ p); simpl; by rewrite IH.
Qed.

(** ** The services *)

(** With one principal of kind system, [sys]: what the services keep *)
Record dir_ok_at (n : Z) (sys : uuid) (d : directory) : Prop := {
  do_store : pstore_ok n (dr_principals d);
  do_system : exists p, _principals (dr_principals d) !! sys = Some p /\
                ref_of p = (KIND_SYSTEM, SYSTEM_PRINCIPAL_EXTERNAL_REF);
  do_single : forall k p, _principals (dr_principals d) !! k = Some p -> pr_kind p = KIND_SYSTEM -> k = sys
}.
Definition dir_ok (sys : uuid) (d : directory) : Prop := dir_ok_at (dr_clock d) sys d.

Lemma wp_tick Q E d : Q (dr_clock d) (d .[dr_clock ::= Z.succ]) -> wp tick Q E d.
Proof. done. Qed.

Lemma dir_ok_at_mono n n' sys d d' :
  (n <= n')%Z -> dr_principals d' = dr_principals d -> dir_ok_at n sys d -> dir_ok_at n' sys d'.
Proof.
  intros Hn E [Hs Hp Hu]. constructor; rewrite E; [by eapply pstore_ok_mono|done..].
Qed.

Lemma tick_keeps sys : keeps (dir_ok sys) tick.
Proof. intros d Hd. apply (dir_ok_at_mono (dr_clock d) (Z.succ (dr_clock d)) sys d); [lia|done|exact Hd]. Qed.

Lemma on_dispatch_keeps {A} sys (m : M InMemoryDispatchBackend A) : keeps (dir_ok sys) (on_dispatch m).
Proof.
  intros d Hd. unfold on_dispatch, zoom. destruct (m (dr_dispatch d)) as [r b].
  eapply (dir_ok_at_mono _ _ sys d); [|done|exact Hd]. done.
Qed.
#[local] Hint Resolve tick_keeps on_dispatch_keeps : pydb.

(** A mint with a fresh id, of another kind than system *)
Lemma on_mint_spec sys n new_id now kind ref name d E :
  dir_ok_at n sys d -> (n <= new_id < dr_clock d)%Z -> kind <> KIND_SYSTEM ->
  wp (on_principals (mint_principal new_id now kind ref name))
    (fun p d' => dir_ok sys d' /\ dr_dispatch d' = dr_dispatch d /\ dr_clock d' = dr_clock d /\
       _find_by_ref (dr_principals d') kind ref = Some p /\
       match _find_by_ref (dr_principals d) kind ref with
       | Some p' => p' = p /\ dr_principals d' = dr_principals d
       | None => pr_id p = new_id /\ pr_display_name p = name /\
                 _principals (dr_principals d') = <[new_id := p]> (_principals (dr_principals d))
       end) E d.
Proof.
  intros [Hs [ps [Hsys Hps]] Hu] Hn Hk. unfold on_principals. apply wp_zoom.
  eapply wp_mono; [by apply (mint_spec n new_id now kind ref name _ (fun _ _ => False)); [|lia]| |done].
  intros p s (Hs' & Hf & Hcase). cbn.
  assert (Hother : forall k, k <> new_id ->
            _principals s !! k = _principals (dr_principals d) !! k).
  { intros k Hk'. destruct Hcase as [[_ ->]|(_ & _ & _ & ->)]; [done|]. by rewrite dict_lookup_insert_ne. }
  split_and!; [|done|done|exact Hf|].
  - assert (Hold : sys <> new_id) by (destruct (ps_key _ _ Hs _ _ Hsys); lia).
    constructor; cbn.
    + eapply pstore_ok_mono; [|exact Hs']. lia.
    + exists ps. by rewrite Hother.
    + intros k q Hq Hkq. destruct Hcase as [[_ E1]|(_ & Hid & _ & E1)]; [subst s; by eapply Hu|].
      rewrite E1, dict_lookup_insert in Hq. case_decide; [|by eapply Hu]. injection Hq as <-.
      eapply find_by_ref_spec in Hf; [|exact Hs']. destruct Hf as [_ Hf]. unfold ref_of in Hf. congruence.
  - destruct Hcase as [[Ef ->]|(Ef & Hid & Hname & Es)]; by rewrite Ef.
Qed.

(** What [create_principal] accepts *)
Definition accepted (kinds : list string) (kind : string) (types : option (list string)) : Prop :=
  kind <> KIND_SYSTEM /\ kind ∈ kinds /\ (is_Some types <-> kind ∉ _NO_SELF_SUBSCRIPTION_KINDS).

(** [b'] is [b] with one more subscription of [p], to its own events of [types], and its one action. *)
Definition self_subscribed (p : Principal) (types : list string) (b b' : InMemoryDispatchBackend) : Prop :=
  exists now sid aid, b' = b
    .[_subscriptions ::= <[sid := {|
        sub_id := sid;
        sub_filter := {| fp_event_types := Some types; fp_sources := None;
                         fp_principal_id := Some (pr_id p); fp_data_predicates := None |};
        sub_enabled := true; sub_storage := "persistent"; sub_principal_id := pr_id p;
        sub_created_at := now |}]>]
    .[_actions ::= <[aid := {|
        sa_id := aid; sa_subscription_id := sid; sa_position := 0;
        sa_action := NotifyAction (pr_id p) "self-subscription" (VDict []);
        sa_accumulator_config := None; sa_created_at := now |}]>].

Lemma self_subscription_spec sys p types d E :
  dir_ok sys d ->
  wp (_create_self_subscription p types)
    (fun _ d' => dir_ok sys d' /\ dr_principals d' = dr_principals d /\
       self_subscribed p types (dr_dispatch d) (dr_dispatch d')) E d.
Proof.
  intros Hd. unfold _create_self_subscription, create_subscription, create_action.
  apply wp_bind, wp_tick, wp_bind, wp_tick, wp_bind, wp_zoom, wp_bind, wp_mmod, wp_ret.
  apply wp_bind, wp_tick, wp_bind, wp_zoom, wp_bind, wp_mmod, wp_ret, wp_ret.
  split; [|split; [done|]].
  - eapply (dir_ok_at_mono _ _ sys d); [|done|exact Hd]. cbn. lia.
  - by do 3 eexists.
Qed.

(** The checks of [create_principal], before anything is written *)
Lemma create_checks_spec kinds kind types d (k : M directory Principal) Q E :
  (accepted kinds kind types -> wp k Q E d) ->
  (forall what, ~ accepted kinds kind types -> E (ValueError what) d) ->
  wp (if decide (kind = KIND_SYSTEM) then mthrow (ValueError "Refusing to create a system principal")
      else liftr (validate_kind kinds kind) ;;
           (if decide (kind ∈ _NO_SELF_SUBSCRIPTION_KINDS) then
              match types with
              | Some _ => mthrow (ValueError "principals do not support self-subscriptions")
              | None => mret tt
              end
            else match types with
                 | None => mthrow (ValueError "principals must specify notification_event_types")
                 | Some _ => mret tt
                 end) ;; k) Q E d.
Proof.
  unfold accepted. intros Hk HE. case_decide as Hsys; [apply wp_throw, HE; by intros [? _]|].
  apply wp_bind, wp_liftr; unfold validate_kind.
  2: { case_bool_decide; [done|]. intros e [= <-]. apply HE. by intros (_ & ? & _). }
  case_bool_decide as Hin; [|done]. intros u _. apply wp_bind.
  case_decide as Hno; destruct types as [types|].
  - apply wp_throw, HE. intros (_ & _ & H). by apply H.
  - apply wp_ret, Hk. split_and!; [done|done|]. by split; [intros [? ?]|].
  - apply wp_ret, Hk. split_and!; [done|done|]. split; [done|by eexists].
  - apply wp_throw, HE. intros (_ & _ & H). apply H in Hno as [? ?]. done.
Qed.

(** Creating a principal is refused, with nothing written, exactly for the kind system, for an
    unregistered kind and when event types are given to a kind without self-subscription or missing for one
    with.  Otherwise the principal returned is the one with this kind and reference: the row that was there,
    untouched, or a new one with the name given.  In both cases, where there are event types, a
    subscription to its own events is added: a retry finds the same principal, and subscribes it again. *)
Theorem create_principal_behaviour sys kinds kind ref name types d :
  dir_ok sys d ->
  wp (create_principal kinds kind ref name types)
    (fun p d' => accepted kinds kind types /\ dir_ok sys d' /\
       _find_by_ref (dr_principals d') kind ref = Some p /\
       match _find_by_ref (dr_principals d) kind ref with
       | Some p' => p' = p /\ dr_principals d' = dr_principals d
       | None => pr_display_name p = name /\
                 _principals (dr_principals d') = <[pr_id p := p]> (_principals (dr_principals d))
       end /\
       match types with
       | Some types => self_subscribed p types (dr_dispatch d) (dr_dispatch d')
       | None => dr_dispatch d' = dr_dispatch d
       end)
    (fun e d' => d' = d /\ ~ accepted kinds kind types) d.
Proof.
  intros Hd. unfold create_principal. apply create_checks_spec; [|by intros what Hn; split].
  intros Hacc. apply wp_bind, wp_tick, wp_bind, wp_tick, wp_bind.
  eapply wp_mono; [apply (on_mint_spec sys (dr_clock d) _ _ _ _ _ _ (fun _ _ => False))| |done].
  - eapply (dir_ok_at_mono _ _ sys d); [|done|exact Hd]. done.
  - cbn. lia.
  - apply Hacc.
  - intros p d1 (Hok & Hdisp & _ & Hf & Hrow). cbn in Hdisp, Hrow.
    assert (Hnew : match _find_by_ref (dr_principals d) kind ref with
       | Some p' => p' = p /\ dr_principals d1 = dr_principals d
       | None => pr_display_name p = name /\
                 _principals (dr_principals d1) = <[pr_id p := p]> (_principals (dr_principals d))
       end).
    { destruct (_find_by_ref (dr_principals d) kind ref); [done|]. by destruct Hrow as (-> & ? & ?). }
    destruct types as [types|].
    + apply wp_bind. eapply wp_mono; [by apply (self_subscription_spec sys _ _ _ (fun _ _ => False))| |done].
      intros u d2 (Hok2 & Ep & Hsub). apply wp_ret. rewrite Ep, <- Hdisp. by split_and!.
    + apply wp_ret. by split_and!.
Qed.

(** ** Any sequence of services *)

Section services.
Context (model_validate : action_class -> list (string * value) -> result Action).
Context (validate_accumulator : value -> result (option AccumulatorConfig)).

Inductive directory_op :=
| CreatePrincipal (kinds : list string) (kind : string) (external_ref : uuid) (name : option string)
    (types : option (list string))
| DeletePrincipal (id : uuid)
| SweepRuns (run_ids : option (list uuid))
| Subscribe (caller : Principal) (f : FilterPredicate) (actions : list (list (string * value)))
| Unsubscribe (id : uuid)
| CreateSource (credential_exists : option (uuid -> bool)) (caller : Principal) (slug name : string)
    (credential : option uuid) (config : option value).

Definition run_op (op : directory_op) : M directory unit :=
  match op with
  | CreatePrincipal kinds kind ref name types => create_principal kinds kind ref name types ;; mret tt
  | DeletePrincipal id => delete_principal id
  | SweepRuns run_ids => sweep_orphaned_run_principals run_ids ;; mret tt
  | Subscribe caller f actions =>
      subscribe model_validate validate_accumulator caller f actions "persistent" ;; mret tt
  | Unsubscribe id => unsubscribe id
  | CreateSource exists_ caller slug name credential config =>
      create_source exists_ caller slug name credential config ;; mret tt
  end.

Definition run_directory (ops : list directory_op) (d : directory) : directory :=
  foldl (fun d op => snd (run_op op d)) d ops.

Lemma keeps_fst {A B} (P : A -> Prop) (m : M A B) (Q : B -> A -> Prop) (E : exn -> A -> Prop) s :
  wp m Q E s -> (forall a s', Q a s' -> P s') -> (forall e s', E e s' -> P s') -> P (snd (m s)).
Proof. unfold wp. destruct (m s) as [[a|e] s']; simpl; eauto. Qed.

Lemma create_principal_keeps sys kinds kind ref name types :
  keeps (dir_ok sys) (create_principal kinds kind ref name types).
Proof.
  intros d Hd. eapply keeps_fst; [by apply create_principal_behaviour| |].
  - by intros p d' (_ & ? & _).
  - by intros e d' [-> _].
Qed.

Lemma shrink_keeps sys d s' :
  pstore_ok (dr_clock d) s' ->
  (forall k p, _principals s' !! k = Some p -> _principals (dr_principals d) !! k = Some p) ->
  (forall p, _principals (dr_principals d) !! sys = Some p -> pr_kind p = KIND_SYSTEM ->
     _principals s' !! sys = Some p) ->
  dir_ok sys d -> dir_ok sys (d .[dr_principals := s']).
Proof.
  intros Hs Hsub Hsys [_ (p & Hp & Href) Hu]. constructor; cbn; [done| |by eauto].
  exists p. split; [|done]. apply Hsys; [done|]. by injection Href.
Qed.

Lemma delete_principal_keeps sys id : keeps (dir_ok sys) (delete_principal id).
Proof.
  intros d Hd. unfold delete_principal, get_principal. unfold mbind, M_bind, mgets.
  assert (Hdel : (forall p, _principals (dr_principals d) !! id = Some p -> pr_kind p <> KIND_SYSTEM) ->
     dir_ok sys (snd (on_principals (delete_principal_row id) d))).
  { intros Hk. apply shrink_keeps; [| | |done]; cbn.
    - eapply pstore_shrinks; [by apply dwf_delete, Hd| |apply Hd]. cbn.
      intros k p. rewrite dict_lookup_delete. by case_decide.
    - intros k p. rewrite dict_lookup_delete. by case_decide.
    - intros p Hp Hkind. rewrite dict_lookup_delete. case_decide as E; [|done].
      subst id. by apply Hk in Hp. }
  destruct (_principals (dr_principals d) !! id) as [p|] eqn:Ep; [|by apply Hdel].
  case_decide; [done|]. apply Hdel. by intros ? [= <-].
Qed.

Lemma sweep_keeps sys run_ids : keeps (dir_ok sys) (sweep_orphaned_run_principals run_ids).
Proof.
  unfold sweep_orphaned_run_principals. apply keeps_bind; [apply tick_keeps|]. intros now d Hd.
  destruct run_ids as [run_ids|]; [|by destruct d as [[?] ? ?]].
  assert (Hw := sweep_effect (dr_clock d) run_ids now _ORPHAN_SWEEP_AGE _ (fun _ _ => False) (do_store _ _ _ Hd)).
  unfold on_principals, zoom, wp in *.
  destruct (sweep_principals _ _ _ (dr_principals d)) as [[n|e] s']; [|done].
  destruct Hw as (Hs & Hk & _). simpl. apply shrink_keeps; [done| | |done].
  - intros k p. rewrite Hk. destruct (_principals (dr_principals d) !! k) as [q|]; [|done].
    by destruct (orphaned _ _ q).
  - intros p Hp Hkind. rewrite Hk, Hp. unfold orphaned. rewrite Hkind. by rewrite bool_decide_false.
Qed.

Lemma create_actions_keeps sys sid now n actions :
  keeps (dir_ok sys) (create_actions model_validate validate_accumulator sid now n actions).
Proof. revert n. induction actions as [|a l IH]; intros n; simpl; eauto 12 with pydb. Qed.

Lemma create_source_keeps sys exists_ caller slug name credential config :
  keeps (dir_ok sys) (create_source exists_ caller slug name credential config).
Proof.
  unfold create_source. apply keeps_bind; [|intros u].
  { destruct credential; [destruct exists_ as [f|]; [destruct (f _)|]|]; auto with pydb. }
  intros d Hd. eapply keeps_fst with (Q := fun _ => dir_ok sys) (E := fun _ => dir_ok sys); [|done..].
  apply wp_bind, wp_tick, wp_bind, wp_tick, wp_bind, wp_tick, wp_bind.
  eapply wp_mono; [apply (on_mint_spec sys (dr_clock d) _ _ _ _ _ _ (fun _ _ => False))| |done].
  - eapply (dir_ok_at_mono _ _ sys d); [|done|exact Hd]. done.
  - cbn. lia.
  - done.
  - intros p d1 (Hok & _). apply wp_kept; [|done]. eauto with pydb.
Qed.

Lemma run_op_keeps sys op : keeps (dir_ok sys) (run_op op).
Proof.
  destruct op; simpl.
  - apply keeps_bind; [apply create_principal_keeps|auto with pydb].
  - apply delete_principal_keeps.
  - apply keeps_bind; [apply sweep_keeps|auto with pydb].
  - unfold subscribe. apply keeps_bind; [|auto with pydb].
    repeat (apply keeps_bind; [auto using create_actions_keeps with pydb|intros ?]). auto with pydb.
  - unfold unsubscribe. apply keeps_bind; [auto with pydb|].
    intros [s|]; eauto with pydb.
  - apply keeps_bind; [apply create_source_keeps|auto with pydb].
Qed.

Lemma run_directory_ok sys ops d : dir_ok sys d -> dir_ok sys (run_directory ops d).
Proof.
  revert d. induction ops as [|op ops IH]; intros d Hd; [done|]. apply IH. by apply run_op_keeps.
Qed.

Definition directory_init (b : InMemoryDispatchBackend) (clock : Z) : directory :=
  {| dr_principals := principals_init; dr_dispatch := b; dr_clock := clock |}.

Lemma seeded_ok b clock : dir_ok clock (snd (seed_system (directory_init b clock))).
Proof.
  constructor; cbn.
  - constructor; cbn.
    + apply (dwf_insert clock _ ∅), dwf_empty.
    + intros k p. unfold lookup, dict_lookup; simpl. case_decide; [|done]. intros [= <-]. subst k. split; [done|lia].
    + intros k k' p p'. unfold lookup, dict_lookup; simpl. repeat case_decide; congruence.
  - eexists. unfold lookup, dict_lookup; simpl. by rewrite decide_True.
  - intros k p. unfold lookup, dict_lookup; simpl. by case_decide.
Qed.

(** Who calls: the system, or a consumer *)
Definition caller_of (c : AuthContext) : option uuid :=
  if decide (ac_trust_tier c = SYSTEM) then None else ac_consumer_id c.

Lemma resolve_spec n s c p :
  pstore_ok n s ->
  resolve_caller_principal c s = Ok p <->
  _principals s !! pr_id p = Some p /\
  match caller_of c with
  | Some id => ref_of p = (KIND_CONSUMER, id)
  | None => ac_trust_tier c = SYSTEM /\ ref_of p = (KIND_SYSTEM, SYSTEM_PRINCIPAL_EXTERNAL_REF)
  end.
Proof.
  intros Hs. unfold resolve_caller_principal, caller_of, get_principal_by_ref.
  assert (Hor : forall o e, @or_raise Principal o e = Ok p <-> o = Some p).
  { intros [q|] e; simpl; split; congruence. }
  case_decide as Ht.
  - rewrite Hor, find_by_ref_spec by done. tauto.
  - destruct (ac_consumer_id c) as [id|]; [by rewrite Hor, find_by_ref_spec|].
    split; [done|]. by intros (_ & ? & _).
Qed.

(** C15. From the seeding of the system principal on, whatever services are called and however they end:
    there is at most one principal for each kind and reference; the system's one is never removed and is
    the only one of its kind, so a caller of SYSTEM tier always resolves to it; and callers resolve to the
    same principal exactly if they are the same consumer, or both the system. *)
Theorem one_principal_per_actor b clock ops :
  let s := dr_principals (run_directory ops (snd (seed_system (directory_init b clock)))) in
  (forall p p', p ∈ principals s -> p' ∈ principals s -> ref_of p = ref_of p' -> p = p') /\
  (forall c, ac_trust_tier c = SYSTEM -> exists p, resolve_caller_principal c s = Ok p /\ pr_id p = clock) /\
  (forall p, p ∈ principals s -> pr_kind p = KIND_SYSTEM -> pr_id p = clock) /\
  (forall c c' p p', resolve_caller_principal c s = Ok p -> resolve_caller_principal c' s = Ok p' ->
     p = p' <-> caller_of c = caller_of c').
Proof.
  intros s. assert (Hd : dir_ok clock (run_directory ops (snd (seed_system (directory_init b clock)))))
    by apply run_directory_ok, seeded_ok.
  destruct Hd as [Hs (ps & Hps & Href) Hu]. fold s in Hs, Hps, Hu. set (n := dr_clock _) in Hs.
  assert (Hone : forall p p', p ∈ principals s -> p' ∈ principals s -> ref_of p = ref_of p' -> p = p').
  { intros p p' Hp Hp' E. eapply pstore_value in Hp, Hp'; [|exact Hs..].
    assert (Hid := ps_ref _ _ Hs _ _ _ _ Hp Hp' E). congruence. }
  split_and!; [exact Hone| | |].
  - intros c Hc. exists ps. destruct (ps_key _ _ Hs _ _ Hps) as [Hid _]. split; [|done].
    eapply resolve_spec; [exact Hs|]. unfold caller_of. rewrite decide_True by done. by rewrite Hid.
  - intros p Hp Hk. eapply pstore_value in Hp; [|exact Hs]. by eapply Hu.
  - intros c c' p p' Hr Hr'. eapply resolve_spec in Hr as [Hp H], Hr' as [Hp' H']; [|exact Hs..].
    split.
    + intros <-. destruct (caller_of c) as [i|], (caller_of c') as [i'|]; try done.
      * congruence.
      * destruct H' as [_ H']. rewrite H in H'. discriminate.
      * destruct H as [_ H]. rewrite H in H'. discriminate.
    + intros E. rewrite <- E in H'.
      apply Hone; [by eapply dict_lookup_Some_value..|].
      destruct (caller_of c); [congruence|]. destruct H as [_ ->], H' as [_ ->]. done.
Qed.
End services.
