(* ===== verification/Auth.v ===== *)
(** Authentication: the in-memory backend, the authenticator with its verifiers, the authorizer and the
    middleware of auth/_inmemory.py, _authenticator.py, _verifiers.py, _authorizer.py and _middleware.py,
    and the keyed MACs of secrets/_mac_provider.py.

    [hashlib] and [hmac] are parameters, and so are what listens to audit events and the application behind
    the middleware. *)
From S2P Require Import Prelude PyDict Text Secrets Identity.

(** ** protocols/_types/_auth.py *)

Record ConsumerRecord := {
  cn_id : uuid;
  cn_principal_id : uuid;
  cn_name : string;
  cn_trust_tier : TrustTier;
  cn_scope_grants : list string;
  cn_disabled_at : option time;
  cn_created_at : time
}.
#[export] Instance eta_ConsumerRecord : Eta ConsumerRecord := fun c => {|
  cn_id := cn_id c; cn_principal_id := cn_principal_id c; cn_name := cn_name c;
  cn_trust_tier := cn_trust_tier c; cn_scope_grants := cn_scope_grants c;
  cn_disabled_at := cn_disabled_at c; cn_created_at := cn_created_at c |}.

Record CredentialRecord := {
  cr_id : uuid;
  cr_consumer_id : uuid;
  cr_credential_type : string;
  cr_credential_hash : string;
  cr_algorithm : string;
  cr_secret_ref : option string;
  cr_created_at : time
}.

(** [matched_version] is [None] for the name without a version. *)
Record MacVerdict := { mv_match : bool; mv_secret_name : string; mv_matched_version : option Z }.

(** ** auth/_inmemory.py *)

Record InMemoryAuthBackend := {
  _consumers : dict uuid ConsumerRecord;
  _credentials : dict uuid CredentialRecord
}.
#[export] Instance eta_InMemoryAuthBackend : Eta InMemoryAuthBackend := fun b => {|
  _consumers := _consumers b; _credentials := _credentials b |}.

Definition auth_init : InMemoryAuthBackend := {| _consumers := ∅; _credentials := ∅ |}.

Definition create_consumer (now : time) (name : string) (trust_tier : TrustTier)
    (scope_grants : list string) (consumer_id principal_id : uuid) : M InMemoryAuthBackend uuid :=
  mmod (fun b => b .[_consumers ::= <[consumer_id := {|
    cn_id := consumer_id; cn_principal_id := principal_id; cn_name := name; cn_trust_tier := trust_tier;
    cn_scope_grants := scope_grants; cn_disabled_at := None; cn_created_at := now |}]>]) ;;
  mret consumer_id.

Definition get_consumer (b : InMemoryAuthBackend) (consumer_id : uuid) : option ConsumerRecord :=
  _consumers b !! consumer_id.

Definition disable_consumer (now : time) (consumer_id : uuid) : M InMemoryAuthBackend unit :=
  existing ← mgets (fun b => _consumers b !! consumer_id);
  match existing with
  | None => mthrow (KeyError "Consumer not found")
  | Some c =>
      mmod (fun b => b .[_consumers ::= <[consumer_id := c .[cn_disabled_at := Some now]]>])
  end.

Section auth.
(** [hashlib.sha256(s.encode()).hexdigest()] *)
Context (sha256_hex : string -> string).

Definition create_credential (credential_id : uuid) (now : time) (consumer_id : uuid)
    (credential_type raw_value : string) (secret_ref : option string) : M InMemoryAuthBackend uuid :=
  mmod (fun b => b .[_credentials ::= <[credential_id := {|
    cr_id := credential_id; cr_consumer_id := consumer_id; cr_credential_type := credential_type;
    cr_credential_hash := sha256_hex raw_value; cr_algorithm := "sha256"; cr_secret_ref := secret_ref;
    cr_created_at := now |}]>]) ;;
  mret credential_id.

Definition get_credential_by_id (b : InMemoryAuthBackend) (credential_id : uuid) :
    option CredentialRecord := _credentials b !! credential_id.

Definition get_credential_by_hash (b : InMemoryAuthBackend) (credential_hash : string) :
    option CredentialRecord :=
  head (filter (fun c => cr_credential_hash c = credential_hash) (dvalues (_credentials b))).

Definition get_credentials_by_consumer (b : InMemoryAuthBackend) (consumer_id : uuid)
    (credential_type : option string) : list CredentialRecord :=
  filter (fun c => cr_consumer_id c = consumer_id /\
                   opt_ok (fun t => bool_decide (cr_credential_type c = t)) credential_type)
    (dvalues (_credentials b)).

(** ** secrets/_mac_provider.py *)

Definition _ALGORITHMS : list (string * string) :=
  [("sha256", "sha256"); ("hmac-sha256", "sha256"); ("sha1", "sha1"); ("hmac-sha1", "sha1");
   ("sha512", "sha512"); ("hmac-sha512", "sha512")]%string.

Definition _MAX_VERSIONS : nat := 10.

(** The numerals of the versions *)
Definition version_names : list string := ["1"; "2"; "3"; "4"; "5"; "6"; "7"; "8"; "9"; "10"]%string.

Definition _build_candidates (key_ref : string) : list (string * option Z) :=
  (key_ref, None) ::
  zip_with (fun n i => ((key_ref +:+ (":" +:+ n))%string, Some (Z.of_nat i))) version_names
    (seq 1 _MAX_VERSIONS).

(** [hmac.new(key, message, algo).hexdigest()] *)
Context (hmac_hex : string -> string -> string -> string).

Definition ascii_only (s : string) : bool :=
  forallb (fun a => Nat.ltb (Ascii.nat_of_ascii a) 128) (String.list_ascii_of_string s).

(** [hmac.compare_digest] takes ASCII strings only. *)
Definition compare_digest (expected signature : string) : result bool :=
  if ascii_only signature then Ok (bool_decide (expected = signature))
  else Raise (TypeError "comparing strings with non-ASCII characters is not supported").

Fixpoint try_versions (registry : SecretRegistry) (algo message signature : string)
    (candidates : list (string * option Z)) : result (option (option Z)) :=
  match candidates with
  | [] => Ok None
  | (secret_name, version) :: candidates' =>
      match resolve registry secret_name with
      | Raise _ => try_versions registry algo message signature candidates'
      | Ok key_value =>
          matches ← compare_digest (hmac_hex algo key_value message) signature;
          if (matches : bool) then Ok (Some version)
          else try_versions registry algo message signature candidates'
      end
  end.

(** [EnvMacProvider.verify] *)
Definition mac_verify (registry : SecretRegistry) (key_ref message signature algorithm : string) :
    result MacVerdict :=
  match assoc (str_lower algorithm) _ALGORITHMS with
  | None => Raise (ValueError "Unsupported HMAC algorithm")
  | Some algo =>
      found ← try_versions registry algo message signature (_build_candidates key_ref);
      Ok match found with
         | Some version =>
             {| mv_match := true; mv_secret_name := key_ref; mv_matched_version := version |}
         | None => {| mv_match := false; mv_secret_name := key_ref; mv_matched_version := None |}
         end
  end.

(** ** auth/_verifiers.py *)

(** [s.partition(":")], if there is a colon *)
Fixpoint partition_colon (s : string) : option (string * string) :=
  match s with
  | EmptyString => None
  | String a s' =>
      if decide (a = colon) then Some (EmptyString, s')
      else '(p, r) ← partition_colon s'; Some (String a p, r)
  end.

(** [s.split(":", maxsplit=2)] of a string with at least two colons *)
Definition split_colon_2 (s : string) : option (string * string * string) :=
  '(a, r) ← partition_colon s;
  '(b, c) ← partition_colon r;
  Some (a, b, c).

Inductive AnyVerifier :=
| HashCredentialVerifier (credential_type : string)
| HmacCredentialVerifier (registry : SecretRegistry).

Definition verifier_type (v : AnyVerifier) : string :=
  match v with HashCredentialVerifier t => t | HmacCredentialVerifier _ => "hmac" end.

Definition _build_auth_context (now : time) (credential : CredentialRecord) (consumer : ConsumerRecord) :
    AuthContext := {|
  ac_id := cr_id credential;
  ac_consumer_id := Some (cn_id consumer);
  ac_scopes := py_set (cn_scope_grants consumer);
  ac_trust_tier := cn_trust_tier consumer;
  ac_authenticated_via := cr_credential_type credential;
  ac_issued_at := now;
  ac_expires_at := None |}.

(** The end both verifiers share *)
Definition find_consumer (b : InMemoryAuthBackend) (now : time) (credential : CredentialRecord) :
    result AuthContext :=
  match get_consumer b (cr_consumer_id credential) with
  | None => Raise (AuthenticationError "Consumer not found for credential")
  | Some consumer =>
      match cn_disabled_at consumer with
      | Some _ => Raise (AuthenticationError "Consumer is disabled")
      | None => Ok (_build_auth_context now credential consumer)
      end
  end.

Definition verify_hash (b : InMemoryAuthBackend) (now : time) (credential : CredentialRecord)
    (presented : string) : result AuthContext :=
  if decide (cr_credential_hash credential = sha256_hex presented) then find_consumer b now credential
  else Raise (AuthenticationError "Credential hash mismatch").

Definition verify_hmac (registry : SecretRegistry) (b : InMemoryAuthBackend) (now : time)
    (credential : CredentialRecord) (presented : string) : result AuthContext :=
  match cr_secret_ref credential with
  | None => Raise (AuthenticationError "HMAC credential has no secret_ref")
  | Some secret_ref =>
      match split_colon_2 presented with
      | None => Raise (AuthenticationError "HMAC credential must be in format")
      | Some (_, signature, message) =>
          verdict ← mac_verify registry secret_ref message signature (cr_algorithm credential);
          if mv_match verdict then find_consumer b now credential
          else Raise (AuthenticationError "HMAC signature mismatch")
      end
  end.

Definition verify (v : AnyVerifier) (b : InMemoryAuthBackend) (now : time) (credential : CredentialRecord)
    (presented : string) : result AuthContext :=
  match v with
  | HashCredentialVerifier _ => verify_hash b now credential presented
  | HmacCredentialVerifier registry => verify_hmac registry b now credential presented
  end.

(** ** auth/_authenticator.py *)

Inductive outcome := success | failure.

(** ["unknown"] is [None] for an id. *)
Record AuthAuditEvent := {
  au_credential_id : option uuid;
  au_credential_type : string;
  au_consumer_id : option uuid;
  au_outcome : outcome;
  au_reason : option exn;
  au_verified_at : time
}.

(** The constructor: every verifier is registered under its own type. *)
Fixpoint check_verifiers (verifiers : list (string * AnyVerifier)) : result unit :=
  match verifiers with
  | [] => Ok tt
  | (cred_type, verifier) :: verifiers' =>
      if decide (verifier_type verifier = cred_type) then check_verifiers verifiers'
      else Raise (ValueError "Verifier registered for another type")
  end.

Definition Authenticator (verifiers : dict string AnyVerifier) : result (dict string AnyVerifier) :=
  check_verifiers (ditems verifiers) ;; Ok verifiers.

(** ** The authenticator at work, in a world [W] that holds the backend *)

Context {W : Type} (auth_of : W -> InMemoryAuthBackend) (clock : W -> time).
Context (verifiers : dict string AnyVerifier).
Context (audit_sink : option (AuthAuditEvent -> M W unit)).

Definition _emit_audit (credential_id : option uuid) (credential_type : string) (consumer_id : option uuid)
    (o : outcome) (reason : option exn) : M W unit :=
  match audit_sink with
  | None => mret tt
  | Some on_event =>
      now ← mgets clock;
      mcatch (on_event {| au_credential_id := credential_id; au_credential_type := credential_type;
                          au_consumer_id := consumer_id; au_outcome := o; au_reason := reason;
                          au_verified_at := now |}) (fun _ => mret tt)
  end.

Definition is_authentication_error (e : exn) : bool :=
  match e with AuthenticationError _ => true | _ => false end.

Definition _verify_with_record (cred : CredentialRecord) (presented : string) : M W AuthContext :=
  let audit := _emit_audit (Some (cr_id cred)) (cr_credential_type cred) (Some (cr_consumer_id cred)) in
  match verifiers !! cr_credential_type cred with
  | None =>
      let e := AuthenticationError "No verifier registered for credential type" in
      audit failure (Some e) ;; mthrow e
  | Some verifier =>
      verified ← mgets (fun w => verify verifier (auth_of w) (clock w) cred presented);
      match verified with
      | Raise e =>
          if is_authentication_error e then audit failure (Some e) ;; mthrow e else mthrow e
      | Ok auth_context => audit success None ;; mret auth_context
      end
  end.

Definition verify_by_credential_id (credential_id : uuid) (presented : string) : M W AuthContext :=
  cred ← mgets (fun w => get_credential_by_id (auth_of w) credential_id);
  match cred with
  | None =>
      let e := AuthenticationError "Credential not found" in
      _emit_audit (Some credential_id) "unknown" None failure (Some e) ;; mthrow e
  | Some cred => _verify_with_record cred presented
  end.

(** The part of a credential that is hashed first *)
Definition identifier_of (raw : string) : string :=
  match split_colon_2 raw with Some (identifier, _, _) => identifier | None => raw end.

Definition lookup_credential (b : InMemoryAuthBackend) (raw : string) : option CredentialRecord :=
  let identifier := identifier_of raw in
  match get_credential_by_hash b (sha256_hex identifier) with
  | Some cred => Some cred
  | None => if decide (identifier = raw) then None else get_credential_by_hash b (sha256_hex raw)
  end.

Definition authenticate (raw : string) : M W AuthContext :=
  cred ← mgets (fun w => lookup_credential (auth_of w) raw);
  match cred with
  | None =>
      let e := AuthenticationError "Invalid credential" in
      _emit_audit None "unknown" None failure (Some e) ;; mthrow e
  | Some cred => _verify_with_record cred raw
  end.

(** ** auth/_authorizer.py *)

Definition authorize (auth_context : AuthContext) (required_scope : string) : result unit :=
  if decide (required_scope ∈ ac_scopes auth_context) then Ok tt
  else Raise (AuthorizationError "Consumer lacks required scope").

(** ** auth/_middleware.py *)

Record asgi_scope := {
  sc_type : string;
  sc_headers : list (string * string);
  (** [scope["state"]["auth_context"]] *)
  sc_auth_context : option AuthContext
}.
#[export] Instance eta_asgi_scope : Eta asgi_scope := fun s => {|
  sc_type := sc_type s; sc_headers := sc_headers s; sc_auth_context := sc_auth_context s |}.

(** What the middleware itself sends *)
Inductive asgi_message :=
| ResponseError (status : Z) (detail : string)
| WebsocketClose (code : Z).

(** Bytes to Latin-1 text, which is kept as its UTF-8 bytes *)
Definition latin1_char (a : Ascii.ascii) : string :=
  let n := Ascii.nat_of_ascii a in
  if Nat.ltb n 128 then String a EmptyString
  else String (Ascii.ascii_of_nat (192 + n / 64)) (String (Ascii.ascii_of_nat (128 + n mod 64)) EmptyString).

Fixpoint latin1 (b : string) : string :=
  match b with EmptyString => EmptyString | String a b' => (latin1_char a +:+ latin1 b')%string end.

(** White space among the characters of Latin-1 *)
Definition latin1_space (a : Ascii.ascii) : bool :=
  is_space a || Nat.eqb (Ascii.nat_of_ascii a) 133 || Nat.eqb (Ascii.nat_of_ascii a) 160.

Fixpoint _extract_bearer_token (headers : list (string * string)) : option string :=
  match headers with
  | [] => None
  | (name, v) :: headers' =>
      if decide (str_lower name = "authorization"%string) then
        let v := if str_prefix "bearer " (str_lower v) then str_drop 7 v else v in
        Some (latin1 (lstrip latin1_space (rstrip latin1_space v)))
      else _extract_bearer_token headers'
  end.

Context (app : asgi_scope -> M W unit) (receive : M W unit) (send : asgi_message -> M W unit).

(** [authenticator.authenticate] with any failure as a value *)
Definition try_authenticate (scope : asgi_scope) : M W (option (result AuthContext)) :=
  match _extract_bearer_token (sc_headers scope) with
  | None => mret None
  | Some raw_token => r ← mtry (authenticate raw_token); mret (Some r)
  end.

Definition _handle_http (scope : asgi_scope) : M W unit :=
  r ← try_authenticate scope;
  match r with
  | None => send (ResponseError 401 "Missing Authorization header")
  | Some (Raise _) => send (ResponseError 401 "Invalid or expired credential")
  | Some (Ok auth_context) => app (scope .[sc_auth_context := Some auth_context])
  end.

Definition _reject_websocket : M W unit := receive ;; send (WebsocketClose 4001).

Definition _handle_websocket (scope : asgi_scope) : M W unit :=
  r ← try_authenticate scope;
  match r with
  | Some (Ok auth_context) => app (scope .[sc_auth_context := Some auth_context])
  | _ => _reject_websocket
  end.

Definition auth_middleware (scope : asgi_scope) : M W unit :=
  if decide (sc_type scope = "http"%string) then _handle_http scope
  else if decide (sc_type scope = "websocket"%string) then _handle_websocket scope
  else app scope.
End auth.
