(* ===== verification/AuthSpec.v ===== *)
(** Theorems about [Auth]: which credentials authenticate, what is audited, and what gets past the
    middleware. *)
From S2P Require Import Prelude PyDict Text Secrets Identity Auth.

(** A text without a colon; the three parts of one that has two *)
Definition no_colon (s : string) : Prop := colon ∉ String.list_ascii_of_string s.
Definition parts (raw identifier signature message : string) : Prop :=
  raw = (identifier +:+ String colon (signature +:+ String colon message))%string /\
  no_colon identifier /\ no_colon signature.

Lemma partition_colon_none s t : partition_colon s = None -> partition_colon (s +:+ String colon t) = Some (s, t).
Proof.
  induction s as [|a s IH]; [done|]. intros Hn. rewrite str_app_cons. cbn [partition_colon] in *.
  case_decide; [done|]. destruct (partition_colon s) as [[p r]|]; [done|]. by rewrite IH.
Qed.

Lemma no_colon_partition s : no_colon s <-> partition_colon s = None.
Proof.
  unfold no_colon. induction s as [|a s IH]; cbn [partition_colon String.list_ascii_of_string].
  { split; [done|]. by intros _ ?%not_elem_of_nil. }
  rewrite not_elem_of_cons, IH. case_decide as Ha; [split; [by intros [[] _]|done]|].
  destruct (partition_colon s) as [[p r]|]; simpl; [split; [by intros [_ ?]|done]|]. by split; [|split].
Qed.
Lemma partition_colon_parts s p r :
  partition_colon s = Some (p, r) -> s = (p +:+ String colon r)%string /\ no_colon p.
Proof.
  revert p. induction s as [|a s IH]; intros p; [done|]. cbn [partition_colon].
  case_decide as Ha; [intros [= <- <-]; subst a; split; [done|by intros ?%not_elem_of_nil]|].
  destruct (partition_colon s) as [[q r']|] eqn:Ep; cbn; [|done]. intros [= <- <-].
  destruct (IH q eq_refl) as [-> Hq]. split; [done|]. unfold no_colon. cbn [String.list_ascii_of_string].
  apply not_elem_of_cons. split; [congruence|exact Hq].
Qed.

Lemma parts_split raw i sig msg : parts raw i sig msg -> split_colon_2 raw = Some (i, sig, msg).
Proof.
  intros (-> & Hi%no_colon_partition & Hs%no_colon_partition). unfold split_colon_2.
  rewrite (partition_colon_none i) by done. cbn [mbind option_bind]. by rewrite partition_colon_none.
Qed.
Lemma split_colon_2_spec raw :
  match split_colon_2 raw with
  | Some (i, sig, msg) => parts raw i sig msg
  | None => forall i sig msg, ~ parts raw i sig msg
  end.
Proof.
  destruct (split_colon_2 raw) as [[[i sig] msg]|] eqn:E; [|intros i sig msg Hp%parts_split; congruence].
  unfold split_colon_2 in E. destruct (partition_colon raw) as [[p r]|] eqn:Ep; [|done]. cbn [mbind option_bind] in E.
  destruct (partition_colon r) as [[q m]|] eqn:Er; [|done]. injection E as <- <- <-.
  apply partition_colon_parts in Ep as [-> Hp], Er as [-> Hq]. done.
Qed.
(** The first part is not the whole. *)
Lemma parts_not_whole raw i sig msg : parts raw i sig msg -> i <> raw.
Proof. intros (-> & _ & _) E. apply (f_equal String.length) in E. rewrite str_length_app in E. simpl in E. lia. Qed.

Section spec.
Context (sha256_hex : string -> string) (hmac_hex : string -> string -> string -> string).

(** ** What it is to present a credential *)

(** Some version of the key makes the signature of the message. *)
Definition signed (registry : SecretRegistry) (algorithm key_ref message signature : string) : Prop :=
  exists algo name version key,
    assoc (str_lower algorithm) _ALGORITHMS = Some algo /\ ascii_only signature = true /\
    (name, version) ∈ _build_candidates key_ref /\ resolve registry name = Ok key /\
    hmac_hex algo key message = signature.

Definition proves (v : AnyVerifier) (cred : CredentialRecord) (presented : string) : Prop :=
  match v with
  | HashCredentialVerifier _ => cr_credential_hash cred = sha256_hex presented
  | HmacCredentialVerifier registry =>
      exists secret_ref identifier signature message,
        cr_secret_ref cred = Some secret_ref /\
        split_colon_2 presented = Some (identifier, signature, message) /\
        signed registry (cr_algorithm cred) secret_ref message signature
  end.

(** [cred], presented as [presented], stands for an enabled consumer. *)
Definition authentic (verifiers : dict string AnyVerifier) (b : InMemoryAuthBackend) (now : time)
    (cred : CredentialRecord) (presented : string) (ctx : AuthContext) : Prop :=
  exists v consumer,
    verifiers !! cr_credential_type cred = Some v /\ proves v cred presented /\
    _consumers b !! cr_consumer_id cred = Some consumer /\ cn_disabled_at consumer = None /\
    ctx = _build_auth_context now cred consumer.

Lemma try_versions_spec registry algo message signature candidates :
  match try_versions hmac_hex registry algo message signature candidates with
  | Ok (Some version) =>
      exists name key, ascii_only signature = true /\ (name, version) ∈ candidates /\
        resolve registry name = Ok key /\ hmac_hex algo key message = signature
  | Ok None =>
      forall name version key, (name, version) ∈ candidates -> resolve registry name = Ok key ->
        hmac_hex algo key message <> signature
  | Raise e => is_authentication_error e = false /\ ascii_only signature = false
  end.
Proof.
  induction candidates as [|[name version] l IH]; cbn [try_versions].
  { intros ??? H. by apply not_elem_of_nil in H. }
  destruct (resolve registry name) as [key|e] eqn:Er.
  - unfold compare_digest. destruct (ascii_only signature) eqn:Ea; [|by split]. cbn.
    case_bool_decide as Eh.
    + exists name, key. split_and!; [done|left|done|done].
    + destruct (try_versions _ _ _ _ _ l) as [[v|]|e]; [| |done].
      * destruct IH as (n & k & ? & ? & ? & ?). exists n, k. split_and!; [done|by right|done|done].
      * intros n v k [[= -> ->]|Hin]%elem_of_cons Hr; [congruence|by apply (IH n v)].
  - destruct (try_versions _ _ _ _ _ l) as [[v|]|e']; [| |done].
    + destruct IH as (n & k & ? & ? & ? & ?). exists n, k. split_and!; [done|by right|done|done].
    + intros n v k [[= -> ->]|Hin]%elem_of_cons Hr; [congruence|by apply (IH n v)].
Qed.

Lemma mac_verify_spec registry key_ref message signature algorithm :
  match mac_verify hmac_hex registry key_ref message signature algorithm with
  | Ok verdict => mv_match verdict = true <-> signed registry algorithm key_ref message signature
  | Raise e => is_authentication_error e = false /\ ~ signed registry algorithm key_ref message signature
  end.
Proof.
  unfold mac_verify, signed. destruct (assoc _ _ALGORITHMS) as [algo|]; [|by split; [|intros (? & ? & ? & ? & ? & ?)]].
  assert (H := try_versions_spec registry algo message signature (_build_candidates key_ref)).
  destruct (try_versions _ _ _ _ _ _) as [[v|]|e]; cbn.
  - split; [intros _|done]. destruct H as (n & k & ? & ? & ? & ?). exists algo, n, v, k. done.
  - split; [done|]. intros (a & n & v & k & [= <-] & _ & ? & ? & ?). exfalso. by eapply H.
  - destruct H as [He Ha]. split; [done|]. intros (? & ? & ? & ? & _ & ? & _). congruence.
Qed.

(** What [find_consumer] decides *)
Lemma find_consumer_spec b now cred :
  match find_consumer b now cred with
  | Ok ctx => exists consumer, _consumers b !! cr_consumer_id cred = Some consumer /\
                cn_disabled_at consumer = None /\ ctx = _build_auth_context now cred consumer
  | Raise e => is_authentication_error e = true /\
               forall consumer, _consumers b !! cr_consumer_id cred = Some consumer ->
                 cn_disabled_at consumer <> None
  end.
Proof.
  unfold find_consumer, get_consumer. destruct (_consumers b !! _) as [consumer|]; [|done].
  destruct (cn_disabled_at consumer) eqn:E; [|by exists consumer].
  split; [done|]. intros ? [= <-]. congruence.
Qed.

Definition verified_as (v : AnyVerifier) (b : InMemoryAuthBackend) (now : time) (cred : CredentialRecord)
    (presented : string) (ctx : AuthContext) : Prop :=
  proves v cred presented /\ exists consumer,
    _consumers b !! cr_consumer_id cred = Some consumer /\ cn_disabled_at consumer = None /\
    ctx = _build_auth_context now cred consumer.

Lemma verify_spec v b now cred presented :
  match verify sha256_hex hmac_hex v b now cred presented with
  | Ok ctx => verified_as v b now cred presented ctx
  | Raise _ => forall ctx, ~ verified_as v b now cred presented ctx
  end.
Proof.
  assert (Hc := find_consumer_spec b now cred). unfold verified_as. destruct v as [t|registry]; simpl.
  - unfold verify_hash. case_decide as Eh; [|by intros ? [? _]].
    destruct (find_consumer b now cred) as [ctx|e]; [done|]. destruct Hc as [_ Hc].
    intros ctx (_ & c & Hin & Hd & _). by apply (Hc c).
  - unfold verify_hmac. destruct (cr_secret_ref cred) as [ref|] eqn:Es.
    2: { by intros ctx [(? & ? & ? & ? & ? & _) _]. }
    destruct (split_colon_2 presented) as [[[i s] m]|] eqn:Ep.
    2: { by intros ctx [(? & ? & ? & ? & _ & ? & _) _]. }
    assert (Hm := mac_verify_spec registry ref m s (cr_algorithm cred)).
    destruct (mac_verify _ _ _ _ _ _) as [verdict|e]; cbn.
    + destruct (mv_match verdict) eqn:Ev.
      * destruct (find_consumer b now cred) as [ctx|e].
        -- split; [|done]. exists ref, i, s, m. split_and!; [done|done|by apply Hm].
        -- destruct Hc as [_ Hc]. intros ctx (_ & c & Hin & Hd & _). by apply (Hc c).
      * intros ctx [(? & ? & ? & ? & [= <-] & [= <- <- <-] & Hs) _]. apply Hm in Hs. congruence.
    + destruct Hm as [_ Hm]. by intros ctx [(? & ? & ? & ? & [= <-] & [= <- <- <-] & Hs) _].
Qed.

(** ** The authenticator, whatever its sink does *)

Section outcome.
Context {W : Type} (auth_of : W -> InMemoryAuthBackend) (clock : W -> time).
Context (verifiers : dict string AnyVerifier) (sink : option (AuthAuditEvent -> M W unit)).

Lemma emit_audit_any {A} cid ty consumer o reason (k : M W A) Q E w :
  (forall w', wp k Q E w') -> wp (_emit_audit clock sink cid ty consumer o reason ;; k) Q E w.
Proof.
  intros Hk. apply wp_bind. unfold _emit_audit. destruct sink as [on_event|]; [|by apply wp_ret].
  apply wp_bind, wp_mgets. unfold wp, mcatch. destruct (on_event _ w) as [[[]|e] w']; apply Hk.
Qed.

Lemma verify_with_record_outcome cred presented w :
  wp (_verify_with_record sha256_hex hmac_hex auth_of clock verifiers sink cred presented)
    (fun ctx _ => authentic verifiers (auth_of w) (clock w) cred presented ctx)
    (fun _ _ => forall ctx, ~ authentic verifiers (auth_of w) (clock w) cred presented ctx) w.
Proof.
  unfold _verify_with_record, authentic.
  destruct (verifiers !! cr_credential_type cred) as [v|] eqn:Ev.
  2: { apply emit_audit_any. intros w'. apply wp_throw. by intros ctx (? & ? & ? & _). }
  apply wp_bind, wp_mgets. assert (Hv := verify_spec v (auth_of w) (clock w) cred presented).
  destruct (verify _ _ _ _ _ _ _) as [ctx|e].
  - apply emit_audit_any. intros w'. apply wp_ret. destruct Hv as (? & c & ? & ? & ?). by exists v, c.
  - assert (Hno : forall ctx, ~ exists v' consumer, Some v = Some v' /\ proves v' cred presented /\
        _consumers (auth_of w) !! cr_consumer_id cred = Some consumer /\ cn_disabled_at consumer = None /\
        ctx = _build_auth_context (clock w) cred consumer).
    { intros ctx (v' & c & [= <-] & ? & ? & ? & ?). apply (Hv ctx). split; [done|]. by exists c. }
    destruct (is_authentication_error e); [apply emit_audit_any; intros w'|]; by apply wp_throw.
Qed.

Lemma verify_by_id_outcome credential_id presented w :
  wp (verify_by_credential_id sha256_hex hmac_hex auth_of clock verifiers sink credential_id presented)
    (fun ctx _ => exists cred, _credentials (auth_of w) !! credential_id = Some cred /\
       authentic verifiers (auth_of w) (clock w) cred presented ctx)
    (fun _ _ => forall cred ctx, _credentials (auth_of w) !! credential_id = Some cred ->
       ~ authentic verifiers (auth_of w) (clock w) cred presented ctx) w.
Proof.
  unfold verify_by_credential_id, get_credential_by_id. apply wp_bind, wp_mgets.
  destruct (_credentials (auth_of w) !! credential_id) as [cred|].
  - eapply wp_mono; [apply verify_with_record_outcome| |]; cbn.
    + intros ctx w' Ha. by exists cred.
    + by intros e w' Hno c ctx [= <-].
  - apply emit_audit_any. intros w'. by apply wp_throw.
Qed.

Lemma authenticate_outcome raw w :
  wp (authenticate sha256_hex hmac_hex auth_of clock verifiers sink raw)
    (fun ctx _ => exists cred, lookup_credential sha256_hex (auth_of w) raw = Some cred /\
       authentic verifiers (auth_of w) (clock w) cred raw ctx)
    (fun _ _ => True) w.
Proof.
  unfold authenticate. apply wp_bind, wp_mgets. destruct (lookup_credential _ _ raw) as [cred|].
  - eapply wp_mono; [apply verify_with_record_outcome|by eauto|done].
  - apply emit_audit_any. intros w'. by apply wp_throw.
Qed.
End outcome.

(** ** What is audited *)

Section authenticator.
Context {W : Type} (auth_of : W -> InMemoryAuthBackend) (clock : W -> time).
Context (verifiers : dict string AnyVerifier).
Context (on_event : AuthAuditEvent -> M W unit) (audits : W -> list AuthAuditEvent).

(** The sink records every event, whether it raises or not, and touches no consumer or credential. *)
Definition records : Prop :=
  forall ev w, audits (snd (on_event ev w)) = audits w ++ [ev] /\
               auth_of (snd (on_event ev w)) = auth_of w.
Hypothesis sink_records : records.

Abbreviation run_authenticate := (authenticate sha256_hex hmac_hex auth_of clock verifiers (Some on_event)).
Abbreviation run_verify_by_id :=
  (verify_by_credential_id sha256_hex hmac_hex auth_of clock verifiers (Some on_event)).

(** One audit event more, with this outcome *)
Definition audited (o : outcome) (cred : option CredentialRecord) (w w' : W) : Prop :=
  auth_of w' = auth_of w /\
  exists ev, audits w' = audits w ++ [ev] /\ au_outcome ev = o /\
    forall c, cred = Some c -> au_credential_id ev = Some (cr_id c) /\ au_consumer_id ev = Some (cr_consumer_id c).

Lemma emit_audit_spec cid ty consumer o reason w E :
  wp (_emit_audit clock (Some on_event) cid ty consumer o reason)
    (fun _ w' => auth_of w' = auth_of w /\ exists now, audits w' = audits w ++
       [{| au_credential_id := cid; au_credential_type := ty; au_consumer_id := consumer; au_outcome := o;
           au_reason := reason; au_verified_at := now |}]) E w.
Proof.
  unfold _emit_audit. apply wp_bind, wp_mgets. unfold wp, mcatch.
  match goal with |- context [on_event ?ev w] => destruct (sink_records ev w) as [Ha Hb] end.
  destruct (on_event _ w) as [[[]|e] w']; cbn in *; (split; [done|by eexists]).
Qed.

(** How an attempt with the record [cred] ends *)
Definition verdict_on (cred : CredentialRecord) (presented : string) (w : W) (m : M W AuthContext) : Prop :=
  wp m
    (fun ctx w' => authentic verifiers (auth_of w) (clock w) cred presented ctx /\ audited success (Some cred) w w')
    (fun e w' => (forall ctx, ~ authentic verifiers (auth_of w) (clock w) cred presented ctx) /\
       if is_authentication_error e then audited failure (Some cred) w w' else w' = w) w.

Lemma audit_then {A} (cred : CredentialRecord) o reason (k : M W A) (Q : A -> W -> Prop) E w :
  (forall w', audited o (Some cred) w w' -> wp k Q E w') ->
  wp (_emit_audit clock (Some on_event) (Some (cr_id cred)) (cr_credential_type cred)
        (Some (cr_consumer_id cred)) o reason ;; k) Q E w.
Proof.
  intros Hk. apply wp_bind. eapply wp_mono; [apply (emit_audit_spec _ _ _ _ _ w E)| |done].
  intros u w' (Ha & now & Hn). apply Hk. split; [done|]. eexists. split; [exact Hn|].
  split; [done|]. by intros c [= <-].
Qed.

Lemma verify_with_record_spec cred presented w :
  verdict_on cred presented w
    (_verify_with_record sha256_hex hmac_hex auth_of clock verifiers (Some on_event) cred presented).
Proof.
  unfold verdict_on, _verify_with_record, authentic.
  destruct (verifiers !! cr_credential_type cred) as [v|] eqn:Ev.
  2: { apply audit_then. intros w' Haud. apply wp_throw. split; [|done]. by intros ctx (? & ? & ? & _). }
  apply wp_bind, wp_mgets. assert (Hv := verify_spec v (auth_of w) (clock w) cred presented).
  destruct (verify _ _ _ _ _ _ _) as [ctx|e].
  - apply audit_then. intros w' Haud. apply wp_ret. split; [|done]. destruct Hv as (? & c & ? & ? & ?).
    by exists v, c.
  - assert (Hno : forall ctx, ~ exists v' consumer, Some v = Some v' /\ proves v' cred presented /\
        _consumers (auth_of w) !! cr_consumer_id cred = Some consumer /\ cn_disabled_at consumer = None /\
        ctx = _build_auth_context (clock w) cred consumer).
    { intros ctx (v' & c & [= <-] & ? & ? & ? & ?). apply (Hv ctx). split; [done|]. by exists c. }
    destruct (is_authentication_error e) eqn:Ee.
    + apply audit_then. intros w' Haud. apply wp_throw. rewrite Ee. by split.
    + apply wp_throw. rewrite Ee. by split.
Qed.

Lemma lookup_credential_sound b raw cred :
  lookup_credential sha256_hex b raw = Some cred ->
  cred ∈ dvalues (_credentials b) /\
  (cr_credential_hash cred = sha256_hex (identifier_of raw) \/ cr_credential_hash cred = sha256_hex raw).
Proof.
  assert (H : forall h, get_credential_by_hash b h = Some cred ->
            cred ∈ dvalues (_credentials b) /\ cr_credential_hash cred = h).
  { intros h E. by apply head_filter_Some in E. }
  unfold lookup_credential. destruct (get_credential_by_hash b (sha256_hex (identifier_of raw))) eqn:E1.
  - intros [= <-]. apply H in E1 as [??]. by split; [|left].
  - case_decide; [done|]. intros E2%H. destruct E2. by split; [|right].
Qed.

(** [raw] is, or names, the stored credential [cred] of an enabled consumer. *)
Definition authenticates (raw : string) (w : W) (cred : CredentialRecord) (ctx : AuthContext) : Prop :=
  lookup_credential sha256_hex (auth_of w) raw = Some cred /\
  authentic verifiers (auth_of w) (clock w) cred raw ctx.

Lemma authenticate_spec raw w :
  wp (run_authenticate raw)
    (fun ctx w' => exists cred, authenticates raw w cred ctx /\ audited success (Some cred) w w')
    (fun e w' => (forall cred ctx, ~ authenticates raw w cred ctx) /\ auth_of w' = auth_of w /\
       if is_authentication_error e then exists cred, audited failure cred w w' else w' = w) w.
Proof.
  unfold authenticate, authenticates. apply wp_bind, wp_mgets.
  destruct (lookup_credential _ _ raw) as [cred|] eqn:El.
  - eapply wp_mono; [apply verify_with_record_spec| |]; cbn.
    + intros ctx w' [Ha Haud]. by exists cred.
    + intros e w' [Hno Haud]. split; [by intros c ctx [[= <-] ?%Hno]|].
      destruct (is_authentication_error e); [|by subst w'].
      split; [by apply Haud|]. by exists (Some cred).
  - apply wp_bind. eapply wp_mono; [apply (emit_audit_spec _ _ _ _ _ w (fun _ _ => False))| |done].
    intros u w' [Ha [now Hn]]. apply wp_throw. split; [by intros c ctx [? _]|]. split; [done|].
    exists None. split; [done|]. eexists. by split.
Qed.

(** The first credential stored under a hash *)
Definition first_with (h : string) (creds : list CredentialRecord) (cred : CredentialRecord) : Prop :=
  exists before after, creds = before ++ cred :: after /\ cr_credential_hash cred = h /\
    forall c, c ∈ before -> cr_credential_hash c <> h.

(** The stored credential a token stands for: that under the hash of its first part, if it has three; that under the
    hash of the whole token, if it has not, or if none is stored under the hash of its first part. *)
Inductive designated (raw : string) (creds : list CredentialRecord) (cred : CredentialRecord) : Prop :=
| by_first_part identifier signature message :
    parts raw identifier signature message -> first_with (sha256_hex identifier) creds cred -> designated raw creds cred
| by_whole :
    (forall identifier signature message, parts raw identifier signature message ->
       forall c, c ∈ creds -> cr_credential_hash c <> sha256_hex identifier) ->
    first_with (sha256_hex raw) creds cred -> designated raw creds cred.

Lemma by_hash_first b h cred :
  get_credential_by_hash b h = Some cred <-> first_with h (dvalues (_credentials b)) cred.
Proof.
  unfold get_credential_by_hash, first_with. induction (dvalues (_credentials b)) as [|c l IH].
  { split; [done|]. by intros ([|] & ? & ? & _). }
  rewrite filter_cons. case_decide as Hc; simpl.
  - split.
    + intros [= <-]. exists [], l. split_and!; [done|done|]. by intros ? ?%not_elem_of_nil.
    + intros ([|c' before] & after & [= -> E] & Hh & Hn); [done|]. destruct (Hn c'); [left|done].
  - rewrite IH. split.
    + intros (before & after & -> & Hh & Hn). exists (c :: before), after. split_and!; [done|done|].
      intros x [->|Hx]%elem_of_cons; [done|by apply Hn].
    + intros ([|c' before] & after & [= -> ->] & Hh & Hn); [done|]. exists before, after. split_and!; [done|done|].
      intros x Hx. apply Hn. by right.
Qed.

Lemma by_hash_none b h :
  get_credential_by_hash b h = None <-> forall c, c ∈ dvalues (_credentials b) -> cr_credential_hash c <> h.
Proof.
  unfold get_credential_by_hash. induction (dvalues (_credentials b)) as [|c l IH].
  { split; [by intros _ ? ?%not_elem_of_nil|done]. }
  rewrite filter_cons. case_decide as Hc; simpl.
  - split; [done|]. intros Hn. by destruct (Hn c); [left|].
  - rewrite IH. split; [intros Hn x [->|Hx]%elem_of_cons; [done|by apply Hn]|]. intros Hn x Hx. apply Hn. by right.
Qed.

(** The lookup finds the credential a token stands for. *)
Lemma lookup_designated b raw cred :
  lookup_credential sha256_hex b raw = Some cred <-> designated raw (dvalues (_credentials b)) cred.
Proof.
  unfold lookup_credential, identifier_of. pose proof (split_colon_2_spec raw) as Hsplit.
  destruct (split_colon_2 raw) as [[[i sig] msg]|].
  - destruct (get_credential_by_hash b (sha256_hex i)) as [c|] eqn:E.
    + split; [intros [= ->]; by eapply by_first_part, by_hash_first|]. intros [i' sig' msg' Hp Hf|Hno Hf].
      * apply parts_split in Hp, Hsplit. rewrite Hsplit in Hp. injection Hp as <- <- <-.
        apply by_hash_first in Hf. congruence.
      * assert (Hn : get_credential_by_hash b (sha256_hex i) = None) by by eapply by_hash_none, Hno. congruence.
    + rewrite decide_False by (by eapply parts_not_whole). rewrite by_hash_first. split; [|intros [i' sig' msg' Hp Hf|Hno Hf]].
      * apply by_whole. intros i' sig' msg' Hp. apply parts_split in Hp, Hsplit. rewrite Hsplit in Hp.
        injection Hp as <- <- <-. by apply by_hash_none.
      * apply parts_split in Hp, Hsplit. rewrite Hsplit in Hp. injection Hp as <- <- <-. apply by_hash_first in Hf. congruence.
      * done.
  - assert (Hwhole : designated raw (dvalues (_credentials b)) cred <-> first_with (sha256_hex raw) (dvalues (_credentials b)) cred).
    { split; [intros [i' sig' msg' Hp _|_ Hf]; [by apply Hsplit in Hp|done]|]. apply by_whole.
      intros i' sig' msg' Hp. by apply Hsplit in Hp. }
    rewrite Hwhole, <- by_hash_first. destruct (get_credential_by_hash b (sha256_hex raw)) eqn:E; [done|].
    by rewrite decide_True.
Qed.

(** C13. Authenticating a token returns a context exactly if the stored credential it stands for ([designated])
    has a type with a verifier and proves itself - by its hash, or by the MAC of the token's message under some
    version of its key - and its consumer exists and is enabled; the context has that consumer's scopes and
    tier.  Every attempt that returns or raises AuthenticationError is audited once, with the outcome,
    even if the sink raises; an attempt that raises anything else is not.  The sink records what it is given and
    touches no consumer or credential.  (A token of three parts stands for the
    credential stored under the hash of its first part even if another is stored under the hash of all of it:
    that one is refused.) *)
Theorem authenticate_exactly raw w :
  let stored := dvalues (_credentials (auth_of w)) in
  wp (run_authenticate raw)
    (fun ctx w' => exists cred, designated raw stored cred /\
       authentic verifiers (auth_of w) (clock w) cred raw ctx /\ audited success (Some cred) w w')
    (fun e w' => (forall cred ctx, designated raw stored cred ->
         ~ authentic verifiers (auth_of w) (clock w) cred raw ctx) /\ auth_of w' = auth_of w /\
       if is_authentication_error e then exists cred, audited failure cred w w' else w' = w) w.
Proof.
  cbv zeta. eapply wp_mono; [apply authenticate_spec| |]; cbv beta.
  - intros ctx w' (cred & [Hl Ha] & Haud). exists cred. split; [by apply lookup_designated|done].
  - intros e w' [Hno Haud]. split; [|done]. intros cred ctx Hd%lookup_designated Ha. by apply (Hno cred ctx).
Qed.

(** Looked up by id, a credential is held to the same proof. *)
Theorem verify_by_credential_id_exactly credential_id presented w :
  wp (run_verify_by_id credential_id presented)
    (fun ctx w' => exists cred, _credentials (auth_of w) !! credential_id = Some cred /\
       authentic verifiers (auth_of w) (clock w) cred presented ctx /\ audited success (Some cred) w w')
    (fun e w' => (forall cred ctx, _credentials (auth_of w) !! credential_id = Some cred ->
         ~ authentic verifiers (auth_of w) (clock w) cred presented ctx) /\ auth_of w' = auth_of w /\
       if is_authentication_error e then exists cred, audited failure cred w w' else w' = w) w.
Proof.
  unfold verify_by_credential_id, get_credential_by_id. apply wp_bind, wp_mgets.
  destruct (_credentials (auth_of w) !! credential_id) as [cred|] eqn:El.
  - eapply wp_mono; [apply verify_with_record_spec| |]; cbn.
    + intros ctx w' [Ha Haud]. by exists cred.
    + intros e w' [Hno Haud]. split; [by intros c ctx [= <-]|].
      destruct (is_authentication_error e); [|by subst w'].
      split; [by apply Haud|]. by exists (Some cred).
  - apply wp_bind. eapply wp_mono; [apply (emit_audit_spec _ _ _ _ _ w (fun _ _ => False))| |done].
    intros u w' [Ha [now Hn]]. apply wp_throw. split; [done|]. split; [done|].
    exists None. split; [done|]. eexists. by split.
Qed.

(** A token with two colons is not looked at as a whole when a token that is its first part is stored: the
    record of that one is verified instead, and does not match. *)
Theorem colon_token_shadowed raw w cred t :
  get_credential_by_hash (auth_of w) (sha256_hex (identifier_of raw)) = Some cred ->
  verifiers !! cr_credential_type cred = Some (HashCredentialVerifier t) ->
  sha256_hex (identifier_of raw) <> sha256_hex raw ->
  forall cred' ctx, ~ authenticates raw w cred' ctx.
Proof.
  intros Hc Hv Hne cred' ctx [Hl (v & consumer & Hv' & Hp & _)].
  unfold lookup_credential in Hl. rewrite Hc in Hl. injection Hl as <-.
  rewrite Hv in Hv'. injection Hv' as <-. simpl in Hp.
  apply head_filter_Some in Hc as [_ Hh]. congruence.
Qed.

(** ** The middleware *)

Context (app : asgi_scope -> M W unit) (receive : M W unit) (send : asgi_message -> M W unit).
Abbreviation middleware :=
  (auth_middleware sha256_hex hmac_hex auth_of clock verifiers (Some on_event) app receive send).

(** The one answer to a request that does not authenticate *)
Definition refusal (scope : asgi_scope) : M W unit :=
  if decide (sc_type scope = "http"%string) then
    send (ResponseError 401 match _extract_bearer_token (sc_headers scope) with
                             | Some _ => "Invalid or expired credential"
                             | None => "Missing Authorization header"
                             end)
  else receive ;; send (WebsocketClose 4001).

Lemma mtry_run {A} (m : M W A) w :
  (exists a w', m w = (Ok a, w') /\ mtry m w = (Ok (Ok a), w')) \/
  (exists e w', m w = (Raise e, w') /\ mtry m w = (Ok (Raise e), w')).
Proof. unfold mtry. destruct (m w) as [[a|e] w']; [left|right]; by do 2 eexists. Qed.

(** C14. A request over HTTP or a websocket reaches the application behind the middleware exactly if its
    Authorization header holds a credential that authenticates, with the context of that credential and not
    the one it came with; any other gets one refusal, and the application is not called.  The audit sink records
    what it is given and touches no consumer or credential. *)
Theorem middleware_guards scope w :
  sc_type scope = "http"%string \/ sc_type scope = "websocket"%string ->
  (exists raw cred ctx w',
     _extract_bearer_token (sc_headers scope) = Some raw /\ authenticates raw w cred ctx /\
     audited success (Some cred) w w' /\
     middleware scope w = app (scope .[sc_auth_context := Some ctx]) w') \/
  (exists w',
     (forall raw cred ctx, _extract_bearer_token (sc_headers scope) = Some raw -> ~ authenticates raw w cred ctx) /\
     auth_of w' = auth_of w /\ middleware scope w = refusal scope w').
Proof.
  intros Hty. unfold auth_middleware, refusal.
  assert (Heq : forall (r : option (result AuthContext)) w',
     try_authenticate sha256_hex hmac_hex auth_of clock verifiers (Some on_event) scope w = (Ok r, w') ->
     middleware scope w = match r with
       | Some (Ok ctx) => app (scope .[sc_auth_context := Some ctx]) w'
       | Some (Raise _) => if decide (sc_type scope = "http"%string)
                           then send (ResponseError 401 "Invalid or expired credential") w'
                           else (receive ;; send (WebsocketClose 4001)) w'
       | None => if decide (sc_type scope = "http"%string)
                 then send (ResponseError 401 "Missing Authorization header") w'
                 else (receive ;; send (WebsocketClose 4001)) w'
       end).
  { intros r w' E. unfold auth_middleware, _handle_http, _handle_websocket, _reject_websocket.
    destruct Hty as [-> | ->];
      [rewrite !(decide_True (P := "http"%string = "http"%string)) by done
      |rewrite !(decide_False (P := "websocket"%string = "http"%string)), decide_True by done];
      rewrite (M_bind_ok _ _ _ _ _ E); by destruct r as [[?|?]|]. }
  unfold try_authenticate in Heq. destruct (_extract_bearer_token (sc_headers scope)) as [raw|].
  - assert (Hs := authenticate_spec raw w). unfold wp in Hs.
    destruct (mtry_run (run_authenticate raw) w) as [(ctx & w' & E & Et)|(e & w' & E & Et)];
      rewrite E in Hs; specialize (Heq _ w' (M_bind_ok _ _ _ _ _ Et)).
    + left. destruct Hs as (cred & Ha & Haud). by exists raw, cred, ctx, w'.
    + right. exists w'. destruct Hs as (Hno & Hauth & _). split; [by intros ? c ctx [= <-]|].
      split; [done|]. etransitivity; [exact Heq|]. by case_decide.
  - right. exists w. split; [done|]. split; [done|]. etransitivity; [by apply Heq|]. by case_decide.
Qed.
End authenticator.
End spec.

(** ** A small world *)

Module Demo.
Definition sha (s : string) : string := ("#" +:+ s)%string.
Definition mac (algo key message : string) : string := (algo +:+ ("-" +:+ (key +:+ ("-" +:+ message))))%string.

(** The backend, the audit trail and what the application and the client were handed *)
Record world := World {
  dw_auth : InMemoryAuthBackend;
  dw_audits : list AuthAuditEvent;
  dw_calls : list (asgi_scope + asgi_message)
}.

(** A sink that records an event and then breaks *)
Definition sink (ev : AuthAuditEvent) : M world unit := fun w =>
  (Raise (OtherError "sink"), World (dw_auth w) (dw_audits w ++ [ev]) (dw_calls w)).
Definition called (x : asgi_scope + asgi_message) : M world unit := fun w =>
  (Ok tt, World (dw_auth w) (dw_audits w) (dw_calls w ++ [x])).

Definition setup : M InMemoryAuthBackend unit :=
  create_consumer 1 "ci" VERIFIED ["runs:read"]%string 10 20 ;;
  create_consumer 1 "old" IDENTIFIED [] 11 21 ;;
  create_credential sha 30 2 10 "api_key" "tok" None ;;
  create_credential sha 31 2 10 "hmac" "hook" (Some "key"%string) ;;
  create_credential sha 32 2 11 "api_key" "old" None ;;
  disable_consumer 3 11.

Definition secrets : SecretRegistry :=
  match SecretRegistry_init (<["key:2"%string := "s3cr3t"%string]> ∅) with
  | Ok r => r
  | Raise _ => {| _secrets := ∅; _scrub_order := [] |}
  end.

Definition verifiers : dict string AnyVerifier :=
  <["api_key"%string := HashCredentialVerifier "api_key"]> (<["hmac"%string := HmacCredentialVerifier secrets]> ∅).

Definition start : world := World (snd (setup auth_init)) [] [].

Lemma sink_records : records dw_auth sink dw_audits.
Proof. by intros ev w. Qed.

Definition api_key : CredentialRecord := {|
  cr_id := 30; cr_consumer_id := 10; cr_credential_type := "api_key"; cr_credential_hash := "#tok";
  cr_algorithm := "sha256"; cr_secret_ref := None; cr_created_at := 2 |}.
Definition consumer : ConsumerRecord := {|
  cn_id := 10; cn_principal_id := 20; cn_name := "ci"; cn_trust_tier := VERIFIED;
  cn_scope_grants := ["runs:read"]%string; cn_disabled_at := None; cn_created_at := 1 |}.

Lemma api_key_authenticates :
  authenticates sha mac dw_auth (fun _ => 5%Z) verifiers "tok" start api_key
    (_build_auth_context 5 api_key consumer).
Proof. split; [reflexivity|]. exists (HashCredentialVerifier "api_key"), consumer. by split_and!. Qed.

Definition run (raw : string) : M world AuthContext :=
  authenticate sha mac dw_auth (fun _ => 5%Z) verifiers (Some sink) raw.

(** The second version of the key signed this message; a disabled consumer; a signature that is no ASCII. *)
Example signed_message : is_ok (fst (run "hook:sha256-s3cr3t-hi:hi" start)) = true /\
  is_ok (fst (run "hook:x:hi" start)) = false.
Proof. by vm_compute. Qed.
Example disabled_consumer : fst (run "old" start) = Raise (AuthenticationError "Consumer is disabled").
Proof. by vm_compute. Qed.
Example unaudited :
  run (String.append "hook:" (String (Ascii.ascii_of_nat 200) ":m")) start =
  (Raise (TypeError "comparing strings with non-ASCII characters is not supported"), start).
Proof. by vm_compute. Qed.
End Demo.

Lemma authenticate_exactly_witness :
  fst (Demo.run "tok" Demo.start) = Ok (_build_auth_context 5 Demo.api_key Demo.consumer) /\
  exists cred, designated Demo.sha "tok" (dvalues (_credentials (Demo.dw_auth Demo.start))) cred /\
    authentic Demo.sha Demo.mac Demo.verifiers (Demo.dw_auth Demo.start) 5 cred "tok"
      (_build_auth_context 5 Demo.api_key Demo.consumer) /\
    audited Demo.dw_auth Demo.dw_audits success (Some cred) Demo.start (snd (Demo.run "tok" Demo.start)).
Proof.
  assert (E : fst (Demo.run "tok" Demo.start) = Ok (_build_auth_context 5 Demo.api_key Demo.consumer))
    by reflexivity.
  split; [exact E|].
  destruct (wp_returned _ _ _ _ _
    (authenticate_exactly Demo.sha Demo.mac Demo.dw_auth (fun _ => 5%Z) Demo.verifiers Demo.sink Demo.dw_audits
       Demo.sink_records "tok" Demo.start) E) as (cred & Hd & Ha & Haud).
  exists cred. split; [exact Hd|split; [exact Ha|exact Haud]].
Defined.

Definition demo_scope : asgi_scope := {|
  sc_type := "http"; sc_headers := [("Accept", "*/*"); ("AUTHORIZATION", "Bearer tok ")]%string;
  sc_auth_context := None |}.

Lemma middleware_guards_witness :
  exists raw cred ctx w',
    _extract_bearer_token (sc_headers demo_scope) = Some raw /\
    authenticates Demo.sha Demo.mac Demo.dw_auth (fun _ => 5%Z) Demo.verifiers raw Demo.start cred ctx /\
    auth_middleware Demo.sha Demo.mac Demo.dw_auth (fun _ => 5%Z) Demo.verifiers (Some Demo.sink)
      (fun scope => Demo.called (inl scope)) (mret tt) (fun msg => Demo.called (inr msg)) demo_scope Demo.start =
    Demo.called (inl (demo_scope .[sc_auth_context := Some ctx])) w'.
Proof.
  destruct (middleware_guards Demo.sha Demo.mac Demo.dw_auth (fun _ => 5%Z) Demo.verifiers Demo.sink
    Demo.dw_audits Demo.sink_records (fun scope => Demo.called (inl scope)) (mret tt)
    (fun msg => Demo.called (inr msg)) demo_scope Demo.start (or_introl eq_refl))
    as [(raw & cred & ctx & w' & Ht & Ha & _ & E)|(w' & Hno & _)].
  - exists raw, cred, ctx, w'. split; [exact Ht|split; [exact Ha|exact E]].
  - exfalso. exact (Hno "tok"%string _ _ eq_refl Demo.api_key_authenticates).
Defined.
