(* ===== verification/Notification.v ===== *)
(** Notifications: the deliveries of notification/_inmemory.py, the event stream of notification/_stream.py
    and the route of notification/_router.py that opens it.

    A stream is a state machine: [advance] is what its generator does until it is next suspended, between
    which deliveries are created and acknowledged and NOTIFY payloads arrive.  Ids in JSON text are
    [VUuidStr]. *)
From S2P Require Import Prelude PyDict Text Identity.

Record NotificationDelivery := {
  nd_id : uuid;
  nd_target_principal_id : uuid;
  nd_source_ref : string;
  nd_payload : value;
  nd_created_at : time;
  nd_acknowledged_at : option time
}.
#[export] Instance eta_NotificationDelivery : Eta NotificationDelivery := fun d => {|
  nd_id := nd_id d; nd_target_principal_id := nd_target_principal_id d;
  nd_source_ref := nd_source_ref d; nd_payload := nd_payload d; nd_created_at := nd_created_at d;
  nd_acknowledged_at := nd_acknowledged_at d |}.

(** ** _inmemory.py *)

Record InMemoryNotificationBackend := { _deliveries : dict uuid NotificationDelivery }.
#[export] Instance eta_InMemoryNotificationBackend : Eta InMemoryNotificationBackend := fun b => {|
  _deliveries := _deliveries b |}.

Definition notifications_init : InMemoryNotificationBackend := {| _deliveries := ∅ |}.

Definition create_delivery (delivery_id : uuid) (now : time) (target_principal_id : uuid)
    (source_ref : string) (payload : value) : M InMemoryNotificationBackend uuid :=
  mmod (fun b => b .[_deliveries ::= <[delivery_id := {|
    nd_id := delivery_id; nd_target_principal_id := target_principal_id; nd_source_ref := source_ref;
    nd_payload := payload; nd_created_at := now; nd_acknowledged_at := None |}]>]) ;;
  mret delivery_id.

(** The loop of [list_for_principal]; [results] is the list built so far. *)
Fixpoint list_loop (keep : NotificationDelivery -> bool) (limit : Z) (results ds : list NotificationDelivery) :
    list NotificationDelivery :=
  match ds with
  | [] => results
  | d :: ds' =>
      if keep d then
        let results := results ++ [d] in
        if (limit <=? Z.of_nat (length results))%Z then results else list_loop keep limit results ds'
      else list_loop keep limit results ds'
  end.

Definition listed (principal_id : uuid) (unacknowledged_only : bool) (cursor : option uuid)
    (d : NotificationDelivery) : bool :=
  bool_decide (nd_target_principal_id d = principal_id) &&
  negb (unacknowledged_only && bool_decide (is_Some (nd_acknowledged_at d))) &&
  opt_ok (fun c => negb (bool_decide (nd_id d <= c)%Z)) cursor.

Definition list_for_principal (b : InMemoryNotificationBackend) (principal_id : uuid)
    (unacknowledged_only : bool) (cursor : option uuid) (limit : Z) : list NotificationDelivery :=
  list_loop (listed principal_id unacknowledged_only cursor) limit []
    (sort_by nd_created_at (dvalues (_deliveries b))).

Definition acknowledge (now : time) (delivery_id : uuid) : M InMemoryNotificationBackend unit :=
  existing ← mgets (fun b => _deliveries b !! delivery_id);
  match existing with
  | Some d =>
      match nd_acknowledged_at d with
      | None => mmod (fun b => b .[_deliveries ::= <[delivery_id := d .[nd_acknowledged_at := Some now]]>])
      | Some _ => mthrow (KeyError "Notification delivery not found or already acknowledged")
      end
  | None => mthrow (KeyError "Notification delivery not found or already acknowledged")
  end.

(** The default [limit], which the stream uses in both places *)
Definition default_limit : Z := 50.

(** ** _stream.py *)

Section stream.
(** [json.dumps], [json.loads], [datetime.isoformat], [str] of ids and of JSON data, and [UUID(s)] of a text
    that is not the canonical one of an id *)
Context (json_dumps : value -> string) (json_loads : string -> result value).
Context (isoformat : time -> string) (uuid_str : uuid -> string) (py_str : value -> string).
Context (parse_uuid : string -> option uuid).

Definition _serialize_delivery (d : NotificationDelivery) : value :=
  VDict [("id", VUuidStr (nd_id d)); ("target_principal_id", VUuidStr (nd_target_principal_id d));
         ("source_ref", VStr (nd_source_ref d)); ("payload", nd_payload d);
         ("created_at", VStr (isoformat (nd_created_at d)));
         ("acknowledged_at", vopt (isoformat <$> nd_acknowledged_at d))]%string.

Definition _format_sse_event (d : NotificationDelivery) : string :=
  ("id: " +:+ (uuid_str (nd_id d) +:+ (newline +:+ ("event: notification" +:+ (newline +:+ ("data: " +:+
   (json_dumps (_serialize_delivery d) +:+ (newline +:+ newline))))))))%string.

Definition heartbeat : string := (": heartbeat" +:+ (newline +:+ newline))%string.

(** [str(x)] *)
Definition text_of (v : value) : value :=
  match v with VStr _ | VUuidStr _ => v | _ => VStr (py_str v) end.

(** [UUID(x)]: [None] is a ValueError, which every caller handles. *)
Definition UUID (v : value) : result (option uuid) :=
  match v with
  | VUuidStr u => Ok (Some u)
  | VStr s => Ok (parse_uuid s)
  | _ => Raise (OtherError "AttributeError: not a text")
  end.

(** [d.get(k)] of a JSON object, where a missing key and null are both [None] *)
Definition get_or_null (k : string) (v : value) : option value :=
  match vget k v with Some VNone => None | o => o end.

Definition find_delivery (b : InMemoryNotificationBackend) (target : uuid) (delivery_id : value) :
    option NotificationDelivery :=
  head (filter (fun d => VUuidStr (nd_id d) = delivery_id) (list_for_principal b target false None default_limit)).

(** Returns the message and the seen ids. *)
Definition _fetch_live_delivery (b : InMemoryNotificationBackend) (notification : value) (seen_ids : list value) :
    result (option string * list value) :=
  match get_or_null "notification_id" notification with
  | None => Ok (None, seen_ids)
  | Some raw_id =>
      let delivery_id := text_of raw_id in
      if decide (delivery_id ∈ seen_ids) then Ok (None, seen_ids)
      else
        parsed ← UUID delivery_id;
        match parsed, get_or_null "target_principal_id" notification with
        | None, _ | _, None => Ok (None, seen_ids)
        | Some _, Some target =>
            target ← UUID target;
            match target with
            | None => Ok (None, seen_ids)
            | Some target =>
                match find_delivery b target delivery_id with
                | Some d => Ok (Some (_format_sse_event d), seen_ids ++ [delivery_id])
                | None => Ok (None, seen_ids)
                end
            end
        end
  end.

(** Where the generator is *)
Inductive phase := Subscribed | Replaying (rest : list NotificationDelivery) | Live.

Record stream := {
  st_phase : phase;
  live_queue : list value;
  seen_ids : list value;
  (** everything it has yielded *)
  st_sent : list string
}.
#[export] Instance eta_stream : Eta stream := fun s => {|
  st_phase := st_phase s; live_queue := live_queue s; seen_ids := seen_ids s; st_sent := st_sent s |}.

Context (principal_id : uuid) (last_event_id : option value).

(** The state after [event_bus.subscribe] *)
Definition stream_init : stream := {| st_phase := Subscribed; live_queue := []; seen_ids := []; st_sent := [] |}.

Definition _on_notify (payload : string) (s : stream) : result stream :=
  match json_loads payload with
  | Raise _ => Ok s
  | Ok (VDict d) =>
      if decide (assoc "target_principal_id"%string d = Some (VUuidStr principal_id)) then
        Ok (s .[live_queue ::= fun q => q ++ [VDict d]])
      else Ok s
  | Ok _ => Raise (OtherError "AttributeError: no attribute get")
  end.

Definition replay_cursor : result (option uuid) :=
  match last_event_id with None => Ok None | Some v => UUID v end.

(** [notification_sse_generator], up to where it next waits or yields; a wait in the live phase ends with the
    next of the queue or, when there is none for 15 seconds, with a heartbeat. *)
Definition advance (b : InMemoryNotificationBackend) (s : stream) : result stream :=
  match st_phase s with
  | Subscribed =>
      cursor ← replay_cursor;
      Ok (s .[st_phase := Replaying (list_for_principal b principal_id true cursor default_limit)])
  | Replaying (d :: rest) =>
      Ok (s .[st_phase := Replaying rest] .[seen_ids ::= fun l => l ++ [VUuidStr (nd_id d)]]
            .[st_sent ::= fun l => l ++ [_format_sse_event d]])
  | Replaying [] => Ok (s .[st_phase := Live])
  | Live =>
      match live_queue s with
      | [] => Ok (s .[st_sent ::= fun l => l ++ [heartbeat]])
      | notification :: queue =>
          '(msg, seen) ← _fetch_live_delivery b notification (seen_ids s);
          Ok (s .[live_queue := queue] .[seen_ids := seen]
                .[st_sent ::= fun l => match msg with Some m => l ++ [m] | None => l end])
      end
  end.
End stream.

(** ** _router.py *)

(** What the handler reads of the request *)
Record stream_request := {
  rq_auth_context : option AuthContext;
  rq_principal_id : option value;
  rq_last_event_id : option value
}.

Inductive stream_answer :=
| TextAnswer (status : Z)
| StreamAnswer (target : uuid) (last_event_id : option value).

Definition stream_handler (parse_uuid : string -> option uuid) (storage : InMemoryPrincipalStorage)
    (request : stream_request) : result stream_answer :=
  match rq_auth_context request with
  | None => Ok (TextAnswer 401)
  | Some auth_context =>
      caller ← resolve_caller_principal auth_context storage;
      match rq_principal_id request with
      | None => Ok (StreamAnswer (pr_id caller) (rq_last_event_id request))
      | Some requested_id_raw =>
          requested ← UUID parse_uuid requested_id_raw;
          match requested with
          | None => Ok (TextAnswer 400)
          | Some requested_id =>
              if decide (requested_id = pr_id caller) then
                Ok (StreamAnswer (pr_id caller) (rq_last_event_id request))
              else if decide (ac_trust_tier auth_context = SYSTEM) then
                Ok (StreamAnswer requested_id (rq_last_event_id request))
              else Ok (TextAnswer 403)
          end
      end
  end.
