(* ===== verification/NotificationSpec.v ===== *)
(** Theorems about [Notification]: what a stream sends, to whom, and when it falls silent. *)
From S2P Require Import Prelude PyDict Text Secrets Identity IdentitySpec Auth AuthSpec Notification.

(** ** Lists of deliveries *)

Lemma list_loop_spec keep limit results ds :
  (Z.of_nat (length results) < Z.max 1 limit)%Z ->
  list_loop keep limit results ds =
  results ++ take (Z.to_nat (Z.max 1 limit) - length results) (filter (fun d => keep d) ds).
Proof.
  revert results. induction ds as [|d ds IH]; intros results Hlen; simpl.
  { by rewrite filter_nil, take_nil, app_nil_r. }
  rewrite filter_cons. destruct (keep d) eqn:Ek; simpl; [|by apply IH].
  destruct (Z.to_nat (Z.max 1 limit) - length results) as [|n] eqn:En; [lia|]. cbn [take].
  case Z.leb_spec; rewrite length_app; simpl; intros Hl.
  - assert (n = 0) as -> by lia. by rewrite take_0.
  - rewrite IH by (rewrite length_app; simpl; lia). rewrite <- app_assoc. simpl. do 3 f_equal.
    rewrite length_app; simpl. lia.
Qed.

(** The first [limit] - at least one - of the principal's deliveries, oldest first *)
Lemma list_for_principal_spec b p unacked cursor limit :
  list_for_principal b p unacked cursor limit =
  take (Z.to_nat (Z.max 1 limit))
    (filter (fun d => listed p unacked cursor d) (sort_by nd_created_at (dvalues (_deliveries b)))).
Proof.
  unfold list_for_principal. rewrite list_loop_spec by (simpl; lia). by rewrite Nat.sub_0_r.
Qed.

Definition notifications_ok (b : InMemoryNotificationBackend) : Prop :=
  dwf (_deliveries b) /\ forall k d, _deliveries b !! k = Some d -> nd_id d = k.

Lemma nd_ids_NoDup b : notifications_ok b -> NoDup (nd_id <$> dvalues (_deliveries b)).
Proof.
  intros [Hwf Hk]. replace (nd_id <$> dvalues (_deliveries b)) with (dkeys (_deliveries b)); [done|].
  unfold dkeys, dvalues. rewrite <- list_fmap_compose. apply list_fmap_ext. intros i [k d] Hi.
  simpl. symmetry. apply Hk, dict_in_lookup; [done|]. by eapply list_elem_of_lookup_2.
Qed.

Lemma elem_of_listed b p unacked cursor limit d :
  d ∈ list_for_principal b p unacked cursor limit ->
  d ∈ dvalues (_deliveries b) /\ nd_target_principal_id d = p.
Proof.
  rewrite list_for_principal_spec. intros (i & Hd%list_elem_of_lookup_2 & _)%elem_of_take.
  apply list_elem_of_filter in Hd as [Hl Hd]. rewrite elem_of_sort_by in Hd. split; [done|].
  apply Is_true_true in Hl. unfold listed in Hl. apply andb_prop in Hl as [Hl _]. apply andb_prop in Hl as [Hl _].
  by apply bool_decide_eq_true in Hl.
Qed.

Lemma listed_NoDup b p unacked cursor limit :
  notifications_ok b -> NoDup (nd_id <$> list_for_principal b p unacked cursor limit).
Proof.
  intros Hb. rewrite list_for_principal_spec, fmap_take.
  eapply sublist_NoDup; [|apply sublist_take]. apply fmap_filter_NoDup.
  rewrite (sort_by_perm nd_created_at). by apply nd_ids_NoDup.
Qed.

(** ** A stream and the world around it *)

Section stream.
Context (json_dumps : value -> string) (json_loads : string -> result value).
Context (isoformat : time -> string) (uuid_str : uuid -> string) (py_str : value -> string).
Context (parse_uuid : string -> option uuid).
Context (principal_id : uuid) (last_event_id : option value).

Abbreviation format := (_format_sse_event json_dumps isoformat uuid_str).
Abbreviation advance_stream :=
  (advance json_dumps isoformat uuid_str py_str parse_uuid principal_id last_event_id).
Abbreviation fetch_live := (_fetch_live_delivery json_dumps isoformat uuid_str py_str parse_uuid).

(** Between two moves of the generator: a delivery with a fresh id is created, one is acknowledged, or a
    NOTIFY payload arrives, whatever it says. *)
Inductive stream_step : InMemoryNotificationBackend * stream -> InMemoryNotificationBackend * stream -> Prop :=
| step_create b s id now target source_ref payload :
    _deliveries b !! id = None ->
    (forall d, d ∈ dvalues (_deliveries b) -> (nd_created_at d <= now)%Z) ->
    stream_step (b, s) (snd (create_delivery id now target source_ref payload b), s)
| step_acknowledge b s now id : stream_step (b, s) (snd (acknowledge now id b), s)
| step_notify b s s' payload : _on_notify json_loads principal_id payload s = Ok s' -> stream_step (b, s) (b, s')
| step_advance b s s' : advance_stream b s = Ok s' -> stream_step (b, s) (b, s').

Lemma notifications_ok_insert b id d :
  notifications_ok b -> nd_id d = id -> notifications_ok (b .[_deliveries ::= <[id := d]>]).
Proof.
  intros [Hwf Hk] Hid. split; cbn; [by apply dwf_insert|]. intros k d'. rewrite dict_lookup_insert.
  case_decide; [|apply Hk]. intros [= <-]. congruence.
Qed.

(** What a delivery is, whether acknowledged or not *)
Definition identity_of (d : NotificationDelivery) : uuid * uuid * time :=
  (nd_id d, nd_target_principal_id d, nd_created_at d).

Lemma acknowledge_cases now id b :
  snd (acknowledge now id b) = b \/
  exists d, _deliveries b !! id = Some d /\ nd_acknowledged_at d = None /\
    snd (acknowledge now id b) = b .[_deliveries ::= <[id := d .[nd_acknowledged_at := Some now]]>].
Proof.
  unfold acknowledge, mbind, M_bind, mgets. destruct (_deliveries b !! id) as [d|] eqn:E; [|by left].
  destruct (nd_acknowledged_at d) eqn:Ea; [by left|]. right. by exists d.
Qed.

Lemma step_backend_ok b s b' s' : notifications_ok b -> stream_step (b, s) (b', s') -> notifications_ok b'.
Proof.
  intros Hb H. inversion H; subst; [| |done..].
  - by apply notifications_ok_insert.
  - destruct (acknowledge_cases now id b) as [-> |(d & Hd & _ & ->)]; [done|].
    apply notifications_ok_insert; [done|]. by apply Hb in Hd.
Qed.

(** ** What is sent *)

Definition is_heartbeat (m : string) : Prop := m = heartbeat.

Lemma format_not_heartbeat d : format d <> heartbeat.
Proof. done. Qed.

Definition rest_of (ph : phase) : list NotificationDelivery :=
  match ph with Replaying l => l | _ => [] end.

(** The stream has sent [ds] and heartbeats. *)
Record stream_ok (ds : list NotificationDelivery) (s : stream) : Prop := {
  so_sent : filter (fun m => m <> heartbeat) (st_sent s) = format <$> ds;
  so_seen : seen_ids s = (fun d => VUuidStr (nd_id d)) <$> ds;
  so_once : NoDup (nd_id <$> (ds ++ rest_of (st_phase s)));
  so_own : forall d, d ∈ ds ++ rest_of (st_phase s) -> nd_target_principal_id d = principal_id;
  so_queue : forall n, n ∈ live_queue s -> vget "target_principal_id" n = Some (VUuidStr principal_id);
  so_start : st_phase s = Subscribed -> ds = []
}.

Lemma stream_init_ok : stream_ok [] stream_init.
Proof. constructor; cbn; try done; try (intros ? H; by apply not_elem_of_nil in H). apply NoDup_nil_2. Qed.

(** What taking a notification from the queue does *)
Lemma fetch_live_spec b n seen msg seen' :
  vget "target_principal_id" n = Some (VUuidStr principal_id) ->
  fetch_live b n seen = Ok (msg, seen') ->
  msg = None /\ seen' = seen \/
  exists d, d ∈ list_for_principal b principal_id false None default_limit /\
    (VUuidStr (nd_id d) ∉ seen) /\ msg = Some (format d) /\ seen' = seen ++ [VUuidStr (nd_id d)].
Proof.
  intros Ht. unfold _fetch_live_delivery. destruct (get_or_null "notification_id" n) as [raw|].
  2: { intros [= <- <-]. by left. }
  case_decide as Hseen; [intros [= <- <-]; by left|]. unfold get_or_null at 1. rewrite Ht.
  destruct (UUID parse_uuid (text_of py_str raw)) as [[u|]|e]; [|intros [= <- <-]; by left|done]. cbn.
  destruct (find_delivery b principal_id _) as [d|] eqn:Ef; intros [= <- <-]; [right|by left].
  apply head_filter_Some in Ef as [Hin Hid]. exists d. rewrite Hid. by split_and!.
Qed.

Lemma own_deliveries b ds s unacked cursor :
  notifications_ok b -> stream_ok ds s -> rest_of (st_phase s) = [] -> ds = [] ->
  stream_ok ds (s .[st_phase := Replaying (list_for_principal b principal_id unacked cursor default_limit)]).
Proof.
  intros Hb [H1 H2 H3 H4 H5 H6] Hr ->. constructor; cbn; [done|done| | |done|done].
  - by apply listed_NoDup.
  - intros d Hd. by eapply elem_of_listed.
Qed.

Lemma replay_one ds d rest s :
  st_phase s = Replaying (d :: rest) -> stream_ok ds s ->
  stream_ok (ds ++ [d]) (s .[st_phase := Replaying rest] .[seen_ids ::= fun l => l ++ [VUuidStr (nd_id d)]]
                            .[st_sent ::= fun l => l ++ [format d]]).
Proof.
  intros Eph [H1 H2 H3 H4 H5 H6]. rewrite Eph in H3, H4. cbn in H3, H4.
  constructor; cbn; [| | | |done|done].
  - by rewrite filter_app, H1, fmap_app, filter_cons_True, filter_nil by apply format_not_heartbeat.
  - by rewrite H2, fmap_app.
  - by rewrite <- app_assoc.
  - by rewrite <- app_assoc.
Qed.

Lemma live_one ds d s queue :
  st_phase s = Live -> stream_ok ds s -> (forall n, n ∈ queue -> n ∈ live_queue s) ->
  nd_target_principal_id d = principal_id -> VUuidStr (nd_id d) ∉ seen_ids s ->
  stream_ok (ds ++ [d]) (s .[live_queue := queue] .[seen_ids := seen_ids s ++ [VUuidStr (nd_id d)]]
                            .[st_sent ::= fun l => l ++ [format d]]).
Proof.
  intros Eph [H1 H2 H3 H4 H5 H6] Hq Ht Hseen. rewrite Eph in H3, H4. cbn in H3, H4. rewrite app_nil_r in H3, H4.
  constructor; cbn; rewrite ?Eph; cbn; rewrite ?app_nil_r; [| | | |by auto|done].
  - by rewrite filter_app, H1, fmap_app, filter_cons_True, filter_nil by apply format_not_heartbeat.
  - by rewrite H2, fmap_app.
  - rewrite fmap_app. apply NoDup_app. split_and!; [done| |apply NoDup_singleton].
    intros u Hu ->%list_elem_of_singleton. apply Hseen. rewrite H2. apply list_elem_of_fmap in Hu as (d' & E & Hd').
    apply list_elem_of_fmap. exists d'. by rewrite E.
  - intros d' [Hd'| ->%list_elem_of_singleton]%elem_of_app; [by apply H4|done].
Qed.

(** One move of the generator: nothing, a heartbeat, or one delivery more *)
Lemma advance_spec b ds s s' :
  notifications_ok b -> stream_ok ds s -> advance_stream b s = Ok s' ->
  exists sent, stream_ok (ds ++ sent) s' /\
    (st_phase s = Live -> st_phase s' = Live /\
      forall d, d ∈ sent -> d ∈ list_for_principal b principal_id false None default_limit).
Proof.
  intros Hb Hs. unfold advance. destruct (st_phase s) as [|[|d rest]|] eqn:Eph.
  - destruct (replay_cursor _ _) as [cursor|]; [|done]. cbn. intros [= <-]. exists [].
    rewrite app_nil_r. split; [|done]. apply own_deliveries; [done|done|by rewrite Eph|by apply Hs].
  - intros [= <-]. exists []. rewrite app_nil_r. split; [|done].
    destruct Hs as [H1 H2 H3 H4 H5 H6]. rewrite Eph in *. by constructor.
  - intros [= <-]. exists [d]. split; [|done]. by apply replay_one.
  - destruct (live_queue s) as [|n queue] eqn:Eq.
    + intros [= <-]. exists []. rewrite app_nil_r. split; [|by split; [|intros ? Hin%not_elem_of_nil]].
      destruct Hs as [H1 H2 H3 H4 H5 H6]. constructor; cbn; try done.
      rewrite filter_app, filter_cons_False by auto. by rewrite app_nil_r.
    + destruct (fetch_live b n (seen_ids s)) as [[msg seen]|] eqn:Ef; [|done]. cbn. intros [= <-].
      assert (Hq : forall n', n' ∈ queue -> n' ∈ live_queue s) by (rewrite Eq; by right).
      apply fetch_live_spec in Ef as [[-> ->]|(d & Hin & Hseen & -> & ->)].
      * exists []. rewrite app_nil_r. split; [|by split; [|intros ? Hin%not_elem_of_nil]].
        destruct Hs as [H1 H2 H3 H4 H5 H6]. constructor; cbn; auto.
      * exists [d]. split; [|split; [done|]; by intros ? ->%list_elem_of_singleton].
        apply live_one; [done..| |done]. by eapply elem_of_listed.
      * apply Hs. rewrite Eq. left.
Qed.

Lemma notify_ok ds s s' payload :
  stream_ok ds s -> _on_notify json_loads principal_id payload s = Ok s' ->
  stream_ok ds s' /\ st_phase s' = st_phase s.
Proof.
  intros [H1 H2 H3 H4 H5 H6]. unfold _on_notify. destruct (json_loads payload) as [[]|]; try done.
  2: { intros [= <-]. by split. }
  case_decide as E; intros [= <-]; split; try done. constructor; cbn; try done.
  intros n [Hn| ->%list_elem_of_singleton]%elem_of_app; auto.
Qed.

Lemma step_ok b ds s b' s' :
  notifications_ok b -> stream_ok ds s -> stream_step (b, s) (b', s') ->
  exists sent, stream_ok (ds ++ sent) s' /\
    (st_phase s = Live -> st_phase s' = Live /\
      forall d, d ∈ sent -> d ∈ list_for_principal b principal_id false None default_limit).
Proof.
  intros Hb Hs H. assert (Hsame : exists sent, stream_ok (ds ++ sent) s /\ (st_phase s = Live -> st_phase s = Live /\
      forall d, d ∈ sent -> d ∈ list_for_principal b principal_id false None default_limit)).
  { exists []. rewrite app_nil_r. split; [done|]. by split; [|intros ? Hin%not_elem_of_nil]. }
  inversion H; subst; [exact Hsame..| |by eapply advance_spec].
  match goal with E : _on_notify _ _ _ _ = _ |- _ => apply (notify_ok ds) in E as [Hs' Ep] end; [|done].
  exists []. rewrite app_nil_r, Ep. split; [done|]. by split; [|intros ? Hin%not_elem_of_nil].
Qed.

(** Whatever notifications arrive, whatever they say, and whatever deliveries are made and acknowledged
    meanwhile, a stream sends heartbeats and deliveries of its own principal, each at most once. *)
Lemma stream_sends_own_once b b' s' :
  notifications_ok b -> rtc stream_step (b, stream_init) (b', s') ->
  exists ds, filter (fun m => m <> heartbeat) (st_sent s') = format <$> ds /\
    NoDup (nd_id <$> ds) /\ (forall d, d ∈ ds -> nd_target_principal_id d = principal_id).
Proof.
  intros Hb Hrun.
  assert (H := rtc_inv stream_step (fun bs => notifications_ok bs.1 /\ exists ds, stream_ok ds bs.2)
    (b, stream_init) (b', s')).
  destruct H as (_ & ds & [H1 _ H3 H4 _ _]); [|by split; [|exists []; apply stream_init_ok]|exact Hrun|].
  { intros [b1 s1] [b2 s2] [Hb1 [ds Hs1]] Hstep. split; [by eapply step_backend_ok|].
    destruct (step_ok _ _ _ _ _ Hb1 Hs1 Hstep) as (sent & Hs2 & _). by eexists. }
  cbn in H1, H3, H4. exists ds. split_and!; [done| |].
  - rewrite fmap_app in H3. by apply NoDup_app in H3 as [H3 _].
  - intros d Hd. apply H4, elem_of_app. by left.
Qed.

(** ** The window of the live phase *)

(** The ids of the principal's deliveries, oldest first *)
Definition ids_of (b : InMemoryNotificationBackend) : list uuid :=
  (fun i => i.1.1) <$> filter (fun i => i.1.2 = principal_id)
    (sort_by snd (identity_of <$> dvalues (_deliveries b))).

Lemma ids_of_first b limit :
  nd_id <$> list_for_principal b principal_id false None limit = take (Z.to_nat (1 `max` limit)) (ids_of b).
Proof using principal_id.
  rewrite list_for_principal_spec, fmap_take. unfold ids_of.
  f_equal. rewrite <- (sort_by_fmap nd_created_at snd identity_of) by done.
  generalize (sort_by nd_created_at (dvalues (_deliveries b))). intros l.
  induction l as [|d l IH]; [done|]. rewrite fmap_cons, !filter_cons.
  assert (E : listed principal_id false None d <-> nd_target_principal_id d = principal_id).
  { unfold listed. rewrite !andb_True, bool_decide_spec. simpl. split; [by intros [[? _] _]|done]. }
  rewrite (decide_ext _ _ _ _ E). simpl. case_decide; csimpl; by rewrite IH.
Qed.

Lemma ids_of_listed b :
  nd_id <$> list_for_principal b principal_id false None default_limit = take 50 (ids_of b).
Proof. apply ids_of_first. Qed.

Lemma ids_of_step b s b' s' :
  notifications_ok b -> stream_step (b, s) (b', s') -> exists new, ids_of b' = ids_of b ++ new.
Proof.
  intros Hb H. inversion H; subst.
  - unfold ids_of. cbn. rewrite dvalues_insert_new by done. rewrite fmap_app. cbn [fmap list_fmap].
    rewrite sort_by_snoc.
    + rewrite filter_app, fmap_app. by eexists.
    + apply Forall_forall. intros i (d & -> & Hd)%list_elem_of_fmap. cbn. by auto.
  - exists []. rewrite app_nil_r.
    destruct (acknowledge_cases now id b) as [-> |(d & Hd & _ & ->)]; [done|].
    unfold ids_of. cbn. by rewrite (dvalues_insert_same identity_of id d).
  - exists []. by rewrite app_nil_r.
  - exists []. by rewrite app_nil_r.
Qed.

(** C32. The live phase looks for a delivery among the principal's first fifty, oldest first: once a principal
    has fifty deliveries, read or unread, a live stream sends none that is made later, whatever is notified -
    only heartbeats, and what it had not sent of those fifty. *)
Theorem live_stream_falls_silent b ds s b' s' :
  notifications_ok b -> stream_ok ds s -> st_phase s = Live -> 50 <= length (ids_of b) ->
  rtc stream_step (b, s) (b', s') ->
  exists sent, filter (fun m => m <> heartbeat) (st_sent s') = format <$> ds ++ sent /\
    forall d, d ∈ sent -> nd_id d ∈ take 50 (ids_of b).
Proof.
  intros Hb Hs Hph Hlen Hrun.
  assert (H := rtc_inv stream_step (fun bs => notifications_ok bs.1 /\ st_phase bs.2 = Live /\
      (exists new, ids_of bs.1 = ids_of b ++ new) /\
      exists sent, stream_ok (ds ++ sent) bs.2 /\ forall d, d ∈ sent -> nd_id d ∈ take 50 (ids_of b))
    (b, s) (b', s')).
  destruct H as (_ & _ & _ & sent & Hs' & Hsent); [| |exact Hrun|].
  - intros [b1 s1] [b2 s2] (Hb1 & Hp1 & [new E1] & sent & Hs1 & Hsent) Hstep. cbn in *.
    destruct (step_ok _ _ _ _ _ Hb1 Hs1 Hstep) as (more & Hs2 & Hlive). destruct (Hlive Hp1) as [Hp2 Hin].
    split; [by eapply step_backend_ok|]. split; [done|]. split.
    { destruct (ids_of_step _ _ _ _ Hb1 Hstep) as [new' E2]. exists (new ++ new'). by rewrite E2, E1, app_assoc. }
    exists (sent ++ more). rewrite app_assoc. split; [done|]. intros d [Hd|Hd]%elem_of_app; [by apply Hsent|].
    replace (take 50 (ids_of b)) with (take 50 (ids_of b1)) by (rewrite E1; by apply take_app_le).
    rewrite <- ids_of_listed. apply list_elem_of_fmap. exists d. split; [done|]. by apply Hin.
  - split_and!; [done|done|exists []; by rewrite app_nil_r|]. exists []. rewrite app_nil_r.
    split; [done|]. by intros ? Hin%not_elem_of_nil.
  - exists sent. split; [apply Hs'|done].
Qed.

Lemma fetch_notified b id seen :
  fetch_live b (VDict [("notification_id", VUuidStr id); ("target_principal_id", VUuidStr principal_id)]%string) seen =
  if decide (VUuidStr id ∈ seen) then Ok (None, seen)
  else match find_delivery b principal_id (VUuidStr id) with
       | Some d => Ok (Some (format d), seen ++ [VUuidStr id])
       | None => Ok (None, seen)
       end.
Proof. reflexivity. Qed.

(** A delivery that is notified, stored and not sent yet is sent if it is among the first fifty, and only then. *)
Theorem live_delivery_window b ds s d queue :
  notifications_ok b -> stream_ok ds s -> st_phase s = Live ->
  _deliveries b !! nd_id d = Some d -> nd_target_principal_id d = principal_id ->
  VUuidStr (nd_id d) ∉ seen_ids s ->
  live_queue s = VDict [("notification_id", VUuidStr (nd_id d));
                        ("target_principal_id", VUuidStr principal_id)]%string :: queue ->
  exists s', advance_stream b s = Ok s' /\ live_queue s' = queue /\
    st_sent s' = st_sent s ++ (if decide (nd_id d ∈ take 50 (ids_of b)) then [format d] else []).
Proof.
  intros Hb Hs Hph Hd Ht Hseen Hq. unfold advance.
  rewrite Hph, Hq, fetch_notified, decide_False by done.
  assert (Hiff : nd_id d ∈ take 50 (ids_of b) <-> d ∈ list_for_principal b principal_id false None default_limit).
  { rewrite <- ids_of_listed, list_elem_of_fmap. split; [|by exists d].
    intros (d' & E & Hd'). apply elem_of_listed in Hd' as Hv. destruct Hv as [Hv _].
    apply dict_value_lookup in Hv as [k Hk]; [|apply Hb]. assert (Hk' := Hk). apply Hb in Hk'.
    rewrite <- Hk', <- E, Hd in Hk. by injection Hk as ->. }
  destruct (find_delivery b principal_id (VUuidStr (nd_id d))) as [d'|] eqn:Ef.
  - apply head_filter_Some in Ef as [Hin [= Hid]]. assert (d' = d) as ->.
    { apply elem_of_listed in Hin as [Hv _]. apply dict_value_lookup in Hv as [k Hk]; [|apply Hb].
      assert (Hk' := Hk). apply Hb in Hk'. congruence. }
    rewrite decide_True by (by apply Hiff). eexists. split; [reflexivity|]. by split.
  - unfold find_delivery in Ef. rewrite head_filter_None in Ef.
    rewrite decide_False by (intros Hin%Hiff; by apply (Ef d)).
    eexists. split; [reflexivity|]. split; [done|]. cbn. by rewrite app_nil_r.
Qed.
End stream.

(** ** From a credential to a message *)

Section access.
Context (sha256_hex : string -> string) (hmac_hex : string -> string -> string -> string).
Context {W : Type} (auth_of : W -> InMemoryAuthBackend) (clock : W -> time).
Context (verifiers : dict string AnyVerifier).
Context (json_dumps : value -> string) (json_loads : string -> result value).
Context (isoformat : time -> string) (uuid_str : uuid -> string) (py_str : value -> string).
Context (parse_uuid : string -> option uuid).

(** The principal a stream is opened for is the caller's, unless the caller is the system. *)
Lemma stream_handler_spec n storage request target last :
  pstore_ok n storage -> stream_handler parse_uuid storage request = Ok (StreamAnswer target last) ->
  exists ctx, rq_auth_context request = Some ctx /\ last = rq_last_event_id request /\
    (ac_trust_tier ctx = SYSTEM \/
     exists consumer_id p, ac_consumer_id ctx = Some consumer_id /\ _principals storage !! target = Some p /\
       ref_of p = (KIND_CONSUMER, consumer_id)).
Proof.
  intros Hs. unfold stream_handler. destruct (rq_auth_context request) as [ctx|]; [|done].
  destruct (resolve_caller_principal ctx storage) as [caller|e] eqn:Er; [|done]. cbn.
  assert (Hown : ac_trust_tier ctx = SYSTEM \/
     exists consumer_id p, ac_consumer_id ctx = Some consumer_id /\ _principals storage !! pr_id caller = Some p /\
       ref_of p = (KIND_CONSUMER, consumer_id)).
  { eapply resolve_spec in Er as [Hp Hc]; [|exact Hs]. unfold caller_of in Hc. case_decide; [by left|].
    right. destruct (ac_consumer_id ctx) as [c|]; [by exists c, caller|by destruct Hc]. }
  destruct (rq_principal_id request) as [raw|]; [|intros [= <- <-]; by exists ctx].
  destruct (UUID parse_uuid raw) as [[u|]|]; [|done..]. cbn.
  case_decide; [intros [= <- <-]; by exists ctx|]. case_decide; [|done]. intros [= <- <-].
  exists ctx. split_and!; [done|done|by left].
Qed.

(** C20. If authenticating a credential returned the context a stream is opened with, the stored credential it stands
    for belongs to an enabled consumer, and what the stream sends, apart from heartbeats, are deliveries, each once,
    to the principal of that consumer - to another principal only if the consumer has the tier SYSTEM.  The stores
    are as their operations leave them: principals one per actor, consumers under their ids, deliveries under
    theirs. *)
Theorem notifications_reach_their_owner n storage sink raw w w' ctx request target last b b' s' :
  pstore_ok n storage -> (forall k c, _consumers (auth_of w) !! k = Some c -> cn_id c = k) ->
  notifications_ok b ->
  authenticate sha256_hex hmac_hex auth_of clock verifiers sink raw w = (Ok ctx, w') ->
  rq_auth_context request = Some ctx ->
  stream_handler parse_uuid storage request = Ok (StreamAnswer target last) ->
  rtc (stream_step json_dumps json_loads isoformat uuid_str py_str parse_uuid target last)
    (b, stream_init) (b', s') ->
  exists cred consumer ds, designated sha256_hex raw (dvalues (_credentials (auth_of w))) cred /\
    _consumers (auth_of w) !! cr_consumer_id cred = Some consumer /\ cn_disabled_at consumer = None /\
    filter (fun m => m <> heartbeat) (st_sent s') = _format_sse_event json_dumps isoformat uuid_str <$> ds /\
    NoDup (nd_id <$> ds) /\
    forall d, d ∈ ds -> cn_trust_tier consumer = SYSTEM \/
      exists p, _principals storage !! nd_target_principal_id d = Some p /\
        ref_of p = (KIND_CONSUMER, cr_consumer_id cred).
Proof.
  intros Hs Hkeys Hb Ha Hr Hh Hrun.
  pose proof (authenticate_outcome sha256_hex hmac_hex auth_of clock verifiers sink raw w) as Hw.
  unfold wp in Hw. rewrite Ha in Hw. destruct Hw as (cred & Hl & v & consumer & _ & _ & Hc & Hd & Ectx).
  apply (stream_handler_spec n) in Hh as (ctx' & Hr' & _ & Hown); [|done].
  rewrite Hr in Hr'. injection Hr' as <-.
  apply stream_sends_own_once in Hrun as (ds & Hsent & Hnd & Htarget); [|done].
  exists cred, consumer, ds. split_and!; [by apply lookup_designated|done..|]. intros d Hin. rewrite (Htarget d Hin).
  rewrite Ectx in Hown. destruct Hown as [H|(c & p & [= <-] & Hp & Href)]; [by left|right].
  exists p. split; [done|]. by rewrite Href, (Hkeys _ _ Hc).
Qed.
End access.

(** ** Small runs *)

Module Demo.
Definition dumps (v : value) : string := "{}".
Definition iso (t : time) : string := "t".
Definition id_text (u : uuid) : string := "u".
Definition str_of (v : value) : string := "".
Definition parse (s : string) : option uuid := None.

(** A payload of the trigger of the table of deliveries *)
Definition loads (id target : uuid) (payload : string) : result value :=
  Ok (VDict [("notification_id", VUuidStr id); ("target_principal_id", VUuidStr target)]%string).

Definition deliver (b : InMemoryNotificationBackend) (d : uuid * uuid) : InMemoryNotificationBackend :=
  snd (create_delivery d.1 d.1 d.2 "event" VNone b).
Definition deliveries (ds : list (uuid * uuid)) : InMemoryNotificationBackend :=
  foldl deliver notifications_init ds.

Lemma deliveries_ok ds : notifications_ok (deliveries ds).
Proof.
  assert (H : forall b, notifications_ok b -> notifications_ok (foldl deliver b ds)).
  { induction ds as [|d ds IH]; intros b Hb; [done|]. apply IH. by apply notifications_ok_insert. }
  apply H. split; [apply dwf_empty|done].
Qed.

(** One delivery to the principal 20 and one to another *)
Definition inbox : InMemoryNotificationBackend := deliveries [(1, 20); (2, 99)]%Z.
Definition storage : InMemoryPrincipalStorage :=
  {| _principals := <[20%Z := {| pr_id := 20; pr_kind := KIND_CONSUMER; pr_external_ref := 10;
                                 pr_display_name := None; pr_created_at := 0 |}]> ∅ |}.
Definition context : AuthContext := _build_auth_context 5 AuthSpec.Demo.api_key AuthSpec.Demo.consumer.
Definition request : stream_request :=
  {| rq_auth_context := Some context; rq_principal_id := None; rq_last_event_id := None |}.

Lemma consumers_keyed k c : _consumers (AuthSpec.Demo.dw_auth AuthSpec.Demo.start) !! k = Some c -> cn_id c = k.
Proof.
  assert (H : Forall (fun kc => cn_id kc.2 = kc.1) (ditems (_consumers (AuthSpec.Demo.dw_auth AuthSpec.Demo.start))))
    by (apply (bool_decide_unpack _); vm_compute; exact I).
  rewrite Forall_forall in H. intros Hk%dict_lookup_Some_in. by apply H in Hk.
Qed.

Definition moved (b : InMemoryNotificationBackend) (principal : uuid) (s : stream) : stream :=
  match advance dumps iso id_text str_of parse principal None b s with Ok s' => s' | Raise _ => s end.
Definition sent : stream := moved inbox 20 (moved inbox 20 stream_init).

Lemma storage_ok : pstore_ok 21 storage.
Proof.
  constructor.
  - apply (dwf_insert 20%Z _ ∅), dwf_empty.
  - intros k p. unfold lookup, dict_lookup; simpl. case_decide; [|done]. intros [= <-]. subst k. by split.
  - intros k k' p p'. unfold lookup, dict_lookup; simpl. repeat case_decide; congruence.
Qed.

(** Fifty deliveries to the principal 7, a stream of them in its live phase, and one delivery more *)
Definition fifty : InMemoryNotificationBackend := deliveries ((fun n => (Z.of_nat n, 7%Z)) <$> seq 1 50).
Definition live : stream := {| st_phase := Live; live_queue := []; seen_ids := []; st_sent := [] |}.
Definition one_more : InMemoryNotificationBackend := deliver fifty (51, 7)%Z.
Definition notified : stream := live .[live_queue := [VDict [("notification_id", VUuidStr 51);
  ("target_principal_id", VUuidStr 7)]%string]].

Lemma live_ok : stream_ok dumps iso id_text 7 [] live.
Proof. constructor; cbn; try done; try (intros ? H; by apply not_elem_of_nil in H). apply NoDup_nil_2. Qed.
End Demo.

Lemma notifications_reach_their_owner_witness :
  st_sent Demo.sent = [_format_sse_event Demo.dumps Demo.iso Demo.id_text {|
    nd_id := 1; nd_target_principal_id := 20; nd_source_ref := "event"; nd_payload := VNone;
    nd_created_at := 1; nd_acknowledged_at := None |}] /\
  exists cred consumer ds,
    designated AuthSpec.Demo.sha "tok" (dvalues (_credentials (AuthSpec.Demo.dw_auth AuthSpec.Demo.start))) cred /\
    _consumers (AuthSpec.Demo.dw_auth AuthSpec.Demo.start) !! cr_consumer_id cred = Some consumer /\
    filter (fun m => m <> heartbeat) (st_sent Demo.sent) =
      _format_sse_event Demo.dumps Demo.iso Demo.id_text <$> ds /\
    forall d, d ∈ ds -> cn_trust_tier consumer = SYSTEM \/
      exists p, _principals Demo.storage !! nd_target_principal_id d = Some p /\
        ref_of p = (KIND_CONSUMER, cr_consumer_id cred).
Proof.
  split; [vm_compute; reflexivity|].
  destruct (notifications_reach_their_owner AuthSpec.Demo.sha AuthSpec.Demo.mac AuthSpec.Demo.dw_auth
    (fun _ => 5%Z) AuthSpec.Demo.verifiers Demo.dumps (Demo.loads 0 0) Demo.iso Demo.id_text Demo.str_of Demo.parse
    21 Demo.storage (Some AuthSpec.Demo.sink) "tok" AuthSpec.Demo.start (snd (AuthSpec.Demo.run "tok" AuthSpec.Demo.start))
    Demo.context Demo.request 20 None Demo.inbox Demo.inbox Demo.sent)
    as (cred & consumer & ds & Hcred & Hc & _ & Hs & _ & Hd).
  - exact Demo.storage_ok.
  - exact Demo.consumers_keyed.
  - apply Demo.deliveries_ok.
  - vm_compute. reflexivity.
  - reflexivity.
  - reflexivity.
  - apply rtc_l with (Demo.inbox, Demo.moved Demo.inbox 20 stream_init); [apply step_advance; reflexivity|].
    apply rtc_once, step_advance. vm_compute. reflexivity.
  - exists cred, consumer, ds. split; [exact Hcred|split; [exact Hc|split; [exact Hs|exact Hd]]].
Defined.

Lemma live_stream_falls_silent_witness :
  length (ids_of 7 Demo.fifty) = 50 /\
  exists sent, filter (fun m => m <> heartbeat) (st_sent (Demo.moved Demo.one_more 7 Demo.notified)) =
      _format_sse_event Demo.dumps Demo.iso Demo.id_text <$> [] ++ sent /\
    forall d, d ∈ sent -> nd_id d ∈ take 50 (ids_of 7 Demo.fifty).
Proof.
  split; [vm_compute; reflexivity|].
  apply (live_stream_falls_silent Demo.dumps (Demo.loads 51 7) Demo.iso Demo.id_text Demo.str_of Demo.parse 7 None
    Demo.fifty [] Demo.live Demo.one_more).
  - apply Demo.deliveries_ok.
  - exact Demo.live_ok.
  - reflexivity.
  - vm_compute. repeat constructor.
  - apply rtc_l with (Demo.one_more, Demo.live).
    { apply (step_create _ _ _ _ _ _ _ _ _ _ 51%Z 51%Z); [vm_compute; reflexivity|].
      apply Forall_forall. apply (bool_decide_unpack _). vm_compute. exact I. }
    apply rtc_l with (Demo.one_more, Demo.notified); [apply (step_notify _ _ _ _ _ _ _ _ _ _ _ ""); reflexivity|].
    apply rtc_once, step_advance. vm_compute. reflexivity.
Defined.
