(* ===== verification/Agui.v ===== *)
(** The AG-UI server: the translator of agui/_translator.py with the sinks of _sinks.py, the channels of
    _registry.py, and the handler of _server.py that streams a run to a client.

    fastware's [Broadcaster] is a parameter.  Message ids are drawn from a counter; time stamps are left out,
    as nothing reads them. *)
From S2P Require Import Prelude PyDict Text Types Scheduler OverseerLink Stream Trace TraceReader Identity.

(** ** The AG-UI events the server makes *)

Inductive base_event :=
| TextMessageStartEvent (message_id : nat)
| TextMessageContentEvent (message_id : nat) (delta : string)
| TextMessageEndEvent (message_id : nat)
| ThinkingTextMessageStartEvent
| ThinkingTextMessageContentEvent (delta : string)
| ThinkingTextMessageEndEvent
| ToolCallStartEvent (tool_call_id tool_call_name : string) (parent_message_id : option nat)
| ToolCallEndEvent (tool_call_id : string)
| ToolCallResultEvent (message_id : nat) (tool_call_id content : string)
| StepStartedEvent (step_name : string)
| StepFinishedEvent (step_name : string)
| RunStartedEvent (thread_id run_id : string)
| RunFinishedEvent (thread_id run_id : string)
| RunErrorEvent (message : string)
| CustomEvent (name : string) (v : value)
| StateSnapshotEvent (snapshot : value).

(** ** _translator.py *)

Inductive visibility := silent | overseer | agents.

(** The constructor refuses any other visibility. *)
Definition visibility_of (s : string) : result visibility :=
  if decide (s = "silent"%string) then Ok silent
  else if decide (s = "overseer"%string) then Ok overseer
  else if decide (s = "agents"%string) then Ok agents
  else Raise (ValueError "thinking_visibility must be 'silent', 'overseer', or 'agents'").

Record AGUITranslator := {
  _thread_id : string;
  _run_id : string;
  _thinking_visibility : visibility;
  _text_message_open : bool;
  _current_message_id : option nat;
  _thinking_open : bool
}.
#[export] Instance eta_AGUITranslator : Eta AGUITranslator := fun t => {|
  _thread_id := _thread_id t; _run_id := _run_id t; _thinking_visibility := _thinking_visibility t;
  _text_message_open := _text_message_open t; _current_message_id := _current_message_id t;
  _thinking_open := _thinking_open t |}.

Definition new_translator (thread_id run_id : string) (v : visibility) : AGUITranslator := {|
  _thread_id := thread_id; _run_id := run_id; _thinking_visibility := v; _text_message_open := false;
  _current_message_id := None; _thinking_open := false |}.

(** A translator at work, with the counter of ids *)
Abbreviation T := (M (AGUITranslator * nat)).

Definition tget {A} (f : AGUITranslator -> A) : T A := mgets (fun s => f s.1).
Definition tmod (f : AGUITranslator -> AGUITranslator) : T unit := mmod (fun s => (f s.1, s.2)).
Definition _new_message_id : T nat := n ← mgets snd; mmod (fun s => (s.1, S s.2)) ;; mret n.

Definition _close_text_message : T (list base_event) :=
  is_open ← tget _text_message_open;
  current ← tget _current_message_id;
  match is_open, current with
  | true, Some id =>
      tmod (fun t => t .[_text_message_open := false] .[_current_message_id := None]) ;;
      mret [TextMessageEndEvent id]
  | _, _ => mret []
  end.

Definition _close_thinking : T (list base_event) :=
  is_open ← tget _thinking_open;
  if (is_open : bool) then tmod (fun t => t .[_thinking_open := false]) ;; mret [ThinkingTextMessageEndEvent]
  else mret [].

(** [parent_message_id] may be [None]; a content event for no message raises, as pydantic refuses it. *)
Definition content_event (id : option nat) (text : string) : result base_event :=
  match id with
  | Some id => Ok (TextMessageContentEvent id text)
  | None => Raise (ValueError "message_id")
  end.

Definition _handle_stream_delta (text : string) : T (list base_event) :=
  closed ← _close_thinking;
  is_open ← tget _text_message_open;
  started ← (if (is_open : bool) then mret []
             else msg_id ← _new_message_id;
                  tmod (fun t => t .[_current_message_id := Some msg_id] .[_text_message_open := true]) ;;
                  mret [TextMessageStartEvent msg_id]);
  current ← tget _current_message_id;
  content ← liftr (content_event current text);
  mret (closed ++ started ++ [content]).

(** The messages that are open are ended first. *)
Definition after_closing (e : T base_event) : T (list base_event) :=
  thinking ← _close_thinking;
  text ← _close_text_message;
  e ← e;
  mret (thinking ++ text ++ [e]).

Definition _handle_step_start (session_id : string) : T (list base_event) :=
  after_closing (mret (StepStartedEvent session_id)).
Definition _handle_step_finish (reason : string) : T (list base_event) :=
  after_closing (mret (StepFinishedEvent reason)).
Definition _handle_tool_executing (tool_use_id tool_name : string) : T (list base_event) :=
  after_closing (parent ← tget _current_message_id; mret (ToolCallStartEvent tool_use_id tool_name parent)).
Definition _handle_result : T (list base_event) :=
  after_closing (thread_id ← tget _thread_id; run_id ← tget _run_id; mret (RunFinishedEvent thread_id run_id)).

Definition _handle_tool_use (tool_use_id output : string) : T (list base_event) :=
  result_msg_id ← _new_message_id;
  mret [ToolCallEndEvent tool_use_id; ToolCallResultEvent result_msg_id tool_use_id output].

Definition _handle_error (name message : string) : T (list base_event) :=
  mret [RunErrorEvent (name +:+ (": " +:+ message))%string].

Definition _handle_thinking (is_overseer : bool) (text : string) : T (list base_event) :=
  v ← tget _thinking_visibility;
  let skipped := match v with silent => true | overseer => negb is_overseer | agents => false end in
  if (skipped : bool) then mret []
  else
    closed ← _close_text_message;
    is_open ← tget _thinking_open;
    started ← (if (is_open : bool) then mret []
               else tmod (fun t => t .[_thinking_open := true]) ;; mret [ThinkingTextMessageStartEvent]);
    mret (closed ++ started ++ [ThinkingTextMessageContentEvent text]).

Definition translate_transport (event : transport_event) : T (list base_event) :=
  match event with
  | StreamDelta text => _handle_stream_delta text
  | StepStart session_id => _handle_step_start session_id
  | StepFinish reason _ => _handle_step_finish reason
  | ToolExecuting tool_use_id tool_name _ => _handle_tool_executing tool_use_id tool_name
  | ToolUse tool_use_id _ _ output _ _ _ _ => _handle_tool_use tool_use_id output
  | Result _ _ _ _ => _handle_result
  | Error name message _ => _handle_error name message
  | Thinking text => _handle_thinking false text
  | _ => mret []
  end.

Definition translate_thinking_from_overseer (text : string) : T (list base_event) := _handle_thinking true text.

Section custom.
(** [str] of amounts, floats as JSON data, and the percentage of an event that [Scheduler] leaves out *)
Context (str_decimal : decimal -> string) (json_float : decimal -> value) (threshold_pct : value).

Definition _custom (name : string) (fields : list (string * value)) : base_event := CustomEvent name (VDict fields).

Definition translate_overseer (event : overseer_event) : T (list base_event) :=
  match event with
  | RunStarted _ _ =>
      thread_id ← tget _thread_id; run_id ← tget _run_id; mret [RunStartedEvent thread_id run_id]
  | BudgetEvent (BudgetThresholdCrossed workflow_id budget_usd spent_usd) =>
      mret [_custom "budget_threshold_crossed"
              [("workflow_id", VUuidStr workflow_id); ("budget_usd", VStr (str_decimal budget_usd));
               ("spent_usd", VStr (str_decimal spent_usd)); ("threshold_pct", threshold_pct)]%string]
  | BudgetEvent (BudgetExhausted workflow_id) =>
      mret [_custom "budget_exhausted" [("workflow_id", VUuidStr workflow_id)]%string]
  | TaskFailed task_id task_name _ =>
      mret [_custom "task_failed" [("task_id", VUuidStr task_id); ("task_name", VStr task_name)]%string]
  | TaskEscalated task_id task_name from_child_task_id _ =>
      mret [_custom "task_escalated"
              [("task_id", VUuidStr task_id); ("task_name", VStr task_name);
               ("from_child_task_id", VUuidStr from_child_task_id)]%string]
  | InboxAnswered item_id assumed_option actual_answer contradicts =>
      mret [_custom "inbox_answered"
              [("item_id", VUuidStr item_id); ("assumed_option", VStr assumed_option);
               ("actual_answer", VStr actual_answer); ("contradicts", VBool contradicts)]%string]
  | InboxRejected item_id rejection_reason =>
      mret [_custom "inbox_rejected"
              [("item_id", VUuidStr item_id); ("rejection_reason", VStr rejection_reason)]%string]
  | StructuralAdvisory task_id observation suggestion =>
      mret [_custom "structural_advisory"
              [("task_id", VUuidStr task_id); ("observation", VStr observation);
               ("suggestion", VStr suggestion)]%string]
  | HealthDegraded degraded_type failure_rate threshold =>
      mret [_custom "health_degraded"
              [("event_type", VStr degraded_type); ("failure_rate", json_float failure_rate);
               ("threshold", json_float threshold)]%string]
  end.

(** What the sinks of a client are handed *)
Inductive run_event := FromSession (e : transport_event) | FromOverseer (e : overseer_event).

Definition translate (event : run_event) : T (list base_event) :=
  match event with
  | FromSession e => translate_transport e
  | FromOverseer e => translate_overseer e
  end.
End custom.

(** ** _registry.py *)

(** [broadcaster] names the object. *)
Record _RunChannel := { broadcaster : nat; client_count : Z; terminal : bool }.
#[export] Instance eta_RunChannel : Eta _RunChannel := fun c => {|
  broadcaster := broadcaster c; client_count := client_count c; terminal := terminal c |}.

(** The channels, and how many broadcasters were made *)
Record _BroadcasterRegistry := { _channels : dict uuid _RunChannel; made : nat }.
#[export] Instance eta_BroadcasterRegistry : Eta _BroadcasterRegistry := fun r => {|
  _channels := _channels r; made := made r |}.

Definition registry_init : _BroadcasterRegistry := {| _channels := ∅; made := 0 |}.

Definition _evict (run_id : uuid) : M _BroadcasterRegistry unit :=
  mmod (fun r => r .[_channels ::= delete run_id]).

Definition get_or_create (run_id : uuid) : M _BroadcasterRegistry nat :=
  channel ← mgets (fun r => _channels r !! run_id);
  match channel with
  | Some c => mret (broadcaster c)
  | None =>
      b ← mgets made;
      mmod (fun r => r .[made ::= S]
        .[_channels ::= <[run_id := {| broadcaster := b; client_count := 0; terminal := false |}]>]) ;;
      mret b
  end.

Definition stale (c : _RunChannel) : bool := terminal c && bool_decide (client_count c = 0)%Z.

Definition _sweep : M _BroadcasterRegistry unit :=
  gone ← mgets (fun r => fst <$> filter (fun kc => stale kc.2) (ditems (_channels r)));
  mfor gone _evict.

Definition change_channel (run_id : uuid) (f : _RunChannel -> _RunChannel) : M _BroadcasterRegistry unit :=
  channel ← mgets (fun r => _channels r !! run_id);
  match channel with
  | None => mthrow (KeyError "run")
  | Some c => mmod (fun r => r .[_channels ::= <[run_id := f c]>])
  end.

Definition subscribe (run_id : uuid) : M _BroadcasterRegistry nat :=
  _sweep ;;
  b ← get_or_create run_id;
  change_channel run_id (fun c => c .[client_count ::= Z.add 1]) ;;
  mret b.

Definition unsubscribe (run_id : uuid) : M _BroadcasterRegistry unit :=
  channel ← mgets (fun r => _channels r !! run_id);
  match channel with
  | None => mret tt
  | Some c =>
      let c := c .[client_count ::= fun n => Z.max 0 (n - 1)] in
      mmod (fun r => r .[_channels ::= <[run_id := c]>]) ;;
      if bool_decide (client_count c = 0)%Z && terminal c then _evict run_id else mret tt
  end.

Definition mark_terminal (run_id : uuid) : M _BroadcasterRegistry unit :=
  channel ← mgets (fun r => _channels r !! run_id);
  match channel with
  | None => mret tt
  | Some c =>
      mmod (fun r => r .[_channels ::= <[run_id := c .[terminal := true]]>]) ;;
      if decide (client_count c = 0)%Z then _evict run_id else mret tt
  end.

(** ** _server.py *)

(** *** The sinks of the clients of one run

    Each client has a translator of its own; all of them broadcast to the run's broadcaster [B].
    [broadcast] is the encoding of an event and [Broadcaster.broadcast]. *)
Section sinks.
Context {B : Type} (broadcast : base_event -> B -> B).
Context (str_decimal : decimal -> string) (json_float : decimal -> value) (threshold_pct : value).

Record hub := { hb_translators : dict nat AGUITranslator; hb_ids : nat; hb_broadcaster : B }.
#[export] Instance eta_hub : Eta hub := fun h => {|
  hb_translators := hb_translators h; hb_ids := hb_ids h; hb_broadcaster := hb_broadcaster h |}.

Definition push_event (event : base_event) : M hub unit :=
  mmod (fun h => h .[hb_broadcaster ::= broadcast event]).

(** [on_event] of the sinks of one client *)
Definition on_event (client : nat) (event : run_event) : M hub unit :=
  translator ← mgets (fun h => hb_translators h !! client);
  match translator with
  | None => mret tt
  | Some t =>
      ids ← mgets hb_ids;
      let '(r, (t', ids')) := translate str_decimal json_float threshold_pct event (t, ids) in
      mmod (fun h => h .[hb_translators ::= <[client := t']>] .[hb_ids := ids']) ;;
      agui_events ← liftr r;
      mfor agui_events push_event
  end.

(** An event of the run, handed to the sinks of every subscribed client, one after the other *)
Definition dispatch (clients : list nat) (event : run_event) : M hub unit :=
  mfor clients (fun client => mtry (on_event client event) ;; mret tt).
End sinks.
Arguments hub : clear implicits.

(** *** The handler *)

Definition _RUN_TERMINAL_STATUSES : list string := ["completed"; "failed"; "aborted"]%string.

Record agui_request := {
  ar_auth_context : option AuthContext;
  ar_run_id : value;
  ar_thread_id : string;
  ar_thinking : string
}.

Section server.
Context (parse_uuid : string -> option uuid) (str_of_id : value -> string) (str_decimal : decimal -> string).

(** [UUID(run_id)] *)
Definition parse_run_id (v : value) : option uuid :=
  match v with VUuidStr u => Some u | VStr s => parse_uuid s | _ => None end.

(** The trace store and the principals, where the server has them *)
Context (pool : option backend) (principal_storage : option InMemoryPrincipalStorage).

(** [None] lets the caller in; otherwise the status of the answer. *)
Definition _check_run_access (auth_context : AuthContext) (run_id : value) : result (option Z) :=
  if decide (ac_trust_tier auth_context = SYSTEM) then Ok None
  else
    match pool, principal_storage with
    | Some trace, Some storage =>
        caller ← resolve_caller_principal auth_context storage;
        match parse_run_id run_id with
        | None => Ok (Some 404%Z)
        | Some run_uuid =>
            match read_run_report trace run_uuid with
            | None => Ok (Some 404%Z)
            | Some report =>
                if decide (r_created_by (rr_run report) = pr_id caller) then Ok None else Ok (Some 403%Z)
            end
        end
    | _, _ => Raise (RuntimeError "AG-UI router misconfigured")
    end.

Definition task_snapshot (t : TaskSummary) : value :=
  VDict [("id", VUuidStr (sm_id t)); ("name", VStr (sm_name t)); ("status", VStr (sm_status t));
         ("task_type", VStr (sm_task_type t)); ("attempt_count", VInt (sm_attempt_count t))]%string.

Definition _build_snapshot_from_report (report : RunReport) (run_id : value) : value :=
  VDict ([("run_id", run_id); ("status", VStr (r_status (rr_run report)))]%string ++
    match rr_tasks report with
    | [] => []
    | tasks => [("tasks"%string, VList (task_snapshot <$> tasks))]
    end ++
    [("total_cost_usd"%string, VStr (str_decimal (r_total_cost_usd (rr_run report))))] ++
    match r_coherence_summary (rr_run report) with
    | Some coherence => [("coherence_summary"%string, VStr coherence)]
    | None => []
    end).

(** The event that ends the stream of a run that is not live *)
Definition terminal_event (request : agui_request) (report_status : string) : base_event :=
  if decide (report_status = "failed"%string \/ report_status = "aborted"%string) then
    RunErrorEvent ("Run " +:+ report_status)%string
  else RunFinishedEvent (ar_thread_id request) (str_of_id (ar_run_id request)).

(** What a client is served: an error, or a stream from a broadcaster that begins with some events, and for a
    live run the translator whose sinks are subscribed to the run *)
Inductive agui_answer :=
| AguiText (status : Z)
| AguiStream (run : uuid) (from : nat) (first : list base_event) (subscribed : option AGUITranslator).

(** [is_live] is whether [subscribe_run] returned a closure. *)
Definition first_events (is_live : bool) (request : agui_request) (run_uuid : uuid) : list base_event :=
  let minimal := StateSnapshotEvent (VDict [("run_id"%string, ar_run_id request)]) in
  if is_live then [minimal]
  else match trace ← pool; read_run_report trace run_uuid with
       | None => [minimal]
       | Some report =>
           [StateSnapshotEvent (_build_snapshot_from_report report (ar_run_id request));
            terminal_event request (r_status (rr_run report))]
       end.

Definition events_handler (is_live : uuid -> bool) (request : agui_request) :
    M _BroadcasterRegistry agui_answer :=
  match ar_auth_context request with
  | None => mret (AguiText 401)
  | Some auth_context =>
      if falsy (ar_run_id request) then mret (AguiText 400)
      else
        denied ← liftr (_check_run_access auth_context (ar_run_id request));
        match denied with
        | Some status => mret (AguiText status)
        | None =>
            match parse_run_id (ar_run_id request) with
            | None => mret (AguiText 400)
            | Some run_uuid =>
                from ← subscribe run_uuid;
                v ← liftr (visibility_of (ar_thinking request));
                let live := is_live run_uuid in
                let translator := new_translator (ar_thread_id request) (str_of_id (ar_run_id request)) v in
                mret (AguiStream run_uuid from (first_events live request run_uuid)
                        (if live then Some translator else None))
            end
        end
  end.

(** The end of the stream's generator, however it ends *)
Definition disconnect (run_uuid : uuid) : M _BroadcasterRegistry unit :=
  (match (trace ← pool; _runs trace !! run_uuid) with
   | Some run => if decide (r_status run ∈ _RUN_TERMINAL_STATUSES) then mark_terminal run_uuid else mret tt
   | None => mret tt
   end) ;;
  unsubscribe run_uuid.
End server.
