(* ===== verification/AguiSpec.v ===== *)
(** Theorems about [Agui]: how messages are framed for one client and for several, which channels there are,
    and who may stream a run. *)
From S2P Require Import Prelude PyDict Text Types Scheduler OverseerLink Stream Trace TraceReader Identity IdentitySpec Agui.

(** ** Framing

    What a client of the protocol keeps track of: the text message that is open, and whether it is told of
    thinking.  [None] is a stream it cannot follow. *)

Definition frame : Type := option nat * bool.
Definition closed : frame := (None, false).

Definition frame_step (f : frame) (e : base_event) : option frame :=
  let '(text, thinking) := f in
  match e with
  | TextMessageStartEvent id => if decide (f = closed) then Some (Some id, false) else None
  | TextMessageContentEvent id _ => if decide (text = Some id) then Some f else None
  | TextMessageEndEvent id => if decide (text = Some id) then Some (None, thinking) else None
  | ThinkingTextMessageStartEvent => if decide (f = closed) then Some (None, true) else None
  | ThinkingTextMessageContentEvent _ => if thinking then Some f else None
  | ThinkingTextMessageEndEvent => if thinking then Some (text, false) else None
  | ToolCallStartEvent _ _ _ | StepStartedEvent _ | StepFinishedEvent _ | RunFinishedEvent _ _ =>
      if decide (f = closed) then Some f else None
  | _ => Some f
  end.

Fixpoint framed (f : frame) (events : list base_event) : option frame :=
  match events with
  | [] => Some f
  | e :: events' => f' ← frame_step f e; framed f' events'
  end.

Lemma framed_app f l1 l2 : framed f (l1 ++ l2) = (f' ← framed f l1; framed f' l2).
Proof. revert f. induction l1 as [|e l1 IH]; intros f; [done|]. simpl. destruct (frame_step f e); [apply IH|done]. Qed.

(** The frame a translator is in *)
Definition frame_of (t : AGUITranslator) : frame :=
  (if _text_message_open t then _current_message_id t else None, _thinking_open t).

(** At most one message is open, and one that is has an id. *)
Definition translator_ok (t : AGUITranslator) : Prop :=
  (_text_message_open t = true -> is_Some (_current_message_id t) /\ _thinking_open t = false).

(** Translating raises nothing, and moves the frame as its events do. *)
Definition translates (m : T (list base_event)) : Prop :=
  forall t n, translator_ok t -> exists events t' n', m (t, n) = (Ok events, (t', n')) /\
    translator_ok t' /\ framed (frame_of t) events = Some (frame_of t') /\
    _thinking_visibility t' = _thinking_visibility t.

(** The cases of an admissible translator: no message open, a text message, thinking *)
Ltac translator_cases t Ht :=
  destruct t as [th r v [] [id|] []]; unfold translator_ok in Ht; cbn in Ht;
  try (exfalso; destruct (Ht eq_refl) as [[? ?] ?]; discriminate).

Lemma stream_delta_translates text : translates (_handle_stream_delta text).
Proof.
  intros t n Ht. translator_cases t Ht; do 3 eexists; (split; [reflexivity|]);
    (split; [intros _; split; [by eexists|done]|]); (split; [|done]);
    cbn; repeat (rewrite decide_True by done; cbn); done.
Qed.

Lemma framed_then f l ev :
  framed f l = Some closed -> frame_step closed ev = Some closed -> framed f (l ++ [ev]) = Some closed.
Proof. intros Hl Hev. rewrite framed_app, Hl. cbn [mbind option_bind framed]. by rewrite Hev. Qed.

Lemma after_closing_translates (e : T base_event) :
  (forall t n, exists ev, e (t, n) = (Ok ev, (t, n)) /\ frame_step closed ev = Some closed) ->
  translates (after_closing e).
Proof.
  intros He t n Ht. unfold after_closing, _close_thinking, _close_text_message.
  translator_cases t Ht; unfold mbind, M_bind; cbn -[frame_step];
    (match goal with |- context [e (?t, n)] => destruct (He t n) as (ev & -> & Hev) end);
    (do 3 eexists; split; [reflexivity|]; split; [by intros ?|]; split; [|done]);
    first [ apply (framed_then _ [TextMessageEndEvent id]) | apply (framed_then _ [ThinkingTextMessageEndEvent])
          | apply (framed_then _ []) ];
    try done; cbn; by rewrite decide_True.
Qed.

Lemma thinking_translates b text : translates (_handle_thinking b text).
Proof.
  intros t n Ht. unfold _handle_thinking, tget, mbind, M_bind, mgets. cbn [fst snd].
  assert (Hskip : exists events t' n', (Ok [], (t, n)) = (Ok events, (t', n')) /\ translator_ok t' /\
    framed (frame_of t) events = Some (frame_of t') /\ _thinking_visibility t' = _thinking_visibility t)
    by (by exists [], t, n).
  destruct (match _thinking_visibility t with silent => true | overseer => negb b | agents => false end);
    [exact Hskip|].
  translator_cases t Ht; do 3 eexists; (split; [reflexivity|]);
    (split; [by intros ?|]); (split; [|done]); cbn; repeat (rewrite decide_True by done; cbn); done.
Qed.

(** Events that open and close no message *)
Definition neutral (e : base_event) : bool :=
  match e with
  | ToolCallEndEvent _ | ToolCallResultEvent _ _ _ | RunStartedEvent _ _ | RunErrorEvent _ | CustomEvent _ _
  | StateSnapshotEvent _ => true
  | _ => false
  end.

Lemma framed_neutral f l : forallb neutral l = true -> framed f l = Some f.
Proof.
  induction l as [|e l IH]; [done|]. simpl. intros [He Hl]%andb_prop. destruct f as [text thinking].
  destruct e; try done; simpl; by apply IH.
Qed.

Lemma neutral_translates (m : T (list base_event)) :
  (forall t n, exists events n', m (t, n) = (Ok events, (t, n')) /\ forallb neutral events = true) ->
  translates m.
Proof.
  intros Hm t n Ht. destruct (Hm t n) as (events & n' & E & Hn). exists events, t, n'.
  split_and!; [done|done|by apply framed_neutral|done].
Qed.

Section sinks.
Context (str_decimal : decimal -> string) (json_float : decimal -> value) (threshold_pct : value).
Abbreviation run_translate := (translate str_decimal json_float threshold_pct).

Lemma translate_translates event : translates (run_translate event).
Proof.
  destruct event as [e|e].
  - destruct e; cbn [translate translate_transport];
      try (apply neutral_translates; intros t n; by do 2 eexists);
      try (apply after_closing_translates; intros t n; by eexists).
    + apply stream_delta_translates.
    + apply thinking_translates.
  - apply neutral_translates. intros t n. destruct e as [| | |[]| | | |]; by do 2 eexists.
Qed.

(** Only a delta opens a text message. *)
Definition is_delta (event : run_event) : bool :=
  match event with FromSession (StreamDelta _) => true | _ => false end.

Lemma closed_without_delta event t n :
  is_delta event = false -> _text_message_open t = false ->
  _text_message_open (snd (run_translate event (t, n))).1 = false.
Proof.
  intros He Ht. destruct t as [th r v [] cur []]; [done..| |]; destruct event as [[]|[| | |[]| | | |]];
    try done; cbn in *; destruct v; done.
Qed.

Lemma delta_opens text t n :
  _text_message_open t = false ->
  exists pre t', run_translate (FromSession (StreamDelta text)) (t, n) =
      (Ok (pre ++ [TextMessageStartEvent n; TextMessageContentEvent n text]), (t', S n)) /\
    (pre = [] \/ pre = [ThinkingTextMessageEndEvent]).
Proof.
  intros Ht. destruct t as [th r v [] cur []]; [done..| |].
  - exists [ThinkingTextMessageEndEvent]. eexists. split; [reflexivity|by right].
  - exists []. eexists. split; [reflexivity|by left].
Qed.

(** After one client's delta, another client's delta cannot be followed. *)
Lemma second_delta_lost f n n' text pre pre' :
  pre = [] \/ pre = [ThinkingTextMessageEndEvent] -> pre' = [] \/ pre' = [ThinkingTextMessageEndEvent] ->
  framed f ((pre ++ [TextMessageStartEvent n; TextMessageContentEvent n text]) ++
            (pre' ++ [TextMessageStartEvent n'; TextMessageContentEvent n' text])) = None.
Proof.
  intros Hpre Hpre'. rewrite framed_app.
  assert (H : framed f (pre ++ [TextMessageStartEvent n; TextMessageContentEvent n text]) = None \/
              framed f (pre ++ [TextMessageStartEvent n; TextMessageContentEvent n text]) = Some (Some n, false)).
  { destruct f as [text' thinking]. destruct Hpre as [-> | ->]; cbn.
    - case_decide; [|by left]. cbn. rewrite decide_True by done. by right.
    - destruct thinking; [|by left]. cbn. case_decide; [|by left]. cbn. rewrite decide_True by done. by right. }
  destruct H as [-> | ->]; [done|]. cbn. by destruct Hpre' as [-> | ->].
Qed.

(** ** One broadcaster for all clients of a run *)

Context {B : Type} (broadcast : base_event -> B -> B) (received : B -> list base_event).

(** What a client that is connected to the broadcaster is sent is what is broadcast. *)
Hypothesis broadcast_reaches : forall e b, received (broadcast e b) = received b ++ [e].

Abbreviation heard h := (received (hb_broadcaster h)).
Abbreviation sink := (on_event broadcast str_decimal json_float threshold_pct).
Abbreviation run_dispatch := (dispatch broadcast str_decimal json_float threshold_pct).
Abbreviation run_events clients events := (mfor events (run_dispatch clients)).

Lemma push_events l (h : hub B) :
  exists b, mfor l (push_event broadcast) h = (Ok tt, h .[hb_broadcaster := b]) /\ received b = heard h ++ l.
Proof.
  revert h. induction l as [|e l IH]; intros h.
  - exists (hb_broadcaster h). rewrite app_nil_r. by destruct h.
  - destruct (IH (h .[hb_broadcaster ::= broadcast e])) as (b & E & Hb). exists b.
    split; [exact E|]. rewrite Hb. cbn. by rewrite broadcast_reaches, <- app_assoc.
Qed.

Lemma on_event_spec c t event (h : hub B) events t' n' :
  hb_translators h !! c = Some t -> run_translate event (t, hb_ids h) = (Ok events, (t', n')) ->
  exists h', sink c event h = (Ok tt, h') /\ heard h' = heard h ++ events /\
    hb_translators h' = <[c := t']> (hb_translators h) /\ hb_ids h' = n'.
Proof.
  intros Ht E. unfold on_event, mbind, M_bind, mgets. rewrite Ht, E. cbn -[mfor].
  destruct (push_events events (h .[hb_translators ::= <[c := t']>] .[hb_ids := n'])) as (b & Eb & Hb).
  eexists. split; [exact Eb|]. by split_and!.
Qed.

(** One client's sink, tried *)
Lemma sink_step c t event (h : hub B) :
  hb_translators h !! c = Some t -> translator_ok t ->
  exists h' events t' n', (mtry (sink c event) ;; mret tt) h = (Ok tt, h') /\
    run_translate event (t, hb_ids h) = (Ok events, (t', n')) /\
    heard h' = heard h ++ events /\ hb_translators h' = <[c := t']> (hb_translators h) /\
    translator_ok t' /\ framed (frame_of t) events = Some (frame_of t') /\
    (_text_message_open t = false -> is_delta event = false -> _text_message_open t' = false).
Proof.
  intros Ht Hok. destruct (translate_translates event t (hb_ids h) Hok) as (events & t' & n' & E & Hok' & Hf & _).
  destruct (on_event_spec c t event h events t' n' Ht E) as (h' & Es & Hh & Htr & _).
  exists h', events, t', n'. unfold mtry, mbind, M_bind. rewrite Es. split_and!; try done.
  intros Hc Hd. assert (Hcl := closed_without_delta event t (hb_ids h) Hd Hc). by rewrite E in Hcl.
Qed.

(** What other sinks do is heard after. *)
Definition adds {A} (m : M (hub B) A) : Prop := forall h, exists l, heard (snd (m h)) = heard h ++ l.

Lemma adds_bind {A A'} (m : M (hub B) A) (k : A -> M (hub B) A') : adds m -> (forall a, adds (k a)) -> adds (m ≫= k).
Proof.
  intros Hm Hk h. unfold mbind, M_bind. destruct (Hm h) as [l Hl]. destruct (m h) as [[a|e] h1]; [|by exists l].
  destruct (Hk a h1) as [l' Hl']. exists (l ++ l'). cbn [snd] in Hl. by rewrite Hl', Hl, app_assoc.
Qed.
Lemma adds_nothing {A} (m : M (hub B) A) : (forall h, hb_broadcaster (snd (m h)) = hb_broadcaster h) -> adds m.
Proof. intros Hm h. exists []. by rewrite Hm, app_nil_r. Qed.
Lemma adds_mfor {A} (l : list A) (f : A -> M (hub B) unit) : (forall x, adds (f x)) -> adds (mfor l f).
Proof. intros Hf. induction l as [|x l IH]; [by apply adds_nothing|]. by apply adds_bind. Qed.

Lemma sink_adds c event : adds (mtry (sink c event) ;; mret tt).
Proof.
  apply adds_bind; [|by intros a; apply adds_nothing].
  assert (H : adds (sink c event)).
  { unfold on_event. apply adds_bind; [by apply adds_nothing|]. intros [t|]; [|by apply adds_nothing].
    apply adds_bind; [by apply adds_nothing|]. intros ids.
    destruct (translate _ _ _ event (t, ids)) as [r [t' ids']].
    apply adds_bind; [by apply adds_nothing|]. intros u. apply adds_bind.
    - destruct r; by apply adds_nothing.
    - intros evs. apply adds_mfor. intros e h. exists [e]. cbn. apply broadcast_reaches. }
  intros h. unfold mtry. destruct (H h) as [l Hl]. exists l. by destruct (sink c event h).
Qed.

Lemma dispatch_adds clients event : adds (run_dispatch clients event).
Proof. apply adds_mfor. intros c. apply sink_adds. Qed.

(** and leaves the other translators alone. *)
Lemma sink_others c event (h : hub B) :
  exists h', (mtry (sink c event) ;; mret tt) h = (Ok tt, h') /\
    forall c', c' <> c -> hb_translators h' !! c' = hb_translators h !! c'.
Proof.
  assert (Hpush : forall l (h : hub B), hb_translators (snd (mfor l (push_event broadcast) h)) = hb_translators h).
  { intros l h0. by destruct (push_events l h0) as (b & -> & _). }
  assert (H : forall c', c' <> c -> hb_translators (snd (sink c event h)) !! c' = hb_translators h !! c').
  { intros c' Hc'. unfold on_event, mbind, M_bind, mgets. destruct (hb_translators h !! c) as [t|]; [|done].
    destruct (translate _ _ _ event (t, hb_ids h)) as [[evs|e] [t' ids']]; cbn -[mfor].
    - rewrite Hpush. cbn. by rewrite dict_lookup_insert_ne.
    - cbn. by rewrite dict_lookup_insert_ne. }
  unfold mtry, mbind, M_bind. destruct (sink c event h) as [r h']. by exists h'.
Qed.

Lemma dispatch_others clients event (h : hub B) :
  exists h', run_dispatch clients event h = (Ok tt, h') /\
    forall c, c ∉ clients -> hb_translators h' !! c = hb_translators h !! c.
Proof.
  revert h. induction clients as [|c clients IH]; intros h; [by exists h|].
  destruct (sink_others c event h) as (h1 & E1 & H1). destruct (IH h1) as (h2 & E2 & H2).
  exists h2. unfold dispatch in *. cbn [mfor]. rewrite (M_bind_ok _ _ _ _ _ E1). split; [done|].
  intros c' [Hne Hc']%not_elem_of_cons. rewrite H2 by done. by apply H1.
Qed.

Lemma one_client events c t (h : hub B) :
  hb_translators h !! c = Some t -> translator_ok t -> framed closed (heard h) = Some (frame_of t) ->
  is_Some (framed closed (heard (snd (run_events [c] events h)))).
Proof.
  revert t h. induction events as [|event events IH]; intros t h Ht Hok Hf; [by eexists|].
  destruct (sink_step c t event h Ht Hok) as (h' & evs & t' & n' & Es & _ & Hh & Htr & Hok' & Hf' & _).
  assert (E : run_dispatch [c] event h = (Ok tt, h')) by (unfold dispatch; cbn [mfor]; by rewrite (M_bind_ok _ _ _ _ _ Es)).
  cbn [mfor]. rewrite (M_bind_ok _ _ _ _ _ E). apply (IH t').
  - by rewrite Htr, dict_lookup_insert_eq.
  - done.
  - by rewrite Hh, framed_app, Hf.
Qed.

Lemma framed_lost f l l' : framed f l = None -> framed f (l ++ l') = None.
Proof. intros H. by rewrite framed_app, H. Qed.

Lemma two_clients events c c' clients t t' (h : hub B) :
  NoDup (c :: c' :: clients) -> hb_translators h !! c = Some t -> hb_translators h !! c' = Some t' ->
  translator_ok t -> translator_ok t' -> _text_message_open t = false -> _text_message_open t' = false ->
  existsb is_delta events = true ->
  framed closed (heard (snd (run_events (c :: c' :: clients) events h))) = None.
Proof.
  intros [Hc [Hc' _]%NoDup_cons]%NoDup_cons. apply not_elem_of_cons in Hc as [Hne Hc].
  revert t t' h. induction events as [|event events IH]; intros t t' h Ht Ht' Hok Hok' Ho Ho' Hd; [done|].
  destruct (sink_step c t event h Ht Hok) as (h1 & evs & t1 & n1 & Es & Ev & Hh & Htr & Hok1 & _ & Hcl1).
  assert (Ht1 : hb_translators h1 !! c' = Some t') by (by rewrite Htr, dict_lookup_insert_ne).
  destruct (sink_step c' t' event h1 Ht1 Hok') as (h2 & evs' & t2 & n2 & Es' & Ev' & Hh' & Htr' & Hok2 & _ & Hcl2).
  destruct (dispatch_others clients event h2) as (h3 & E3 & H3).
  assert (Ed : run_dispatch (c :: c' :: clients) event h = (Ok tt, h3)).
  { unfold dispatch in *. cbn [mfor]. by rewrite (M_bind_ok _ _ _ _ _ Es), (M_bind_ok _ _ _ _ _ Es'). }
  cbn [mfor]. rewrite (M_bind_ok _ _ _ _ _ Ed). destruct (is_delta event) eqn:Ee.
  - destruct (dispatch_adds clients event h2) as [l Hl]. rewrite E3 in Hl. cbn [snd] in Hl.
    destruct (adds_mfor events (run_dispatch (c :: c' :: clients)) (dispatch_adds _) h3) as [l' ->].
    rewrite Hl, Hh', Hh. destruct event as [[]|]; try done.
    destruct (delta_opens text t (hb_ids h) Ho) as (pre & s & E & Hpre). rewrite Ev in E. injection E as -> _ _.
    destruct (delta_opens text t' (hb_ids h1) Ho') as (pre' & s' & E' & Hpre'). rewrite Ev' in E'. injection E' as -> _ _.
    rewrite <- (app_assoc (heard h)). do 2 apply framed_lost. rewrite framed_app.
    destruct (framed closed (heard h)) as [f|]; [|done]. cbn [mbind option_bind]. by apply second_delta_lost.
  - apply (IH t1 t2).
    + by rewrite H3, Htr', dict_lookup_insert_ne, Htr, dict_lookup_insert_eq.
    + by rewrite H3, Htr', dict_lookup_insert_eq.
    + done.
    + done.
    + by apply Hcl1.
    + by apply Hcl2.
    + by simpl in Hd; rewrite Ee in Hd.
Qed.

(** C31. Whatever a run's sessions and overseer tell, what a client receives is well framed - messages are
    started, continued and ended in turn, and no step, tool call or end of the run comes within one - if it is the
    run's only client.  If there is another one it is not, as soon as a model's text is streamed: each
    client's translator sends to all of them. *)
Theorem framing_needs_one_client events c clients (h : hub B) (fresh : nat -> string * string * visibility) :
  heard h = [] -> NoDup (c :: clients) ->
  (forall c', c' ∈ c :: clients -> hb_translators h !! c' =
     Some (new_translator (fresh c').1.1 (fresh c').1.2 (fresh c').2)) ->
  let received := heard (snd (run_events (c :: clients) events h)) in
  (clients = [] -> is_Some (framed closed received)) /\
  (clients <> [] -> existsb is_delta events = true -> framed closed received = None).
Proof.
  intros Hh Hnd Hfresh. split.
  - intros ->. eapply one_client; [apply Hfresh; left|by intros ?|]. by rewrite Hh.
  - intros Hcl Hd. destruct clients as [|c' clients]; [done|].
    eapply two_clients; [done|apply Hfresh; left|apply Hfresh; right; left|by intros ?..|done|done|done].
Qed.
End sinks.

(** Two clients of one run, one of them asking for the agents' thoughts *)
Definition demo_hub : hub (list base_event) := {|
  hb_translators := <[1 := new_translator "t" "r" silent]> (<[2 := new_translator "t" "r" agents]> ∅);
  hb_ids := 0; hb_broadcaster := [] |}.
Definition demo_heard (clients : list nat) (events : list run_event) : list base_event :=
  hb_broadcaster (snd (mfor events (dispatch (fun e b => b ++ [e]) (fun _ => ""%string) (fun _ => VNone) VNone clients) demo_hub)).
Definition demo_told : list run_event :=
  [FromSession (StepStart "s"); FromSession (StreamDelta "hi"); FromSession (StepFinish "end_turn" no_usage)].

(** A client that asked for silence hears the thoughts another client asked for. *)
Example thoughts_leak :
  demo_heard [1; 2] [FromSession (Thinking "hm")] =
  [ThinkingTextMessageStartEvent; ThinkingTextMessageContentEvent "hm"].
Proof. reflexivity. Qed.

Lemma framing_needs_one_client_witness :
  demo_heard [1] demo_told = [StepStartedEvent "s"; TextMessageStartEvent 0; TextMessageContentEvent 0 "hi";
    TextMessageEndEvent 0; StepFinishedEvent "end_turn"] /\
  is_Some (framed closed (demo_heard [1] demo_told)) /\ framed closed (demo_heard [1; 2] demo_told) = None.
Proof.
  split; [reflexivity|].
  assert (Hl : forall (e : base_event) (b : list base_event), b ++ [e] = b ++ [e]) by reflexivity.
  set (fresh := fun c => ("t", "r", if Nat.eqb c 1 then silent else agents)%string).
  assert (Hin : forall clients, clients ⊆ [1; 2] -> forall c, c ∈ clients -> hb_translators demo_hub !! c =
     Some (new_translator (fresh c).1.1 (fresh c).1.2 (fresh c).2)).
  { intros clients Hsub c Hc%Hsub. elem_of_cases Hc; reflexivity. }
  split.
  - apply (framing_needs_one_client (fun _ => ""%string) (fun _ => VNone) VNone (fun e b => b ++ [e]) (fun b => b) Hl
      demo_told 1 [] demo_hub fresh); [reflexivity|apply NoDup_singleton| |reflexivity].
    apply Hin. intros c. rewrite list_elem_of_singleton. intros ->. left.
  - apply (framing_needs_one_client (fun _ => ""%string) (fun _ => VNone) VNone (fun e b => b ++ [e]) (fun b => b) Hl
      demo_told 1 [2] demo_hub fresh); [reflexivity| |by apply Hin|discriminate|reflexivity].
    apply NoDup_cons; split; [|apply NoDup_singleton]. by intros ?%list_elem_of_singleton.
Defined.

(** ** The channels *)

Inductive registry_op :=
| GetOrCreate (run_id : uuid)
| Subscribe (run_id : uuid)
| Unsubscribe (run_id : uuid)
| MarkTerminal (run_id : uuid).

Definition run_registry_op (op : registry_op) : M _BroadcasterRegistry unit :=
  match op with
  | GetOrCreate run_id => get_or_create run_id ;; mret tt
  | Subscribe run_id => subscribe run_id ;; mret tt
  | Unsubscribe run_id => unsubscribe run_id
  | MarkTerminal run_id => mark_terminal run_id
  end.

Definition run_registry (ops : list registry_op) (r : _BroadcasterRegistry) : _BroadcasterRegistry :=
  foldl (fun r op => snd (run_registry_op op r)) r ops.

(** The clients of a run: those that subscribed and have not unsubscribed *)
Definition count_op (run_id : uuid) (n : Z) (op : registry_op) : Z :=
  match op with
  | Subscribe k => if decide (k = run_id) then (1 + n)%Z else n
  | Unsubscribe k => if decide (k = run_id) then Z.max 0 (n - 1) else n
  | _ => n
  end.
Definition clients_of (run_id : uuid) (ops : list registry_op) : Z := foldl (count_op run_id) 0%Z ops.

(** [client_count] of the registry *)
Definition count_in (d : dict uuid _RunChannel) (run_id : uuid) : Z :=
  match d !! run_id with Some c => client_count c | None => 0 end.
Definition counted (r : _BroadcasterRegistry) (run_id : uuid) : Z := count_in (_channels r) run_id.

Record registry_ok (r : _BroadcasterRegistry) : Prop := {
  ro_wf : dwf (_channels r);
  ro_live : forall k c, _channels r !! k = Some c -> (0 <= client_count c)%Z /\ stale c = false /\ broadcaster c < made r;
  ro_own : forall k k' c c', _channels r !! k = Some c -> _channels r !! k' = Some c' ->
             broadcaster c = broadcaster c' -> k = k'
}.

Lemma sweep_nothing r : registry_ok r -> _sweep r = (Ok tt, r).
Proof.
  intros Hr. unfold _sweep, mbind, M_bind, mgets.
  replace (filter (fun kc => stale kc.2) (ditems (_channels r))) with (@nil (uuid * _RunChannel)); [done|].
  symmetry. apply list_eq_nil. intros [k c] [Hs Hin]%list_elem_of_filter.
  apply dict_in_lookup in Hin; [|apply Hr]. destruct (ro_live _ Hr k c Hin) as (_ & Hst & _).
  simpl in Hs. by rewrite Hst in Hs.
Qed.

(** Replacing a channel by one with the same broadcaster *)
Lemma registry_change r k c c' :
  registry_ok r -> _channels r !! k = Some c -> broadcaster c' = broadcaster c -> (0 <= client_count c')%Z ->
  stale c' = false -> registry_ok (r .[_channels ::= <[k := c']>]).
Proof.
  intros [Hwf Hl Ho] Hk Hb Hn Hs. destruct (Hl k c Hk) as (_ & _ & Hm). constructor; cbn.
  - by apply dwf_insert.
  - intros k0 c0. rewrite dict_lookup_insert. case_decide; [|apply Hl]. intros [= <-]. by rewrite Hb.
  - intros k0 k1 c0 c1. rewrite !dict_lookup_insert. repeat case_decide; subst; intros E0 E1 E; try done.
    + injection E0 as <-. eapply Ho; [exact Hk|exact E1|congruence].
    + injection E1 as <-. eapply Ho; [exact E0|exact Hk|congruence].
    + by eapply Ho.
Qed.

Lemma registry_evict r k : registry_ok r -> registry_ok (r .[_channels ::= delete k]).
Proof.
  intros [Hwf Hl Ho]. constructor; cbn; [by apply dwf_delete| |].
  - intros k0 c. rewrite dict_lookup_delete. case_decide; [done|]. apply Hl.
  - intros k0 k1 c0 c1. rewrite !dict_lookup_delete. repeat case_decide; try done. apply Ho.
Qed.

Lemma registry_create r k n :
  registry_ok r -> _channels r !! k = None -> (0 <= n)%Z ->
  registry_ok (r .[made ::= S] .[_channels ::= <[k := {| broadcaster := made r; client_count := n; terminal := false |}]>]).
Proof.
  intros [Hwf Hl Ho] Hk Hn. constructor; cbn.
  - by apply dwf_insert.
  - intros k0 c. rewrite dict_lookup_insert. case_decide; [intros [= <-]; cbn; split_and!; [done|done|lia]|].
    intros Hc. destruct (Hl k0 c Hc) as (? & ? & ?). split_and!; [done|done|lia].
  - intros k0 k1 c0 c1. rewrite !dict_lookup_insert. repeat case_decide; subst; intros E0 E1 E; try done.
    + injection E0 as <-. destruct (Hl _ _ E1) as (_ & _ & ?). cbn in E. lia.
    + injection E1 as <-. destruct (Hl _ _ E0) as (_ & _ & ?). cbn in E. lia.
    + by eapply Ho.
Qed.

Lemma count_in_insert d k c k' : count_in (<[k := c]> d) k' = if decide (k = k') then client_count c else count_in d k'.
Proof. unfold count_in. rewrite dict_lookup_insert. repeat case_decide; congruence. Qed.

Lemma count_in_delete d k k' : count_in (delete k d) k' = if decide (k = k') then 0%Z else count_in d k'.
Proof. unfold count_in. rewrite dict_lookup_delete. repeat case_decide; congruence. Qed.

(** Count after one change of the channel [k] *)
Ltac count_cases Ek :=
  let run_id := fresh in
  intros run_id; cbn; unfold counted; cbn; rewrite ?count_in_delete, ?count_in_insert;
  repeat case_decide; subst; try done; unfold count_in; rewrite Ek; cbn; try lia; try done.

(** One operation: the invariant, and the count of each run *)
Definition counts_on (r : _BroadcasterRegistry) (op : registry_op) : Prop :=
  registry_ok (snd (run_registry_op op r)) /\
  forall run_id, counted (snd (run_registry_op op r)) run_id = count_op run_id (counted r run_id) op.

Lemma get_or_create_counts r k : registry_ok r -> counts_on r (GetOrCreate k).
Proof.
  intros Hr. unfold counts_on. cbn [run_registry_op count_op]. unfold get_or_create, mbind, M_bind, mgets, mmod.
  destruct (_channels r !! k) as [c|] eqn:Ek; [by split|]. cbn. split; [by apply (registry_create r k 0)|].
  count_cases Ek.
Qed.

Lemma subscribe_counts r k : registry_ok r -> counts_on r (Subscribe k).
Proof.
  intros Hr. unfold counts_on. cbn [run_registry_op count_op].
  unfold subscribe, get_or_create, change_channel, mbind, M_bind. rewrite (sweep_nothing r Hr). unfold mgets, mmod.
  destruct (_channels r !! k) as [c|] eqn:Ek.
  - cbn. rewrite Ek. destruct (ro_live _ Hr k c Ek) as (Hn & Hs & _). split.
    + apply (registry_change r k c); cbn; [done|done|done|lia|].
      unfold stale. cbn. rewrite bool_decide_false by lia. apply andb_false_r.
    + count_cases Ek.
  - cbn. rewrite dict_lookup_insert_eq. cbn. split.
    + set (c := {| broadcaster := made r; client_count := 0; terminal := false |}).
      assert (Hnew := registry_create r k 0 Hr Ek (Z.le_refl 0)).
      refine (registry_change _ k c {| broadcaster := made r; client_count := 1; terminal := false |} Hnew _ _ _ _);
        [apply dict_lookup_insert_eq|done..].
    + count_cases Ek.
Qed.

Lemma unsubscribe_counts r k : registry_ok r -> counts_on r (Unsubscribe k).
Proof.
  intros Hr. unfold counts_on. cbn [run_registry_op count_op]. unfold unsubscribe, mbind, M_bind, mgets, mmod.
  destruct (_channels r !! k) as [c|] eqn:Ek.
  2: { split; [done|]. count_cases Ek. }
  set (c' := c .[client_count ::= fun n => Z.max 0 (n - 1)]). destruct (ro_live _ Hr k c Ek) as (Hn & Hs & _).
  assert (Hc : forall run_id, client_count c' = Z.max 0 (client_count c - 1)) by done.
  destruct (bool_decide (client_count c' = 0)%Z && terminal c') eqn:Eg.
  - apply andb_prop in Eg as [Hz%bool_decide_eq_true _]. split.
    + cbn. assert (Hdel := registry_evict r k Hr). destruct Hdel as [H1 H2 H3].
      constructor; cbn.
      * apply dwf_delete, dwf_insert, Hr.
      * intros k0 c0. rewrite dict_lookup_delete. case_decide; [done|]. rewrite dict_lookup_insert_ne by done. apply Hr.
      * intros k0 k1 c0 c1. rewrite !dict_lookup_delete. repeat case_decide; try done.
        rewrite !dict_lookup_insert_ne by done. apply Hr.
    + count_cases Ek.
  - split.
    + apply (registry_change r k c); [done|done|done|cbn; lia|]. unfold stale. by rewrite andb_comm.
    + count_cases Ek.
Qed.

Lemma mark_terminal_counts r k : registry_ok r -> counts_on r (MarkTerminal k).
Proof.
  intros Hr. unfold counts_on. cbn [run_registry_op count_op]. unfold mark_terminal, mbind, M_bind, mgets, mmod.
  destruct (_channels r !! k) as [c|] eqn:Ek; [|done]. destruct (ro_live _ Hr k c Ek) as (Hn & Hs & _).
  case_decide as Hz.
  - split.
    + cbn. constructor; cbn.
      * apply dwf_delete, dwf_insert, Hr.
      * intros k0 c0. rewrite dict_lookup_delete. case_decide; [done|]. rewrite dict_lookup_insert_ne by done. apply Hr.
      * intros k0 k1 c0 c1. rewrite !dict_lookup_delete. repeat case_decide; try done.
        rewrite !dict_lookup_insert_ne by done. apply Hr.
    + count_cases Ek.
  - split.
    + apply (registry_change r k c); [done|done|done|done|]. unfold stale. cbn. by rewrite bool_decide_false.
    + count_cases Ek.
Qed.

(** After any sequence of calls the registry counts exactly the clients of each run, keeps the broadcasters
    of different runs apart and holds no channel that is terminal and has no client - so the sweep before a
    subscription never has one to evict, and a channel whose clients left before its run ended stays. *)
Theorem registry_counts_clients ops :
  let r := run_registry ops registry_init in
  (forall run_id, counted r run_id = clients_of run_id ops) /\
  (forall k c, _channels r !! k = Some c -> stale c = false) /\ _sweep r = (Ok tt, r) /\
  (forall k k' c c', _channels r !! k = Some c -> _channels r !! k' = Some c' -> broadcaster c = broadcaster c' -> k = k').
Proof.
  assert (H : registry_ok (run_registry ops registry_init) /\
    forall run_id, counted (run_registry ops registry_init) run_id = clients_of run_id ops).
  { induction ops as [|op ops [Hr Hc]] using rev_ind.
    - split; [|done]. constructor; [apply dwf_empty|done|done].
    - unfold run_registry, clients_of in *. setoid_rewrite foldl_app. cbn [foldl].
      assert (Hop : counts_on (foldl (fun r op => snd (run_registry_op op r)) registry_init ops) op).
      { destruct op; [by apply get_or_create_counts|by apply subscribe_counts|by apply unsubscribe_counts|
                      by apply mark_terminal_counts]. }
      destruct Hop as [Hok Hcount]. split; [exact Hok|]. intros run_id. by rewrite Hcount, Hc. }
  destruct H as [Hr Hc]. split_and!; [done| |by apply sweep_nothing|apply Hr].
  intros k c Hk. by apply (ro_live _ Hr) in Hk as (_ & ? & _).
Qed.

(** ** Who may stream a run *)

Section server.
Context (parse_uuid : string -> option uuid) (str_of_id : value -> string) (str_decimal : decimal -> string).
Context (pool : option backend) (principal_storage : option InMemoryPrincipalStorage).
Abbreviation handler := (events_handler parse_uuid str_of_id str_decimal pool principal_storage).

(** The caller is the system, or the consumer whose principal made the run. *)
Definition may_stream (ctx : AuthContext) (run_id : uuid) : Prop :=
  ac_trust_tier ctx = SYSTEM \/
  exists trace storage run consumer p, pool = Some trace /\ principal_storage = Some storage /\
    _runs trace !! run_id = Some run /\ ac_consumer_id ctx = Some consumer /\
    _principals storage !! r_created_by run = Some p /\ ref_of p = (KIND_CONSUMER, consumer).

Lemma check_run_access_spec n ctx run_id run_uuid :
  (forall storage, principal_storage = Some storage -> pstore_ok n storage) ->
  _check_run_access parse_uuid pool principal_storage ctx run_id = Ok None ->
  parse_run_id parse_uuid run_id = Some run_uuid -> may_stream ctx run_uuid.
Proof.
  intros Hs. unfold _check_run_access, may_stream. case_decide as Ht; [by left|].
  destruct pool as [trace|]; [|done]. destruct principal_storage as [storage|]; [|done].
  destruct (resolve_caller_principal ctx storage) as [caller|] eqn:Er; [|done]. cbn.
  intros Ha Hp. rewrite Hp in Ha. unfold read_run_report in Ha.
  destruct (_runs trace !! run_uuid) as [run|] eqn:Erun; [|done]. cbn in Ha. case_decide as Ec; [|done].
  right. eapply resolve_spec in Er as [Hc Hcaller]; [|by apply Hs].
  unfold caller_of in Hcaller. rewrite decide_False in Hcaller by done.
  destruct (ac_consumer_id ctx) as [c|]; [|by destruct Hcaller].
  exists trace, storage, run, c, caller. by rewrite Ec.
Qed.

(** A request is served a stream only of a run its caller may stream; any other is answered, or raises, with
    the registry as it was - except that one whose [thinking] is refused is counted as a client for good. *)
Theorem handler_serves_own_runs n is_live request r :
  (forall storage, principal_storage = Some storage -> pstore_ok n storage) -> registry_ok r ->
  wp (handler is_live request)
    (fun answer r' =>
       match answer with
       | AguiText _ => r' = r
       | AguiStream run_id _ _ _ =>
           r' = snd (subscribe run_id r) /\
           exists ctx, ar_auth_context request = Some ctx /\ may_stream ctx run_id
       end)
    (fun e r' => r' = r \/
       is_ok (visibility_of (ar_thinking request)) = false /\ exists run_id, r' = snd (subscribe run_id r)) r.
Proof.
  intros Hs Hr. unfold events_handler. destruct (ar_auth_context request) as [ctx|]; [|done].
  destruct (falsy (ar_run_id request)); [done|]. apply wp_bind, wp_liftr; [|by left].
  intros [status|] Ea; [done|]. destruct (parse_run_id parse_uuid (ar_run_id request)) as [run_id|] eqn:Ep; [|done].
  apply wp_bind. assert (Hsub := subscribe_counts r run_id Hr). unfold wp at 1.
  assert (Hok : exists b, subscribe run_id r = (Ok b, snd (subscribe run_id r))).
  { unfold subscribe, mbind, M_bind. rewrite (sweep_nothing r Hr). unfold get_or_create, change_channel, mbind, M_bind, mgets.
    destruct (_channels r !! run_id) as [c|] eqn:Ek; cbn; [rewrite Ek|rewrite dict_lookup_insert_eq]; by eexists. }
  destruct Hok as [b ->]. apply wp_bind, wp_liftr.
  - intros v Ev. apply wp_ret. split; [done|]. exists ctx. split; [done|]. by eapply check_run_access_spec.
  - intros e Ev. right. split; [by rewrite Ev|by exists run_id].
Qed.
End server.
