(* ===== verification/Compose.v ===== *)
(** Composition of prompts: the includes, the variables, the file provider and the engine of
    compose/_includes.py, _variables.py, _providers.py and _engine.py.

    The two regular expressions are scanners: each says what it matches at the start of a text.  Files are
    those of [WriteSafety], whose resolution of links stays a parameter. *)
From S2P Require Import Prelude PyDict Text Stream WriteSafety.

(** ** Scanners *)

(** The longest prefix of characters [f] accepts, and what follows it *)
Fixpoint span (f : Ascii.ascii -> bool) (s : string) : string * string :=
  match s with
  | EmptyString => (EmptyString, EmptyString)
  | String c s' => if f c then let '(p, r) := span f s' in (String c p, r) else (EmptyString, s)
  end.

Section scan.
(** What is matched at the start of a text: the group, and the characters of the match *)
Context (at_start : string -> option (string * nat)).

(** [re.findall] *)
Fixpoint find_all (skip : nat) (s : string) : list string :=
  match s with
  | EmptyString => []
  | String _ s' =>
      match skip with
      | S k => find_all k s'
      | 0 => match at_start s with
             | Some (group, n) => group :: find_all (n - 1) s'
             | None => find_all 0 s'
             end
      end
  end.

(** [re.sub] with a function that may raise *)
Fixpoint re_sub (f : string -> result string) (skip : nat) (s : string) : result string :=
  match s with
  | EmptyString => Ok EmptyString
  | String c s' =>
      match skip with
      | S k => re_sub f k s'
      | 0 => match at_start s with
             | Some (group, n) => x ← f group; rest ← re_sub f (n - 1) s'; Ok (x +:+ rest)%string
             | None => rest ← re_sub f 0 s'; Ok (String c rest)
             end
      end
  end.
End scan.

Definition brace_open : Ascii.ascii := Ascii.ascii_of_nat 123.
Definition brace_close : Ascii.ascii := Ascii.ascii_of_nat 125.

(** The group up to a closing brace, after an opening of [n] characters *)
Definition closed_group (n : nat) (gr : string * string) : option (string * nat) :=
  match gr with
  | (EmptyString, _) => None
  | (group, String c _) => if decide (c = brace_close) then Some (group, n + String.length group + 1) else None
  | _ => None
  end.

(** *** _variables.py *)

Definition letter (c : Ascii.ascii) : bool :=
  let n := Ascii.nat_of_ascii c in
  Nat.leb 65 n && Nat.leb n 90 || Nat.leb 97 n && Nat.leb n 122 || Nat.eqb n 95.
Definition digit (c : Ascii.ascii) : bool :=
  let n := Ascii.nat_of_ascii c in Nat.leb 48 n && Nat.leb n 57.

Definition _VAR_RE (s : string) : option (string * nat) :=
  match s with
  | String c (String d s') =>
      if decide (c = brace_open) then
        if letter d then closed_group 1 (span (fun c => letter c || digit c) (String d s')) else None
      else None
  | _ => None
  end.

Definition resolve_variables (template : string) (variables : dict string string) : result string :=
  let placeholders := py_set (find_all _VAR_RE 0 template) in
  let var_keys := dkeys variables in
  match filter (fun name => name ∉ var_keys) placeholders with
  | _ :: _ => Raise (ValueError "Unresolved placeholder")
  | [] =>
      match filter (fun name => name ∉ placeholders) var_keys with
      | _ :: _ => Raise (ValueError "Unused variable")
      | [] =>
          match placeholders with
          | [] => Ok template
          | _ => re_sub _VAR_RE (fun name => or_raise (variables !! name) (KeyError name)) 0 template
          end
      end
  end.

(** *** _includes.py *)

Definition include_opening : string := "{include:".

Definition _INCLUDE_RE (s : string) : option (string * nat) :=
  if str_prefix include_opening s then
    closed_group (String.length include_opening)
      (span (fun c => negb (bool_decide (c = brace_close))) (str_drop (String.length include_opening) s))
  else None.

Section files.
(** [(base / rel).resolve()] *)
Context (resolve : fpath -> string -> fpath) (files : disk).

Definition universal_newlines (s : string) : string :=
  str_replace (String CR EmptyString) newline (str_replace (String CR newline) newline s).

(** [path.is_file()] and [path.read_text()] *)
Definition read_text (path : fpath) : option (result string) :=
  match files !! path with
  | Some (File content) => Some (text ← decode content; Ok (universal_newlines text))
  | _ => None
  end.

(** [fuel] bounds how deep includes nest. *)
Fixpoint _resolve_includes (fuel : nat) (template : string) (base_dir : fpath) (seen : list fpath) : result string :=
  match fuel with
  | 0 => Raise (OtherError "RecursionError")
  | S fuel =>
      re_sub _INCLUDE_RE (fun rel_path =>
        let abs_path := resolve base_dir rel_path in
        if decide (abs_path ∈ seen) then Raise (ValueError "Circular include detected")
        else match read_text abs_path with
             | None => Raise (OSError ENOENT)
             | Some content =>
                 content ← content;
                 _resolve_includes fuel content (parent abs_path) (abs_path :: seen)
             end) 0 template
  end.

(** As deep as there are files: enough: see ComposeSpec.v. *)
Definition include_fuel : nat := S (size files).

Definition resolve_includes (template : string) (base_dir : fpath) : result string :=
  _resolve_includes include_fuel template base_dir [].

(** ** Fragments *)

Record Fragment := { fr_name : string; fr_content : string; fr_priority : Z; fr_source : string }.

(** [sorted] by a total preorder, stably *)
Fixpoint insert_le {A} (le : A -> A -> bool) (x : A) (l : list A) : list A :=
  match l with
  | [] => [x]
  | y :: l' => if le x y then x :: l else y :: insert_le le x l'
  end.
Definition sort_le {A} (le : A -> A -> bool) (l : list A) : list A := foldr (insert_le le) [] l.

(** *** _providers.py *)

Definition md_suffix : string := ".md".

(** [directory.glob("*.md")]: the names of the entries *)
Definition glob_md (directory : fpath) : list string :=
  omap (fun entry : fpath * node =>
          match last entry.1 with
          | Some name =>
              if decide (parent entry.1 = directory) then if str_suffix md_suffix name then Some name else None
              else None
          | None => None
          end) (map_to_list files).

(** [path.stem] of a name that ends in [md_suffix] *)
Definition stem (name : string) : string :=
  if decide (name = md_suffix) then name else String.substring 0 (String.length name - 3) name.

Definition is_dir (directory : fpath) : bool := bool_decide (files !! directory = Some Dir).

(** [FileFragmentProvider.fragments] *)
Definition file_fragments (directory : fpath) (priority : Z) : result (list Fragment) :=
  if is_dir directory then
    rmap (fun name =>
      match read_text (directory ++ [name]) with
      | None => Raise (OSError EISDIR)
      | Some raw =>
          raw ← raw;
          content ← resolve_includes raw directory;
          Ok {| fr_name := stem name; fr_content := content; fr_priority := priority;
                fr_source := ("file:" +:+ fpath_str directory)%string |}
      end) (sort_le String.leb (glob_md directory))
  else Ok [].
End files.

(** ** _engine.py *)

(** [key=lambda f: (f.priority, f.name)] *)
Definition fragment_le (f g : Fragment) : bool :=
  if decide (fr_priority f = fr_priority g) then String.leb (fr_name f) (fr_name g)
  else bool_decide (fr_priority f < fr_priority g)%Z.

Definition default_separator : string := (newline +:+ (newline +:+ ("---" +:+ (newline +:+ newline))))%string.

(** [providers] are the [fragments] of each provider in the given context. *)
Definition compose (providers : list (result (list Fragment))) (separator : string)
    (variables : option (dict string string)) : result string :=
  all_fragments ← rfold (fun acc fragments => l ← fragments; Ok (acc ++ l)) [] providers;
  let composed := join separator (fr_content <$> sort_le fragment_le all_fragments) in
  match variables with
  | Some variables => resolve_variables composed variables
  | None => Ok composed
  end.
