(* ===== verification/ComposeSpec.v ===== *)
(** Theorems about [Compose]: includes are resolved or refused for a reason, after finitely many; variables
    match placeholders both ways; the order of fragments is that of their priorities and names. *)
From Stdlib Require Import OrderedTypeEx.
From S2P Require Import Prelude PyDict Text Stream WriteSafety Compose.

(** ** Scanners *)

Section scan.
Context (at_start : string -> option (string * nat)).

Lemma re_sub_ok f skip s out :
  re_sub at_start f skip s = Ok out -> forall g, g ∈ find_all at_start skip s -> exists x, f g = Ok x.
Proof.
  revert skip out. induction s as [|c s IH]; intros skip out; simpl; [by intros _ g Hg%not_elem_of_nil|].
  destruct skip as [|k]; [|by apply IH].
  destruct (at_start (String c s)) as [[group n]|].
  - destruct (f group) as [x|] eqn:Ef; [|done]. cbn. destruct (re_sub _ f (n - 1) s) as [rest|] eqn:Er; [|done].
    intros _ g [->|Hg]%elem_of_cons; [by exists x|]. by eapply IH.
  - destruct (re_sub _ f 0 s) as [rest|] eqn:Er; [|done]. intros _. by eapply IH.
Qed.

Lemma re_sub_raise f skip s e :
  re_sub at_start f skip s = Raise e -> exists g, g ∈ find_all at_start skip s /\ f g = Raise e.
Proof.
  revert skip. induction s as [|c s IH]; intros skip; simpl; [done|].
  destruct skip as [|k]; [|by apply IH].
  destruct (at_start (String c s)) as [[group n]|].
  - destruct (f group) as [x|e'] eqn:Ef; cbn; [|intros [= ->]; exists group; by split; [left|]].
    destruct (re_sub _ f (n - 1) s) as [rest|e'] eqn:Er; [done|]. intros [= ->].
    apply IH in Er as (g & Hg & E). exists g. by split; [right|].
  - destruct (re_sub _ f 0 s) as [rest|e'] eqn:Er; [done|]. intros [= ->]. by apply IH.
Qed.

Lemma re_sub_ext f f' skip s :
  (forall g, g ∈ find_all at_start skip s -> f g = f' g) -> re_sub at_start f skip s = re_sub at_start f' skip s.
Proof.
  revert skip. induction s as [|c s IH]; intros [|k] Hf; simpl in *; try done; [|by apply IH].
  destruct (at_start (String c s)) as [[group n]|].
  - rewrite (Hf group) by left. rewrite (IH (n - 1)); [done|]. intros g Hg. apply Hf. by right.
  - by rewrite IH.
Qed.

(** Replacing every match by itself changes nothing. *)
Lemma re_sub_identity (shown : string -> string) skip s :
  (forall s g n, at_start s = Some (g, n) -> exists r, s = (shown g +:+ r)%string /\ n = String.length (shown g)) ->
  (forall g, shown g <> EmptyString) ->
  re_sub at_start (fun g => Ok (shown g)) skip s = Ok (str_drop skip s).
Proof.
  intros Hm Hne. revert skip. induction s as [|c s IH]; intros skip; simpl; [by destruct skip|].
  destruct skip as [|k]; [|apply IH].
  destruct (at_start (String c s)) as [[g n]|] eqn:E; cbn; rewrite IH; cbn; [|by destruct s].
  destruct (Hm _ _ _ E) as (r & Es & ->). specialize (Hne g).
  destruct (shown g) as [|c' p] eqn:Eg; [done|]. rewrite str_app_cons in Es. injection Es as <- ->.
  simpl. rewrite Nat.sub_0_r. f_equal. rewrite str_app_cons. f_equal. f_equal.
  clear. induction p as [|a p IHp]; [by destruct r|]. rewrite str_app_cons. exact IHp.
Qed.
End scan.

(** ** Includes *)

Section includes.
Context (resolve : fpath -> string -> fpath) (files : disk).

(** A chain of includes that starts from a text in a directory *)
Inductive chain : fpath -> string -> list fpath -> Prop :=
| chain_last dir t rel : rel ∈ find_all _INCLUDE_RE 0 t -> chain dir t [resolve dir rel]
| chain_more dir t rel content c :
    rel ∈ find_all _INCLUDE_RE 0 t -> read_text files (resolve dir rel) = Some (Ok content) ->
    chain (parent (resolve dir rel)) content c -> chain dir t (resolve dir rel :: c).

Definition readable (p : fpath) : Prop := exists content, read_text files p = Some (Ok content).

(** No file comes twice, and each can be read. *)
Definition good (seen c : list fpath) : Prop :=
  NoDup c /\ (forall p, p ∈ c -> (p ∉ seen) /\ readable p).

(** Why a file cannot be included after [seen] *)
Definition refused (seen : list fpath) (p : fpath) (e : exn) : Prop :=
  p ∈ seen /\ e = ValueError "Circular include detected" \/
  (p ∉ seen) /\ read_text files p = None /\ e = OSError ENOENT \/
  (p ∉ seen) /\ read_text files p = Some (Raise e).

Lemma read_text_file p x : read_text files p = Some x -> p ∈ dom files.
Proof. unfold read_text. destruct (files !! p) eqn:E; [|done]. intros _. by apply elem_of_dom. Qed.

Lemma seen_fits seen : NoDup seen -> (forall p, p ∈ seen -> readable p) -> length seen <= size files.
Proof.
  intros Hnd Hr. rewrite <- (size_list_to_set (C := gset fpath)) by done. rewrite <- size_dom.
  apply subseteq_size. intros p. rewrite elem_of_list_to_set. intros [content Hp]%Hr. by eapply read_text_file.
Qed.

Lemma good_cons seen p c content :
  p ∉ seen -> read_text files p = Some (Ok content) -> good (p :: seen) c -> good seen (p :: c).
Proof.
  intros Hp Hr [Hnd Hc]. split.
  - apply NoDup_cons. split; [|done]. intros Hin. apply Hc in Hin as [Hn _]. apply Hn. left.
  - intros q [->|Hq]%elem_of_cons; [split; [done|by eexists]|].
    apply Hc in Hq as [Hn ?]. split; [|done]. intros Hs. apply Hn. by right.
Qed.

Lemma include_depth_spec fuel : forall t dir seen,
  NoDup seen -> (forall p, p ∈ seen -> readable p) -> size files < fuel + length seen ->
  match _resolve_includes resolve files fuel t dir seen with
  | Ok _ => forall c, chain dir t c -> good seen c
  | Raise e => exists c p, chain dir t (c ++ [p]) /\ good seen c /\ refused (reverse c ++ seen) p e
  end.
Proof.
  induction fuel as [|fuel IH]; intros t dir seen Hnd Hseen Hfuel.
  { apply seen_fits in Hseen; [simpl in Hfuel; lia|done]. }
  cbn [_resolve_includes].
  match goal with |- match re_sub _ ?f0 0 t with _ => _ end => set (f := f0) end.
  assert (Hnext : forall rel content, resolve dir rel ∉ seen -> read_text files (resolve dir rel) = Some (Ok content) ->
     match _resolve_includes resolve files fuel content (parent (resolve dir rel)) (resolve dir rel :: seen) with
     | Ok _ => forall c, chain (parent (resolve dir rel)) content c -> good (resolve dir rel :: seen) c
     | Raise e => exists c p, chain (parent (resolve dir rel)) content (c ++ [p]) /\
         good (resolve dir rel :: seen) c /\ refused (reverse c ++ resolve dir rel :: seen) p e
     end).
  { intros rel content Hn Hr. apply IH.
    - by apply NoDup_cons.
    - intros p [->|Hp]%elem_of_cons; [by eexists|by apply Hseen].
    - simpl. lia. }
  destruct (re_sub _INCLUDE_RE f 0 t) as [out|e] eqn:E.
  - intros c Hc. assert (Hok := re_sub_ok _ _ _ _ _ E).
    inversion Hc as [dir' t' rel Hin|dir' t' rel content c' Hin Hr Hc']; subst;
      specialize (Hok rel Hin); unfold f in Hok; destruct Hok as [x Hx]; case_decide as Hs; try done.
    + destruct (read_text files (resolve dir rel)) as [[content|]|] eqn:Er; [|done..].
      split; [apply NoDup_singleton|]. intros p ->%list_elem_of_singleton. split; [done|by eexists].
    + rewrite Hr in Hx. cbn in Hx. specialize (Hnext rel content Hs Hr). rewrite Hx in Hnext.
      eapply good_cons; [done|exact Hr|by apply Hnext].
  - apply re_sub_raise in E as (rel & Hin & Ef). unfold f in Ef.
    assert (Hhere : refused seen (resolve dir rel) e ->
      exists c p, chain dir t (c ++ [p]) /\ good seen c /\ refused (reverse c ++ seen) p e).
    { intros Href. exists [], (resolve dir rel). split; [by constructor|]. split; [|exact Href].
      split; [apply NoDup_nil_2|by intros p Hp%not_elem_of_nil]. }
    case_decide as Hs; [injection Ef as <-; apply Hhere; by left|].
    destruct (read_text files (resolve dir rel)) as [[content|e']|] eqn:Er; cbn in Ef.
    + specialize (Hnext rel content Hs Er). rewrite Ef in Hnext. destruct Hnext as (c & p & Hc & Hg & Href).
      exists (resolve dir rel :: c), p. split; [by eapply chain_more|].
      split; [by eapply good_cons|]. by rewrite reverse_cons, <- app_assoc.
    + injection Ef as ->. apply Hhere. right. by right.
    + injection Ef as <-. apply Hhere. right. by left.
Qed.

Lemma fuel_enough extra fuel : forall t dir seen,
  NoDup seen -> (forall p, p ∈ seen -> readable p) -> size files < fuel + length seen ->
  _resolve_includes resolve files (fuel + extra) t dir seen = _resolve_includes resolve files fuel t dir seen.
Proof.
  induction fuel as [|fuel IH]; intros t dir seen Hnd Hseen Hfuel.
  { apply seen_fits in Hseen; [simpl in Hfuel; lia|done]. }
  simpl. apply re_sub_ext. intros rel _. case_decide; [done|].
  destruct (read_text files (resolve dir rel)) as [[content|]|] eqn:Er; [|done..]. cbn. apply IH.
  - by apply NoDup_cons.
  - intros p [->|Hp]%elem_of_cons; [by eexists|by apply Hseen].
  - simpl. lia.
Qed.

(** C34. Resolving the includes of a text ends - as deep as there are files is enough, and more depth gives the
    same - and succeeds exactly if along every chain of includes no file comes twice and each can be read.
    Otherwise there is a chain, good but for its last file, that is the reason: that file is one of the chain
    (ValueError), is missing (FileNotFoundError), or is no text. *)
Theorem includes_end t dir extra :
  _resolve_includes resolve files (include_fuel files + extra) t dir [] = resolve_includes resolve files t dir /\
  match resolve_includes resolve files t dir with
  | Ok _ => forall c, chain dir t c -> good [] c
  | Raise e => exists c p, chain dir t (c ++ [p]) /\ good [] c /\ refused (reverse c) p e
  end.
Proof.
  assert (Hnil : forall p, p ∈ ([] : list fpath) -> readable p) by (intros p Hp; by apply not_elem_of_nil in Hp).
  split.
  - apply fuel_enough; [apply NoDup_nil_2|exact Hnil|unfold include_fuel; simpl; lia].
  - unfold resolve_includes. assert (H := include_depth_spec (include_fuel files) t dir [] (NoDup_nil_2) Hnil).
    unfold include_fuel in *. destruct (_resolve_includes _ _ _ _ _ _); [apply H; simpl; lia|].
    destruct H as (c & p & Hc & Hg & Href); [simpl; lia|]. exists c, p. by rewrite app_nil_r in Href.
Qed.
End includes.

(** Two files that include each other *)
Definition demo_files : disk :=
  <[["p"; "a.md"]%string := File "A{include:b.md}"]> (<[["p"; "b.md"]%string := File "B{include:a.md}"]>
  (<[["p"; "c.md"]%string := File "C{include:d.md}C"]> (<[["p"; "d.md"]%string := File "D"]> ∅))).
Definition demo_resolve (base : fpath) (rel : string) : fpath := base ++ [rel].

Example nested : resolve_includes demo_resolve demo_files "x {include:c.md} {include:d.md}" ["p"]%string = Ok "x CDC D"%string.
Proof. vm_compute. reflexivity. Qed.
Example circular : resolve_includes demo_resolve demo_files "{include:a.md}" ["p"]%string =
  Raise (ValueError "Circular include detected").
Proof. vm_compute. reflexivity. Qed.

(** ** Variables *)

Definition shown_variable (name : string) : string := String brace_open (name +:+ String brace_close "").

Lemma span_spec f s : let '(p, r) := span f s in s = (p +:+ r)%string.
Proof.
  induction s as [|c s IH]; [done|]. simpl. destruct (f c); [|done].
  destruct (span f s) as [p r]. by rewrite IH, str_app_cons.
Qed.

Lemma variable_shown s g n :
  _VAR_RE s = Some (g, n) -> exists r, s = (shown_variable g +:+ r)%string /\ n = String.length (shown_variable g).
Proof.
  unfold _VAR_RE. destruct s as [|c [|d s]]; [done..|]. case_decide as Ec; [|done]. subst c.
  destruct (letter d); [|done]. assert (Hs := span_spec (fun c => letter c || digit c) (String d s)).
  destruct (span _ (String d s)) as [p r]. unfold closed_group. destruct p as [|a p]; [done|].
  destruct r as [|b r]; [done|]. case_decide as Eb; [|done]. intros [= <- <-]. subst b. exists r. split.
  - unfold shown_variable. by rewrite (str_app_cons brace_open), (str_app_assoc (String a p)), Hs.
  - unfold shown_variable. cbn [String.length]. rewrite str_app_cons. cbn [String.length].
    rewrite str_length_app. simpl. lia.
Qed.

(** Variables are resolved exactly if the placeholders of the template are the variables given, no more and
    no fewer; a placeholder without a variable is found before a variable without a placeholder.  With each
    variable standing for itself the template is given back. *)
Theorem variables_two_way template variables :
  let placeholders := find_all _VAR_RE 0 template in
  match resolve_variables template variables with
  | Ok out => (forall name, name ∈ placeholders <-> name ∈ dkeys variables) /\
      ((forall name v, variables !! name = Some v -> v = shown_variable name) -> out = template)
  | Raise e =>
      e = ValueError "Unresolved placeholder" /\ (exists name, name ∈ placeholders /\ name ∉ dkeys variables) \/
      e = ValueError "Unused variable" /\ (forall name, name ∈ placeholders -> name ∈ dkeys variables) /\
        exists name, name ∈ dkeys variables /\ name ∉ placeholders
  end.
Proof.
  intros placeholders. unfold resolve_variables. fold placeholders.
  destruct (filter _ (py_set placeholders)) as [|name l] eqn:E1.
  2: { left. split; [done|]. exists name. assert (H : name ∈ name :: l) by left.
       rewrite <- E1 in H. apply list_elem_of_filter in H as [Hn Hp]. rewrite elem_of_py_set in Hp. done. }
  assert (H1 : forall name, name ∈ placeholders -> name ∈ dkeys variables).
  { intros name Hn. destruct (decide (name ∈ dkeys variables)) as [|Hk]; [done|]. exfalso.
    assert (H : name ∈ filter (fun name => name ∉ dkeys variables) (py_set placeholders))
      by (apply list_elem_of_filter; by rewrite elem_of_py_set).
    rewrite E1 in H. by apply not_elem_of_nil in H. }
  destruct (filter _ (dkeys variables)) as [|name l] eqn:E2.
  2: { right. split; [done|]. split; [done|]. exists name. assert (H : name ∈ name :: l) by left.
       rewrite <- E2 in H. apply list_elem_of_filter in H as [Hn ?]. rewrite elem_of_py_set in Hn. done. }
  assert (H2 : forall name, name ∈ dkeys variables -> name ∈ placeholders).
  { intros name Hk. destruct (decide (name ∈ placeholders)) as [|Hn]; [done|]. exfalso.
    assert (H : name ∈ filter (fun name => name ∉ py_set placeholders) (dkeys variables))
      by (apply list_elem_of_filter; by rewrite elem_of_py_set).
    rewrite E2 in H. by apply not_elem_of_nil in H. }
  assert (Hiff : forall name, name ∈ placeholders <-> name ∈ dkeys variables) by (split; auto).
  destruct (py_set placeholders) as [|n0 l0] eqn:E0; [done|].
  destruct (re_sub _ _ 0 template) as [out|e] eqn:E.
  - split; [done|]. intros Hself.
    rewrite (re_sub_ext _ _ (fun g => Ok (shown_variable g))) in E.
    + rewrite re_sub_identity in E; [by injection E as <-|apply variable_shown|done].
    + intros g Hg%H1. destruct (variables !! g) as [v|] eqn:Ev; [by rewrite (Hself g v Ev)|].
      by apply dict_lookup_None_key in Ev.
  - exfalso. apply re_sub_raise in E as (g & Hg & Ef). apply H1 in Hg.
    destruct (variables !! g) eqn:Ev; [done|]. by apply dict_lookup_None_key in Ev.
Qed.

(** ** The order of fragments *)

Lemma string_compare_lt_trans : forall x y z,
  String.compare x y = Lt -> String.compare y z = Lt -> String.compare x z = Lt.
Proof.
  assert (Hl : forall a b, Ascii.compare a b = Lt <-> (Ascii.N_of_ascii a < Ascii.N_of_ascii b)%N)
    by (intros; unfold Ascii.compare; apply N.compare_lt_iff).
  assert (He : forall a b, Ascii.compare a b = Eq -> a = b) by (intros; by apply Ascii.compare_eq_iff).
  induction x as [|a x IH]; intros [|b y] [|c z]; cbn [String.compare]; try done.
  destruct (Ascii.compare a b) eqn:Eab; [apply He in Eab as ->| |done]; intros Hxy.
  - destruct (Ascii.compare b c) eqn:Ebc; [by apply IH|done|done].
  - destruct (Ascii.compare b c) eqn:Ebc; [apply He in Ebc as ->; by rewrite Eab| |done].
    intros _. apply Hl in Eab, Ebc. assert (H : Ascii.compare a c = Lt) by (apply Hl; etrans; eassumption). by rewrite H.
Qed.

Lemma string_leb_trans x y z : String.leb x y = true -> String.leb y z = true -> String.leb x z = true.
Proof.
  unfold String.leb. destruct (String.compare x y) eqn:Exy; [|intros _|done].
  - apply String.compare_eq_iff in Exy as ->. done.
  - destruct (String.compare y z) eqn:Eyz; [|intros _|done].
    + apply String.compare_eq_iff in Eyz as ->. by rewrite Exy.
    + by rewrite (string_compare_lt_trans x y z).
Qed.

Definition fragment_key (f : Fragment) : Z * string := (fr_priority f, fr_name f).

Lemma fragment_le_total f g : fragment_le f g = true \/ fragment_le g f = true.
Proof.
  unfold fragment_le. destruct (decide (fr_priority f = fr_priority g)) as [E|E].
  - rewrite decide_True by done. apply String.leb_total.
  - rewrite decide_False by done. rewrite !bool_decide_eq_true. lia.
Qed.

Lemma fragment_le_trans f g h : fragment_le f g = true -> fragment_le g h = true -> fragment_le f h = true.
Proof.
  unfold fragment_le. intros H1 H2.
  repeat match goal with
  | H : context [decide (fr_priority ?a = fr_priority ?b)] |- _ => destruct (decide (fr_priority a = fr_priority b))
  | H : bool_decide _ = true |- _ => apply bool_decide_eq_true in H
  end.
  - rewrite decide_True by lia. by eapply string_leb_trans.
  - rewrite decide_False by lia. apply bool_decide_eq_true. lia.
  - rewrite decide_False by lia. apply bool_decide_eq_true. lia.
  - rewrite decide_False by lia. apply bool_decide_eq_true. lia.
Qed.

Lemma fragment_le_antisym f g : fragment_le f g = true -> fragment_le g f = true -> fragment_key f = fragment_key g.
Proof.
  unfold fragment_le, fragment_key. destruct (decide (fr_priority f = fr_priority g)) as [E|E].
  - rewrite decide_True by done. intros H1 H2. by rewrite E, (String.leb_antisym _ _ H1 H2).
  - rewrite decide_False by done. rewrite !bool_decide_eq_true. lia.
Qed.

Definition ordered : list Fragment -> Prop := StronglySorted (fun f g => fragment_le f g = true).

Lemma insert_le_perm f l : insert_le fragment_le f l ≡ₚ f :: l.
Proof.
  induction l as [|g l IH]; simpl; [done|]. destruct (fragment_le f g); [done|]. rewrite IH. apply perm_swap.
Qed.

Lemma sort_le_perm l : sort_le fragment_le l ≡ₚ l.
Proof. induction l as [|f l IH]; simpl; [done|]. by rewrite insert_le_perm, IH. Qed.

Lemma insert_le_ordered f l : ordered l -> ordered (insert_le fragment_le f l).
Proof.
  induction 1 as [|g l Hl IH Hg]; simpl; [repeat constructor|]. destruct (fragment_le f g) eqn:E.
  - constructor; [by constructor|]. constructor; [done|]. eapply Forall_impl; [exact Hg|].
    intros h Hh. by eapply fragment_le_trans.
  - constructor; [done|]. rewrite insert_le_perm. constructor; [|done].
    destruct (fragment_le_total f g) as [H|H]; [by rewrite E in H|done].
Qed.

Lemma sort_le_ordered l : ordered (sort_le fragment_le l).
Proof. induction l as [|f l IH]; simpl; [constructor|by apply insert_le_ordered]. Qed.

(** Two ordered arrangements of fragments with different keys are the same. *)
Lemma ordered_unique l k : ordered l -> ordered k -> l ≡ₚ k -> NoDup (fragment_key <$> l) -> l = k.
Proof.
  intros Hl. revert k. induction Hl as [|f l Hl IH Hf]; intros k Hk Hp Hnd.
  - by apply Permutation_nil_l in Hp as ->.
  - destruct Hk as [|g k Hk Hg]; [by apply Permutation_nil_r in Hp|].
    assert (E : f = g).
    { assert (Hfk : f ∈ g :: k) by (rewrite <- Hp; left). assert (Hgl : g ∈ f :: l) by (rewrite Hp; left).
      apply elem_of_cons in Hfk as [|Hfk]; [done|]. apply elem_of_cons in Hgl as [|Hgl]; [done|]. exfalso.
      rewrite Forall_forall in Hf, Hg. assert (K := fragment_le_antisym f g (Hf g Hgl) (Hg f Hfk)).
      rewrite fmap_cons in Hnd. apply NoDup_cons in Hnd as [Hn _]. apply Hn. rewrite K.
      by apply list_elem_of_fmap_2. }
    subst g. f_equal. apply IH; [done| |].
    + by apply Permutation_cons_inv in Hp.
    + rewrite fmap_cons in Hnd. by apply NoDup_cons in Hnd as [_ ?].
Qed.

Lemma collect_fragments (ls : list (list Fragment)) rest : forall acc,
  rfold (fun acc (fragments : result (list Fragment)) => l ← fragments; Ok (acc ++ l)) acc ((Ok <$> ls) ++ rest) =
  rfold (fun acc (fragments : result (list Fragment)) => l ← fragments; Ok (acc ++ l)) (acc ++ concat ls) rest.
Proof.
  induction ls as [|l ls IH]; intros acc; simpl; [by rewrite app_nil_r|]. by rewrite IH, app_assoc.
Qed.

(** The composed text does not depend on the order in which the providers are asked, nor on how the fragments are
    divided among them: it is determined by the fragments alone, as long as no two have the same priority and the
    same name.  The first provider that raises decides the exception. *)
Theorem compose_order (ls ks : list (list Fragment)) separator variables :
  concat ls ≡ₚ concat ks -> NoDup (fragment_key <$> concat ls) ->
  compose (Ok <$> ls) separator variables = compose (Ok <$> ks) separator variables /\
  forall e rest, compose ((Ok <$> ls) ++ Raise e :: rest) separator variables = Raise e.
Proof.
  intros Hp Hnd. split.
  - unfold compose. rewrite <- (app_nil_r (Ok <$> ls)), <- (app_nil_r (Ok <$> ks)), !collect_fragments. simpl.
    replace (sort_le fragment_le (concat ks)) with (sort_le fragment_le (concat ls)); [done|].
    apply ordered_unique; try apply sort_le_ordered; rewrite !sort_le_perm; done.
  - intros e rest. unfold compose. by rewrite collect_fragments.
Qed.

Lemma compose_order_witness :
  let fragment n p := {| fr_name := n; fr_content := ("text of " +:+ n)%string; fr_priority := p; fr_source := "" |} in
  compose (Ok <$> [[fragment "b" 0; fragment "a" 5]; [fragment "a" 0]]%Z) ", " None = Ok "text of a, text of b, text of a" /\
  compose (Ok <$> [[fragment "a" 5; fragment "a" 0]; []; [fragment "b" 0]]%Z) ", " None =
    compose (Ok <$> [[fragment "b" 0; fragment "a" 5]; [fragment "a" 0]]%Z) ", " None.
Proof.
  intros fragment. split; [reflexivity|].
  refine (proj1 (compose_order _ _ _ _ _ _)).
  - simpl. solve_Permutation.
  - vm_compute. repeat constructor; set_solver.
Defined.
