(* ===== verification/Incoming.v ===== *)
(** Incoming events: the webhook receiver of incoming/_receiver.py, the replay endpoint of _replay.py and the
    event stream of _stream.py, over the stores of credentials, sources, principals and events; [fire_event] of
    services/_events.py.

    A request is its parts; [request.header] and [request.query] are the server's.  Bytes are [string]s, and a
    text is the string of its UTF-8 bytes. *)
From S2P Require Import Prelude PyDict Text Types Trace TraceReader Secrets Dispatch Identity Auth Notification.

(** [s.split(".")] *)
Definition dot : Ascii.ascii := Ascii.ascii_of_nat 46.
Fixpoint split_dot (s : string) : list string :=
  match s with
  | EmptyString => [EmptyString]
  | String a s' =>
      match split_dot s' with
      | [] => [EmptyString]
      | p :: ps => if decide (a = dot) then EmptyString :: p :: ps else String a p :: ps
      end
  end.

(** ** Requests and answers *)

Record incoming_request := {
  iq_slug : string;
  iq_body : string;
  iq_header : string -> option string;
  iq_since : option value;
  (** [request.query("limit", type_=int, ge=1, le=MAX_REPLAY_LIMIT)] *)
  iq_limit : result (option Z);
  iq_last_event_id : option value
}.

Inductive incoming_answer :=
| IncomingText (status : Z)
| IncomingJson (status : Z) (body : value)
| IncomingStream (principal : uuid) (last_event_id : option uuid).

(** [request.header(name)] of a name from the configuration *)
Definition header_of (request : incoming_request) (name : value) : result (option string) :=
  match name with
  | VStr s => Ok (iq_header request s)
  | _ => Raise (TypeError "header name")
  end.

(** [source.config or {}], a dict *)
Definition source_config (source : Source) : list (string * value) :=
  match src_config source with Some (VDict d) => d | _ => [] end.

(** [config.get(k)]: a missing key and null are both [None]. *)
Definition config_get (config : list (string * value)) (k : string) : option value :=
  match assoc k config with Some VNone => None | o => o end.

Definition bearer : string := "bearer ".

(** The prefix [Bearer], in any case, is cut off. *)
Definition strip_bearer (auth_value : string) : string :=
  if str_prefix bearer (str_lower auth_value) then str_drop 7 auth_value else auth_value.

Section incoming.
Context (sha256_hex : string -> string) (hmac_hex : string -> string -> string -> string).
(** [json.loads] of bytes, [bytes.decode("utf-8", errors="replace")], [str] of an id that JSON text held *)
Context (json_loads : string -> result value) (decode_replace : string -> string) (uuid_str : uuid -> string).
Context (parse_uuid : string -> option uuid).

(** ** _receiver.py *)

Definition is_json_error (e : exn) : bool :=
  match e with
  | JSONDecodeError => true
  | OtherError what => bool_decide (what = "UnicodeDecodeError"%string)
  | _ => false
  end.

(** The value, or [None] for a body that is no JSON *)
Definition loads_body (raw_body : string) : result (option value) :=
  match json_loads raw_body with
  | Ok v => Ok (Some v)
  | Raise e => if is_json_error e then Ok None else Raise e
  end.

(** An extraction returns [None] where the source raises [_ExtractionError]. *)
Definition strip_signature (signature : string) : string :=
  if str_prefix "sha256=" signature then str_drop 7 signature
  else if str_prefix "sha1=" signature then str_drop 5 signature
  else if str_prefix "sha512=" signature then str_drop 7 signature
  else signature.

Definition _build_presented_credential (request : incoming_request) (config : list (string * value)) :
    result (option string) :=
  match config_get config "signature_header" with
  | Some signature_header =>
      signature ← header_of request signature_header;
      Ok (signature ← (signature : option string);
          Some ("_:" +:+ (strip_signature signature +:+ (":" +:+ decode_replace (iq_body request))))%string)
  | None =>
      auth_value ← header_of request (default (VStr "Authorization") (assoc "auth_header"%string config));
      Ok (strip_bearer <$> (auth_value : option string))
  end.

(** [current[part]] along the path *)
Fixpoint walk_path (parts : list string) (current : value) : option value :=
  match parts with
  | [] => Some current
  | part :: parts' => v ← vget part current; walk_path parts' v
  end.

Definition text_value (v : value) : option string :=
  match v with VStr s => Some s | VUuidStr u => Some (uuid_str u) | _ => None end.

Definition _extract_event_type (request : incoming_request) (config : list (string * value)) :
    result (option value) :=
  match config_get config "event_type_source", config_get config "event_type_field" with
  | Some source_type, Some field =>
      if decide (source_type = VStr "header") then h ← header_of request field; Ok (VStr <$> (h : option string))
      else if decide (source_type = VStr "json_field") then
        data ← loads_body (iq_body request);
        match data with
        | None => Ok None
        | Some data =>
            match field with
            | VStr path => Ok (v ← walk_path (split_dot path) data; VStr <$> text_value v)
            | _ => Raise (TypeError "event_type_field")
            end
        end
      else if decide (source_type = VStr "constant") then Ok (Some field)
      else Ok None
  | _, _ => Ok None
  end.

Definition _extract_idempotency_key (request : incoming_request) (config : list (string * value)) :
    result (option string) :=
  match config_get config "idempotency_header" with
  | None => Ok None
  | Some header_name => header_of request header_name
  end.

(** ** The stores behind the routes *)

Context {X : Type}.

Record receiver := {
  rc_auth : InMemoryAuthBackend;
  rc_directory : directory;
  rc_trace : Trace.backend;
  rc_ext : X
}.
#[export] Instance eta_receiver : Eta receiver := fun w => {|
  rc_auth := rc_auth w; rc_directory := rc_directory w; rc_trace := rc_trace w; rc_ext := rc_ext w |}.

Definition on_directory {A} (m : M directory A) : M receiver A :=
  zoom rc_directory (fun d w => w .[rc_directory := d]) m.
Definition on_trace {A} (m : M Trace.backend A) : M receiver A :=
  zoom rc_trace (fun b w => w .[rc_trace := b]) m.

Context (verifiers : dict string AnyVerifier).
(** The sink of audit events: code outside these stores *)
Context (audit : option (AuthAuditEvent -> M X unit)).

Definition audit_sink : option (AuthAuditEvent -> M receiver unit) :=
  (fun on_event ev => zoom rc_ext (fun x w => w .[rc_ext := x]) (on_event ev)) <$> audit.

Definition now_of (w : receiver) : time := dr_clock (rc_directory w).

(** [authenticator.verify_by_credential_id]; [None] is an [AuthenticationError]. *)
Definition verified (credential_id : uuid) (presented : string) : M receiver (option AuthContext) :=
  r ← mtry (verify_by_credential_id sha256_hex hmac_hex rc_auth now_of verifiers audit_sink credential_id presented);
  match r with
  | Ok ctx => mret (Some ctx)
  | Raise e => if is_authentication_error e then mret None else mthrow e
  end.

Definition source_by_slug (slug : string) : M receiver (option Source) :=
  mgets (fun w => get_source_by_slug (dr_dispatch (rc_directory w)) slug).
Definition source_principal_of (source : Source) : M receiver (option Principal) :=
  mgets (fun w => get_principal_by_ref (dr_principals (rc_directory w)) KIND_SOURCE (src_id source)).

(** *** services/_events.py *)

(** The names of the database's columns are texts. *)
Definition event_name_text (v : value) : result string := or_raise (text_value v) (TypeError "event_type").

Definition fire_event (caller_principal : Principal) (run_id : option uuid) (event_name : value)
    (payload : value) (idempotency_key : option string) : M receiver (uuid * bool) :=
  event_id ← on_directory tick;
  now ← on_directory tick;
  name ← liftr (event_name_text event_name);
  on_trace (write_event event_id now run_id name (if falsy payload then VDict [] else payload) None
              (pr_id caller_principal) idempotency_key).

(** *** POST /events/{slug} *)

Definition DEFAULT_MAX_BODY_BYTES : Z := 1048576.

Definition webhook_handler (max_body_bytes : Z) (request : incoming_request) : M receiver incoming_answer :=
  if (max_body_bytes <? Z.of_nat (String.length (iq_body request)))%Z then mret (IncomingText 413)
  else
    source ← source_by_slug (iq_slug request);
    match source with
    | None => mret (IncomingText 404)
    | Some source =>
        match src_credential_id source with
        | None => mret (IncomingText 403)
        | Some credential_id =>
            let config := source_config source in
            presented ← liftr (_build_presented_credential request config);
            match presented with
            | None => mret (IncomingText 401)
            | Some presented =>
                auth_context ← verified credential_id presented;
                match auth_context with
                | None => mret (IncomingText 401)
                | Some _ =>
                    source_principal ← source_principal_of source;
                    match source_principal with
                    | None => mret (IncomingText 500)
                    | Some source_principal =>
                        event_type ← liftr (_extract_event_type request config);
                        match event_type with
                        | None => mret (IncomingText 400)
                        | Some event_type =>
                            data ← liftr (loads_body (iq_body request));
                            match data with
                            | None => mret (IncomingText 400)
                            | Some data =>
                                idempotency_key ← liftr (_extract_idempotency_key request config);
                                fired ← fire_event source_principal None event_type data idempotency_key;
                                mret (IncomingJson 202
                                  (VDict [("event_id", VUuidStr fired.1); ("inserted", VBool fired.2)]%string))
                            end
                        end
                    end
                end
            end
        end
    end.

(** *** What _replay.py and _stream.py begin with *)

(** The source, if the request may read its events: [inl] is the refusal. *)
Definition reading_source (request : incoming_request) : M receiver (Z + Principal) :=
  source ← source_by_slug (iq_slug request);
  match source with
  | None => mret (inl 404%Z)
  | Some source =>
      match src_credential_id source with
      | None => mret (inl 403%Z)
      | Some credential_id =>
          auth_value ← liftr (header_of request
            (default (VStr "Authorization") (assoc "auth_header"%string (source_config source))));
          match auth_value with
          | None => mret (inl 401%Z)
          | Some auth_value =>
              auth_context ← verified credential_id (strip_bearer auth_value);
              match auth_context with
              | None => mret (inl 401%Z)
              | Some _ =>
                  source_principal ← source_principal_of source;
                  mret match source_principal with None => inl 500%Z | Some p => inr p end
              end
          end
      end
  end.

(** *** GET /events/{slug}/replay *)

Definition DEFAULT_REPLAY_LIMIT : Z := 100.
Definition MAX_REPLAY_LIMIT : Z := 1000.

Context (isoformat : time -> string).

Definition id_value (o : option uuid) : value := match o with Some u => VUuidStr u | None => VNone end.

(** The row of an event, serialised *)
Definition _serialize_event (ev : event_row) : value :=
  VDict [("id", VUuidStr (ev_id ev)); ("run_id", id_value (ev_run_id ev)); ("task_id", id_value (ev_task_id ev));
         ("event_type", VStr (ev_type ev)); ("principal_id", VUuidStr (ev_principal_id ev));
         ("data", ev_data ev); ("created_at", VStr (isoformat (ev_created_at ev)))]%string.

(** [UUID(x)] of a parameter, if there is one: [inl] when it is no id. *)
Definition parse_parameter (v : option value) : result (unit + option uuid) :=
  match v with
  | None => Ok (inr None)
  | Some v => u ← UUID parse_uuid v; Ok match u with None => inl tt | Some u => inr (Some u) end
  end.

Definition replay_handler (request : incoming_request) : M receiver incoming_answer :=
  reader ← reading_source request;
  match reader with
  | inl status => mret (IncomingText status)
  | inr source_principal =>
      since_id ← liftr (parse_parameter (iq_since request));
      match since_id with
      | inl _ => mret (IncomingText 400)
      | inr since_id =>
          limit ← liftr (iq_limit request);
          events ← mgets (fun w => replay (rc_trace w) None (Some (pr_id source_principal)) since_id
                                     (default DEFAULT_REPLAY_LIMIT limit));
          mret (IncomingJson 200 (VList (_serialize_event <$> events)))
      end
  end.

(** *** GET /events/{slug}/stream *)

Definition incoming_stream_handler (request : incoming_request) : M receiver incoming_answer :=
  reader ← reading_source request;
  match reader with
  | inl status => mret (IncomingText status)
  | inr source_principal =>
      last_event_id ← liftr (parse_parameter (iq_last_event_id request));
      match last_event_id with
      | inl _ => mret (IncomingText 400)
      | inr last_event_id => mret (IncomingStream (pr_id source_principal) last_event_id)
      end
  end.
End incoming.
Arguments receiver : clear implicits.

(** ** The generator of _stream.py *)

Section event_stream.
Context (json_dumps : value -> string) (json_loads : string -> result value).
Context (isoformat : time -> string) (uuid_str : uuid -> string) (py_str : value -> string).
Context (parse_uuid : string -> option uuid).

(** trace/_reader.py, [read_event] *)
Definition read_event (b : Trace.backend) (event_id : uuid) : option event_row :=
  head (filter (fun ev => ev_id ev = event_id) (Trace._events b)).

Definition format_event (ev : event_row) : string :=
  ("id: " +:+ (uuid_str (ev_id ev) +:+ (newline +:+ ("event: " +:+ (ev_type ev +:+ (newline +:+ ("data: " +:+
   (json_dumps (_serialize_event isoformat ev) +:+ (newline +:+ newline)))))))))%string.

(** Returns the message and the seen ids. *)
Definition _fetch_live_event (b : Trace.backend) (notification : value) (seen_ids : list value) :
    result (option string * list value) :=
  match get_or_null "event_id" notification with
  | None => Ok (None, seen_ids)
  | Some raw_event_id =>
      let event_id := text_of py_str raw_event_id in
      if decide (event_id ∈ seen_ids) then Ok (None, seen_ids)
      else
        event_uuid ← UUID parse_uuid event_id;
        match event_uuid with
        | None => Ok (None, seen_ids)
        | Some event_uuid =>
            match read_event b event_uuid with
            | None => Ok (None, seen_ids)
            | Some full_event => Ok (Some (format_event full_event), seen_ids ++ [event_id])
            end
        end
  end.

(** Where the generator is *)
Inductive sse_phase := SseSubscribed | CatchingUp (rest : list event_row) | SseLive.

Record event_stream := {
  es_phase : sse_phase;
  es_queue : list value;
  es_seen : list value;
  (** everything it has yielded *)
  es_sent : list string
}.
#[export] Instance eta_event_stream : Eta event_stream := fun s => {|
  es_phase := es_phase s; es_queue := es_queue s; es_seen := es_seen s; es_sent := es_sent s |}.

Context (source_principal_id : uuid) (last_event_id : option uuid).

(** The state after [event_bus.subscribe] *)
Definition event_stream_init : event_stream :=
  {| es_phase := SseSubscribed; es_queue := []; es_seen := []; es_sent := [] |}.

Definition on_notify_event (payload : string) (s : event_stream) : result event_stream :=
  match json_loads payload with
  | Raise _ => Ok s
  | Ok (VDict d) =>
      if decide (assoc "principal_id"%string d = Some (VUuidStr source_principal_id)) then
        Ok (s .[es_queue ::= fun q => q ++ [VDict d]])
      else Ok s
  | Ok _ => Raise (OtherError "AttributeError: no attribute get")
  end.

(** The default [limit] of trace's [replay] *)
Definition catch_up_limit : Z := 1000.

(** [_sse_generator], up to where it next waits or yields; a wait in the live phase ends with the next of the
    queue or, when there is none for 15 seconds, with a heartbeat. *)
Definition sse_advance (b : Trace.backend) (s : event_stream) : result event_stream :=
  match es_phase s with
  | SseSubscribed =>
      Ok (s .[es_phase := CatchingUp
        match last_event_id with
        | Some since => replay b None (Some source_principal_id) (Some since) catch_up_limit
        | None => []
        end])
  | CatchingUp (ev :: rest) =>
      Ok (s .[es_phase := CatchingUp rest] .[es_seen ::= fun l => l ++ [VUuidStr (ev_id ev)]]
            .[es_sent ::= fun l => l ++ [format_event ev]])
  | CatchingUp [] => Ok (s .[es_phase := SseLive])
  | SseLive =>
      match es_queue s with
      | [] => Ok (s .[es_sent ::= fun l => l ++ [heartbeat]])
      | notification :: queue =>
          '(msg, seen) ← _fetch_live_event b notification (es_seen s);
          Ok (s .[es_queue := queue] .[es_seen := seen]
                .[es_sent ::= fun l => match msg with Some m => l ++ [m] | None => l end])
      end
  end.
End event_stream.
