(* ===== verification/IncomingSpec.v ===== *)
(** Theorems about [Incoming]: which webhooks become events, whose MAC covers their bodies, and what an event
    stream sends. *)
From S2P Require Import Prelude PyDict Text Types Trace TraceReader TraceSpec Secrets Dispatch Identity Auth AuthSpec Notification NotificationSpec Incoming.

Section webhooks.
Context (sha256_hex : string -> string) (hmac_hex : string -> string -> string -> string).
Context (json_loads : string -> result value) (decode_replace : string -> string) (uuid_str : uuid -> string).
Context (parse_uuid : string -> option uuid).
Context {X : Type} (verifiers : dict string AnyVerifier).
Context (audit : AuthAuditEvent -> M X unit).

Abbreviation state := (receiver X).
Abbreviation webhook := (webhook_handler sha256_hex hmac_hex json_loads decode_replace uuid_str verifiers (Some audit)).
Abbreviation check := (verified sha256_hex hmac_hex verifiers (Some audit)).
Abbreviation presented_by := (_build_presented_credential decode_replace).
Abbreviation event_type_of := (_extract_event_type json_loads uuid_str).
Abbreviation is_authentic w := (authentic sha256_hex hmac_hex verifiers (rc_auth w) (now_of w)).

(** Nothing but what the audit sink keeps is different. *)
Definition untouched (w w' : state) : Prop :=
  rc_auth w' = rc_auth w /\ rc_directory w' = rc_directory w /\ rc_trace w' = rc_trace w.

Lemma untouched_self w : untouched w w.
Proof. done. Qed.

(** [credential_id] is a credential that [presented] proves. *)
Definition proven (w : state) (credential_id : uuid) (presented : string) : Prop :=
  exists cred ctx, _credentials (rc_auth w) !! credential_id = Some cred /\ is_authentic w cred presented ctx.

Lemma sink_keeps w0 o cid ty consumer reason :
  keeps (untouched w0) (_emit_audit now_of (audit_sink (Some audit)) cid ty consumer o reason).
Proof.
  unfold _emit_audit. apply keeps_bind; [auto with pydb|]. intros now. apply keeps_catch; [|auto with pydb].
  intros w Hw. unfold zoom. by destruct (audit _ (rc_ext w)) as [r x].
Qed.

Lemma verify_keeps w0 credential_id presented :
  keeps (untouched w0)
    (verify_by_credential_id sha256_hex hmac_hex rc_auth now_of verifiers (audit_sink (Some audit)) credential_id presented).
Proof.
  unfold verify_by_credential_id, _verify_with_record.
  repeat first [apply sink_keeps | apply keeps_bind; [|intros ?] | case_match | solve [auto with pydb]].
Qed.

(** A credential is accepted exactly if it is proven; the stores stay as they are. *)
Lemma verified_spec credential_id presented w :
  wp (check credential_id presented)
    (fun r w' => untouched w w' /\ (is_Some r <-> proven w credential_id presented))
    (fun _ w' => untouched w w' /\ ~ proven w credential_id presented) w.
Proof.
  unfold verified. apply wp_bind, wp_mtry.
  eapply wp_mono; [apply (wp_keeps (untouched w)); [apply verify_keeps|done|apply verify_by_id_outcome]|..].
  - intros ctx w' [(cred & Hc & Ha) Hu]. apply wp_ret. split; [done|]. split; [intros _; by exists cred, ctx|done].
  - intros e w' [Hno Hu].
    assert (Hp : ~ proven w credential_id presented) by (intros (cred & ctx & Hc & Ha); by apply (Hno cred ctx)).
    destruct (is_authentication_error e); [apply wp_ret|apply wp_throw]; (split; [done|]); [|done].
    by split; [intros [? ?]|].
Qed.

(** ** Webhooks *)

(** The request is a webhook of [source], whose principal [p] may fire it as this event. *)
Record posts (max : Z) (w : state) (request : incoming_request) (source : Source) (p : Principal)
    (event_type data : value) (key : option string) : Prop := {
  po_small : (Z.of_nat (String.length (iq_body request)) <= max)%Z;
  po_slug : get_source_by_slug (dr_dispatch (rc_directory w)) (iq_slug request) = Some source;
  po_proof : exists credential_id presented, src_credential_id source = Some credential_id /\
    presented_by request (source_config source) = Ok (Some presented) /\ proven w credential_id presented;
  po_principal : get_principal_by_ref (dr_principals (rc_directory w)) KIND_SOURCE (src_id source) = Some p;
  po_type : event_type_of request (source_config source) = Ok (Some event_type);
  po_data : loads_body json_loads (iq_body request) = Ok (Some data);
  po_key : _extract_idempotency_key request (source_config source) = Ok key
}.

(** Nothing is written, as the request is no such webhook - or the type it gives is no text. *)
Definition refused (max : Z) (w w' : state) (request : incoming_request) : Prop :=
  rc_trace w' = rc_trace w /\ dr_dispatch (rc_directory w') = dr_dispatch (rc_directory w) /\
  rc_auth w' = rc_auth w /\ dr_principals (rc_directory w') = dr_principals (rc_directory w) /\
  forall source p ty data key, posts max w request source p ty data key -> text_value uuid_str ty = None.

Lemma refuse max w w' request :
  untouched w w' -> (forall source p ty data key, ~ posts max w request source p ty data key) ->
  refused max w w' request.
Proof.
  intros (Ha & Hd & Ht) Hno. unfold refused. rewrite Ha, Hd, Ht. split_and!; try done.
  intros source p ty data key H. by apply Hno in H.
Qed.

(** Firing an event, with the next two readings of the clock *)
Lemma fire_event_spec p run_id event_name payload key (w : state) :
  let n := now_of w in
  wp (fire_event uuid_str p run_id event_name payload key)
    (fun fired w' => exists name, text_value uuid_str event_name = Some name /\
       write_event n (Z.succ n) run_id name (if falsy payload then VDict [] else payload) None (pr_id p) key
         (rc_trace w) = (Ok fired, rc_trace w') /\
       rc_auth w' = rc_auth w /\ rc_directory w' = (rc_directory w) .[dr_clock := Z.succ (Z.succ n)])
    (fun _ w' => text_value uuid_str event_name = None /\ rc_trace w' = rc_trace w /\
       rc_auth w' = rc_auth w /\ rc_directory w' = (rc_directory w) .[dr_clock := Z.succ (Z.succ n)]) w.
Proof.
  intros n. unfold fire_event. do 2 (apply wp_bind, wp_zoom; unfold tick; apply wp_bind, wp_mgets, wp_bind, wp_mmod, wp_ret).
  apply wp_bind. unfold event_name_text. apply wp_liftr; intros r Hr; cbn.
  - destruct (text_value uuid_str event_name) as [name|]; [|done]. injection Hr as ->. apply wp_zoom. cbn.
    unfold wp. destruct (write_event _ _ _ _ _ _ _ _ _) as [[fired|e] b] eqn:E; cbn.
    + by exists r.
    + exfalso. revert E. unfold write_event, mbind, M_bind. cbn.
      destruct key as [key|]; cbn; [|done]. by destruct (_idempotency_index (rc_trace w) !! key).
  - by destruct (text_value uuid_str event_name).
Qed.

(** C18. A webhook becomes an event exactly if its body is not too large, its slug names a source, the source has
    a credential and the request proves it, the source has a principal, and body and configuration give a JSON
    value and an event type.  The event is the source's own, of no run, with that type and value, and is written
    unless its idempotency key was used before - by any source or caller: then the id of that event is returned.
    Any other request leaves all stores as they are. *)
Theorem webhook_exactly max request w :
  wp (webhook max request)
    (fun answer w' =>
       match answer with
       | IncomingJson status body => status = 202%Z /\
           exists source p ty name data key fired, posts max w request source p ty data key /\
             text_value uuid_str ty = Some name /\
             write_event (now_of w) (Z.succ (now_of w)) None name (if falsy data then VDict [] else data) None (pr_id p)
               key (rc_trace w) = (Ok fired, rc_trace w') /\
             body = VDict [("event_id", VUuidStr fired.1); ("inserted", VBool fired.2)]%string
       | IncomingText _ => refused max w w' request
       | IncomingStream _ _ => False
       end)
    (fun _ w' => refused max w w' request) w.
Proof.
  unfold webhook_handler. case_match eqn:Emax.
  { apply wp_ret, refuse; [done|]. intros ????? []. lia. }
  apply wp_bind, wp_mgets. destruct (get_source_by_slug _ _) as [source|] eqn:Esrc.
  2: { apply wp_ret, refuse; [done|]. intros ????? []. congruence. }
  destruct (src_credential_id source) as [cid|] eqn:Ecid.
  2: { apply wp_ret, refuse; [done|]. intros ????? [? ? (? & ? & ? & _)]. congruence. }
  apply wp_bind, wp_liftr; [|intros e Epres; apply refuse; [done|]; intros ????? [? ? (? & ? & ? & ? & _)]; congruence].
  intros presented Epres. destruct presented as [presented|].
  2: { apply wp_ret, refuse; [done|]. intros ????? [? ? (? & ? & ? & ? & _)]. congruence. }
  apply wp_bind. eapply wp_mono; [apply verified_spec| |].
  2: { intros e w' [Hu Hp]. apply refuse; [done|]. intros ????? [? Es (? & ? & ? & Epr & Hpr)].
       rewrite Esrc in Es; injection Es as <-; rewrite Epres in Epr. by simplify_eq. }
  intros ctx w' [Hu Hp]. destruct ctx as [ctx|].
  2: { apply wp_ret, refuse; [done|]. intros ????? [? Es (? & ? & ? & Epr & Hno)]. rewrite Esrc in Es; injection Es as <-.
       rewrite Epres in Epr. simplify_eq. by apply Hp in Hno as [? ?]. }
  assert (Hpf : exists credential_id presented, src_credential_id source = Some credential_id /\
    presented_by request (source_config source) = Ok (Some presented) /\ proven w credential_id presented)
    by (exists cid, presented; split_and!; [done..|]; by apply Hp).
  destruct Hu as (Ha & Hd & Ht). unfold source_principal_of. apply wp_bind, wp_mgets. rewrite Hd.
  destruct (get_principal_by_ref _ _ _) as [p|] eqn:Ep.
  2: { apply wp_ret, refuse; [done|]. intros ????? []. congruence. }
  apply wp_bind, wp_liftr; [|intros e Ety; apply refuse; [done|]; intros ????? []; congruence].
  intros ty Ety. destruct ty as [ty|].
  2: { apply wp_ret, refuse; [done|]. intros ????? []. congruence. }
  apply wp_bind, wp_liftr; [|intros e Edata; apply refuse; [done|]; intros ????? []; congruence].
  intros data Edata. destruct data as [data|].
  2: { apply wp_ret, refuse; [done|]. intros ????? []. congruence. }
  apply wp_bind, wp_liftr; [|intros e Ekey; apply refuse; [done|]; intros ????? []; congruence].
  intros key Ekey. apply wp_bind.
  assert (Hposts : posts max w request source p ty data key) by (constructor; [lia|done..]).
  eapply wp_mono; [apply fire_event_spec| |]; unfold now_of; rewrite ?Ht, ?Ha, ?Hd.
  - intros fired w2 (name & Ename & Ew & _). apply wp_ret. split; [done|].
    exists source, p, ty, name, data, key, fired. split_and!; [exact Hposts|exact Ename|exact Ew|done].
  - intros e w2 (Ename & Et & Ha2 & Hd2). unfold refused. rewrite Et, Ha2, Hd2. split_and!; try done.
    intros s' p' ty' data' key' [? Es Epp Ey]. assert (ty' = ty) as -> by congruence. done.
Qed.

(** ** Whose MAC covers the body *)

Lemma partition_colon_some s p r :
  partition_colon s = Some (p, r) -> s = (p +:+ String colon r)%string /\
  forall t, partition_colon (s +:+ t) = Some (p, (r +:+ t)%string).
Proof.
  revert p. induction s as [|a s IH]; intros p; [done|]. cbn [partition_colon].
  case_decide as E; [intros [= <- <-]; subst a; split; [done|]; intros t; by rewrite str_app_cons|].
  destruct (partition_colon s) as [[q r']|] eqn:Ep; cbn; [|done]. intros [= <- <-].
  destruct (IH q eq_refl) as [-> IH2]. split; [by rewrite str_app_cons|]. intros t.
  rewrite str_app_cons. cbn [partition_colon]. by rewrite decide_False, IH2.
Qed.

(** What a MAC is checked over when a source's signature comes in a header: the body, unless the header has a
    colon - then what follows the colon is put in front of the body. *)
Lemma presented_parts header body :
  split_colon_2 ("_:" +:+ (header +:+ (":" +:+ body)))%string =
  match partition_colon header with
  | None => Some ("_"%string, header, body)
  | Some (signature, rest) => Some ("_"%string, signature, (rest +:+ (":" +:+ body))%string)
  end.
Proof.
  change ("_:" +:+ (header +:+ (":" +:+ body)))%string with
    ("_" +:+ String colon (header +:+ String colon body))%string.
  unfold split_colon_2. rewrite partition_colon_none by done. cbn [mbind option_bind].
  destruct (partition_colon header) as [[signature rest]|] eqn:E.
  - apply partition_colon_some in E as [_ E]. by rewrite E.
  - by rewrite partition_colon_none.
Qed.

End webhooks.

(** ** Two sources *)

Module Hooks.
(** A MAC whose text has no colon *)
Definition mac (algo key message : string) : string := str_replace ":" "." (AuthSpec.Demo.mac algo key message).

Definition loads (s : string) : result value :=
  if decide (s = "{}"%string) then Ok (VDict [])
  else if decide (s = "[1]"%string) then Ok (VList [VInt 1]) else Raise JSONDecodeError.

Definition config : value :=
  VDict [("signature_header", VStr "X-Signature"); ("event_type_source", VStr "constant");
         ("event_type_field", VStr "push"); ("idempotency_header", VStr "X-Delivery")]%string.

Definition sys : Principal := {|
  pr_id := 7; pr_kind := KIND_SYSTEM; pr_external_ref := SYSTEM_PRINCIPAL_EXTERNAL_REF;
  pr_display_name := None; pr_created_at := 0 |}.

(** Two sources with the same credential, 100 and 104, whose principals are 101 and 105 *)
Definition sources : directory :=
  snd ((create_source (Some (fun _ => true)) sys "one" "One" (Some 31%Z) (Some config) ;;
        create_source (Some (fun _ => true)) sys "two" "Two" (Some 31%Z) (Some config))
       {| dr_principals := principals_init; dr_dispatch := dispatch_init; dr_clock := 100 |}).

Definition start : receiver (list AuthAuditEvent) :=
  {| rc_auth := AuthSpec.Demo.dw_auth AuthSpec.Demo.start; rc_directory := sources; rc_trace := backend_init;
     rc_ext := [] |}.

Definition sink (ev : AuthAuditEvent) : M (list AuthAuditEvent) unit := mmod (fun l => l ++ [ev]).

Definition request (slug body signature delivery : string) : incoming_request := {|
  iq_slug := slug; iq_body := body;
  iq_header := fun h => assoc h [("X-Signature", signature); ("X-Delivery", delivery)]%string;
  iq_since := None; iq_limit := Ok None; iq_last_event_id := None |}.

Definition post (r : incoming_request) : M (receiver (list AuthAuditEvent)) incoming_answer :=
  webhook_handler AuthSpec.Demo.sha mac loads (fun s => s) (fun _ => ""%string) AuthSpec.Demo.verifiers (Some sink)
    DEFAULT_MAX_BODY_BYTES r.

(** The signature of the body, and the signature of a text that ends in the body *)
Definition signed_body : incoming_request := request "one" "{}" "sha256=sha256-s3cr3t-{}" "d1".
Definition signed_prefix : incoming_request := request "two" "[1]" "sha256-s3cr3t-a.[1]:a" "d1".

Definition answered (id : uuid) (inserted : bool) : result incoming_answer :=
  Ok (IncomingJson 202 (VDict [("event_id", VUuidStr id); ("inserted", VBool inserted)]%string)).

(** A key that one source used: the event of the other is dropped, and its sender is told of the first one's. *)
Example foreign_key :
  let w := snd (post signed_body start) in
  fst (post signed_body start) = answered 108 true /\ fst (post signed_prefix w) = answered 108 false /\
  rc_trace (snd (post signed_prefix w)) = rc_trace w.
Proof. by vm_compute. Qed.

(** A body that was not signed by itself *)
Example prefix_in_header :
  mac "sha256" "s3cr3t" "[1]" <> "sha256-s3cr3t-a.[1]"%string /\ fst (post signed_prefix start) = answered 108 true.
Proof. by vm_compute. Qed.

Definition hook_credential : CredentialRecord := {|
  cr_id := 31; cr_consumer_id := 10; cr_credential_type := "hmac"; cr_credential_hash := "#hook";
  cr_algorithm := "sha256"; cr_secret_ref := Some "key"%string; cr_created_at := 2 |}.

Definition source_two : Source := {|
  src_id := 104; src_slug := "two"; src_name := "Two"; src_credential_id := Some 31%Z; src_config := Some config;
  src_created_by := 7; src_created_at := 107 |}.
Definition principal_two : Principal := {|
  pr_id := 105; pr_kind := KIND_SOURCE; pr_external_ref := 104; pr_display_name := Some "two"%string;
  pr_created_at := 106 |}.

Lemma prefix_posts :
  posts AuthSpec.Demo.sha mac loads (fun s => s) (fun _ => ""%string) AuthSpec.Demo.verifiers DEFAULT_MAX_BODY_BYTES
    start signed_prefix source_two principal_two (VStr "push") (VList [VInt 1]) (Some "d1"%string).
Proof.
  constructor; try reflexivity; [done|].
  exists 31%Z, "_:sha256-s3cr3t-a.[1]:a:[1]"%string. split_and!; [reflexivity..|].
  exists hook_credential, (_build_auth_context 108 hook_credential AuthSpec.Demo.consumer). split; [reflexivity|].
  exists (HmacCredentialVerifier AuthSpec.Demo.secrets), AuthSpec.Demo.consumer. split_and!; [reflexivity| |reflexivity..].
  exists "key"%string, "_"%string, "sha256-s3cr3t-a.[1]"%string, "a:[1]"%string. split_and!; [reflexivity..|].
  exists "sha256"%string, "key:2"%string, (Some 2%Z), "s3cr3t"%string. split_and!; [reflexivity..| |reflexivity|reflexivity].
  do 2 right. left.
Qed.
End Hooks.

