(* ===== verification/EventStreamSpec.v ===== *)
(** Theorems about the event stream of [Incoming]: what a client that reconnects is sent, and what it misses. *)
From S2P Require Import Prelude PyDict Text Types Trace TraceReader Notification Incoming.

Section stream.
Context (json_dumps : value -> string) (json_loads : string -> result value).
Context (isoformat : time -> string) (uuid_str : uuid -> string) (py_str : value -> string).
Context (parse_uuid : string -> option uuid).
Context (p : uuid) (last_event_id : option uuid).

Abbreviation store := Trace.backend.
Abbreviation rows := Trace._events.
Abbreviation format := (format_event json_dumps isoformat uuid_str).
Abbreviation advance_stream := (sse_advance json_dumps isoformat uuid_str py_str parse_uuid p last_event_id).
Abbreviation fetch := (_fetch_live_event json_dumps isoformat uuid_str py_str parse_uuid).

(** The payload the database's trigger sends for a row *)
Definition notice (ev : event_row) : value :=
  VDict [("event_id", VUuidStr (ev_id ev)); ("run_id", id_value (ev_run_id ev));
         ("principal_id", VUuidStr (ev_principal_id ev)); ("event_type", VStr (ev_type ev))]%string.

(** The store, the rows whose notification is on its way, and the stream.  A row is written with a fresh id and
    is notified once, at any later moment and in any order. *)
Inductive feed_step : store * list event_row * event_stream -> store * list event_row * event_stream -> Prop :=
| feed_write b b' pending s ev :
    rows b' = rows b ++ [ev] -> ev_id ev ∉ ev_id <$> rows b ->
    feed_step (b, pending, s) (b', pending ++ [ev], s)
| feed_other b b' pending s : rows b' = rows b -> feed_step (b, pending, s) (b', pending, s)
| feed_notify b l1 ev l2 payload s s' :
    json_loads payload = Ok (notice ev) -> on_notify_event json_loads p payload s = Ok s' ->
    feed_step (b, l1 ++ ev :: l2, s) (b, l1 ++ l2, s')
| feed_advance b pending s s' : advance_stream b s = Ok s' -> feed_step (b, pending, s) (b, pending, s').

Definition mine (ev : event_row) : Prop := ev_principal_id ev = p.
#[local] Instance mine_dec ev : Decision (mine ev).
Proof. unfold mine. apply _. Defined.

(** What the query of the catch-up returns *)
Definition catch_up (b : store) : list event_row :=
  match last_event_id with
  | Some since => replay b None (Some p) (Some since) catch_up_limit
  | None => []
  end.

Context (b0 : store).

(** Where a stream that was opened over [b0] stands: [written] since then, [notified] of these, [taken] from the
    queue; [caught] is what the catch-up query returned. *)
Record feed_ok (b : store) (pending : list event_row) (s : event_stream)
    (written notified taken queued caught live : list event_row) : Prop := {
  fo_rows : rows b = rows b0 ++ written;
  fo_ids : NoDup (ev_id <$> rows b);
  fo_pending : written ≡ₚ pending ++ notified;
  fo_queue : es_queue s = notice <$> queued;
  fo_taken : filter mine notified = taken ++ queued;
  fo_live : live = filter (fun ev => ev_id ev ∉ ev_id <$> caught) taken;
  fo_phase :
    match es_phase s with
    | SseSubscribed => caught = [] /\ taken = [] /\ es_sent s = [] /\ es_seen s = []
    | CatchingUp rest => taken = [] /\ exists sent, caught = sent ++ rest /\
        es_sent s = format <$> sent /\ es_seen s = (fun ev => VUuidStr (ev_id ev)) <$> sent
    | SseLive => filter (fun m => m <> heartbeat) (es_sent s) = format <$> caught ++ live /\
        es_seen s = (fun ev => VUuidStr (ev_id ev)) <$> caught ++ live
    end;
  fo_caught : es_phase s = SseSubscribed \/
    exists bq, rows b0 `prefix_of` rows bq /\ rows bq `prefix_of` rows b /\ caught = catch_up bq
}.

Lemma elem_of_catch_up b ev : ev ∈ catch_up b -> ev ∈ rows b /\ mine ev.
Proof.
  unfold catch_up. destruct last_event_id as [since|]; [|intros H; by apply not_elem_of_nil in H].
  unfold replay. rewrite py_take_nonneg by done. intros (i & Hev%list_elem_of_lookup_2 & _)%elem_of_take.
  rewrite elem_of_sort_by in Hev. apply list_elem_of_filter in Hev as [Hm Hev]. split; [done|].
  apply Is_true_true in Hm. unfold replay_match in Hm. apply andb_prop in Hm as [Hm _]. cbn in Hm.
  by apply bool_decide_eq_true in Hm.
Qed.

Lemma catch_up_NoDup b : NoDup (ev_id <$> rows b) -> NoDup (ev_id <$> catch_up b).
Proof.
  intros Hb. unfold catch_up. destruct last_event_id as [since|]; [|constructor]. unfold replay.
  rewrite py_take_nonneg, fmap_take by done. eapply sublist_NoDup; [|apply sublist_take].
  rewrite sort_by_perm. by apply fmap_filter_NoDup.
Qed.

(** The ids of what was notified are different. *)
Lemma notified_NoDup b pending s written notified taken queued caught live :
  feed_ok b pending s written notified taken queued caught live -> NoDup (ev_id <$> taken ++ queued).
Proof.
  intros [Hrows Hids Hpend _ Htaken _ _ _]. rewrite <- Htaken. apply fmap_filter_NoDup.
  rewrite Hrows, fmap_app in Hids. apply NoDup_app in Hids as (_ & _ & Hids).
  rewrite Hpend, fmap_app in Hids. by apply NoDup_app in Hids as (_ & _ & ?).
Qed.

Lemma queued_in_rows b pending s written notified taken queued caught live ev :
  feed_ok b pending s written notified taken queued caught live -> ev ∈ taken ++ queued -> ev ∈ rows b.
Proof.
  intros [Hrows _ Hpend _ Htaken _ _ _] Hev. rewrite <- Htaken in Hev. apply list_elem_of_filter in Hev as [_ Hev].
  rewrite Hrows. apply elem_of_app. right. rewrite Hpend. apply elem_of_app. by right.
Qed.

Lemma read_event_found b ev : NoDup (ev_id <$> rows b) -> ev ∈ rows b -> read_event b (ev_id ev) = Some ev.
Proof.
  unfold read_event. induction (rows b) as [|x l IH]; [intros _ H; by apply not_elem_of_nil in H|].
  rewrite fmap_cons, NoDup_cons, filter_cons. intros [Hx Hl] [-> |Hev]%elem_of_cons; [by rewrite decide_True|].
  rewrite decide_False by (intros E; apply Hx; rewrite E; by apply list_elem_of_fmap_2). by apply IH.
Qed.

(** What taking the notification of a row from the queue does *)
Lemma fetch_notice b ev seen :
  NoDup (ev_id <$> rows b) -> ev ∈ rows b ->
  fetch b (notice ev) seen =
  Ok (if decide (VUuidStr (ev_id ev) ∈ seen) then (None, seen) else (Some (format ev), seen ++ [VUuidStr (ev_id ev)])).
Proof.
  intros Hids Hev. unfold _fetch_live_event. change (get_or_null "event_id" (notice ev)) with (Some (VUuidStr (ev_id ev))).
  cbn [text_of]. case_decide; [done|]. cbn. by rewrite read_event_found.
Qed.

Lemma feed_init : NoDup (ev_id <$> rows b0) -> feed_ok b0 [] event_stream_init [] [] [] [] [] [].
Proof. intros Hb. constructor; cbn; rewrite ?app_nil_r; try done. by left. Qed.

Definition feed_inv (w : store * list event_row * event_stream) : Prop :=
  exists written notified taken queued caught live,
    feed_ok w.1.1 w.1.2 w.2 written notified taken queued caught live.

Lemma feed_write_ok b b' pending s ev :
  feed_inv (b, pending, s) -> rows b' = rows b ++ [ev] -> ev_id ev ∉ ev_id <$> rows b ->
  feed_inv (b', pending ++ [ev], s).
Proof.
  intros (written & notified & taken & queued & caught & live & [H1 H2 H3 H4 H5 H6 H7 H8]) E Hnew.
  exists (written ++ [ev]), notified, taken, queued, caught, live. cbn in *. constructor; try done.
  - by rewrite E, H1, app_assoc.
  - rewrite E, fmap_app. apply NoDup_app. split_and!; [done| |apply NoDup_singleton].
    by intros i Hi ->%list_elem_of_singleton.
  - rewrite H3, <- !app_assoc. f_equiv. apply Permutation_app_comm.
  - destruct H8 as [H8|(bq & Hq0 & Hq & Hc)]; [by left|right]. exists bq. split_and!; [done| |done].
    rewrite E. by apply prefix_app_r.
Qed.

Lemma feed_other_ok b b' pending s : feed_inv (b, pending, s) -> rows b' = rows b -> feed_inv (b', pending, s).
Proof.
  intros (written & notified & taken & queued & caught & live & [H1 H2 H3 H4 H5 H6 H7 H8]) E.
  exists written, notified, taken, queued, caught, live. cbn in *. constructor; rewrite ?E; done.
Qed.

Lemma feed_notify_ok b l1 ev l2 payload s s' :
  feed_inv (b, l1 ++ ev :: l2, s) -> json_loads payload = Ok (notice ev) ->
  on_notify_event json_loads p payload s = Ok s' -> feed_inv (b, l1 ++ l2, s').
Proof.
  intros (written & notified & taken & queued & caught & live & [H1 H2 H3 H4 H5 H6 H7 H8]) E.
  unfold on_notify_event. rewrite E. unfold notice. change (assoc "principal_id"%string _) with
    (Some (VUuidStr (ev_principal_id ev))).
  exists written, (notified ++ [ev]). cbn in *.
  assert (Hp : written ≡ₚ (l1 ++ l2) ++ notified ++ [ev]) by (rewrite H3; solve_Permutation).
  destruct (decide (ev_principal_id ev = p)) as [Em|Em].
  - rewrite decide_True in H by (by rewrite Em). injection H as <-.
    exists taken, (queued ++ [ev]), caught, live. constructor; cbn; try done.
    + by rewrite H4, fmap_app.
    + by rewrite filter_app, filter_cons_True, filter_nil, H5, app_assoc.
  - rewrite decide_False in H by (by intros [= ?]). injection H as <-.
    exists taken, queued, caught, live. constructor; cbn; try done.
    by rewrite filter_app, filter_cons_False, filter_nil, H5, app_nil_r.
Qed.

Lemma format_event_not_heartbeat ev : format ev <> heartbeat.
Proof. done. Qed.

Lemma sent_filter (l : list event_row) : filter (fun m => m <> heartbeat) (format <$> l) = format <$> l.
Proof. apply filter_all. intros m (ev & -> & _)%list_elem_of_fmap. apply format_event_not_heartbeat. Qed.

(** The replay of the catch-up *)
Lemma replay_ok b pending s s' :
  feed_inv (b, pending, s) -> es_phase s <> SseLive -> advance_stream b s = Ok s' -> feed_inv (b, pending, s').
Proof.
  intros (written & notified & taken & queued & caught & live & [H1 H2 H3 H4 H5 H6 H7 H8]) Hph. cbn in *.
  unfold sse_advance. destruct (es_phase s) as [|[|ev rest]|] eqn:Eph; [| | |done]; intros [= <-].
  - destruct H7 as (-> & -> & Hsent & Hseen).
    exists written, notified, [], queued, (catch_up b), []. constructor; cbn; try done.
    + split; [done|]. by exists [].
    + right. exists b. split_and!; [rewrite H1; by eexists|done|done].
  - destruct H7 as (-> & sent & -> & Hsent & Hseen). rewrite app_nil_r in *.
    exists written, notified, [], queued, sent, []. constructor; cbn; try done.
    + rewrite app_nil_r, Hsent. split; [apply sent_filter|done].
    + destruct H8 as [H8|H8]; [done|by right].
  - destruct H7 as (-> & sent & -> & Hsent & Hseen).
    exists written, notified, [], queued, (sent ++ ev :: rest), []. constructor; cbn; try done.
    + split; [done|]. exists (sent ++ [ev]). by rewrite <- app_assoc, Hsent, Hseen, !fmap_app.
    + destruct H8 as [H8|H8]; [done|by right].
Qed.

(** One notification of the live phase, or a heartbeat *)
Lemma live_catches_up b pending s s' :
  feed_inv (b, pending, s) -> es_phase s = SseLive -> advance_stream b s = Ok s' -> feed_inv (b, pending, s').
Proof.
  intros (written & notified & taken & queued & caught & live & Hok) Hph. unfold sse_advance. cbn in *.
  rewrite Hph. destruct (es_queue s) as [|n queue] eqn:Eq.
  - intros [= <-]. exists written, notified, taken, queued, caught, live.
    destruct Hok as [H1 H2 H3 H4 H5 H6 H7 H8]. rewrite Hph in *. constructor; cbn; rewrite ?Hph, ?Eq in *; try done.
    destruct H7 as [H7 H7']. split; [|done]. by rewrite filter_app, filter_cons_False, filter_nil, app_nil_r by auto.
  - assert (Hnd := notified_NoDup _ _ _ _ _ _ _ _ _ Hok).
    pose proof Hok as [H1 H2 H3 H4 H5 H6 H7 H8]. rewrite Eq in H4. rewrite Hph in *.
    destruct queued as [|ev queued]; [done|]. injection H4 as -> ->.
    assert (Hin : ev ∈ rows b).
    { eapply queued_in_rows; [exact Hok|]. apply elem_of_app. right. left. }
    rewrite fetch_notice by done. destruct H7 as [Hsent Hseen]. cbn. rewrite Hseen.
    assert (Htk : filter mine notified = (taken ++ [ev]) ++ queued) by (by rewrite H5, <- app_assoc).
    assert (Hlive : ev_id ev ∉ ev_id <$> live).
    { rewrite H6. intros (ev' & E & [_ Hev']%list_elem_of_filter)%list_elem_of_fmap.
      rewrite fmap_app in Hnd. apply NoDup_app in Hnd as (_ & Hnd & _).
      apply (Hnd (ev_id ev)); [rewrite E; by apply list_elem_of_fmap_2|left]. }
    assert (Hin' : VUuidStr (ev_id ev) ∈ (fun ev => VUuidStr (ev_id ev)) <$> caught ++ live <-> ev_id ev ∈ ev_id <$> caught).
    { rewrite fmap_app, elem_of_app, !list_elem_of_fmap. rewrite list_elem_of_fmap in Hlive. split.
      - intros [(y & [= E] & Hy)|(y & [= E] & Hy)]; [by exists y|]. exfalso. apply Hlive. by exists y.
      - intros (y & E & Hy). left. exists y. by rewrite E. }
    case_decide as Hs; intros [= <-]; rewrite Hin' in Hs.
    + exists written, notified, (taken ++ [ev]), queued, caught, live. constructor; cbn; rewrite ?Hph; try done.
      by rewrite filter_app, filter_cons_False, filter_nil, app_nil_r by auto.
    + exists written, notified, (taken ++ [ev]), queued, caught, (live ++ [ev]).
      constructor; cbn; rewrite ?Hph; try done.
      * by rewrite filter_app, filter_cons_True, filter_nil, H6.
      * rewrite filter_app, Hsent, filter_cons_True, filter_nil by apply format_event_not_heartbeat.
        by rewrite !app_assoc, !(fmap_app _ (caught ++ live)).
Qed.

Lemma feed_step_ok w w' : feed_inv w -> feed_step w w' -> feed_inv w'.
Proof.
  intros Hw H. destruct H.
  - by eapply feed_write_ok.
  - by eapply feed_other_ok.
  - by eapply feed_notify_ok.
  - destruct (es_phase s) eqn:E; [eapply replay_ok|eapply replay_ok|eapply live_catches_up]; rewrite ?E; done.
Qed.

(** The source's events since [last_event_id] that come before [ev] *)
Definition missed_before (b : store) (ev : event_row) : list event_row :=
  filter (fun e => replay_match None (Some p) last_event_id e /\ (ev_id e < ev_id ev)%Z) (rows b).

Lemma filter_none {A} (P : A -> Prop) `{!forall x, Decision (P x)} (l : list A) :
  (forall x, x ∈ l -> ~ P x) -> filter P l = [].
Proof.
  induction l as [|x l IH]; intros Hl; [done|]. rewrite filter_cons_False by (apply Hl; left).
  apply IH. intros y Hy. apply Hl. by right.
Qed.

(** In a sorted list what is smaller than an element comes before it. *)
Lemma sorted_smaller {A} (key : A -> Z) (l : list A) i x :
  StronglySorted (fun a b => key a <= key b)%Z l -> l !! i = Some x ->
  length (filter (fun y => key y < key x)%Z l) <= i.
Proof.
  intros Hl. revert i. induction Hl as [|y l Hl IH Hy]; intros i Hi; [done|].
  destruct i as [|i]; simpl in Hi.
  - injection Hi as ->. rewrite filter_cons_False by lia.
    rewrite (filter_none (fun y => key y < key x)%Z l); [done|]. rewrite Forall_forall in Hy.
    intros z Hz. specialize (Hy z Hz). lia.
  - apply IH in Hi. rewrite filter_cons. case_decide; simpl; lia.
Qed.

Lemma beyond_catch_up b ev : 1000 <= length (missed_before b ev) -> ev ∉ catch_up b.
Proof.
  unfold catch_up, missed_before. destruct last_event_id as [since|]; [|intros _ H; by apply not_elem_of_nil in H].
  unfold replay. rewrite py_take_nonneg by done. change (Z.to_nat catch_up_limit) with 1000.
  intros Hlen (i & Hi & Hlt)%elem_of_take. apply (sorted_smaller ev_id) in Hi; [|apply sort_by_sorted].
  rewrite (sort_by_perm ev_id), list_filter_filter in Hi.
  enough (1000 <= i) by lia. etransitivity; [exact Hlen|]. etransitivity; [|exact Hi].
  apply Nat.eq_le_incl. f_equal. apply list_filter_iff. intros e. rewrite Is_true_true. tauto.
Qed.

Lemma missed_before_prefix b b' ev :
  rows b `prefix_of` rows b' -> length (missed_before b ev) <= length (missed_before b' ev).
Proof. intros [l E]. unfold missed_before. rewrite E, filter_app, length_app. lia. Qed.

(** C33. Once a stream has caught up, what it has sent apart from heartbeats is, each event once, what the catch-up
    query returned - at some moment after the stream was opened - and then events of its source that were
    written since; and every one of those whose notification has arrived and been taken has been sent.  Of the
    events from before, one that comes after a thousand of the source's events since Last-Event-ID is never
    sent.  Event ids are distinct. *)
Theorem event_stream_exact b pending s :
  NoDup (ev_id <$> rows b0) ->
  rtc feed_step (b0, [], event_stream_init) (b, pending, s) -> es_phase s = SseLive ->
  exists written live bq,
    rows b = rows b0 ++ written /\ rows b0 `prefix_of` rows bq /\ rows bq `prefix_of` rows b /\
    let sent := catch_up bq ++ live in
    filter (fun m => m <> heartbeat) (es_sent s) = format <$> sent /\ NoDup (ev_id <$> sent) /\
    (forall ev, ev ∈ sent -> mine ev) /\ (forall ev, ev ∈ live -> ev ∈ written) /\
    (es_queue s = [] -> forall ev, ev ∈ written -> mine ev -> ev ∈ pending \/ ev ∈ sent) /\
    (forall ev, ev ∈ rows b0 -> 1000 <= length (missed_before b0 ev) -> ev ∉ sent).
Proof.
  intros Hb0 Hrun Hlive.
  assert (Hinv : feed_inv (b, pending, s)).
  { apply (rtc_inv feed_step feed_inv (b0, [], event_stream_init)); [by intros; eapply feed_step_ok| |done].
    exists [], [], [], [], [], []. by apply feed_init. }
  destruct Hinv as (written & notified & taken & queued & caught & live & Hok). cbn in Hok.
  assert (Htq := notified_NoDup _ _ _ _ _ _ _ _ _ Hok).
  destruct Hok as [H1 H2 H3 H4 H5 H6 H7 H8]. rewrite Hlive in *.
  destruct H7 as [Hsent _]. destruct H8 as [|(bq & Hq0 & Hq & ->)]; [done|].
  assert (Hlt : forall ev, ev ∈ live -> ev ∈ taken /\ ev_id ev ∉ ev_id <$> catch_up bq)
    by (intros ev; rewrite H6, list_elem_of_filter; tauto).
  assert (Htaken : forall ev, ev ∈ taken -> ev ∈ written /\ mine ev).
  { intros ev Hev. assert (Hm : ev ∈ filter mine notified) by (rewrite H5; apply elem_of_app; by left).
    apply list_elem_of_filter in Hm as [? Hn]. split; [|done]. rewrite H3. apply elem_of_app. by right. }
  assert (Hbq : NoDup (ev_id <$> rows bq)).
  { destruct Hq as [l Hq]. rewrite Hq, fmap_app in H2. by apply NoDup_app in H2 as [? _]. }
  exists written, live, bq. cbv zeta. split_and!; [done..| | | | |].
  - rewrite fmap_app. apply NoDup_app. split_and!; [by apply catch_up_NoDup| |].
    + intros i Hi (ev & -> & Hev)%list_elem_of_fmap. by apply Hlt in Hev as [_ ?].
    + rewrite H6. apply fmap_filter_NoDup. rewrite fmap_app in Htq. by apply NoDup_app in Htq as [? _].
  - intros ev [[_ Hev]%elem_of_catch_up|[Hev _]%Hlt]%elem_of_app; [done|]. by apply Htaken.
  - intros ev [Hev _]%Hlt. by apply Htaken.
  - intros Hqe ev Hw Hm. rewrite Hqe in H4. destruct queued; [|done]. rewrite app_nil_r in H5.
    rewrite H3 in Hw. apply elem_of_app in Hw as [?|Hn]; [by left|right].
    assert (Hev : ev ∈ taken) by (rewrite <- H5; by apply list_elem_of_filter).
    apply elem_of_app. destruct (decide (ev_id ev ∈ ev_id <$> catch_up bq)) as [Hc|Hc].
    + left. apply list_elem_of_fmap in Hc as (ev' & E & Hev'). apply elem_of_catch_up in Hev' as Hr.
      destruct Hr as [Hr _]. assert (ev = ev') as ->; [|done].
      destruct Hq as [l Hq].
      assert (Hb1 : read_event b (ev_id ev) = Some ev).
      { apply read_event_found; [done|]. rewrite H1. apply elem_of_app. right. rewrite H3. apply elem_of_app. by right. }
      assert (Hb2 : read_event b (ev_id ev') = Some ev').
      { apply read_event_found; [done|]. rewrite Hq. apply elem_of_app. by left. }
      rewrite E, Hb2 in Hb1. by injection Hb1.
    + right. rewrite H6. by apply list_elem_of_filter.
  - intros ev Hr Hmany [Hc|Hl]%elem_of_app.
    + apply beyond_catch_up in Hc; [done|]. etransitivity; [exact Hmany|]. by apply missed_before_prefix.
    + apply Hlt in Hl as [Hl _]. apply Htaken in Hl as [Hl _]. rewrite H1, fmap_app in H2.
      apply NoDup_app in H2 as (_ & Hd & _). apply (Hd (ev_id ev)); by apply list_elem_of_fmap_2.
Qed.
End stream.

(** ** A client that missed one event and stays for another *)

Module Feed.
Definition row (n : Z) : event_row := mk_event n None None 7 "push" VNone n.
Definition store (l : list event_row) : Trace.backend := backend_init .[Trace._events := l].
Definition loads (payload : string) : result value := Ok (notice (row 3)).
Definition text (v : value) : string := "".
Definition iso (t : time) : string := "".
Definition uuid_text (u : uuid) : string := if decide (u = 2)%Z then "two"%string else "three"%string.

Definition step := feed_step text loads iso uuid_text text (fun _ => None) 7 (Some 1%Z).
Definition message (n : Z) : string := format_event text iso uuid_text (row n).

Definition caught_up : event_stream := {|
  es_phase := SseLive; es_queue := []; es_seen := [VUuidStr 2; VUuidStr 3]; es_sent := [message 2; message 3] |}.

Lemma run : rtc step (store [row 1; row 2], [], event_stream_init) (store [row 1; row 2; row 3], [], caught_up).
Proof.
  eapply rtc_l; [eapply feed_advance; reflexivity|].
  eapply rtc_l; [eapply feed_advance; reflexivity|].
  eapply rtc_l; [apply (feed_write _ _ _ _ _ _ _ _ _ (store [row 1; row 2; row 3]) [] _ (row 3)); [reflexivity|]|].
  { apply (bool_decide_unpack _). by vm_compute. }
  eapply rtc_l; [eapply feed_advance; reflexivity|].
  eapply rtc_l; [apply (feed_notify _ _ _ _ _ _ _ _ _ [] (row 3) [] ""%string); reflexivity|].
  eapply rtc_l; [eapply feed_advance; reflexivity|].
  apply rtc_refl.
Qed.
End Feed.

Lemma event_stream_exact_witness :
  exists written live bq, Trace._events (Feed.store [Feed.row 1; Feed.row 2; Feed.row 3]) = [Feed.row 1; Feed.row 2] ++ written /\
    filter (fun m => m <> heartbeat) (es_sent Feed.caught_up) =
      format_event Feed.text Feed.iso Feed.uuid_text <$> catch_up 7 (Some 1%Z) bq ++ live.
Proof.
  destruct (event_stream_exact Feed.text Feed.loads Feed.iso Feed.uuid_text Feed.text (fun _ => None) 7 (Some 1%Z)
    (Feed.store [Feed.row 1; Feed.row 2]) (Feed.store [Feed.row 1; Feed.row 2; Feed.row 3]) [] Feed.caught_up)
    as (written & live & bq & Hrows & _ & _ & Hsent & _).
  - apply (bool_decide_unpack _). by vm_compute.
  - exact Feed.run.
  - reflexivity.
  - exists written, live, bq. split; [exact Hrows|exact Hsent].
Defined.
