(* ===== verification/Capabilities.v ===== *)
(** The operations a server offers: the capability table of services/_registry.py with the parameter models of
    _params.py, the dispatcher of _dispatcher.py that every interface calls them through, and the deliveries'
    services of _notifications.py.

    What a service function does is a parameter of the dispatcher; what it takes is in the table of signatures. *)
From S2P Require Import Prelude PyDict Text Types Dispatch Identity Auth Notification.

(** ** Types of parameters *)

(** pydantic's field types in _params.py *)
Inductive field_type := TStr | TBool | TInt | TDict | TDictList | TStrList.

#[export] Instance field_type_eq_dec : EqDecision field_type.
Proof. solve_decision. Defined.

Record field := {
  f_name : string;
  f_type : field_type;
  (** [| None] *)
  f_nullable : bool;
  (** [json_schema_extra={"format": "uuid"}] *)
  f_uuid : bool
}.

Definition str (name : string) : field := {| f_name := name; f_type := TStr; f_nullable := false;
   f_uuid := false |}.
Definition uuid_str_field (name : string) : field :=
  {| f_name := name; f_type := TStr; f_nullable := false; f_uuid := true |}.
Definition typed_field (t : field_type) (name : string) : field :=
  {| f_name := name; f_type := t; f_nullable := false; f_uuid := false |}.
Definition or_none (f : field) : field :=
  {| f_name := f_name f; f_type := f_type f; f_nullable := true; f_uuid := f_uuid f |}.

(** ** _params.py *)

Definition StartRunParams : list field := [str "config_path"; str "intent"]%string.
Definition ListRunsParams : list field := [].
Definition GetRunParams : list field := [uuid_str_field "run_id"]%string.
Definition AbortRunParams : list field := [uuid_str_field "run_id"]%string.
Definition PauseRunParams : list field := [uuid_str_field "run_id"]%string.
Definition ResumeRunParams : list field := [uuid_str_field "run_id"]%string.
Definition ListInboxParams : list field := [uuid_str_field "run_id"; or_none (str "status")]%string.
Definition GetInboxItemParams : list field := [uuid_str_field "item_id"]%string.
Definition RespondToInboxParams : list field := [uuid_str_field "item_id"; str "answer"]%string.
Definition SkipInboxItemParams : list field := [uuid_str_field "item_id"]%string.
Definition RejectInboxItemParams : list field := [uuid_str_field "item_id"; str "reason"]%string.
Definition ListTasksParams : list field := [uuid_str_field "run_id"]%string.
Definition GetTaskAttemptsParams : list field := [uuid_str_field "task_id"]%string.
Definition GetTranscriptParams : list field := [uuid_str_field "session_id"]%string.
Definition SearchTranscriptParams : list field := [uuid_str_field "session_id"; str "query"]%string.
Definition QueryEventsParams : list field := [uuid_str_field "run_id"; or_none (str "event_type");
   or_none (str "since"); typed_field TInt "limit"]%string.
Definition GetNotepadParams : list field := [uuid_str_field "run_id"]%string.
Definition FireEventParams : list field := [uuid_str_field "run_id"; str "event_name";
   or_none (typed_field TDict "payload")]%string.
Definition ShowConfigParams : list field := [uuid_str_field "run_id"]%string.
Definition ShowPricingParams : list field := [].
Definition ValidateAgentParams : list field := [str "path"]%string.
Definition ValidateWorkflowParams : list field := [str "path"]%string.
Definition ValidateCategoriesParams : list field := [str "path"]%string.
Definition SubscribeParams : list field := [typed_field TDict "filter"; typed_field TDictList "actions";
   str "storage"]%string.
Definition UnsubscribeParams : list field := [uuid_str_field "subscription_id"]%string.
Definition ListSubscriptionsParams : list field := [typed_field TBool "enabled_only";
   or_none (uuid_str_field "principal_id")]%string.
Definition CreateSourceParams : list field := [str "slug"; str "name"; or_none (uuid_str_field "credential_id");
   or_none (typed_field TDict "config")]%string.
Definition GetSourceParams : list field := [uuid_str_field "source_id"]%string.
Definition GetSourceBySlugParams : list field := [str "slug"]%string.
Definition ListSourcesParams : list field := [].
Definition DeleteSourceParams : list field := [uuid_str_field "source_id"]%string.
Definition CreatePrincipalParams : list field := [str "kind"; uuid_str_field "external_ref";
   or_none (str "display_name"); or_none (typed_field TStrList "notification_event_types")]%string.
Definition GetPrincipalParams : list field := [uuid_str_field "principal_id"]%string.
Definition ListPrincipalsParams : list field := [or_none (str "kind")]%string.
Definition DeletePrincipalParams : list field := [uuid_str_field "principal_id"]%string.
Definition ListDeliveriesParams : list field := [typed_field TBool "unacknowledged_only";
   or_none (uuid_str_field "cursor"); typed_field TInt "limit"]%string.
Definition AcknowledgeDeliveryParams : list field := [uuid_str_field "delivery_id"]%string.

(** ** protocols/_types/_auth.py, _capability.py *)

Definition SCOPE_RUNS_READ : string := "runs:read".
Definition SCOPE_RUNS_MANAGE : string := "runs:manage".
Definition SCOPE_INBOX_READ : string := "inbox:read".
Definition SCOPE_INBOX_RESPOND : string := "inbox:respond".
Definition SCOPE_NOTIFICATIONS_READ : string := "notifications:read".
Definition SCOPE_NOTIFICATIONS_MANAGE : string := "notifications:manage".
Definition SCOPE_TRACE_READ : string := "trace:read".
Definition SCOPE_EVENTS_READ : string := "events:read".
Definition SCOPE_EVENTS_WRITE : string := "events:write".
Definition SCOPE_CONFIG_READ : string := "config:read".
Definition SCOPE_VALIDATE_READ : string := "validate:read".
Definition SCOPE_SOURCES_READ : string := "sources:read".
Definition SCOPE_SOURCES_MANAGE : string := "sources:manage".
Definition SCOPE_SUBSCRIPTIONS_READ : string := "subscriptions:read".
Definition SCOPE_SUBSCRIPTIONS_MANAGE : string := "subscriptions:manage".
Definition SCOPE_PRINCIPALS_READ : string := "principals:read".
Definition SCOPE_PRINCIPALS_MANAGE : string := "principals:manage".
Definition ALL_SCOPES : list string :=
  [SCOPE_RUNS_READ; SCOPE_RUNS_MANAGE; SCOPE_INBOX_READ;
   SCOPE_INBOX_RESPOND; SCOPE_NOTIFICATIONS_READ; SCOPE_NOTIFICATIONS_MANAGE;
   SCOPE_TRACE_READ; SCOPE_EVENTS_READ; SCOPE_EVENTS_WRITE;
   SCOPE_CONFIG_READ; SCOPE_VALIDATE_READ; SCOPE_SOURCES_READ;
   SCOPE_SOURCES_MANAGE; SCOPE_SUBSCRIPTIONS_READ; SCOPE_SUBSCRIPTIONS_MANAGE;
   SCOPE_PRINCIPALS_READ; SCOPE_PRINCIPALS_MANAGE].

Inductive token :=
| pool_token | dispatch_backend_token | principal_storage_token | kind_registry_token | notification_port_token
| get_worker_bridge_token | run_manager_token | caller_principal_token.

#[export] Instance token_eq_dec : EqDecision token.
Proof. solve_decision. Defined.

Record Capability := {
  cap_name : string;
  cap_namespace : string;
  cap_params_model : list field;
  cap_tags : list string;
  cap_required_scope : string;
  cap_injects : list token
}.

(** ** _registry.py *)

Definition _INJECT_POOL : list token := [pool_token].
Definition _INJECT_DISPATCH_BACKEND : list token := [dispatch_backend_token].
Definition _INJECT_PRINCIPAL_STORAGE : list token := [principal_storage_token].
Definition _INJECT_PRINCIPAL_STORAGE_AND_KIND_REGISTRY : list token := [principal_storage_token;
   kind_registry_token].
Definition _INJECT_PRINCIPAL_CREATE : list token := [dispatch_backend_token; principal_storage_token;
   kind_registry_token].
Definition _INJECT_POOL_STORAGE_WORKER_AND_CALLER : list token := [pool_token; principal_storage_token;
   get_worker_bridge_token; run_manager_token; caller_principal_token].
Definition _INJECT_SOURCE_CREATE : list token := [pool_token; dispatch_backend_token; principal_storage_token;
   caller_principal_token].
Definition _INJECT_POOL_AND_CALLER : list token := [pool_token; caller_principal_token].
Definition _INJECT_DISPATCH_BACKEND_AND_CALLER : list token := [dispatch_backend_token; caller_principal_token].
Definition _INJECT_NOTIFICATION_AND_CALLER : list token := [notification_port_token; caller_principal_token].
Definition _INJECT_NONE : list token := [].

Definition run_capabilities : list Capability := [
  {| cap_name := "start_run"; cap_namespace := "run"; cap_params_model := StartRunParams;
     cap_tags := ["mutating"%string]; cap_required_scope := SCOPE_RUNS_MANAGE;
     cap_injects := _INJECT_POOL_STORAGE_WORKER_AND_CALLER |};
  {| cap_name := "list_runs"; cap_namespace := "run"; cap_params_model := ListRunsParams;
     cap_tags := ["readonly"%string]; cap_required_scope := SCOPE_RUNS_READ;
     cap_injects := _INJECT_POOL |};
  {| cap_name := "get_run"; cap_namespace := "run"; cap_params_model := GetRunParams;
     cap_tags := ["readonly"%string]; cap_required_scope := SCOPE_RUNS_READ;
     cap_injects := _INJECT_POOL |};
  {| cap_name := "abort_run"; cap_namespace := "run"; cap_params_model := AbortRunParams;
     cap_tags := ["mutating"%string]; cap_required_scope := SCOPE_RUNS_MANAGE;
     cap_injects := _INJECT_POOL |};
  {| cap_name := "pause_run"; cap_namespace := "run"; cap_params_model := PauseRunParams;
     cap_tags := ["mutating"%string]; cap_required_scope := SCOPE_RUNS_MANAGE;
     cap_injects := _INJECT_POOL |};
  {| cap_name := "resume_run"; cap_namespace := "run"; cap_params_model := ResumeRunParams;
     cap_tags := ["mutating"%string]; cap_required_scope := SCOPE_RUNS_MANAGE;
     cap_injects := _INJECT_POOL |}
].
Definition inbox_capabilities : list Capability := [
  {| cap_name := "list_inbox"; cap_namespace := "inbox"; cap_params_model := ListInboxParams;
     cap_tags := ["readonly"%string]; cap_required_scope := SCOPE_INBOX_READ;
     cap_injects := _INJECT_POOL |};
  {| cap_name := "get_inbox_item"; cap_namespace := "inbox"; cap_params_model := GetInboxItemParams;
     cap_tags := ["readonly"%string]; cap_required_scope := SCOPE_INBOX_READ;
     cap_injects := _INJECT_POOL |};
  {| cap_name := "respond_to_inbox"; cap_namespace := "inbox"; cap_params_model := RespondToInboxParams;
     cap_tags := ["mutating"%string]; cap_required_scope := SCOPE_INBOX_RESPOND;
     cap_injects := _INJECT_POOL_AND_CALLER |};
  {| cap_name := "skip_inbox_item"; cap_namespace := "inbox"; cap_params_model := SkipInboxItemParams;
     cap_tags := ["mutating"%string]; cap_required_scope := SCOPE_INBOX_RESPOND;
     cap_injects := _INJECT_POOL_AND_CALLER |};
  {| cap_name := "reject_inbox_item"; cap_namespace := "inbox"; cap_params_model := RejectInboxItemParams;
     cap_tags := ["mutating"%string]; cap_required_scope := SCOPE_INBOX_RESPOND;
     cap_injects := _INJECT_POOL_AND_CALLER |}
].
Definition trace_capabilities : list Capability := [
  {| cap_name := "list_tasks"; cap_namespace := "trace"; cap_params_model := ListTasksParams;
     cap_tags := ["readonly"%string]; cap_required_scope := SCOPE_TRACE_READ;
     cap_injects := _INJECT_POOL |};
  {| cap_name := "get_task_attempts"; cap_namespace := "trace"; cap_params_model := GetTaskAttemptsParams;
     cap_tags := ["readonly"%string]; cap_required_scope := SCOPE_TRACE_READ;
     cap_injects := _INJECT_POOL |};
  {| cap_name := "get_transcript"; cap_namespace := "trace"; cap_params_model := GetTranscriptParams;
     cap_tags := ["readonly"%string]; cap_required_scope := SCOPE_TRACE_READ;
     cap_injects := _INJECT_POOL |};
  {| cap_name := "search_transcript"; cap_namespace := "trace"; cap_params_model := SearchTranscriptParams;
     cap_tags := ["readonly"%string]; cap_required_scope := SCOPE_TRACE_READ;
     cap_injects := _INJECT_POOL |};
  {| cap_name := "query_events"; cap_namespace := "trace"; cap_params_model := QueryEventsParams;
     cap_tags := ["readonly"%string]; cap_required_scope := SCOPE_TRACE_READ;
     cap_injects := _INJECT_POOL |};
  {| cap_name := "get_notepad"; cap_namespace := "trace"; cap_params_model := GetNotepadParams;
     cap_tags := ["readonly"%string]; cap_required_scope := SCOPE_TRACE_READ;
     cap_injects := _INJECT_POOL |}
].
Definition event_capabilities : list Capability := [
  {| cap_name := "fire_event"; cap_namespace := "event"; cap_params_model := FireEventParams;
     cap_tags := ["mutating"%string]; cap_required_scope := SCOPE_EVENTS_WRITE;
     cap_injects := _INJECT_POOL_AND_CALLER |}
].
Definition config_capabilities : list Capability := [
  {| cap_name := "show_config"; cap_namespace := "config"; cap_params_model := ShowConfigParams;
     cap_tags := ["readonly"%string]; cap_required_scope := SCOPE_CONFIG_READ;
     cap_injects := _INJECT_POOL |};
  {| cap_name := "show_pricing"; cap_namespace := "config"; cap_params_model := ShowPricingParams;
     cap_tags := ["readonly"%string]; cap_required_scope := SCOPE_CONFIG_READ;
     cap_injects := _INJECT_NONE |}
].
Definition validate_capabilities : list Capability := [
  {| cap_name := "validate_agent"; cap_namespace := "validate"; cap_params_model := ValidateAgentParams;
     cap_tags := ["readonly"%string]; cap_required_scope := SCOPE_VALIDATE_READ;
     cap_injects := _INJECT_NONE |};
  {| cap_name := "validate_workflow"; cap_namespace := "validate"; cap_params_model := ValidateWorkflowParams;
     cap_tags := ["readonly"%string]; cap_required_scope := SCOPE_VALIDATE_READ;
     cap_injects := _INJECT_NONE |};
  {| cap_name := "validate_categories"; cap_namespace := "validate"; cap_params_model := ValidateCategoriesParams;
     cap_tags := ["readonly"%string]; cap_required_scope := SCOPE_VALIDATE_READ;
     cap_injects := _INJECT_NONE |}
].
Definition dispatch_capabilities : list Capability := [
  {| cap_name := "subscribe"; cap_namespace := "dispatch"; cap_params_model := SubscribeParams;
     cap_tags := ["mutating"%string]; cap_required_scope := SCOPE_SUBSCRIPTIONS_MANAGE;
     cap_injects := _INJECT_DISPATCH_BACKEND_AND_CALLER |};
  {| cap_name := "unsubscribe"; cap_namespace := "dispatch"; cap_params_model := UnsubscribeParams;
     cap_tags := ["mutating"%string]; cap_required_scope := SCOPE_SUBSCRIPTIONS_MANAGE;
     cap_injects := _INJECT_DISPATCH_BACKEND |};
  {| cap_name := "list_subscriptions"; cap_namespace := "dispatch"; cap_params_model := ListSubscriptionsParams;
     cap_tags := ["readonly"%string]; cap_required_scope := SCOPE_SUBSCRIPTIONS_READ;
     cap_injects := _INJECT_DISPATCH_BACKEND |};
  {| cap_name := "create_source"; cap_namespace := "dispatch"; cap_params_model := CreateSourceParams;
     cap_tags := ["mutating"%string]; cap_required_scope := SCOPE_SOURCES_MANAGE;
     cap_injects := _INJECT_SOURCE_CREATE |};
  {| cap_name := "get_source"; cap_namespace := "dispatch"; cap_params_model := GetSourceParams;
     cap_tags := ["readonly"%string]; cap_required_scope := SCOPE_SOURCES_READ;
     cap_injects := _INJECT_DISPATCH_BACKEND |};
  {| cap_name := "get_source_by_slug"; cap_namespace := "dispatch"; cap_params_model := GetSourceBySlugParams;
     cap_tags := ["readonly"%string]; cap_required_scope := SCOPE_SOURCES_READ;
     cap_injects := _INJECT_DISPATCH_BACKEND |};
  {| cap_name := "list_sources"; cap_namespace := "dispatch"; cap_params_model := ListSourcesParams;
     cap_tags := ["readonly"%string]; cap_required_scope := SCOPE_SOURCES_READ;
     cap_injects := _INJECT_DISPATCH_BACKEND |};
  {| cap_name := "delete_source"; cap_namespace := "dispatch"; cap_params_model := DeleteSourceParams;
     cap_tags := ["mutating"%string]; cap_required_scope := SCOPE_SOURCES_MANAGE;
     cap_injects := _INJECT_DISPATCH_BACKEND |}
].
Definition notification_capabilities : list Capability := [
  {| cap_name := "list_deliveries"; cap_namespace := "notification"; cap_params_model := ListDeliveriesParams;
     cap_tags := ["readonly"%string]; cap_required_scope := SCOPE_NOTIFICATIONS_READ;
     cap_injects := _INJECT_NOTIFICATION_AND_CALLER |};
  {| cap_name := "acknowledge_delivery"; cap_namespace := "notification";
     cap_params_model := AcknowledgeDeliveryParams;
     cap_tags := ["mutating"%string]; cap_required_scope := SCOPE_NOTIFICATIONS_MANAGE;
     cap_injects := _INJECT_NOTIFICATION_AND_CALLER |}
].
Definition principal_capabilities : list Capability := [
  {| cap_name := "create_principal"; cap_namespace := "principal"; cap_params_model := CreatePrincipalParams;
     cap_tags := ["mutating"%string]; cap_required_scope := SCOPE_PRINCIPALS_MANAGE;
     cap_injects := _INJECT_PRINCIPAL_CREATE |};
  {| cap_name := "get_principal"; cap_namespace := "principal"; cap_params_model := GetPrincipalParams;
     cap_tags := ["readonly"%string]; cap_required_scope := SCOPE_PRINCIPALS_READ;
     cap_injects := _INJECT_PRINCIPAL_STORAGE |};
  {| cap_name := "list_principals"; cap_namespace := "principal"; cap_params_model := ListPrincipalsParams;
     cap_tags := ["readonly"%string]; cap_required_scope := SCOPE_PRINCIPALS_READ;
     cap_injects := _INJECT_PRINCIPAL_STORAGE |};
  {| cap_name := "delete_principal"; cap_namespace := "principal"; cap_params_model := DeletePrincipalParams;
     cap_tags := ["mutating"%string]; cap_required_scope := SCOPE_PRINCIPALS_MANAGE;
     cap_injects := _INJECT_PRINCIPAL_STORAGE |}
].

Definition CAPABILITIES : list Capability :=
  run_capabilities ++
  inbox_capabilities ++
  trace_capabilities ++
  event_capabilities ++
  config_capabilities ++
  validate_capabilities ++
  dispatch_capabilities ++
  notification_capabilities ++
  principal_capabilities.

(** The dict by name: a later entry of the same name would win. *)
Definition get_capability (name : string) : option Capability :=
  last (filter (fun c => cap_name c = name) CAPABILITIES).

(** *** What the service functions take *)

Inductive param_type :=
| PInfra (t : token) | PField (t : field_type) | PUuid | PPath | PTime | PFilter.

#[export] Instance param_type_eq_dec : EqDecision param_type.
Proof. solve_decision. Defined.

Record parameter := {
  p_name : string;
  p_type : param_type;
  p_nullable : bool;
  p_default : bool
}.

Definition infra (name : string) (t : token) : parameter :=
  {| p_name := name; p_type := PInfra t; p_nullable := false; p_default := false |}.
Definition param (name : string) (t : param_type) : parameter :=
  {| p_name := name; p_type := t; p_nullable := false; p_default := false |}.
Definition nullable (p : parameter) : parameter :=
  {| p_name := p_name p; p_type := p_type p; p_nullable := true; p_default := p_default p |}.
Definition defaulted (p : parameter) : parameter :=
  {| p_name := p_name p; p_type := p_type p; p_nullable := p_nullable p; p_default := true |}.

(** The function of each capability: its positional parameters and the keyword-only ones *)
Record signature := { sg_positional : list parameter; sg_keyword : list parameter }.

Definition _get_fn_map : list (string * signature) := [
  ("start_run", {| sg_positional := [infra "pool" pool_token; infra "principal_storage" principal_storage_token;
     nullable (infra "get_worker_bridge" get_worker_bridge_token); infra "run_manager" run_manager_token;
     infra "caller_principal" caller_principal_token; param "intent" (PField TStr); param "config_path" PPath];
     sg_keyword := [] |});
  ("list_runs", {| sg_positional := [infra "pool" pool_token];
     sg_keyword := [] |});
  ("get_run", {| sg_positional := [infra "pool" pool_token; param "run_id" PUuid];
     sg_keyword := [] |});
  ("abort_run", {| sg_positional := [infra "pool" pool_token; param "run_id" PUuid];
     sg_keyword := [] |});
  ("pause_run", {| sg_positional := [infra "pool" pool_token; param "run_id" PUuid];
     sg_keyword := [] |});
  ("resume_run", {| sg_positional := [infra "pool" pool_token; param "run_id" PUuid];
     sg_keyword := [] |});
  ("list_inbox", {| sg_positional := [infra "pool" pool_token; param "run_id" PUuid;
     defaulted (nullable (param "status" (PField TStr)))];
     sg_keyword := [] |});
  ("get_inbox_item", {| sg_positional := [infra "pool" pool_token; param "item_id" PUuid];
     sg_keyword := [] |});
  ("respond_to_inbox", {| sg_positional := [infra "pool" pool_token;
     infra "caller_principal" caller_principal_token];
     sg_keyword := [param "item_id" PUuid; param "answer" (PField TStr)] |});
  ("skip_inbox_item", {| sg_positional := [infra "pool" pool_token;
     infra "caller_principal" caller_principal_token];
     sg_keyword := [param "item_id" PUuid] |});
  ("reject_inbox_item", {| sg_positional := [infra "pool" pool_token;
     infra "caller_principal" caller_principal_token];
     sg_keyword := [param "item_id" PUuid; param "reason" (PField TStr)] |});
  ("list_tasks", {| sg_positional := [infra "pool" pool_token; param "run_id" PUuid];
     sg_keyword := [] |});
  ("get_task_attempts", {| sg_positional := [infra "pool" pool_token; param "task_id" PUuid];
     sg_keyword := [] |});
  ("get_transcript", {| sg_positional := [infra "pool" pool_token; param "session_id" PUuid];
     sg_keyword := [] |});
  ("search_transcript", {| sg_positional := [infra "pool" pool_token; param "session_id" PUuid;
     param "query" (PField TStr)];
     sg_keyword := [] |});
  ("query_events", {| sg_positional := [infra "pool" pool_token; param "run_id" PUuid;
     defaulted (nullable (param "event_type" (PField TStr))); defaulted (nullable (param "since" PTime));
     defaulted (param "limit" (PField TInt))];
     sg_keyword := [] |});
  ("get_notepad", {| sg_positional := [infra "pool" pool_token; param "run_id" PUuid];
     sg_keyword := [] |});
  ("fire_event", {| sg_positional := [infra "pool" pool_token; infra "caller_principal" caller_principal_token];
     sg_keyword := [nullable (param "run_id" PUuid); param "event_name" (PField TStr);
        defaulted (nullable (param "payload" (PField TDict)));
        defaulted (nullable (param "idempotency_key" (PField TStr)))] |});
  ("show_config", {| sg_positional := [infra "pool" pool_token; param "run_id" PUuid];
     sg_keyword := [] |});
  ("show_pricing", {| sg_positional := [];
     sg_keyword := [] |});
  ("validate_agent", {| sg_positional := [param "path" PPath];
     sg_keyword := [] |});
  ("validate_workflow", {| sg_positional := [param "path" PPath];
     sg_keyword := [] |});
  ("validate_categories", {| sg_positional := [param "path" PPath];
     sg_keyword := [] |});
  ("subscribe", {| sg_positional := [infra "backend" dispatch_backend_token;
     infra "caller_principal" caller_principal_token; param "filter_pred" PFilter;
     param "actions" (PField TDictList)];
     sg_keyword := [defaulted (param "storage" (PField TStr))] |});
  ("unsubscribe", {| sg_positional := [infra "backend" dispatch_backend_token; param "subscription_id" PUuid];
     sg_keyword := [] |});
  ("list_subscriptions", {| sg_positional := [infra "backend" dispatch_backend_token];
     sg_keyword := [defaulted (param "enabled_only" (PField TBool));
        defaulted (nullable (param "principal_id" PUuid))] |});
  ("create_source", {| sg_positional := [nullable (infra "pool" pool_token);
     infra "backend" dispatch_backend_token; infra "principal_storage" principal_storage_token;
     infra "caller_principal" caller_principal_token; param "slug" (PField TStr); param "name" (PField TStr)];
     sg_keyword := [defaulted (nullable (param "credential_id" PUuid));
        defaulted (nullable (param "config" (PField TDict)))] |});
  ("get_source", {| sg_positional := [infra "backend" dispatch_backend_token; param "source_id" PUuid];
     sg_keyword := [] |});
  ("get_source_by_slug", {| sg_positional := [infra "backend" dispatch_backend_token; param "slug" (PField TStr)];
     sg_keyword := [] |});
  ("list_sources", {| sg_positional := [infra "backend" dispatch_backend_token];
     sg_keyword := [] |});
  ("delete_source", {| sg_positional := [infra "backend" dispatch_backend_token; param "source_id" PUuid];
     sg_keyword := [] |});
  ("list_deliveries", {| sg_positional := [infra "notification_port" notification_port_token;
     infra "caller_principal" caller_principal_token];
     sg_keyword := [defaulted (param "unacknowledged_only" (PField TBool));
        defaulted (nullable (param "cursor" PUuid)); defaulted (param "limit" (PField TInt))] |});
  ("acknowledge_delivery", {| sg_positional := [infra "notification_port" notification_port_token;
     infra "caller_principal" caller_principal_token];
     sg_keyword := [param "delivery_id" PUuid] |});
  ("create_principal", {| sg_positional := [infra "dispatch_backend" dispatch_backend_token;
     infra "principal_storage" principal_storage_token; infra "kind_registry" kind_registry_token];
     sg_keyword := [param "kind" (PField TStr); param "external_ref" PUuid;
        defaulted (nullable (param "display_name" (PField TStr)));
        defaulted (nullable (param "notification_event_types" (PField TStrList)))] |});
  ("get_principal", {| sg_positional := [infra "principal_storage" principal_storage_token];
     sg_keyword := [param "principal_id" PUuid] |});
  ("list_principals", {| sg_positional := [infra "principal_storage" principal_storage_token];
     sg_keyword := [defaulted (nullable (param "kind" (PField TStr)))] |});
  ("delete_principal", {| sg_positional := [infra "principal_storage" principal_storage_token];
     sg_keyword := [param "principal_id" PUuid] |})
]%string.

Definition get_capability_fn (name : string) : result signature := or_raise (assoc name _get_fn_map) (KeyError name).

(** ** _dispatcher.py *)

(** An object the server holds, by name *)
Definition obj : Type := nat.

(** A positional argument the dispatcher adds *)
Inductive injected := Infra (t : token) (o : obj) | Caller (p : Principal).

(** [event_bus], which no token asks for, is left out. *)
Record DispatchContext := {
  dc_pool : option obj;
  dc_dispatch_backend : option obj;
  dc_principal_storage : option obj;
  dc_kind_registry : option obj;
  dc_notification_port : option obj;
  dc_get_worker_bridge : option obj;
  dc_run_manager : option obj;
  dc_auth_context : option AuthContext
}.

Definition _INJECT_ORDER : list token :=
  [pool_token; dispatch_backend_token; principal_storage_token; kind_registry_token; notification_port_token;
   get_worker_bridge_token; run_manager_token; caller_principal_token].

(** [getattr(context, token)] *)
Definition context_field (context : DispatchContext) (t : token) : option obj :=
  match t with
  | pool_token => dc_pool context
  | dispatch_backend_token => dc_dispatch_backend context
  | principal_storage_token => dc_principal_storage context
  | kind_registry_token => dc_kind_registry context
  | notification_port_token => dc_notification_port context
  | get_worker_bridge_token => dc_get_worker_bridge context
  | run_manager_token => dc_run_manager context
  | caller_principal_token => None
  end.

(** A keyword argument *)
Inductive kwarg :=
| Plain (v : value)
| UuidArg (u : uuid)
| PathArg (path : string)
| TimeArg (t : time)
| FilterArg (f : FilterPredicate).

Section dispatcher.
(** pydantic's validation of the raw arguments, dumped again, and of a [FilterPredicate]; [UUID] of a text that is
    not canonical; [datetime.fromisoformat]; [str] of an id *)
Context (model_validate : list field -> list (string * value) -> result (list (string * value))).
Context (filter_predicate : list (string * value) -> result FilterPredicate).
Context (parse_uuid : string -> option uuid) (fromisoformat : string -> result time) (uuid_str : uuid -> string).
(** The stores and services behind the server *)
Context {W : Type} (storage_of : obj -> W -> InMemoryPrincipalStorage).
Context (service : string -> list injected -> list (string * kwarg) -> M W value).

Definition _resolve_caller_principal_arg (context : DispatchContext) : M W Principal :=
  match dc_auth_context context with
  | None => mthrow (ValueError "requires an authenticated caller context")
  | Some auth_context =>
      match dc_principal_storage context with
      | None => mthrow (ValueError "requires a principal storage backend")
      | Some storage =>
          r ← mgets (fun w => resolve_caller_principal auth_context (storage_of storage w));
          liftr r
      end
  end.

(** Every token of [VALID_INJECT_TOKENS] is in the order, so none is left unrouted. *)
Fixpoint inject_loop (context : DispatchContext) (injects : list token) (order : list token) : M W (list injected) :=
  match order with
  | [] => mret []
  | t :: order' =>
      if decide (t ∈ injects) then
        arg ← (if decide (t = caller_principal_token) then p ← _resolve_caller_principal_arg context; mret (Caller p)
               else match context_field context t with
                    | None => mthrow (ValueError "requires a dependency")
                    | Some o => mret (Infra t o)
                    end);
        args ← inject_loop context injects order';
        mret (arg :: args)
      else inject_loop context injects order'
  end.

Definition _resolve_injections (context : DispatchContext) (cap : Capability) : M W (list injected) :=
  inject_loop context (cap_injects cap) _INJECT_ORDER.

Definition path_keys : list string := ["config_path"; "path"]%string.

(** One parameter, with the name and the type the service function takes *)
Definition prepare_kwarg (model : list field) (key : string) (v : value) : result (string * kwarg) :=
  let is_str := match v with VStr _ | VUuidStr _ => true | _ => false end in
  let text := match v with VStr s => s | VUuidStr u => uuid_str u | _ => ""%string end in
  let is_uuid := existsb (fun f => bool_decide (f_name f = key) && f_uuid f) model in
  match v with
  | VNone => Ok (key, Plain VNone)
  | _ =>
      if is_uuid && is_str then
        u ← UUID parse_uuid v;
        match u with
        | Some u => Ok (key, UuidArg u)
        | None => Raise (ValueError "badly formed hexadecimal UUID string")
        end
      else if bool_decide (key ∈ path_keys) && is_str then Ok (key, PathArg text)
      else if bool_decide (key = "since"%string) && is_str then t ← fromisoformat text; Ok (key, TimeArg t)
      else
        match v with
        | VDict d =>
            if decide (key = "filter"%string) then f ← filter_predicate d; Ok ("filter_pred"%string, FilterArg f)
            else Ok (key, Plain v)
        | _ => Ok (key, Plain v)
        end
  end.

Definition _prepare_kwargs (model : list field) (raw : list (string * value)) : result (list (string * kwarg)) :=
  rmap (fun kv => prepare_kwarg model kv.1 kv.2) raw.

Definition dispatch (context : DispatchContext) (capability_name : string) (raw_args : list (string * value)) :
    M W value :=
  match get_capability capability_name with
  | None => mthrow (ValueError "Unknown capability")
  | Some cap =>
      match dc_auth_context context with
      | None => mthrow (ValueError "requires an authenticated context to dispatch")
      | Some auth_context =>
          liftr (authorize auth_context (cap_required_scope cap)) ;;
          validated ← liftr (model_validate (cap_params_model cap) raw_args);
          kwargs ← liftr (_prepare_kwargs (cap_params_model cap) validated);
          liftr (get_capability_fn capability_name) ;;
          infra_args ← _resolve_injections context cap;
          service capability_name infra_args kwargs
      end
  end.
End dispatcher.

(** ** _notifications.py *)

Definition list_deliveries (port : InMemoryNotificationBackend) (caller_principal : Principal)
    (unacknowledged_only : bool) (cursor : option uuid) (limit : Z) : list NotificationDelivery :=
  list_for_principal port (pr_id caller_principal) unacknowledged_only cursor limit.

Definition ownership_limit : Z := 1000.

Definition acknowledge_delivery (now : time) (caller_principal : Principal) (delivery_id : uuid) :
    M InMemoryNotificationBackend unit :=
  deliveries ← mgets (fun b => list_for_principal b (pr_id caller_principal) false None ownership_limit);
  if decide (delivery_id ∈ nd_id <$> deliveries) then acknowledge now delivery_id
  else mthrow (OtherError "PermissionError").
