(* ===== verification/CapabilitiesSpec.v ===== *)
(** Theorems about [Capabilities]: no service is called but for a caller with its scope, every call fits the
    function it calls, and whose deliveries a caller gets at. *)
From S2P Require Import Prelude PyDict Text Types Dispatch Identity IdentitySpec Auth Notification NotificationSpec Capabilities.

(** ** Arguments and parameters *)

Definition conforms_type (t : field_type) (v : value) : bool :=
  match t, v with
  | TStr, (VStr _ | VUuidStr _) => true
  | TBool, VBool _ => true
  | TInt, VInt _ => true
  | TDict, VDict _ => true
  | TDictList, VList l => forallb (fun v => match v with VDict _ => true | _ => false end) l
  | TStrList, VList l => forallb (fun v => match v with VStr _ | VUuidStr _ => true | _ => false end) l
  | _, _ => false
  end.

(** What pydantic's validation guarantees of a field of the dump *)
Definition conforms (f : field) (kv : string * value) : Prop :=
  kv.1 = f_name f /\ (kv.2 = VNone /\ f_nullable f = true \/ conforms_type (f_type f) kv.2 = true).

(** A parameter takes an argument. *)
Definition takes (p : parameter) (a : kwarg) : Prop :=
  match p_type p, a with
  | _, Plain VNone => p_nullable p = true
  | PField t, Plain v => conforms_type t v = true
  | PUuid, UuidArg _ | PPath, PathArg _ | PTime, TimeArg _ | PFilter, FilterArg _ => True
  | _, _ => False
  end.

Definition is_infra (p : parameter) : bool := match p_type p with PInfra _ => true | _ => false end.
Definition infra_tokens (sg : signature) : list token :=
  omap (fun p => match p_type p with PInfra t => Some t | _ => None end) (sg_positional sg).
Definition own_parameters (sg : signature) : list parameter :=
  filter (fun p => negb (is_infra p)) (sg_positional sg ++ sg_keyword sg).

(** The parameters that are not the server's can be called with these keywords: each is taken by a parameter,
    none twice, and no parameter without a default is left out. *)
Definition fits (ps : list parameter) (kwargs : list (string * kwarg)) : Prop :=
  NoDup kwargs.*1 /\
  (forall k a, (k, a) ∈ kwargs -> exists p, p ∈ ps /\ p_name p = k /\ takes p a) /\
  (forall p, p ∈ ps -> p_default p = true \/ p_name p ∈ kwargs.*1).

(** What a field becomes *)
Definition prepared (f : field) : string * param_type :=
  match f_type f with
  | TStr =>
      if f_uuid f then (f_name f, PUuid)
      else if decide (f_name f ∈ path_keys) then (f_name f, PPath)
      else if decide (f_name f = "since"%string) then (f_name f, PTime)
      else (f_name f, PField TStr)
  | TDict => if decide (f_name f = "filter"%string) then ("filter_pred"%string, PFilter) else (f_name f, PField TDict)
  | t => (f_name f, PField t)
  end.

Definition serves (p : parameter) (f : field) : bool :=
  bool_decide ((p_name p, p_type p) = prepared f) && implb (f_nullable f) (p_nullable p).

(** Ids are texts, and a field that may be [None] keeps its name. *)
Definition plain_field (f : field) : bool :=
  implb (f_uuid f) (bool_decide (f_type f = TStr)) && implb (f_nullable f) (bool_decide ((prepared f).1 = f_name f)).

(** The models of the table and the functions' signatures agree, as can be read off. *)
Definition well_typed (cap : Capability) : bool :=
  match get_capability_fn (cap_name cap) with
  | Raise _ => false
  | Ok sg =>
      bool_decide (infra_tokens sg = filter (fun t => t ∈ cap_injects cap) _INJECT_ORDER) &&
      forallb is_infra (take (length (infra_tokens sg)) (sg_positional sg)) &&
      forallb (fun f => existsb (fun p => serves p f) (own_parameters sg)) (cap_params_model cap) &&
      forallb (fun p => p_default p || bool_decide (p_name p ∈ (prepared <$> cap_params_model cap).*1)) (own_parameters sg) &&
      bool_decide (NoDup (f_name <$> cap_params_model cap)) &&
      bool_decide (NoDup ((prepared <$> cap_params_model cap).*1)) &&
      forallb plain_field (cap_params_model cap)
  end.

Lemma table_well_typed : forallb well_typed CAPABILITIES = true.
Proof. vm_compute. reflexivity. Qed.

Section dispatcher.
Context (model_validate : list field -> list (string * value) -> result (list (string * value))).
Context (filter_predicate : list (string * value) -> result FilterPredicate).
Context (parse_uuid : string -> option uuid) (fromisoformat : string -> result time) (uuid_str : uuid -> string).
Context {W : Type} (storage_of : obj -> W -> InMemoryPrincipalStorage).
Context (service : string -> list injected -> list (string * kwarg) -> M W value).

Abbreviation prepare := (prepare_kwarg filter_predicate parse_uuid fromisoformat uuid_str).
Abbreviation prepare_all := (_prepare_kwargs filter_predicate parse_uuid fromisoformat uuid_str).
Abbreviation inject := (_resolve_injections storage_of).
Abbreviation run := (dispatch model_validate filter_predicate parse_uuid fromisoformat uuid_str storage_of service).

(** A text that is no id, no instant, or no filter *)
Definition unparsable (e : exn) : Prop :=
  e = ValueError "badly formed hexadecimal UUID string" \/ (exists s, fromisoformat s = Raise e) \/
  (exists d, filter_predicate d = Raise e).

Lemma uuid_field_of model f :
  NoDup (f_name <$> model) -> f ∈ model ->
  existsb (fun g => bool_decide (f_name g = f_name f) && f_uuid g) model = f_uuid f.
Proof.
  induction model as [|g model IH]; [intros _ H; by apply not_elem_of_nil in H|].
  rewrite fmap_cons, NoDup_cons. intros [Hg Hm] Hf. simpl. apply elem_of_cons in Hf as [-> |Hf].
  - rewrite bool_decide_true by done. simpl. destruct (f_uuid g); [done|]. simpl.
    destruct (existsb _ model) eqn:E; [|done]. exfalso. apply existsb_exists in E as (h & Hh & Hb).
    apply andb_prop in Hb as [Hb _]. apply bool_decide_eq_true in Hb. apply Hg. rewrite <- Hb.
    apply list_elem_of_fmap_2. by apply list_elem_of_In.
  - rewrite bool_decide_false; [simpl; by apply IH|]. intros E. apply Hg. rewrite E. by apply list_elem_of_fmap_2.
Qed.

Lemma serves_spec p f :
  serves p f = true -> p_name p = (prepared f).1 /\ p_type p = (prepared f).2 /\
    (f_nullable f = true -> p_nullable p = true).
Proof.
  unfold serves. intros [Hp Hn]%andb_prop. apply bool_decide_eq_true in Hp. rewrite <- Hp.
  split_and!; [done..|]. intros E. by rewrite E in Hn.
Qed.

(** Preparing one argument gives its parameter what it takes. *)
Lemma prepare_spec model f v :
  NoDup (f_name <$> model) -> f ∈ model -> plain_field f = true -> conforms f (f_name f, v) ->
  match prepare model (f_name f) v with
  | Ok (k, a) => k = (prepared f).1 /\ forall p, serves p f = true -> takes p a
  | Raise e => unparsable e
  end.
Proof.
  intros Hnd Hf [Hu Hn]%andb_prop [_ Hc]. cbn in Hc. unfold prepare_kwarg. rewrite uuid_field_of by done.
  destruct Hc as [[-> Hnull]|Hc].
  { rewrite Hnull in Hn. apply bool_decide_eq_true in Hn. split; [done|]. intros p (_ & _ & Hp)%serves_spec.
    unfold takes. rewrite Hp by done. by destruct (p_type p). }
  assert (Hs : forall p a t, (prepared f).2 = t -> takes {| p_name := p_name p; p_type := t; p_nullable := p_nullable p;
      p_default := p_default p |} a -> serves p f = true -> takes p a).
  { intros p a t E Ht (_ & E2 & _)%serves_spec. rewrite E in E2. unfold takes in *. by rewrite E2. }
  unfold prepared in *. destruct (f_type f) eqn:Ety.
  2,3,5,6: (assert (Eu : f_uuid f = false) by (by destruct (f_uuid f)); rewrite Eu; destruct v; try done;
            rewrite ?andb_false_r; cbn; split; [done|]; intros p; eapply Hs; [reflexivity|exact Hc]).
  - destruct (f_uuid f).
    + destruct v; try done; cbn.
      * destruct (parse_uuid s); cbn; [|by left]. split; [done|]. intros p. by eapply Hs.
      * split; [done|]. intros p. by eapply Hs.
    + clear Hu. revert Hs Hn. rewrite andb_false_l.
      destruct (decide (f_name f ∈ path_keys)) as [Hp|Hp]; [|destruct (decide (f_name f = "since"%string)) as [Hp2|Hp2]];
        intros Hs Hn.
      * rewrite (bool_decide_true (f_name f ∈ path_keys)) by done.
        destruct v; try done; split; try done; intros p; by eapply Hs.
      * rewrite (bool_decide_false (f_name f ∈ path_keys)), (bool_decide_true (f_name f = "since"%string)) by done.
        destruct v as [| | |s|u| |]; try done; cbn.
        -- destruct (fromisoformat s) as [t|e] eqn:E; cbn; [split; [done|]; intros p; by eapply Hs|].
           right. left. by exists s.
        -- destruct (fromisoformat (uuid_str u)) as [t|e] eqn:E; cbn; [split; [done|]; intros p; by eapply Hs|].
           right. left. by exists (uuid_str u).
      * rewrite (bool_decide_false (f_name f ∈ path_keys)), (bool_decide_false (f_name f = "since"%string)) by done.
        destruct v; try done; split; try done; intros p; by eapply Hs.
  - assert (Eu : f_uuid f = false) by (by destruct (f_uuid f)). rewrite Eu, andb_false_l.
    destruct v; try done. rewrite !andb_false_r. cbv beta iota zeta.
    destruct (decide (f_name f = "filter"%string)).
    + destruct (filter_predicate d) as [p0|err] eqn:E; cbn; [split; [done|]; intros p; by eapply Hs|].
      right. right. by exists d.
    + split; [done|]. intros p. by eapply Hs.
Qed.

(** What a parameter of a type is given for an argument: [None] as it is, a text as the id, the path or the instant
    it stands for, a dict as the filter it makes, anything else as it is. *)
Definition converted (t : param_type) (v : value) (a : kwarg) : Prop :=
  match v, t with
  | VNone, _ => a = Plain VNone
  | VUuidStr u, PUuid => a = UuidArg u
  | VStr s, PUuid => exists u, parse_uuid s = Some u /\ a = UuidArg u
  | VUuidStr u, PPath => a = PathArg (uuid_str u)
  | VStr s, PPath => a = PathArg s
  | VUuidStr u, PTime => exists t, fromisoformat (uuid_str u) = Ok t /\ a = TimeArg t
  | VStr s, PTime => exists t, fromisoformat s = Ok t /\ a = TimeArg t
  | VDict d, PFilter => exists f, filter_predicate d = Ok f /\ a = FilterArg f
  | _, PField _ => a = Plain v
  | _, _ => False
  end.

Lemma prepare_converted model f v k a :
  NoDup (f_name <$> model) -> f ∈ model -> plain_field f = true -> conforms f (f_name f, v) ->
  prepare model (f_name f) v = Ok (k, a) -> converted (prepared f).2 v a.
Proof.
  intros Hnd Hf [Hu _]%andb_prop [_ Hc]. cbn in Hc. unfold prepare_kwarg. rewrite uuid_field_of by done.
  destruct Hc as [[-> _]|Hc]; [by intros [= <- <-]|]. unfold prepared. destruct (f_type f) eqn:Ety.
  2,3,5,6: (assert (Eu : f_uuid f = false) by (by destruct (f_uuid f)); rewrite Eu; destruct v; try done;
            rewrite ?andb_false_r; cbn; by intros [= <- <-]).
  - destruct (f_uuid f).
    + destruct v; try done; cbn; [|by intros [= <- <-]].
      destruct (parse_uuid s) as [u|] eqn:E; cbn; [|done]. intros [= <- <-]. by exists u.
    + clear Hu. rewrite andb_false_l.
      destruct (decide (f_name f ∈ path_keys)) as [Hp|Hp]; [|destruct (decide (f_name f = "since"%string)) as [Hp2|Hp2]].
      * rewrite (bool_decide_true (f_name f ∈ path_keys)) by done. destruct v; try done; by intros [= <- <-].
      * rewrite (bool_decide_false (f_name f ∈ path_keys)), (bool_decide_true (f_name f = "since"%string)) by done.
        destruct v as [| | |s|u| |]; try done; cbn.
        -- destruct (fromisoformat s) as [t|e] eqn:E; cbn; [|done]. intros [= <- <-]. by exists t.
        -- destruct (fromisoformat (uuid_str u)) as [t|e] eqn:E; cbn; [|done]. intros [= <- <-]. by exists t.
      * rewrite (bool_decide_false (f_name f ∈ path_keys)), (bool_decide_false (f_name f = "since"%string)) by done.
        destruct v; try done; by intros [= <- <-].
  - assert (Eu : f_uuid f = false) by (by destruct (f_uuid f)). rewrite Eu, andb_false_l.
    destruct v; try done. rewrite !andb_false_r. cbv beta iota zeta.
    destruct (decide (f_name f = "filter"%string)); [|by intros [= <- <-]].
    destruct (filter_predicate d) as [p0|err] eqn:E; cbn; [|done]. intros [= <- <-]. by exists p0.
Qed.

(** The name a parameter has for an argument *)
Definition named_for (k : string) (p : parameter) : Prop :=
  p_name p = k \/ k = "filter"%string /\ p_name p = "filter_pred"%string.

(** An argument given to one of the parameters, converted *)
Definition handed (ps : list parameter) (kv : string * value) (ka : string * kwarg) : Prop :=
  exists p, p ∈ ps /\ named_for kv.1 p /\ ka.1 = p_name p /\ converted (p_type p) kv.2 ka.2.

Lemma prepare_all_given model ps fs d kwargs :
  NoDup (f_name <$> model) -> fs ⊆ model -> Forall (fun f => plain_field f = true) fs ->
  (forall f, f ∈ model -> exists p, p ∈ ps /\ serves p f = true) -> Forall2 conforms fs d ->
  rmap (fun kv => prepare model kv.1 kv.2) d = Ok kwargs -> Forall2 (handed ps) d kwargs.
Proof.
  intros Hnd Hsub Hplain Hserve Hd. revert kwargs Hsub Hplain.
  induction Hd as [|f [k v] fs d Hf _ IH]; intros kwargs Hsub Hplain; [by intros [= <-]|].
  apply Forall_cons in Hplain as [Hp Hplain]. assert (k = f_name f) as -> by apply Hf. cbn [rmap fst snd].
  assert (Hin : f ∈ model) by (apply Hsub; left).
  pose proof (prepare_spec model f v Hnd Hin Hp Hf) as Hname.
  destruct (prepare model (f_name f) v) as [[k a]|e] eqn:E; [|done]. cbn.
  destruct (rmap _ d) as [rest|e]; [|done]. cbn. intros [= <-].
  constructor; [|apply IH; [intros g Hg; apply Hsub; by right|done..]].
  destruct (Hserve f Hin) as (p & Hps & Hs). apply serves_spec in Hs as (En & Et & _). destruct Hname as [-> _].
  exists p. cbn. split; [done|]. split; [|split; [done|rewrite Et; by eapply prepare_converted]].
  unfold named_for. rewrite En. unfold prepared. destruct (f_type f); repeat case_match; simpl; auto.
Qed.

Lemma prepare_all_spec model fs d :
  NoDup (f_name <$> model) -> fs ⊆ model -> Forall (fun f => plain_field f = true) fs -> Forall2 conforms fs d ->
  match rmap (fun kv => prepare model kv.1 kv.2) d with
  | Ok kwargs => Forall2 (fun f ka => ka.1 = (prepared f).1 /\ forall p, serves p f = true -> takes p ka.2) fs kwargs
  | Raise e => unparsable e
  end.
Proof.
  intros Hnd Hsub Hplain Hd. revert Hsub Hplain. induction Hd as [|f [k v] fs d Hf _ IH]; intros Hsub Hplain.
  { constructor. }
  apply Forall_cons in Hplain as [Hp Hplain]. assert (k = f_name f) as -> by apply Hf.
  pose proof (prepare_spec model f v Hnd ltac:(apply Hsub; left) Hp Hf) as H. cbn [rmap fst snd].
  destruct (prepare model (f_name f) v) as [[k a]|e]; [|done]. cbn.
  specialize (IH ltac:(intros g Hg; apply Hsub; by right) Hplain).
  destruct (rmap _ d) as [kwargs|e]; [|done]. cbn. by constructor.
Qed.

(** The token an injected argument is for *)
Definition token_of (i : injected) : token := match i with Infra t _ => t | Caller _ => caller_principal_token end.

(** An injected argument is what the context holds, or the principal of its caller. *)
Definition injected_right (context : DispatchContext) (w : W) (i : injected) : Prop :=
  match i with
  | Infra t o => context_field context t = Some o
  | Caller p => exists auth storage, dc_auth_context context = Some auth /\ dc_principal_storage context = Some storage /\
                  resolve_caller_principal auth (storage_of storage w) = Ok p
  end.

Lemma inject_loop_spec context injects order w :
  match inject_loop storage_of context injects order w with
  | (Ok args, w') => w' = w /\ token_of <$> args = filter (fun t => t ∈ injects) order /\
                       Forall (injected_right context w) args
  | (Raise e, w') => w' = w
  end.
Proof.
  induction order as [|t order IH]; [by repeat split|]. rewrite filter_cons. cbn [inject_loop].
  destruct (decide (t ∈ injects)) as [_|_]; [|done]. unfold mbind, M_bind in *.
  destruct (decide (t = caller_principal_token)) as [->|Ht].
  - unfold _resolve_caller_principal_arg, mbind, M_bind. destruct (dc_auth_context context) as [auth|] eqn:Ea; [|done].
    destruct (dc_principal_storage context) as [storage|] eqn:Es; [|done]. cbn.
    destruct (resolve_caller_principal auth (storage_of storage w)) as [p|e] eqn:Er; cbn; [|done].
    destruct (inject_loop storage_of context injects order w) as [[args|?] w']; [|exact IH].
    destruct IH as (-> & IH1 & IH2). cbn. split_and!; [done|by rewrite IH1|].
    constructor; [|done]. by exists auth, storage.
  - destruct (context_field context t) as [o|] eqn:Eo; [|done]. cbn.
    destruct (inject_loop storage_of context injects order w) as [[args|?] w']; [|exact IH].
    destruct IH as (-> & IH1 & IH2). cbn. split_and!; [done|by rewrite IH1|]. by constructor.
Qed.

(** The capability is called by a caller with its scope. *)
Definition admitted (context : DispatchContext) (name : string) (cap : Capability) : Prop :=
  get_capability name = Some cap /\ exists auth, dc_auth_context context = Some auth /\
    cap_required_scope cap ∈ ac_scopes auth.

Lemma get_capability_spec name cap : get_capability name = Some cap -> cap ∈ CAPABILITIES /\ cap_name cap = name.
Proof.
  unfold get_capability. intros H. apply last_Some_elem_of, list_elem_of_filter in H as [H1 H2]. done.
Qed.

Lemma well_typed_of cap : cap ∈ CAPABILITIES -> well_typed cap = true.
Proof. intros H. pose proof table_well_typed as Ht. rewrite forallb_forall in Ht. by apply Ht, list_elem_of_In. Qed.

(** What an admitted call does: it fails, changing nothing, or the service is called. *)
Lemma dispatch_admitted context name cap raw w :
  admitted context name cap ->
  run context name raw w =
  match model_validate (cap_params_model cap) raw with
  | Raise e => (Raise e, w)
  | Ok d =>
      match prepare_all (cap_params_model cap) d with
      | Raise e => (Raise e, w)
      | Ok kwargs =>
          match inject context cap w with
          | (Raise e, _) => (Raise e, w)
          | (Ok args, _) => service name args kwargs w
          end
      end
  end.
Proof.
  intros (Hc & auth & Ha & Hs). unfold dispatch. rewrite Hc, Ha. unfold authorize. rewrite decide_True by done.
  apply get_capability_spec in Hc as [Hc Hn]. apply well_typed_of in Hc. unfold well_typed in Hc. rewrite Hn in Hc.
  assert (Hsg : exists sg, get_capability_fn name = Ok sg) by (destruct (get_capability_fn name); [eauto|done]).
  destruct Hsg as [sg Hsg]. rewrite Hsg. unfold mbind, M_bind.
  cbv beta iota delta [liftr mret M_ret mthrow M_throw].
  destruct (model_validate _ raw) as [d|e]; [|done]. destruct (prepare_all _ d) as [kwargs|e]; [|done].
  pose proof (inject_loop_spec context (cap_injects cap) _INJECT_ORDER w) as Hi. unfold _resolve_injections.
  destruct (inject_loop _ _ _ _ w) as [[args|e] w']; [by destruct Hi as [-> _]|by rewrite Hi].
Qed.

Lemma dispatch_refused context name :
  (forall cap, ~ admitted context name cap) -> exists e, forall raw w, run context name raw w = (Raise e, w).
Proof.
  intros H. unfold dispatch. destruct (get_capability name) as [cap|] eqn:Ec; [|by eexists].
  destruct (dc_auth_context context) as [auth|] eqn:Ea; [|by eexists].
  unfold authorize. rewrite decide_False; [by eexists|]. intros Hs. apply (H cap). split; [done|]. by exists auth.
Qed.

(** C16. No caller reaches a service of the server but one authenticated with the scope of that capability: any
    other call fails, in a way that depends neither on its arguments nor on what the server holds, and changes
    nothing. An admitted call fails and changes nothing, or is the call of the capability's own service, once, with
    the objects of the context and the principal the identity store has for the caller, whatever the arguments say. *)
Theorem dispatch_is_guarded context name raw w :
  ((forall cap, ~ admitted context name cap) /\ exists e, forall raw' w', run context name raw' w' = (Raise e, w')) \/
  (exists cap, admitted context name cap /\
     ((exists e, run context name raw w = (Raise e, w)) \/
      (exists args kwargs, run context name raw w = service name args kwargs w /\
         token_of <$> args = filter (fun t => t ∈ cap_injects cap) _INJECT_ORDER /\
         Forall (injected_right context w) args))).
Proof.
  assert (Hdec : (exists cap, admitted context name cap) \/ forall cap, ~ admitted context name cap).
  { unfold admitted. destruct (get_capability name) as [cap|]; [|right; intros c [Hc _]; done].
    destruct (dc_auth_context context) as [auth|]; [|right; intros c (_ & a & Ha & _); done].
    destruct (decide (cap_required_scope cap ∈ ac_scopes auth)); [left; by exists cap; eauto|].
    right. intros c (Hc & a & Ha & Hs). by simplify_eq. }
  destruct Hdec as [[cap Hcap]|Hno]; [right|left; split; [done|by apply dispatch_refused]].
  exists cap. split; [done|]. rewrite (dispatch_admitted _ _ _ _ _ Hcap).
  destruct (model_validate _ raw) as [d|e]; [|left; by exists e].
  destruct (prepare_all _ d) as [kwargs|e]; [|left; by exists e].
  pose proof (inject_loop_spec context (cap_injects cap) _INJECT_ORDER w) as Hi. unfold _resolve_injections.
  destruct (inject_loop _ _ _ _ w) as [[args|e] w']; [|left; by exists e].
  right. exists args, kwargs. by destruct Hi as (_ & H1 & H2).
Qed.

(** A signature is called with what its parameters take: the objects first, each for the parameter of its token,
    then the arguments by name. *)
Definition call_fits (sg : signature) (args : list injected) (kwargs : list (string * kwarg)) : Prop :=
  token_of <$> args = infra_tokens sg /\
  Forall (fun p => is_infra p = true) (take (length args) (sg_positional sg)) /\ fits (own_parameters sg) kwargs.

(** The facts the table's check gives, as propositions *)
Lemma well_typed_spec cap :
  cap ∈ CAPABILITIES -> exists sg, get_capability_fn (cap_name cap) = Ok sg /\
    infra_tokens sg = filter (fun t => t ∈ cap_injects cap) _INJECT_ORDER /\
    Forall (fun p => is_infra p = true) (take (length (infra_tokens sg)) (sg_positional sg)) /\
    (forall f, f ∈ cap_params_model cap -> exists p, p ∈ own_parameters sg /\ serves p f = true) /\
    (forall p, p ∈ own_parameters sg -> p_default p = true \/ p_name p ∈ (prepared <$> cap_params_model cap).*1) /\
    NoDup (f_name <$> cap_params_model cap) /\ NoDup ((prepared <$> cap_params_model cap).*1) /\
    Forall (fun f => plain_field f = true) (cap_params_model cap).
Proof.
  intros H%well_typed_of. unfold well_typed in H. destruct (get_capability_fn _) as [sg|]; [|done]. exists sg.
  rewrite !andb_true_iff, !bool_decide_eq_true, !forallb_forall in H.
  destruct H as ((((((H1 & H2) & H3) & H4) & H5) & H6) & H7). split_and!; try done.
  - apply Forall_forall. intros p Hp. by apply H2, list_elem_of_In.
  - intros f Hf. apply list_elem_of_In, H3, existsb_exists in Hf as (p & Hp & Hs). exists p. by rewrite list_elem_of_In.
  - intros p Hp. apply list_elem_of_In, H4, orb_true_iff in Hp as [Hp|Hp]; [by left|right].
    by apply bool_decide_eq_true in Hp.
  - apply Forall_forall. intros f Hf. by apply H7, list_elem_of_In.
Qed.

Lemma fits_of_prepared model ps kwargs :
  (forall f, f ∈ model -> exists p, p ∈ ps /\ serves p f = true) ->
  (forall p, p ∈ ps -> p_default p = true \/ p_name p ∈ (prepared <$> model).*1) ->
  NoDup ((prepared <$> model).*1) ->
  Forall2 (fun f ka => ka.1 = (prepared f).1 /\ forall p, serves p f = true -> takes p ka.2) model kwargs ->
  fits ps kwargs.
Proof.
  intros Hserve Hneed Hnd Hk.
  assert (E : kwargs.*1 = (prepared <$> model).*1).
  { clear - Hk. induction Hk as [|f [k a] model kwargs [Hk _] _ IH]; [done|]. csimpl. by rewrite IH, <- Hk. }
  unfold fits. rewrite E. split_and!; [done| |done]. intros k a Hin.
  apply list_elem_of_lookup in Hin as [i Hi]. eapply Forall2_lookup_r in Hk as (f & Hf & Hn & Ht); [|exact Hi].
  destruct (Hserve f) as (p & Hp & Hs); [by eapply list_elem_of_lookup_2|]. exists p. cbn in *.
  split_and!; [done| |by apply Ht]. rewrite Hn. apply serves_spec in Hs. apply Hs.
Qed.

(** C17. The table of operations, the parameter models and the functions agree: an admitted call whose arguments
    validate calls the capability's function with each object in the parameter declared for it and every argument,
    in order, in the parameter of its name - the id, the path, the instant or the filter that the argument stands
    for where the parameter has such a type, and otherwise, as for [None], the argument itself -, which takes it;
    none is missing and none unknown. It fails only where a text is no id, no instant or no filter, or a dependency
    or the caller's principal is missing. *)
Theorem calls_fit (Hvalidate : forall model raw d, model_validate model raw = Ok d -> Forall2 conforms model d)
    context name cap raw d w :
  admitted context name cap -> model_validate (cap_params_model cap) raw = Ok d ->
  exists sg, get_capability_fn name = Ok sg /\
    ((exists e, run context name raw w = (Raise e, w) /\ (unparsable e \/ inject context cap w = (Raise e, w))) \/
     (exists args kwargs, run context name raw w = service name args kwargs w /\ call_fits sg args kwargs /\
        Forall2 (handed (own_parameters sg)) d kwargs)).
Proof.
  intros Hadm Hd. rewrite (dispatch_admitted _ _ _ _ _ Hadm), Hd. destruct Hadm as [[Hc Hn]%get_capability_spec _].
  destruct (well_typed_spec cap Hc) as (sg & Hsg & Ht & Hi & Hserve & Hneed & Hnd & Hnd2 & Hplain).
  rewrite Hn in Hsg. exists sg. split; [done|].
  pose proof (prepare_all_spec (cap_params_model cap) (cap_params_model cap) d Hnd ltac:(done) Hplain
    (Hvalidate _ _ _ Hd)) as Hk.
  pose proof (prepare_all_given (cap_params_model cap) (own_parameters sg) (cap_params_model cap) d) as Hgiven.
  unfold _prepare_kwargs in *. destruct (rmap _ d) as [kwargs|e]; [|left; by exists e; auto].
  pose proof (inject_loop_spec context (cap_injects cap) _INJECT_ORDER w) as Hinj. unfold _resolve_injections.
  destruct (inject_loop _ _ _ _ w) as [[args|e] w'].
  - destruct Hinj as (-> & H1 & _). right. exists args, kwargs. split; [done|].
    split; [|by eapply Hgiven; eauto]. unfold call_fits. rewrite Ht. split; [done|].
    split; [|by eapply fits_of_prepared]. rewrite <- (length_fmap token_of), H1, <- Ht. done.
  - subst w'. left. exists e. by auto.
Qed.

(** The capability is there and admits its caller, and its dependencies resolve. *)
Definition ready (context : DispatchContext) (name : string) (w : W) : Prop :=
  exists cap args, admitted context name cap /\ inject context cap w = (Ok args, w).

Lemma inject_ready context injects order w :
  (forall t, t ∈ injects -> t <> caller_principal_token -> is_Some (context_field context t)) ->
  (caller_principal_token ∈ injects -> exists auth storage p, dc_auth_context context = Some auth /\
     dc_principal_storage context = Some storage /\ resolve_caller_principal auth (storage_of storage w) = Ok p) ->
  exists args, inject_loop storage_of context injects order w = (Ok args, w).
Proof.
  intros Hf Hcaller. induction order as [|t order [args IH]]; [by exists []|]. cbn [inject_loop].
  destruct (decide (t ∈ injects)) as [Ht|_]; [|by exists args]. unfold mbind, M_bind.
  destruct (decide (t = caller_principal_token)) as [->|Hne].
  - destruct (Hcaller Ht) as (auth & storage & p & Ea & Es & Ep). exists (Caller p :: args).
    unfold _resolve_caller_principal_arg, mbind, M_bind. rewrite Ea, Es. cbn. rewrite Ep. cbn. by rewrite IH.
  - destruct (Hf t Ht Hne) as [o Eo]. exists (Infra t o :: args). rewrite Eo. cbn. by rewrite IH.
Qed.

End dispatcher.

(** ** Deliveries *)

(** A caller acknowledges a delivery only if it is among the first thousand of its own, read or unread, oldest
    first, and only once: another principal's delivery, and a caller's own beyond the first thousand, are refused
    alike, and a refusal changes nothing. *)
Theorem acknowledges_own_only now p id b :
  notifications_ok b ->
  (id ∉ take 1000 (ids_of (pr_id p) b) -> acknowledge_delivery now p id b = (Raise (OtherError "PermissionError"), b)) /\
  (id ∈ take 1000 (ids_of (pr_id p) b) ->
     exists d, _deliveries b !! id = Some d /\ nd_target_principal_id d = pr_id p /\
       acknowledge_delivery now p id b =
         match nd_acknowledged_at d with
         | None => (Ok tt, b .[_deliveries ::= <[id := d .[nd_acknowledged_at := Some now]]>])
         | Some _ => (Raise (KeyError "Notification delivery not found or already acknowledged"), b)
         end) /\
  (forall d, _deliveries b !! id = Some d -> nd_target_principal_id d <> pr_id p ->
     acknowledge_delivery now p id b = (Raise (OtherError "PermissionError"), b)).
Proof.
  intros Hb. pose proof (ids_of_first (pr_id p) b ownership_limit) as Hids.
  change (Z.to_nat (1 `max` ownership_limit)) with 1000 in Hids.
  assert (Hin : forall i, i ∈ take 1000 (ids_of (pr_id p) b) ->
    exists d, _deliveries b !! i = Some d /\ nd_target_principal_id d = pr_id p).
  { intros i. rewrite <- Hids. intros (d & -> & Hd)%list_elem_of_fmap. apply elem_of_listed in Hd as [Hd Ht].
    destruct Hb as [Hwf Hk]. destruct (dict_value_lookup d _ Hwf Hd) as [k Hl].
    exists d. split; [|done]. by rewrite (Hk k d Hl). }
  assert (Hout : id ∉ take 1000 (ids_of (pr_id p) b) ->
    acknowledge_delivery now p id b = (Raise (OtherError "PermissionError"), b)).
  { intros Hn. unfold acknowledge_delivery, mbind, M_bind, mgets. rewrite Hids. by rewrite decide_False. }
  split_and!; [done| |].
  - intros Hi. destruct (Hin id Hi) as (d & Hd & Ht). exists d. split_and!; [done..|].
    unfold acknowledge_delivery, acknowledge, mbind, M_bind, mgets. rewrite Hids, decide_True by done.
    rewrite Hd. by destruct (nd_acknowledged_at d).
  - intros d Hd Hne. apply Hout. intros (d' & Hd' & Ht)%Hin. by simplify_eq.
Qed.

(** ** Small runs *)

Module Calls.
#[local] Instance conforms_dec f kv : Decision (conforms f kv).
Proof. unfold conforms. apply _. Defined.

(** Validation that takes only arguments that conform as they are *)
Definition validate (model : list field) (raw : list (string * value)) : result (list (string * value)) :=
  if decide (Forall2 conforms model raw) then Ok raw else Raise (ValueError "invalid").

Lemma validate_conforms model raw d : validate model raw = Ok d -> Forall2 conforms model d.
Proof. unfold validate. case_decide; [|done]. by intros [= <-]. Qed.

Definition any_filter (d : list (string * value)) : result FilterPredicate := Raise (ValueError "no filter").
Definition no_uuid (s : string) : option uuid := None.
Definition no_time (s : string) : result time := Raise (ValueError "no time").
Definition id_text (u : uuid) : string := "u".

(** A server that records the services called *)
Definition called : Type := list string.
Definition serve (name : string) (args : list injected) (kwargs : list (string * kwarg)) : M called value :=
  mmod (fun l => l ++ [name]) ;; mret VNone.
Definition storage_of (o : obj) (w : called) : InMemoryPrincipalStorage :=
  {| _principals := <[1%Z := {| pr_id := 1; pr_kind := KIND_SYSTEM; pr_external_ref := SYSTEM_PRINCIPAL_EXTERNAL_REF;
                                pr_display_name := None; pr_created_at := 0 |}]> ∅ |}.
Definition operator_context : AuthContext := {|
  ac_id := 9; ac_consumer_id := None; ac_scopes := ALL_SCOPES; ac_trust_tier := SYSTEM;
  ac_authenticated_via := "cli-local"; ac_issued_at := 0; ac_expires_at := None |}.
Definition line : DispatchContext := {|
  dc_pool := Some 1; dc_dispatch_backend := None; dc_principal_storage := Some 2; dc_kind_registry := Some 3;
  dc_notification_port := None; dc_get_worker_bridge := None; dc_run_manager := None;
  dc_auth_context := Some operator_context |}.
Definition get_run : list (string * value) := [("run_id"%string, VUuidStr 4)].

Example get_run_called :
  dispatch validate any_filter no_uuid no_time id_text storage_of serve line "get_run" get_run [] =
    (Ok VNone, ["get_run"%string]).
Proof. vm_compute. reflexivity. Qed.
End Calls.

Lemma calls_fit_witness :
  exists sg, get_capability_fn "get_run" = Ok sg /\ exists args kwargs, call_fits sg args kwargs /\
    kwargs = [("run_id"%string, UuidArg 4)].
Proof.
  assert (Hadm : exists cap, admitted Calls.line "get_run" cap /\ Calls.validate (cap_params_model cap) Calls.get_run = Ok Calls.get_run).
  { destruct (get_capability "get_run") as [cap|] eqn:Ec; [|by vm_compute in Ec]. exists cap. split.
    - split; [done|]. exists Calls.operator_context. split; [done|]. vm_compute in Ec. injection Ec as <-.
      apply (bool_decide_unpack _). by vm_compute.
    - vm_compute in Ec. injection Ec as <-. by vm_compute. }
  destruct Hadm as (cap & Hadm & Hv).
  destruct (calls_fit Calls.validate Calls.any_filter Calls.no_uuid Calls.no_time Calls.id_text Calls.storage_of
    Calls.serve Calls.validate_conforms Calls.line "get_run" cap Calls.get_run Calls.get_run [] Hadm Hv)
    as (sg & Hsg & [(e & He & _)|(args & kwargs & _ & Hfit & Hgiven)]).
  - exfalso. rewrite Calls.get_run_called in He. done.
  - exists sg. split; [exact Hsg|]. exists args, kwargs. split; [exact Hfit|].
    vm_compute in Hsg. injection Hsg as <-. unfold Calls.get_run in Hgiven.
    apply Forall2_cons_inv_l in Hgiven as ([k a] & rest & (p & Hp & _ & Ek & Ea) & Hrest & ->).
    apply Forall2_nil_inv_l in Hrest as ->. vm_compute in Hp.
    apply list_elem_of_singleton in Hp as ->. cbn in Ek, Ea. by subst.
Defined.

Lemma acknowledges_own_only_witness :
  exists p : Principal, pr_id p = 20%Z /\
    (acknowledge_delivery 9 p 1 NotificationSpec.Demo.inbox).1 = Ok tt /\
    acknowledge_delivery 9 p 2 NotificationSpec.Demo.inbox =
      (Raise (OtherError "PermissionError"), NotificationSpec.Demo.inbox).
Proof.
  exists {| pr_id := 20; pr_kind := KIND_CONSUMER; pr_external_ref := 10; pr_display_name := None; pr_created_at := 0 |}.
  split; [done|]. split; [by vm_compute|].
  refine (proj1 (acknowledges_own_only 9 _ 2 NotificationSpec.Demo.inbox (NotificationSpec.Demo.deliveries_ok _)) _).
  apply (bool_decide_unpack _). by vm_compute.
Defined.
