(* ===== verification/Cli.v ===== *)
(** The command line: cli/_cli.py, every command down to the dispatcher of services/_dispatcher.py.

    Parsing the options, tables and the machine document are the framework's; a command ends with what it shows. *)
From S2P Require Import Prelude PyDict Text Types Dispatch Identity Auth Notification Capabilities.

(** How a command ends *)
Inductive cli_end :=
(** [_emit]: the payload, and the table *)
| Emitted (data : value)
(** a line on stdout *)
| Printed (text : string)
(** nothing, under --quiet *)
| Silent
(** the errors on stderr, and exit 1 *)
| Invalid (errors : value)
(** [_die] *)
| Died (message : string).

(** [_operator_auth_context] *)
Definition _operator_auth_context (new_id : uuid) (now : time) : AuthContext := {|
  ac_id := new_id; ac_consumer_id := None; ac_scopes := ALL_SCOPES; ac_trust_tier := SYSTEM;
  ac_authenticated_via := "cli-local"; ac_issued_at := now; ac_expires_at := None |}.

(** The context of the commands on a database *)
Definition cli_context (pool storage kinds : obj) (auth : AuthContext) : DispatchContext := {|
  dc_pool := Some pool; dc_dispatch_backend := None; dc_principal_storage := Some storage;
  dc_kind_registry := Some kinds; dc_notification_port := None; dc_get_worker_bridge := None;
  dc_run_manager := None; dc_auth_context := Some auth |}.

(** The context of the commands without one *)
Definition cli_no_pool_context (auth : AuthContext) : DispatchContext := {|
  dc_pool := None; dc_dispatch_backend := None; dc_principal_storage := None; dc_kind_registry := None;
  dc_notification_port := None; dc_get_worker_bridge := None; dc_run_manager := None;
  dc_auth_context := Some auth |}.

Definition _require_db {W : Type} (db : option string) (k : M W cli_end) : M W cli_end :=
  match db with
  | None => mret (Died "--db is required for this command")
  | Some _ => k
  end.

Section cli.
(** [dispatch] with what it depends on *)
Context {W : Type} (run : DispatchContext -> string -> list (string * value) -> M W value).
(** [json.loads], [str] of a value printed, [repr] of a text, [verify_schema] of the database *)
Context (json_loads : string -> result value) (py_str : value -> string) (py_repr : string -> string).
Context (verify_schema : W -> result unit).
(** The pool, the store of principals and the registry of kinds a command makes, the id and the instant of its
    operator's context *)
Context (pool storage kinds : obj) (new_id : uuid) (now : time).
(** The option --quiet *)
Context (quiet : bool).

Definition operator : AuthContext := _operator_auth_context new_id now.

(** The pool, checked, and the context on it *)
Definition connected {A} (f : DispatchContext -> M W A) : M W A :=
  checked ← mgets verify_schema;
  liftr checked ;;
  f (cli_context pool storage kinds operator).

Definition said (text : string) : cli_end := if quiet then Silent else Printed text.

Definition _dispatch_and_emit (capability : string) (args : list (string * value)) : M W cli_end :=
  connected (fun ctx => result ← run ctx capability args; mret (Emitted result)).

Definition _dispatch_quiet (capability : string) (args : list (string * value)) (success_msg : string) :
    M W cli_end :=
  connected (fun ctx => run ctx capability args ;; mret (said success_msg)).

Definition _dispatch_no_pool (capability : string) (args : list (string * value)) : M W cli_end :=
  result ← run (cli_no_pool_context operator) capability args;
  mret (Emitted result).

(** ** run *)

Definition cmd_run_start (db : option string) (config intent : string) : M W cli_end :=
  _require_db db (connected (fun ctx =>
    run_id ← run ctx "start_run" [("config_path", VStr config); ("intent", VStr intent)]%string;
    mret (Printed (py_str run_id)))).

Definition cmd_run_list (db : option string) : M W cli_end := _require_db db (_dispatch_and_emit "list_runs" []).

Definition cmd_run_show (db : option string) (run_id : string) : M W cli_end :=
  _require_db db (connected (fun dispatch_ctx =>
    result ← run dispatch_ctx "get_run" [("run_id", VStr run_id)]%string;
    mret match result with
         | VNone => Died ("run " +:+ (run_id +:+ " not found"))%string
         | _ => Emitted result
         end)).

Definition cmd_run_abort (db : option string) (run_id : string) : M W cli_end :=
  _require_db db (_dispatch_quiet "abort_run" [("run_id", VStr run_id)]%string
                    ("run " +:+ (run_id +:+ " aborted"))%string).
Definition cmd_run_pause (db : option string) (run_id : string) : M W cli_end :=
  _require_db db (_dispatch_quiet "pause_run" [("run_id", VStr run_id)]%string
                    ("run " +:+ (run_id +:+ " paused"))%string).
Definition cmd_run_resume (db : option string) (run_id : string) : M W cli_end :=
  _require_db db (_dispatch_quiet "resume_run" [("run_id", VStr run_id)]%string
                    ("run " +:+ (run_id +:+ " resumed"))%string).

(** ** inbox *)

(** An option that is left out of the arguments when it is not given *)
Definition given (key : string) (o : option string) : list (string * value) :=
  match o with Some s => [(key, VStr s)] | None => [] end.

Definition cmd_inbox_list (db : option string) (run : string) (status : option string) : M W cli_end :=
  _require_db db (_dispatch_and_emit "list_inbox" ([("run_id", VStr run)]%string ++ given "status" status)).
Definition cmd_inbox_show (db : option string) (item_id : string) : M W cli_end :=
  _require_db db (_dispatch_and_emit "get_inbox_item" [("item_id", VStr item_id)]%string).
Definition cmd_inbox_respond (db : option string) (item_id answer : string) : M W cli_end :=
  _require_db db (_dispatch_and_emit "respond_to_inbox" [("item_id", VStr item_id); ("answer", VStr answer)]%string).
Definition cmd_inbox_skip (db : option string) (item_id : string) : M W cli_end :=
  _require_db db (_dispatch_and_emit "skip_inbox_item" [("item_id", VStr item_id)]%string).
Definition cmd_inbox_reject (db : option string) (item_id reason : string) : M W cli_end :=
  _require_db db (_dispatch_and_emit "reject_inbox_item" [("item_id", VStr item_id); ("reason", VStr reason)]%string).

(** ** trace *)

Definition cmd_trace_events (db : option string) (run_id : string) (type : option string) (limit : Z) : M W cli_end :=
  _require_db db (_dispatch_and_emit "query_events"
    ([("run_id", VStr run_id); ("limit", VInt limit)]%string ++ given "event_type" type)).
Definition cmd_trace_transcript (db : option string) (session_id : string) : M W cli_end :=
  _require_db db (_dispatch_and_emit "get_transcript" [("session_id", VStr session_id)]%string).
Definition cmd_trace_search (db : option string) (session_id query : string) : M W cli_end :=
  _require_db db (_dispatch_and_emit "search_transcript"
    [("session_id", VStr session_id); ("query", VStr query)]%string).
Definition cmd_trace_tasks (db : option string) (run_id : string) : M W cli_end :=
  _require_db db (_dispatch_and_emit "list_tasks" [("run_id", VStr run_id)]%string).
Definition cmd_trace_notepad (db : option string) (run_id : string) : M W cli_end :=
  _require_db db (_dispatch_and_emit "get_notepad" [("run_id", VStr run_id)]%string).

(** ** event *)

(** The payload: [inl] is the message the command dies with. *)
Definition parsed_payload (payload : option string) : result (string + value) :=
  match payload with
  | None => Ok (inr VNone)
  | Some payload =>
      match json_loads payload with
      | Ok (VDict d) => Ok (inr (VDict d))
      | Ok _ => Ok (inl "payload must be a JSON object"%string)
      | Raise JSONDecodeError => Ok (inl "invalid JSON payload"%string)
      | Raise e => Raise e
      end
  end.

Definition cmd_event_fire (db : option string) (run_id event_name : string) (payload : option string) : M W cli_end :=
  _require_db db
    (parsed ← liftr (parsed_payload payload);
     match parsed with
     | inl message => mret (Died message)
     | inr parsed =>
         connected (fun ctx =>
           fired ← run ctx "fire_event" [("run_id", VStr run_id); ("event_name", VStr event_name);
                                         ("payload", parsed)]%string;
           match fired with
           | VList [event_id; _] =>
               mret (said ("event " +:+ (py_repr event_name +:+ (" fired for run " +:+ (run_id +:+
                             (" (id=" +:+ (py_str event_id +:+ ")"))))))%string)
           | _ => mthrow (TypeError "cannot unpack")
           end)
     end).

(** ** validate *)

Definition cmd_validate (capability : string) (path : string) : M W cli_end :=
  errors ← run (cli_no_pool_context operator) capability [("path", VStr path)]%string;
  mret (if falsy errors then said "valid" else Invalid errors).

Definition cmd_validate_agent (path : string) : M W cli_end := cmd_validate "validate_agent" path.
Definition cmd_validate_workflow (path : string) : M W cli_end := cmd_validate "validate_workflow" path.
Definition cmd_validate_categories (path : string) : M W cli_end := cmd_validate "validate_categories" path.

(** ** config *)

Definition cmd_config_show (db : option string) (run_id : string) : M W cli_end :=
  _require_db db (connected (fun dispatch_ctx =>
    result ← run dispatch_ctx "show_config" [("run_id", VStr run_id)]%string;
    mret match result with
         | VNone => Died ("run " +:+ (run_id +:+ " not found"))%string
         | _ => Emitted result
         end)).
Definition cmd_config_pricing : M W cli_end := _dispatch_no_pool "show_pricing" [].

(** ** The commands with their options *)

Inductive command :=
| RunStart (config intent : string) | RunList | RunShow (run_id : string)
| RunAbort (run_id : string) | RunPause (run_id : string) | RunResume (run_id : string)
| InboxList (run : string) (status : option string) | InboxShow (item_id : string)
| InboxRespond (item_id answer : string) | InboxSkip (item_id : string) | InboxReject (item_id reason : string)
| TraceEvents (run_id : string) (type : option string) (limit : Z) | TraceTranscript (session_id : string)
| TraceSearch (session_id query : string) | TraceTasks (run_id : string) | TraceNotepad (run_id : string)
| EventFire (run_id event_name : string) (payload : option string)
| ValidateAgent (path : string) | ValidateWorkflow (path : string) | ValidateCategories (path : string)
| ConfigShow (run_id : string) | ConfigPricing.

Definition run_command (db : option string) (c : command) : M W cli_end :=
  match c with
  | RunStart config intent => cmd_run_start db config intent
  | RunList => cmd_run_list db
  | RunShow run_id => cmd_run_show db run_id
  | RunAbort run_id => cmd_run_abort db run_id
  | RunPause run_id => cmd_run_pause db run_id
  | RunResume run_id => cmd_run_resume db run_id
  | InboxList run status => cmd_inbox_list db run status
  | InboxShow item_id => cmd_inbox_show db item_id
  | InboxRespond item_id answer => cmd_inbox_respond db item_id answer
  | InboxSkip item_id => cmd_inbox_skip db item_id
  | InboxReject item_id reason => cmd_inbox_reject db item_id reason
  | TraceEvents run_id type limit => cmd_trace_events db run_id type limit
  | TraceTranscript session_id => cmd_trace_transcript db session_id
  | TraceSearch session_id query => cmd_trace_search db session_id query
  | TraceTasks run_id => cmd_trace_tasks db run_id
  | TraceNotepad run_id => cmd_trace_notepad db run_id
  | EventFire run_id event_name payload => cmd_event_fire db run_id event_name payload
  | ValidateAgent path => cmd_validate_agent path
  | ValidateWorkflow path => cmd_validate_workflow path
  | ValidateCategories path => cmd_validate_categories path
  | ConfigShow run_id => cmd_config_show db run_id
  | ConfigPricing => cmd_config_pricing
  end.
End cli.
