(* ===== verification/CliSpec.v ===== *)
(** Theorems about [Cli]: which command cannot work, and that the others call what they name with what it takes. *)
From S2P Require Import Prelude PyDict Text Types Dispatch Identity IdentitySpec Auth Notification Capabilities CapabilitiesSpec Cli.

(** ** What a command calls *)

(** The arguments validate: each is of its field's type, none is unknown or given twice, and only fields that may
    be [None], which is their default, are left out. *)
Definition accepts (model : list field) (args : list (string * value)) : bool :=
  bool_decide (NoDup args.*1) &&
  forallb (fun kv => existsb (fun f => bool_decide (f_name f = kv.1) &&
    match kv.2 with VNone => f_nullable f | _ => conforms_type (f_type f) kv.2 end) model) args &&
  forallb (fun f => f_nullable f || bool_decide (f_name f ∈ args.*1)) model.

Section commands.
Context {W : Type} (run : DispatchContext -> string -> list (string * value) -> M W value).
Context (json_loads : string -> result value) (py_str : value -> string) (py_repr : string -> string).
Context (verify_schema : W -> result unit).
Context (pool storage kinds : obj) (new_id : uuid) (now : time) (quiet : bool).

Abbreviation perform := (run_command run json_loads py_str py_repr verify_schema pool storage kinds new_id now quiet).
Abbreviation auth := (_operator_auth_context new_id now).

(** Whether it is on the database, the capability and its arguments; none for a payload that is no JSON object *)
Definition call_of (c : command) : option (bool * string * list (string * value)) :=
  let on_db name args := Some (true, name, args) in
  let off_db name args := Some (false, name, args) in
  match c with
  | RunStart config intent => on_db "start_run" [("config_path", VStr config); ("intent", VStr intent)]
  | RunList => on_db "list_runs" []
  | RunShow run_id => on_db "get_run" [("run_id", VStr run_id)]
  | RunAbort run_id => on_db "abort_run" [("run_id", VStr run_id)]
  | RunPause run_id => on_db "pause_run" [("run_id", VStr run_id)]
  | RunResume run_id => on_db "resume_run" [("run_id", VStr run_id)]
  | InboxList run status => on_db "list_inbox" (("run_id", VStr run) :: given "status" status)
  | InboxShow item_id => on_db "get_inbox_item" [("item_id", VStr item_id)]
  | InboxRespond item_id answer => on_db "respond_to_inbox" [("item_id", VStr item_id); ("answer", VStr answer)]
  | InboxSkip item_id => on_db "skip_inbox_item" [("item_id", VStr item_id)]
  | InboxReject item_id reason => on_db "reject_inbox_item" [("item_id", VStr item_id); ("reason", VStr reason)]
  | TraceEvents run_id type limit =>
      on_db "query_events" (("run_id", VStr run_id) :: ("limit", VInt limit) :: given "event_type" type)
  | TraceTranscript session_id => on_db "get_transcript" [("session_id", VStr session_id)]
  | TraceSearch session_id query => on_db "search_transcript" [("session_id", VStr session_id); ("query", VStr query)]
  | TraceTasks run_id => on_db "list_tasks" [("run_id", VStr run_id)]
  | TraceNotepad run_id => on_db "get_notepad" [("run_id", VStr run_id)]
  | EventFire run_id event_name payload =>
      match parsed_payload json_loads payload with
      | Ok (inr v) => on_db "fire_event" [("run_id", VStr run_id); ("event_name", VStr event_name); ("payload", v)]
      | _ => None
      end
  | ValidateAgent path => off_db "validate_agent" [("path", VStr path)]
  | ValidateWorkflow path => off_db "validate_workflow" [("path", VStr path)]
  | ValidateCategories path => off_db "validate_categories" [("path", VStr path)]
  | ConfigShow run_id => on_db "show_config" [("run_id", VStr run_id)]
  | ConfigPricing => off_db "show_pricing" []
  end%string.

Definition context_of (on_db : bool) : DispatchContext :=
  if on_db then cli_context pool storage kinds auth else cli_no_pool_context auth.

(** What it shows of the result *)
Definition shown (c : command) (v : value) : result cli_end :=
  match c with
  | RunStart _ _ => Ok (Printed (py_str v))
  | RunShow run_id | ConfigShow run_id =>
      Ok match v with VNone => Died ("run " +:+ (run_id +:+ " not found"))%string | _ => Emitted v end
  | RunAbort run_id => Ok (said quiet ("run " +:+ (run_id +:+ " aborted"))%string)
  | RunPause run_id => Ok (said quiet ("run " +:+ (run_id +:+ " paused"))%string)
  | RunResume run_id => Ok (said quiet ("run " +:+ (run_id +:+ " resumed"))%string)
  | EventFire run_id event_name _ =>
      match v with
      | VList [event_id; _] =>
          Ok (said quiet ("event " +:+ (py_repr event_name +:+ (" fired for run " +:+ (run_id +:+
                            (" (id=" +:+ (py_str event_id +:+ ")"))))))%string)
      | _ => Raise (TypeError "cannot unpack")
      end
  | ValidateAgent _ | ValidateWorkflow _ | ValidateCategories _ =>
      Ok (if falsy v then said quiet "valid" else Invalid v)
  | _ => Ok (Emitted v)
  end.

Lemma perform_call db c on_db name args w :
  verify_schema w = Ok tt -> call_of c = Some (on_db, name, args) ->
  perform (Some db) c w =
  match run (context_of on_db) name args w with
  | (Ok v, w') => (shown c v, w')
  | (Raise e, w') => (Raise e, w')
  end.
Proof.
  intros Hv Hc. destruct c; cbn [call_of] in Hc.
  17: { destruct (parsed_payload json_loads payload) as [[m|p]|e] eqn:Ep; [done| |done].
        injection Hc as <- <- <-. cbn. unfold cmd_event_fire, _require_db, connected, mbind, M_bind, mgets, liftr.
        rewrite Ep. cbn. rewrite Hv. cbn.
        destruct (run _ _ _ w) as [[v|e] w']; [|done]. by destruct v as [| | | | |[|i [|? [|]]]|]. }
  all: injection Hc as <- <- <-; cbn; unfold cmd_run_start, cmd_run_list, cmd_run_show, cmd_run_abort, cmd_run_pause,
    cmd_run_resume, cmd_inbox_list, cmd_inbox_show, cmd_inbox_respond, cmd_inbox_skip, cmd_inbox_reject,
    cmd_trace_events, cmd_trace_transcript, cmd_trace_search, cmd_trace_tasks, cmd_trace_notepad, cmd_validate_agent,
    cmd_validate_workflow, cmd_validate_categories, cmd_validate, cmd_config_show, cmd_config_pricing,
    _dispatch_no_pool, _dispatch_quiet, _dispatch_and_emit, _require_db, connected, mbind, M_bind, mgets, liftr;
    try rewrite Hv; cbn; destruct (run _ _ _ w) as [[v|e] w']; try done; by destruct v.
Qed.
End commands.

(** What a call asks for is there: its capability, its scope among all scopes, its dependencies among [tokens] and
    arguments that validate. *)
Definition call_checks (tokens : list token) (name : string) (args : list (string * value)) : bool :=
  match get_capability name with
  | Some cap => bool_decide (cap_required_scope cap ∈ ALL_SCOPES) &&
                forallb (fun t => bool_decide (t ∈ tokens)) (cap_injects cap) && accepts (cap_params_model cap) args
  | None => false
  end.

Definition tokens_of (on_db : bool) : list token :=
  if on_db then [pool_token; principal_storage_token; kind_registry_token; caller_principal_token] else [].

Lemma calls_check json_loads c on_db name args :
  call_of json_loads c = Some (on_db, name, args) -> name <> "start_run"%string ->
  call_checks (tokens_of on_db) name args = true.
Proof.
  intros Hc Hn. destruct c; cbn [call_of] in Hc.
  17: { destruct payload as [s|]; cbn in Hc; [|injection Hc as <- <- <-; vm_compute; reflexivity].
        destruct (json_loads s) as [[]|[]]; try done; injection Hc as <- <- <-; vm_compute; reflexivity. }
  all: injection Hc as <- <- <-; try done; try destruct status; try destruct type; vm_compute; reflexivity.
Qed.

Section dispatched.
Context (model_validate : list field -> list (string * value) -> result (list (string * value))).
Context (filter_predicate : list (string * value) -> result FilterPredicate).
Context (parse_uuid : string -> option uuid) (fromisoformat : string -> result time) (uuid_str : uuid -> string).
Context {W : Type} (storage_of : obj -> W -> InMemoryPrincipalStorage).
Context (service : string -> list injected -> list (string * kwarg) -> M W value).
Context (json_loads : string -> result value) (py_str : value -> string) (py_repr : string -> string).
Context (verify_schema : W -> result unit).
Context (pool storage kinds : obj) (new_id : uuid) (now : time) (quiet : bool).

Abbreviation run := (dispatch model_validate filter_predicate parse_uuid fromisoformat uuid_str storage_of service).
Abbreviation perform :=
  (run_command run json_loads py_str py_repr verify_schema pool storage kinds new_id now quiet).
Abbreviation context := (context_of pool storage kinds new_id now).

Lemma ready_of_checks on_db name args w p :
  get_principal_by_ref (storage_of storage w) KIND_SYSTEM SYSTEM_PRINCIPAL_EXTERNAL_REF = Some p ->
  call_checks (tokens_of on_db) name args = true ->
  ready storage_of (context on_db) name w /\
  exists cap, get_capability name = Some cap /\ accepts (cap_params_model cap) args = true.
Proof.
  unfold call_checks. intros Hp Hc. destruct (get_capability name) as [cap|] eqn:Ec; [|done].
  apply andb_prop in Hc as [[Hs Hi]%andb_prop Ha]. apply bool_decide_eq_true in Hs.
  split; [|by exists cap]. rewrite forallb_forall in Hi.
  assert (Hsub : forall t, t ∈ cap_injects cap -> t ∈ tokens_of on_db).
  { intros t Ht. by apply list_elem_of_In, Hi, bool_decide_eq_true in Ht. }
  destruct (inject_ready storage_of (context on_db) (cap_injects cap) _INJECT_ORDER w) as [infra Hinfra].
  - intros t Ht%Hsub Hne. destruct on_db; cbn in Ht; [|by apply not_elem_of_nil in Ht].
    rewrite !elem_of_cons in Ht. destruct Ht as [-> |[-> |[-> |[-> |Ht]]]]; try first [congruence|by eexists].
    by apply not_elem_of_nil in Ht.
  - intros Ht%Hsub. destruct on_db; cbn in Ht; [|by apply not_elem_of_nil in Ht].
    exists (_operator_auth_context new_id now), storage, p. split_and!; [done..|].
    unfold resolve_caller_principal. cbn. by rewrite Hp.
  - exists cap, infra. split; [|done]. split; [done|]. exists (_operator_auth_context new_id now). by destruct on_db.
Qed.

Lemma start_run_uninjectable cap w :
  get_worker_bridge_token ∈ cap_injects cap ->
  exists e, _resolve_injections storage_of (context true) cap w = (Raise e, w).
Proof.
  intros Ht. unfold _resolve_injections.
  pose proof (inject_loop_spec storage_of (context true) (cap_injects cap) _INJECT_ORDER w) as H.
  destruct (inject_loop _ _ _ _ w) as [[args|e] w']; [|subst w'; by exists e].
  destruct H as (_ & Htok & Hright). exfalso.
  assert (Hin : get_worker_bridge_token ∈ token_of <$> args).
  { rewrite Htok. apply list_elem_of_filter. split; [done|]. unfold _INJECT_ORDER. set_solver. }
  apply list_elem_of_fmap in Hin as ([t o|p] & E & Hi); [|done]. cbn in E. subst t.
  rewrite Forall_forall in Hright. by specialize (Hright _ Hi).
Qed.

Lemma start_run_fails raw w : exists e, run (context true) "start_run" raw w = (Raise e, w).
Proof.
  destruct (get_capability "start_run") as [cap|] eqn:Ec; [|by vm_compute in Ec].
  assert (Hcap : cap_required_scope cap ∈ ALL_SCOPES /\ get_worker_bridge_token ∈ cap_injects cap).
  { vm_compute in Ec. injection Ec as <-. split; apply (bool_decide_unpack _); by vm_compute. }
  destruct Hcap as [Hs Hi].
  rewrite (dispatch_admitted _ _ _ _ _ _ _ _ _ cap)
    by (split; [done|]; by exists (_operator_auth_context new_id now)).
  destruct (model_validate _ raw) as [d|e]; [|by exists e].
  destruct (_prepare_kwargs _ _ _ _ _ d) as [kwargs|e]; [|by exists e].
  destruct (start_run_uninjectable cap w Hi) as [e He]. rewrite He. by exists e.
Qed.

(** C40. Of the 22 commands of cli/_cli.py, given [--db], only [run start] cannot work: its context lacks what
    starting a run needs, so it raises, whatever its options and whatever the database holds, and nothing is
    started.  If the schema is verified and the system principal is there, every other one - of [event fire], if its
    payload is a JSON object - calls one capability, whose arguments validate, that admits the operator and whose
    dependencies are there, and shows its result or raises as it does.  (The commands of the other files - serving, migrating, dispatching,
    connecting a worker - call no capability.) *)
Theorem cli_cannot_start_runs url w p :
  get_principal_by_ref (storage_of storage w) KIND_SYSTEM SYSTEM_PRINCIPAL_EXTERNAL_REF = Some p ->
  verify_schema w = Ok tt ->
  (forall config intent w', exists e, perform (Some url) (RunStart config intent) w' = (Raise e, w')) /\
  (forall c on_db name args, call_of json_loads c = Some (on_db, name, args) -> name <> "start_run"%string ->
     ready storage_of (context on_db) name w /\
     (exists cap, get_capability name = Some cap /\ accepts (cap_params_model cap) args = true) /\
     perform (Some url) c w =
       match run (context on_db) name args w with
       | (Ok v, w') => (shown py_str py_repr quiet c v, w')
       | (Raise e, w') => (Raise e, w')
       end).
Proof.
  intros Hp Hv. split.
  - intros config intent w'. destruct (verify_schema w') as [[]|e] eqn:Ev.
    + erewrite perform_call; [|done|reflexivity]. fold (context true).
      destruct (start_run_fails [("config_path", VStr config); ("intent", VStr intent)]%string w') as [e He].
      rewrite He. by exists e.
    + exists e. cbn. unfold cmd_run_start, _require_db, connected, mbind, M_bind, mgets. by rewrite Ev.
  - intros c on_db name args Hc Hn. destruct (ready_of_checks on_db name args w p Hp) as [Hready Hcap].
    { by eapply calls_check. }
    split_and!; [done..|]. by apply perform_call.
Qed.
End dispatched.

Lemma cli_cannot_start_runs_witness :
  exists e, run_command (dispatch Calls.validate Calls.any_filter Calls.no_uuid Calls.no_time Calls.id_text
      Calls.storage_of Calls.serve) (fun _ => Raise JSONDecodeError) (fun _ => "") (fun _ => "") (fun _ => Ok tt)
    1 2 3 9 0 false (Some "db"%string) (RunStart "c" "i") [] = (Raise e, []).
Proof.
  destruct (cli_cannot_start_runs Calls.validate Calls.any_filter Calls.no_uuid Calls.no_time Calls.id_text
    Calls.storage_of Calls.serve (fun _ => Raise JSONDecodeError) (fun _ => ""%string) (fun _ => ""%string)
    (fun _ => Ok tt) 1 2 3 9 0 false "db" []
    {| pr_id := 1; pr_kind := KIND_SYSTEM; pr_external_ref := SYSTEM_PRINCIPAL_EXTERNAL_REF;
       pr_display_name := None; pr_created_at := 0 |}) as [H _].
  - by vm_compute.
  - done.
  - apply H.
Defined.
