(* ===== verification/ReadTools.v ===== *)
(** Reading files: the read, list_dir, glob, grep, stat and diff tools of tool/_read_tools.py and the previews of
    tool/_preview.py, over the disk of [WriteSafety] with its symbolic links.

    Text is the string of its UTF-8 bytes.  Regular expressions, glob and name patterns, .gitignore files,
    difflib, JSON and times are parameters. *)
From stdpp Require Import pretty.
From S2P Require Import Prelude PyDict Text WriteSafety Secrets Auth.

(** ** Texts *)

(** The length of the line break at the head of the text: CR LF, LF, VT, FF, CR, FS, GS, RS, NEL, LS, PS *)
Definition line_break (s : string) : option nat :=
  match Ascii.nat_of_ascii <$> String.list_ascii_of_string (String.substring 0 3 s) with
  | 13 :: 10 :: _ => Some 2
  | 10 :: _ | 11 :: _ | 12 :: _ | 13 :: _ | 28 :: _ | 29 :: _ | 30 :: _ => Some 1
  | 194 :: 133 :: _ => Some 2
  | 226 :: 128 :: 168 :: _ | 226 :: 128 :: 169 :: _ => Some 3
  | _ => None
  end.

(** [s.splitlines(keepends)], after [skip] more bytes of a line break *)
Fixpoint lines_from (keepends : bool) (skip : nat) (s : string) : list string :=
  match s with
  | EmptyString => []
  | String a s' =>
      match skip with
      | S skip' => lines_from keepends skip' s'
      | O =>
          match line_break s with
          | Some n => (if keepends then String.substring 0 n s else EmptyString) :: lines_from keepends (n - 1) s'
          | None => match lines_from keepends 0 s' with
                    | [] => [String a EmptyString]
                    | line :: lines => String a line :: lines
                    end
          end
      end
  end.
Definition splitlines (keepends : bool) (s : string) : list string := lines_from keepends 0 s.

(** Whether bytes are UTF-8; [pending] are the ranges of the bytes a character still needs. *)
Fixpoint utf8_from (pending : list (nat * nat)) (s : string) : bool :=
  match s, pending with
  | EmptyString, [] => true
  | EmptyString, _ => false
  | String a s', (lo, hi) :: pending' =>
      let n := Ascii.nat_of_ascii a in (lo <=? n) && (n <=? hi) && utf8_from pending' s'
  | String a s', [] =>
      let n := Ascii.nat_of_ascii a in
      let tail := (128, 191) in
      if n <? 128 then utf8_from [] s'
      else if n <? 194 then false
      else if n <? 224 then utf8_from [tail] s'
      else if n =? 224 then utf8_from [(160, 191); tail] s'
      else if n =? 237 then utf8_from [(128, 159); tail] s'
      else if n <? 240 then utf8_from [tail; tail] s'
      else if n =? 240 then utf8_from [(144, 191); tail; tail] s'
      else if n <? 244 then utf8_from [tail; tail; tail] s'
      else if n =? 244 then utf8_from [(128, 143); tail; tail] s'
      else false
  end.
Definition is_utf8 (s : string) : bool := utf8_from [] s.

Definition carriage_return : Ascii.ascii := Ascii.ascii_of_nat 13.
Definition line_feed : Ascii.ascii := Ascii.ascii_of_nat 10.

(** The universal newlines of [read_text]: CR LF and CR become LF. *)
Fixpoint universal_newlines (s : string) : string :=
  match s with
  | EmptyString => EmptyString
  | String a s' =>
      if decide (a = carriage_return) then
        match s' with
        | String b _ => if decide (b = line_feed) then universal_newlines s' else String line_feed (universal_newlines s')
        | EmptyString => String line_feed EmptyString
        end
      else String a (universal_newlines s')
  end.

(** ** Slices of lists *)

(** [l[start:]], [l[start:stop]] *)
Definition py_from {A} (start : Z) (l : list A) : list A :=
  if decide (0 <= start)%Z then drop (Z.to_nat start) l else drop (length l - Z.to_nat (- start)) l.
Definition py_slice {A} (start stop : Z) (l : list A) : list A :=
  let bound z := if decide (0 <= z)%Z then Z.min z (Z.of_nat (length l)) else Z.max 0 (Z.of_nat (length l) + z) in
  take (Z.to_nat (bound stop - bound start)) (drop (Z.to_nat (bound start)) l).

(** ** _preview.py *)

Record PreviewResult := {
  pv_content : string;
  pv_is_preview : bool;
  pv_total_lines : Z;
  pv_total_bytes : Z
}.

Definition separator (omitted total_lines total_bytes : Z) : string :=
  (newline +:+ ("... (" +:+ (pretty omitted +:+ (" lines omitted, " +:+ (pretty total_lines +:+ (" total lines, " +:+
   (pretty total_bytes +:+ (" total bytes) ..." +:+ newline))))))))%string.

(** The first and the last lines a preview shows *)
Definition head_tail (lines : list string) (preview_lines : Z) : list string * list string :=
  (py_take preview_lines lines,
   if (preview_lines * 2 <? Z.of_nat (length lines))%Z then py_from (- preview_lines) lines
   else py_from preview_lines lines).

Definition check_and_preview (content : string) (threshold preview_lines : Z) : PreviewResult :=
  let total_bytes := Z.of_nat (String.length content) in
  let lines := splitlines true content in
  let total_lines := Z.of_nat (length lines) in
  if (total_bytes <=? threshold)%Z then
    {| pv_content := content; pv_is_preview := false; pv_total_lines := total_lines; pv_total_bytes := total_bytes |}
  else
    let '(head, tail) := head_tail lines preview_lines in
    let omitted := (total_lines - Z.of_nat (length head) - Z.of_nat (length tail))%Z in
    {| pv_content := (join "" head +:+ (separator omitted total_lines total_bytes +:+ join "" tail))%string;
       pv_is_preview := true; pv_total_lines := total_lines; pv_total_bytes := total_bytes |}.

(** [FullRetrievalGuard._previews] *)
Abbreviation guard := (gmap string (gset string)).

Definition record_preview (session_id path : string) (g : guard) : guard :=
  <[session_id := {[path]} ∪ default ∅ (g !! session_id)]> g.
Definition check_full_allowed (session_id path : string) (g : guard) : bool :=
  match g !! session_id with
  | None => false
  | Some session_paths => bool_decide (path ∈ session_paths)
  end.

(** ** The disk, with its symbolic links *)

(** The files and directories at their canonical paths, and the links, each with the canonical path it leads to: a
    file or a directory, or nothing. *)
Record file_tree := { nodes : disk; links : gmap fpath fpath }.

(** Where an entry leads, and what is there *)
Definition real (d : file_tree) (p : fpath) : fpath := default p (links d !! p).
Definition node_at (d : file_tree) (p : fpath) : option node := nodes d !! real d p.
Definition is_link (d : file_tree) (p : fpath) : bool := bool_decide (is_Some (links d !! p)).
Definition is_regular (d : file_tree) (p : fpath) : bool := match node_at d p with Some (File _) => true | _ => false end.
Definition is_dir (d : file_tree) (p : fpath) : bool := match node_at d p with Some Dir => true | _ => false end.

(** The paths of all entries *)
Definition entries (d : file_tree) : list fpath := elements (dom (nodes d) ∪ dom (links d)).

(** The name of [p] in the directory [dir], if it is one of its entries *)
Definition name_in (dir p : fpath) : option string :=
  match drop (length dir) p with
  | [name] => if decide (take (length dir) p = dir) then Some name else None
  | _ => None
  end.

(** The names in a directory, sorted *)
Definition child_names (d : file_tree) (dir : fpath) : list string :=
  merge_sort String.le (omap (name_in dir) (entries d)).

(** [str(p.relative_to(base))]; [None] is the ValueError. *)
Definition rel_str (rel : fpath) : string := match rel with [] => "."%string | _ => join "/" rel end.
Definition relative_to (base p : fpath) : option string :=
  if decide (take (length base) p = base) then Some (rel_str (drop (length base) p)) else None.

(** A bound on how deep paths below [dir] are *)
Definition depth (d : file_tree) (dir : fpath) : nat :=
  foldr Nat.max 0 (length <$> filter (fun p => take (length dir) p = dir) (entries d)).

(** ** Helpers of _read_tools.py *)

Definition BINARY_CHECK_SIZE : Z := 8192.

Definition is_binary_text (content : string) : bool :=
  let chunk := String.substring 0 (Z.to_nat BINARY_CHECK_SIZE) content in
  str_in (String (Ascii.ascii_of_nat 0) EmptyString) chunk || negb (is_utf8 chunk).

(** What cannot be opened is not binary. *)
Definition _is_binary (d : file_tree) (path : fpath) : bool :=
  match node_at d path with Some (File content) => is_binary_text content | _ => false end.

(** [path.read_text(encoding="utf-8")] *)
Definition read_text (d : file_tree) (path : fpath) : result string :=
  match node_at d path with
  | Some (File content) =>
      if is_utf8 content then Ok (universal_newlines content) else Raise (OtherError "UnicodeDecodeError")
  | Some Dir => Raise (OSError EISDIR)
  | None => Raise (OSError ENOENT)
  end.

Definition _read_text_file (d : file_tree) (resolved : fpath) : result string :=
  match read_text d resolved with
  | Raise (OSError _) => Raise (ToolError "Failed to read file")
  | r => r
  end.

Definition _require_file (d : file_tree) (resolved : fpath) : result unit :=
  if is_regular d resolved then Ok tt else Raise (ToolError "File not found").
Definition _require_text_file (d : file_tree) (resolved : fpath) : result unit :=
  if _is_binary d resolved then Raise (ToolError "Binary file, cannot diff") else Ok tt.
Definition _require_dir (d : file_tree) (resolved : fpath) : result unit :=
  if is_dir d resolved then Ok tt else Raise (ToolError "Not a directory").

Fixpoint spaces (n : nat) : string := match n with O => EmptyString | S n' => (" " +:+ spaces n')%string end.

Definition tab : string := String (Ascii.ascii_of_nat 9) EmptyString.

(** [f"{lineno:>{width}}\t{line}"] *)
Definition numbered (width : nat) (lineno : Z) (line : string) : string :=
  (spaces (width - String.length (pretty lineno)) +:+ (pretty lineno +:+ (tab +:+ line)))%string.

Definition _format_with_line_numbers (lines : list string) (start_lineno : Z) : string :=
  match lines with
  | [] => EmptyString
  | _ =>
      let max_lineno := (start_lineno + Z.of_nat (length lines) - 1)%Z in
      let width := String.length (pretty max_lineno) in
      join newline (imap (fun i line => numbered width (start_lineno + Z.of_nat i) line) lines)
  end.

(** *** Languages *)

Definition _EXTENSION_LANGUAGES : list (string * string) :=
  [(".py", "python"); (".pyi", "python"); (".js", "javascript"); (".mjs", "javascript"); (".cjs", "javascript");
   (".jsx", "javascript"); (".ts", "typescript"); (".tsx", "typescript"); (".rs", "rust"); (".go", "go");
   (".rb", "ruby"); (".java", "java"); (".kt", "kotlin"); (".scala", "scala"); (".c", "c"); (".h", "c");
   (".cpp", "cpp"); (".hpp", "cpp"); (".cc", "cpp"); (".cs", "csharp"); (".swift", "swift"); (".lua", "lua");
   (".sh", "shell"); (".bash", "shell"); (".zsh", "shell"); (".fish", "shell"); (".pl", "perl"); (".pm", "perl");
   (".r", "r"); (".R", "r"); (".sql", "sql"); (".html", "html"); (".htm", "html"); (".css", "css");
   (".scss", "scss"); (".less", "less"); (".json", "json"); (".jsonl", "json"); (".yaml", "yaml");
   (".yml", "yaml"); (".toml", "toml"); (".xml", "xml"); (".md", "markdown"); (".rst", "restructuredtext");
   (".tex", "latex"); (".php", "php"); (".ex", "elixir"); (".exs", "elixir"); (".erl", "erlang");
   (".hs", "haskell"); (".ml", "ocaml"); (".mli", "ocaml"); (".clj", "clojure"); (".dart", "dart");
   (".zig", "zig"); (".nim", "nim"); (".v", "v"); (".vue", "vue"); (".svelte", "svelte"); (".proto", "protobuf");
   (".tf", "terraform"); (".dockerfile", "dockerfile"); (".graphql", "graphql"); (".gql", "graphql")]%string.

Definition _extension_to_language (ext : string) : option string := assoc ext _EXTENSION_LANGUAGES.

(** The part of a name from its last dot on, if there is one *)
Fixpoint from_last_dot (name : string) : option string :=
  match name with
  | EmptyString => None
  | String a name' =>
      match from_last_dot name' with
      | Some ext => Some ext
      | None => if decide (a = Ascii.ascii_of_nat 46) then Some name else None
      end
  end.

(** [path.suffix]: a name that begins with its only dot, or ends in a dot, has none. *)
Definition suffix (path : fpath) : string :=
  match last path with
  | Some (String a name') =>
      match from_last_dot name' with
      | Some ext => if decide (ext = "."%string) then EmptyString else ext
      | None => EmptyString
      end
  | _ => EmptyString
  end.

Section tools.
Context (resolve : fpath -> string -> fpath) (canonical : fpath -> fpath).
(** [re.compile(pattern, flags).search]; [sorted(base.glob(pattern))]; [fnmatch.fnmatch(name, pattern)];
    [match_file] of a .gitignore's lines; [difflib.unified_diff] joined; the modification time; [int(s)] *)
Context (re_search : bool -> string -> option (string -> bool)).
Context (glob : file_tree -> fpath -> string -> list fpath).
Context (fnmatch : string -> string -> bool) (match_file : list string -> string -> bool).
Context (unified_diff : list string -> list string -> string -> string -> string).
Context (mtime : fpath -> string) (py_int : string -> option Z).
Context (read_root : fpath).

Definition resolve_path (raw_path : string) : result fpath :=
  _path_error_to_tool_error (resolve_and_check resolve raw_path read_root).

(** A match stays if it is the root or below it. *)
Definition within_root (p : fpath) : bool :=
  bool_decide (p = read_root) || str_prefix (fpath_str read_root +:+ "/") (fpath_str p).

Definition _glob_within_root (d : file_tree) (base : fpath) (pattern : string) : list fpath :=
  filter (fun p => within_root p) (canonical <$> glob d base pattern).

(** ** read *)

Record FileContent := {
  fc_content : string;
  fc_is_preview : bool;
  fc_total_lines : Z;
  fc_total_bytes : Z;
  (** [ToolOutput.text] *)
  fc_text : string
}.

Definition full_refused : string :=
  "Cannot retrieve full content: no preview was previously returned for this file. Read the file first without full=true.".

(** The lines asked for, and the index of the first *)
Definition selected_lines (all_lines : list string) (offset limit : option Z) : list string * Z :=
  let start_idx := Z.min (default 1%Z offset - 1) (Z.of_nat (length all_lines)) in
  let end_idx := match limit with Some limit => (start_idx + limit)%Z | None => Z.of_nat (length all_lines) end in
  (py_slice start_idx end_idx all_lines, start_idx).

Definition _read_impl (preview_threshold preview_lines : Z) (session_id : string) (d : file_tree)
    (path : string) (offset limit : option Z) (full : option bool) : M guard FileContent :=
  resolved ← liftr (resolve_path path);
  liftr (_require_file d resolved) ;;
  if _is_binary d resolved then
    let text := "Binary file, cannot display"%string in
    mret {| fc_content := text; fc_is_preview := false; fc_total_lines := 0; fc_total_bytes := 0; fc_text := text |}
  else
    raw_text ← liftr (_read_text_file d resolved);
    let all_lines := splitlines false raw_text in
    let total_bytes := Z.of_nat (String.length raw_text) in
    let total_lines := Z.of_nat (length all_lines) in
    let '(selected, start_idx) := selected_lines all_lines offset limit in
    let content := join newline selected in
    let path_str := fpath_str resolved in
    let out content is_preview text := {| fc_content := content; fc_is_preview := is_preview;
      fc_total_lines := total_lines; fc_total_bytes := total_bytes; fc_text := text |} in
    let formatted := _format_with_line_numbers selected (start_idx + 1) in
    if default false full then
      allowed ← mgets (check_full_allowed session_id path_str);
      if allowed : bool then mret (out content false formatted)
      else mret (out full_refused false full_refused)
    else
      let result := check_and_preview content preview_threshold preview_lines in
      if pv_is_preview result then
        mmod (record_preview session_id path_str) ;;
        mret (out content true (pv_content result))
      else mret (out content false formatted).

(** ** list_dir *)

Record DirEntry := { de_type : string; de_size : option Z; de_path : string }.

Definition _load_gitignore (d : file_tree) : result (option (list string)) :=
  let gitignore_path := read_root ++ [".gitignore"%string] in
  if is_regular d gitignore_path then
    text ← read_text d gitignore_path; Ok (Some (splitlines false text))
  else Ok None.

(** A .gitignore without lines is falsy. *)
Definition ignored (gitignore : option (list string)) (rel : string) : bool :=
  match gitignore with
  | Some [] | None => false
  | Some lines => match_file lines rel
  end.

Definition wanted (pattern : option string) (name : string) : bool :=
  match pattern with
  | Some pattern => bool_decide (pattern = EmptyString) || fnmatch name pattern
  | None => true
  end.

Definition size_of (d : file_tree) (p : fpath) : option Z :=
  match node_at d p with Some (File content) => Some (Z.of_nat (String.length content)) | _ => None end.

Definition file_entry (d : file_tree) (p : fpath) (rel : string) : DirEntry :=
  {| de_type := "file"; de_size := size_of d p; de_path := rel |}.
Definition dir_entry (rel : string) : DirEntry := {| de_type := "dir"; de_size := None; de_path := rel |}.

(** [_list_recursive] in the directory [dirpath], [rel] below the one listed: [os.walk] lists a link to a directory as a
    directory but does not go into it, and lists every other entry as a file. *)
Fixpoint list_walk (fuel : nat) (d : file_tree) (pattern : option string) (gitignore : option (list string))
    (dirpath rel : fpath) : list DirEntry :=
  match fuel with
  | O => []
  | S fuel' =>
      let names := child_names d dirpath in
      let name_rel name := rel_str (rel ++ [name]) in
      let dirnames := filter (fun name => is_dir d (dirpath ++ [name]) /\
                                ignored gitignore (name_rel name +:+ "/") = false) names in
      let filenames := filter (fun name => is_dir d (dirpath ++ [name]) = false) names in
      (dir_entry <$> (name_rel <$> filter (fun name => wanted pattern name) dirnames)) ++
      ((fun name => file_entry d (dirpath ++ [name]) (name_rel name)) <$>
         filter (fun name => wanted pattern name /\ ignored gitignore (name_rel name) = false) filenames) ++
      concat ((fun name => list_walk fuel' d pattern gitignore (dirpath ++ [name]) (rel ++ [name])) <$>
        filter (fun name => is_link d (dirpath ++ [name]) = false) dirnames)
  end.

Definition _list_recursive (d : file_tree) (resolved : fpath) (pattern : option string) (gitignore : option (list string)) :
    list DirEntry := list_walk (S (depth d resolved)) d pattern gitignore resolved [].

Definition _list_immediate (d : file_tree) (resolved : fpath) (pattern : option string) (gitignore : option (list string)) :
    list DirEntry :=
  omap (fun name =>
    if negb (wanted pattern name) then None
    else if is_dir d (resolved ++ [name]) then
      if ignored gitignore (name +:+ "/") then None else Some (dir_entry name)
    else if ignored gitignore name then None else Some (file_entry d (resolved ++ [name]) name))
  (child_names d resolved).

Definition entry_le (a b : DirEntry) : Prop := String.le (de_path a) (de_path b).
#[local] Instance entry_le_dec : RelDecision entry_le.
Proof. intros a b. unfold entry_le. apply _. Defined.

Definition truncation (max_results : Z) : string := ("(truncated at " +:+ (pretty max_results +:+ " results)"))%string.

(** The listing, whether it is truncated, and the text *)
Definition _list_dir_impl (d : file_tree) (path : string) (recursive : option bool) (pattern : option string)
    (max_results : option Z) : result (list DirEntry * bool * string) :=
  resolved ← resolve_path path;
  _require_dir d resolved ≫= fun _ =>
  let max_results := default 500%Z max_results in
  gitignore ← _load_gitignore d;
  let raw_entries := (if default false recursive then _list_recursive else _list_immediate) d resolved pattern gitignore in
  let sorted := merge_sort entry_le raw_entries in
  let truncated := (max_results <? Z.of_nat (length sorted))%Z in
  let entries := py_take max_results sorted in
  let line e := (de_type e +:+ (tab +:+
    (match de_size e with
     | Some n => pretty n
     | None => if decide (de_type e = "dir"%string) then "-" else "?"
     end +:+ (tab +:+ de_path e))))%string in
  Ok (entries, truncated, join newline ((line <$> entries) ++ if truncated then [truncation max_results] else [])).

(** ** glob *)

Definition base_of (path : option string) : result fpath :=
  match path with Some path => resolve_path path | None => Ok read_root end.

Definition _glob_impl (d : file_tree) (pattern : string) (path : option string) (max_results : option Z) :
    result (list string * bool * string) :=
  base ← base_of path;
  _require_dir d base ≫= fun _ =>
  let max_results := default 200%Z max_results in
  let all := omap (relative_to read_root) (_glob_within_root d base pattern) in
  let truncated := (max_results <? Z.of_nat (length all))%Z in
  let results := py_take max_results all in
  let lines := results ++ if truncated then [truncation max_results] else [] in
  Ok (match lines with
      | [] => ([], false, "No matches found."%string)
      | _ => (results, truncated, join newline lines)
      end).

(** ** grep *)

Inductive grep_mode := ModeContent | ModeFilesOnly | ModeCount.
#[export] Instance grep_mode_eq_dec : EqDecision grep_mode.
Proof. solve_decision. Defined.

Record GrepMatch := { gm_file : string; gm_line_number : Z; gm_line : string }.

Definition _grep_compile (pattern : string) (case_sensitive : bool) : result (string -> bool) :=
  or_raise (re_search case_sensitive pattern) (ToolError "Invalid regex pattern").

(** [lines_to_show]: [i] is shown if a line that matches is at most [ctx] lines away. *)
Definition near_match (search : string -> bool) (file_lines : list string) (ctx : Z) (i : nat) : bool :=
  existsb (fun jl : nat * string => search jl.2 &&
    bool_decide (Z.max 0 (Z.of_nat jl.1 - ctx) <= Z.of_nat i < Z.min (Z.of_nat (length file_lines)) (Z.of_nat jl.1 + ctx + 1))%Z)
    (imap pair file_lines).

Definition shown_line (rel_path : string) (i : nat) (line : string) : string :=
  (rel_path +:+ (":" +:+ (pretty (Z.of_nat i + 1)%Z +:+ (":" +:+ line))))%string.

(** The lines to show, the number of matches *)
Definition _grep_search_file (file_lines : list string) (rel_path : string) (search : string -> bool)
    (context_lines_count : Z) (mode : grep_mode) : list string * nat :=
  let match_count := length (filter (fun line => search line) file_lines) in
  (if decide (mode = ModeContent) then
     omap (fun il : nat * string => if near_match search file_lines context_lines_count il.1
                                    then Some (shown_line rel_path il.1 il.2) else None) (imap pair file_lines)
   else [],
   match_count).

Definition hidden (name : string) : bool := str_prefix "." name.

(** [_grep_iter_files] in the directory [dirpath]; a link to a file is opened, one to a directory is not entered. *)
Fixpoint grep_walk (fuel : nat) (d : file_tree) (include : option string) (dirpath : fpath) : list (fpath * string) :=
  match fuel with
  | O => []
  | S fuel' =>
      let names := child_names d dirpath in
      let dirnames := filter (fun name => is_dir d (dirpath ++ [name]) /\ hidden name = false) names in
      let filenames := filter (fun name => is_dir d (dirpath ++ [name]) = false /\ hidden name = false /\
                                 wanted include name /\ _is_binary d (dirpath ++ [name]) = false) names in
      omap (fun name => (fun rel_path => (dirpath ++ [name], rel_path)) <$> relative_to read_root (dirpath ++ [name]))
        filenames ++
      concat ((fun name => grep_walk fuel' d include (dirpath ++ [name])) <$>
        filter (fun name => is_link d (dirpath ++ [name]) = false) dirnames)
  end.

Definition _grep_iter_files (d : file_tree) (search_path : fpath) (include : option string) : list (fpath * string) :=
  grep_walk (S (depth d search_path)) d include search_path.

(** One line shown, read again: [parts = line_str.split(":", 2)] *)
Definition parse_shown (line : string) : result (option GrepMatch) :=
  match split_colon_2 line with
  | Some (file, number, line) =>
      n ← or_raise (py_int number) (ValueError "invalid literal for int()");
      Ok (Some {| gm_file := file; gm_line_number := n; gm_line := line |})
  | None => Ok None
  end.

(** What the loop over the files has gathered *)
Record grep_state := {
  gs_output : list string;
  gs_count : nat;
  gs_files : list string;
  gs_matches : list GrepMatch;
  gs_hit_limit : bool
}.

Fixpoint grep_loop (d : file_tree) (search : string -> bool) (ctx max_results : Z) (mode : grep_mode)
    (files : list (fpath * string)) (g : grep_state) : result grep_state :=
  match files with
  | [] => Ok g
  | (filepath, rel_path) :: files' =>
      match read_text d filepath with
      | Raise _ => grep_loop d search ctx max_results mode files' g
      | Ok file_text =>
          let '(file_out, file_count) := _grep_search_file (splitlines false file_text) rel_path search ctx mode in
          let count := gs_count g + file_count in
          let g' output files matches limit := {| gs_output := output; gs_count := count; gs_files := files;
            gs_matches := matches; gs_hit_limit := limit |} in
          if decide (file_count = 0) then
            grep_loop d search ctx max_results mode files' (g' (gs_output g) (gs_files g) (gs_matches g) false)
          else
            match mode with
            | ModeFilesOnly =>
                let matched := gs_files g ++ [rel_path] in
                if (max_results <=? Z.of_nat (length matched))%Z then
                  Ok (g' (gs_output g) matched (gs_matches g) true)
                else grep_loop d search ctx max_results mode files' (g' (gs_output g) matched (gs_matches g) false)
            | ModeContent =>
                matches ← rmap parse_shown file_out;
                let all_matches := gs_matches g ++ omap id matches in
                let output := gs_output g ++ file_out in
                if (max_results <=? Z.of_nat (length output))%Z then
                  Ok (g' (py_take max_results output) (gs_files g) all_matches true)
                else grep_loop d search ctx max_results mode files' (g' output (gs_files g) all_matches false)
            | ModeCount =>
                grep_loop d search ctx max_results mode files' (g' (gs_output g) (gs_files g) (gs_matches g) false)
            end
      end
  end.

Definition _grep_format_results (mode : grep_mode) (g : grep_state) (max_results preview_threshold preview_lines : Z) :
    string :=
  match mode with
  | ModeCount => pretty (Z.of_nat (gs_count g))
  | ModeFilesOnly =>
      match gs_files g with
      | [] => "No matches found."%string
      | files => join newline (files ++ if gs_hit_limit g then [truncation max_results] else [])
      end
  | ModeContent =>
      match gs_output g with
      | [] => "No matches found."%string
      | output =>
          let content := (join newline output +:+
            if gs_hit_limit g then (newline +:+ truncation max_results)%string else EmptyString)%string in
          pv_content (check_and_preview content preview_threshold preview_lines)
      end
  end.

(** The matches, the count, and the text *)
Definition _grep_impl (preview_threshold preview_lines : Z) (d : file_tree) (pattern : string) (path : option string)
    (case_sensitive : option bool) (context_lines max_results : option Z) (include : option string)
    (mode : option grep_mode) : result (list GrepMatch * option Z * string) :=
  search ← _grep_compile pattern (default true case_sensitive);
  search_path ← base_of path;
  _require_dir d search_path ≫= fun _ =>
  let max_results := default 100%Z max_results in
  let mode := default ModeContent mode in
  g ← grep_loop d search (default 0%Z context_lines) max_results mode (_grep_iter_files d search_path include)
        {| gs_output := []; gs_count := 0; gs_files := []; gs_matches := []; gs_hit_limit := false |};
  Ok (gs_matches g, if decide (mode = ModeCount) then Some (Z.of_nat (gs_count g)) else None,
      _grep_format_results mode g max_results preview_threshold preview_lines).

(** ** stat *)

Record FileStat := {
  fs_path : string;
  fs_exists : bool;
  fs_byte_size : option Z;
  fs_line_count : option Z;
  fs_language : option string;
  fs_mtime : option string;
  fs_binary : option bool
}.

(** The size the operating system reports of a directory *)
Context (dir_size : fpath -> Z).

Definition _stat_single (d : file_tree) (path : fpath) : FileStat :=
  let rel := default (fpath_str path) (relative_to read_root path) in
  match node_at d path with
  | None => {| fs_path := rel; fs_exists := false; fs_byte_size := None; fs_line_count := None; fs_language := None;
               fs_mtime := None; fs_binary := None |}
  | Some n =>
      let binary := _is_binary d path in
      {| fs_path := rel; fs_exists := true;
         fs_byte_size := Some match n with File content => Z.of_nat (String.length content) | Dir => dir_size path end;
         fs_line_count := if negb binary && is_regular d path then
                            match read_text d path with
                            | Ok text => Some (Z.of_nat (length (splitlines false text)))
                            | Raise _ => None
                            end
                          else None;
         fs_language := _extension_to_language (str_lower (suffix path));
         fs_mtime := Some (mtime path);
         fs_binary := Some binary |}
  end.

Definition has_glob (raw_path : string) : bool := str_in "*" raw_path || str_in "?" raw_path || str_in "[" raw_path.

(** The data; the text is their JSON. *)
Definition _stat_impl (d : file_tree) (raw_path : string) : result (list FileStat) :=
  if has_glob raw_path then
    base ← resolve_path ".";
    Ok (_stat_single d <$> _glob_within_root d base raw_path)
  else
    resolved ← resolve_path raw_path;
    Ok [_stat_single d resolved].

(** ** diff *)

Definition diff_label (p : fpath) : string := default (fpath_str p) (relative_to read_root p).

(** The diff, whether the files are identical, and the text *)
Definition _diff_impl (d : file_tree) (path_a path_b : string) : result (string * bool * string) :=
  resolved_a ← resolve_path path_a;
  resolved_b ← resolve_path path_b;
  _require_file d resolved_a ≫= fun _ => _require_file d resolved_b ≫= fun _ =>
  _require_text_file d resolved_a ≫= fun _ => _require_text_file d resolved_b ≫= fun _ =>
  text_a ← _read_text_file d resolved_a;
  text_b ← _read_text_file d resolved_b;
  let diff_text := unified_diff (splitlines true text_a) (splitlines true text_b)
                     (diff_label resolved_a) (diff_label resolved_b) in
  let identical := bool_decide (diff_text = EmptyString) in
  Ok (diff_text, identical, if identical then "Files are identical."%string else diff_text).

(** ** The tools *)

Inductive read_call :=
| CallRead (path : string) (offset limit : option Z) (full : option bool)
| CallListDir (path : string) (recursive : option bool) (pattern : option string) (max_results : option Z)
| CallGlob (pattern : string) (path : option string) (max_results : option Z)
| CallGrep (pattern : string) (path : option string) (case_sensitive : option bool)
    (context_lines max_results : option Z) (include : option string) (mode : option grep_mode)
| CallStat (path : string)
| CallDiff (path_a path_b : string).

Inductive read_output :=
| OutRead (out : FileContent)
| OutListDir (entries : list DirEntry) (truncated : bool) (text : string)
| OutGlob (paths : list string) (truncated : bool) (text : string)
| OutGrep (matches : list GrepMatch) (count : option Z) (text : string)
| OutStat (files : list FileStat)
| OutDiff (diff : string) (identical : bool) (text : string).

(** A call of the tools of one session *)
Definition run_read (preview_threshold preview_lines : Z) (session_id : string) (d : file_tree) (call : read_call) :
    M guard read_output :=
  match call with
  | CallRead path offset limit full =>
      out ← _read_impl preview_threshold preview_lines session_id d path offset limit full; mret (OutRead out)
  | CallListDir path recursive pattern max_results =>
      '(entries, truncated, text) ← liftr (_list_dir_impl d path recursive pattern max_results);
      mret (OutListDir entries truncated text)
  | CallGlob pattern path max_results =>
      '(paths, truncated, text) ← liftr (_glob_impl d pattern path max_results); mret (OutGlob paths truncated text)
  | CallGrep pattern path case_sensitive context_lines max_results include mode =>
      '(matches, count, text) ← liftr (_grep_impl preview_threshold preview_lines d pattern path case_sensitive
                                          context_lines max_results include mode);
      mret (OutGrep matches count text)
  | CallStat path => files ← liftr (_stat_impl d path); mret (OutStat files)
  | CallDiff path_a path_b =>
      '(diff, identical, text) ← liftr (_diff_impl d path_a path_b); mret (OutDiff diff identical text)
  end.
End tools.
