(* ===== verification/ReadToolsSpec.v ===== *)
(** Theorems about [ReadTools]: what the reading tools can see, what a search finds, and what a preview shows. *)
From stdpp Require Import pretty.
From S2P Require Import Prelude PyDict Text WriteSafety WriteSafetySpec WriteScope Secrets Auth ReadTools.

(** ** Directories *)

Lemma name_in_spec dir p name : name_in dir p = Some name <-> p = dir ++ [name].
Proof.
  unfold name_in. split.
  - destruct (drop (length dir) p) as [|n [|]] eqn:E; [done| |done]. case_decide as Ht; [|done].
    intros [= <-]. rewrite <- (take_drop (length dir) p), Ht. by rewrite E.
  - intros ->. rewrite drop_app_length, decide_True; [done|]. apply take_app_length.
Qed.

(** There is an entry at [p]. *)
Definition entry (d : file_tree) (p : fpath) : Prop := is_Some (nodes d !! p) \/ is_Some (links d !! p).

Lemma elem_of_entries d p : p ∈ entries d <-> entry d p.
Proof. unfold entries, entry. by rewrite elem_of_elements, elem_of_union, !elem_of_dom. Qed.

Lemma NoDup_entries d : NoDup (entries d).
Proof. unfold entries. apply NoDup_elements. Qed.

Lemma elem_of_child_names d dir name : name ∈ child_names d dir <-> entry d (dir ++ [name]).
Proof.
  unfold child_names. rewrite merge_sort_Permutation, list_elem_of_omap. split.
  - intros (p & Hp & ->%name_in_spec). by apply elem_of_entries.
  - intros Hn%elem_of_entries. exists (dir ++ [name]). split; [done|]. by apply name_in_spec.
Qed.

Lemma NoDup_omap_inj {A B} (f : A -> option B) (l : list A) :
  (forall x y z, f x = Some z -> f y = Some z -> x = y) -> NoDup l -> NoDup (omap f l).
Proof.
  intros Hf. induction 1 as [|x l Hx _ IH]; [constructor|]. cbn. destruct (f x) as [z|] eqn:E; [|done].
  constructor; [|done]. intros (y & Hy & E2)%list_elem_of_omap. by rewrite <- (Hf _ _ _ E E2) in Hy.
Qed.

Lemma NoDup_child_names d dir : NoDup (child_names d dir).
Proof.
  unfold child_names. rewrite merge_sort_Permutation. apply NoDup_omap_inj; [|apply NoDup_entries].
  intros x y z Hx Hy. apply name_in_spec in Hx, Hy. congruence.
Qed.

(** ** What the tools can see *)

(** Two disks are the same below [root]. *)
Definition agree (root : fpath) (d d' : file_tree) : Prop := forall p, root `prefix_of` p ->
  nodes d !! p = nodes d' !! p /\ links d !! p = links d' !! p.

Lemma entry_agree root d d' p : agree root d d' -> root `prefix_of` p -> entry d p <-> entry d' p.
Proof. intros Ha Hr. unfold entry. by destruct (Ha p Hr) as [-> ->]. Qed.

Lemma child_names_agree root d d' dir :
  agree root d d' -> root `prefix_of` dir -> child_names d dir = child_names d' dir.
Proof.
  intros Ha Hr. apply (StronglySorted_unique String.le); [apply StronglySorted_merge_sort; apply _..|].
  apply NoDup_Permutation; [apply NoDup_child_names..|]. intros name. rewrite !elem_of_child_names.
  apply (entry_agree root); [done|by apply prefix_app_r].
Qed.

Lemma is_link_agree root d d' p : agree root d d' -> root `prefix_of` p -> is_link d p = is_link d' p.
Proof. intros Ha Hr. unfold is_link. by destruct (Ha p Hr) as [_ ->]. Qed.

Lemma prefix_take (dir p : fpath) : take (length dir) p = dir <-> dir `prefix_of` p.
Proof.
  split.
  - intros E. exists (drop (length dir) p). rewrite <- E at 1. symmetry. apply take_drop.
  - intros [r ->]. apply take_app_length.
Qed.

Lemma max_permutation l l' : l ≡ₚ l' -> foldr Nat.max 0 l = foldr Nat.max 0 l'.
Proof. induction 1; simpl; lia. Qed.

Lemma depth_agree root d d' dir : agree root d d' -> root `prefix_of` dir -> depth d dir = depth d' dir.
Proof.
  intros Ha Hr. unfold depth. apply max_permutation. f_equiv.
  apply NoDup_Permutation; [apply NoDup_filter, NoDup_entries..|]. intros p.
  rewrite !list_elem_of_filter, prefix_take, !elem_of_entries.
  split; intros [Hp He]; (split; [done|]); eapply (entry_agree root d d'); try done; by transitivity dir.
Qed.

(** Where an entry leads on the disk, if it leads below [root] *)
Lemma node_at_agree root d d' p :
  agree root d d' -> root `prefix_of` p -> root `prefix_of` real d p -> node_at d p = node_at d' p.
Proof.
  intros Ha Hr Hq. unfold node_at. assert (E : real d' p = real d p) by (unfold real; by destruct (Ha p Hr) as [_ ->]).
  rewrite E. by apply Ha.
Qed.

Section reach.
Context (resolve : fpath -> string -> fpath) (canonical : fpath -> fpath).
Context (re_search : bool -> string -> option (string -> bool)).
Context (glob : file_tree -> fpath -> string -> list fpath).
Context (fnmatch : string -> string -> bool) (match_file : list string -> string -> bool).
Context (unified_diff : list string -> list string -> string -> string -> string).
Context (mtime : fpath -> string) (py_int : string -> option Z) (read_root : fpath) (dir_size : fpath -> Z).

Context (d d' : file_tree) (Ha : agree read_root d d').

(** Resolved paths are canonical and no links, and a pattern finds the same matches within the root on disks that
    agree there. *)
Record reading : Prop := {
  rd_root : Forall seg_ok read_root;
  rd_resolve : forall raw, Forall seg_ok (resolve read_root raw);
  rd_canonical : forall p, Forall seg_ok (canonical p);
  rd_root_real : links d !! read_root = None;
  rd_resolve_real : forall raw, links d !! resolve read_root raw = None;
  rd_canonical_real : forall p, links d !! canonical p = None;
  rd_glob : forall base pattern, read_root `prefix_of` base ->
    filter (fun p => within_root read_root p) (canonical <$> glob d base pattern) =
    filter (fun p => within_root read_root p) (canonical <$> glob d' base pattern)
}.
Hypothesis Hr : reading.

(** A path that is resolved: below the root and no link *)
Definition resolved (p : fpath) : Prop := read_root `prefix_of` p /\ links d !! p = None.

Lemma node_at_resolved p : resolved p -> node_at d p = node_at d' p.
Proof. intros [Hp Hl]. apply (node_at_agree read_root); [done..|]. unfold real. by rewrite Hl. Qed.

Lemma resolve_path_below raw p : resolve_path resolve read_root raw = Ok p -> resolved p.
Proof.
  unfold resolve_path, resolve_and_check. case_decide; [done|].
  case_decide as E; [intros [= <-]; split; [by rewrite E|apply Hr]|].
  destruct (str_prefix _ _) eqn:Ep; [|done]. intros [= <-]. split; [|apply Hr].
  apply prefix_below; [apply Hr|apply Hr|by right].
Qed.

Lemma base_of_below path p : base_of resolve read_root path = Ok p -> resolved p.
Proof. destruct path as [path|]; [apply resolve_path_below|]. intros [= <-]. split; [done|apply Hr]. Qed.

Lemma glob_below base pattern p : p ∈ _glob_within_root canonical glob read_root d base pattern -> resolved p.
Proof.
  intros [Hw (q & -> & _)%list_elem_of_fmap]%list_elem_of_filter. split; [|apply Hr].
  apply prefix_below; [apply Hr|apply Hr|]. apply orb_True in Hw as [Hw|Hw]; [left|right].
  - by apply bool_decide_spec in Hw.
  - by apply Is_true_true.
Qed.

(** *** The tools that look at what they resolve *)

Lemma require_agree p : resolved p ->
  _require_file d p = _require_file d' p /\ _require_dir d p = _require_dir d' p /\
  _require_text_file d p = _require_text_file d' p /\ _read_text_file d p = _read_text_file d' p /\
  _is_binary d p = _is_binary d' p.
Proof.
  intros Hp%node_at_resolved.
  unfold _require_file, _require_dir, _require_text_file, _read_text_file, is_regular, is_dir, _is_binary, read_text.
  by rewrite Hp.
Qed.

Lemma read_agree threshold lines session path offset limit full :
  _read_impl resolve read_root threshold lines session d path offset limit full =
  _read_impl resolve read_root threshold lines session d' path offset limit full.
Proof.
  unfold _read_impl. destruct (resolve_path resolve read_root path) as [p|] eqn:Ep; [|done].
  apply resolve_path_below in Ep. destruct (require_agree p Ep) as (Ef & _ & _ & Et & Eb).
  unfold mbind, M_bind. cbn. by rewrite Ef, Et, Eb.
Qed.

Lemma glob_agree pattern path max_results :
  _glob_impl resolve canonical glob read_root d pattern path max_results =
  _glob_impl resolve canonical glob read_root d' pattern path max_results.
Proof.
  unfold _glob_impl. destruct (base_of resolve read_root path) as [p|] eqn:Ep; [|done].
  apply base_of_below in Ep. destruct (require_agree p Ep) as (_ & Ed & _). cbn. rewrite Ed.
  unfold _glob_within_root. by rewrite (rd_glob Hr) by apply Ep.
Qed.

Lemma stat_agree path :
  _stat_impl resolve canonical glob mtime read_root dir_size d path =
  _stat_impl resolve canonical glob mtime read_root dir_size d' path.
Proof.
  assert (Hs : forall p, resolved p ->
    _stat_single mtime read_root dir_size d p = _stat_single mtime read_root dir_size d' p).
  { intros p Hp%node_at_resolved. unfold _stat_single, is_regular, _is_binary, read_text. by rewrite Hp. }
  unfold _stat_impl. destruct (has_glob path).
  - destruct (resolve_path resolve read_root ".") as [p|] eqn:Ep; [|done]. apply resolve_path_below in Ep. cbn. f_equal.
    assert (Hg : _glob_within_root canonical glob read_root d p path = _glob_within_root canonical glob read_root d' p path)
      by (apply Hr, Ep).
    rewrite <- Hg. apply list_fmap_ext. intros i q Hq%list_elem_of_lookup_2. apply Hs. by apply glob_below in Hq.
  - destruct (resolve_path resolve read_root path) as [p|] eqn:Ep; [|done]. apply resolve_path_below in Ep. cbn.
    by rewrite Hs.
Qed.

Lemma diff_agree a b :
  _diff_impl resolve unified_diff read_root d a b = _diff_impl resolve unified_diff read_root d' a b.
Proof.
  unfold _diff_impl. destruct (resolve_path resolve read_root a) as [p|] eqn:Ep; [|done]. apply resolve_path_below in Ep.
  destruct (resolve_path resolve read_root b) as [q|] eqn:Eq; [|done]. apply resolve_path_below in Eq.
  destruct (require_agree p Ep) as (Ef & _ & Eb & Et & _). destruct (require_agree q Eq) as (Ef2 & _ & Eb2 & Et2 & _). cbn.
  by rewrite Ef, Eb, Et, Ef2, Eb2, Et2.
Qed.

(** *** The tools that look at what they come across, links included *)

(** Every link below the root leads below the root. *)
Definition enclosed : Prop := forall p q, read_root `prefix_of` p -> links d !! p = Some q -> read_root `prefix_of` q.

Section enclosed.
Hypothesis Hen : enclosed.

Lemma node_at_enclosed p : read_root `prefix_of` p -> node_at d p = node_at d' p.
Proof.
  intros Hp. apply (node_at_agree read_root); [done..|]. unfold real. destruct (links d !! p) as [q|] eqn:E; [|done].
  by apply (Hen p).
Qed.

Lemma entry_enclosed p : read_root `prefix_of` p ->
  is_regular d p = is_regular d' p /\ is_dir d p = is_dir d' p /\ _is_binary d p = _is_binary d' p /\
  read_text d p = read_text d' p /\ size_of d p = size_of d' p.
Proof.
  intros Hp%node_at_enclosed. unfold is_regular, is_dir, _is_binary, read_text, size_of. by rewrite Hp.
Qed.

Lemma same_dirs dirpath (P : string -> Prop) `{!forall x, Decision (P x)} (names : list string) :
  read_root `prefix_of` dirpath ->
  filter (fun name => is_dir d (dirpath ++ [name]) /\ P name) names =
  filter (fun name => is_dir d' (dirpath ++ [name]) /\ P name) names.
Proof.
  intros Hp. apply list_filter_iff. intros name.
  destruct (entry_enclosed (dirpath ++ [name])) as (_ & -> & _); [by apply prefix_app_r|done].
Qed.

Lemma same_links dirpath (names : list string) : read_root `prefix_of` dirpath ->
  filter (fun name => is_link d (dirpath ++ [name]) = false) names =
  filter (fun name => is_link d' (dirpath ++ [name]) = false) names.
Proof.
  intros Hp. apply list_filter_iff. intros name. by rewrite (is_link_agree read_root d d') by (done || by apply prefix_app_r).
Qed.

Abbreviation list_of := (list_walk fnmatch match_file).
Lemma list_walk_agree fuel pattern gitignore dirpath rel :
  read_root `prefix_of` dirpath ->
  list_of fuel d pattern gitignore dirpath rel = list_of fuel d' pattern gitignore dirpath rel.
Proof.
  revert dirpath rel. induction fuel as [|fuel IH]; intros dirpath rel Hp; [done|]. cbn [list_walk].
  rewrite (child_names_agree read_root d d') by done.
  assert (Hq : forall name, read_root `prefix_of` dirpath ++ [name]) by (intros; by apply prefix_app_r).
  rewrite same_dirs, same_links by done. f_equal. f_equal.
  - assert (Hfiles : forall names : list string, filter (fun name => is_dir d (dirpath ++ [name]) = false) names =
      filter (fun name => is_dir d' (dirpath ++ [name]) = false) names).
    { intros names. apply list_filter_iff. intros name. by destruct (entry_enclosed _ (Hq name)) as (_ & -> & _). }
    rewrite Hfiles. apply list_fmap_ext. intros i name _. unfold file_entry.
    by destruct (entry_enclosed _ (Hq name)) as (_ & _ & _ & _ & ->).
  - f_equal. apply list_fmap_ext. intros i name _. by apply IH.
Qed.

Abbreviation grep_files := (grep_walk fnmatch read_root).
Lemma grep_walk_agree fuel include dirpath :
  read_root `prefix_of` dirpath -> grep_files fuel d include dirpath = grep_files fuel d' include dirpath.
Proof.
  revert dirpath. induction fuel as [|fuel IH]; intros dirpath Hp; [done|]. cbn [grep_walk].
  rewrite (child_names_agree read_root d d') by done.
  assert (Hq : forall name, read_root `prefix_of` dirpath ++ [name]) by (intros; by apply prefix_app_r).
  rewrite same_dirs, same_links by done. f_equal.
  - f_equal. apply list_filter_iff. intros name. by destruct (entry_enclosed _ (Hq name)) as (_ & -> & -> & _).
  - f_equal. apply list_fmap_ext. intros i name _. by apply IH.
Qed.

Lemma grep_walk_below fuel include dirpath p rel :
  (p, rel) ∈ grep_files fuel d include dirpath -> dirpath `prefix_of` p.
Proof.
  revert dirpath. induction fuel as [|fuel IH]; intros dirpath; cbn [grep_walk]; [by intros ?%not_elem_of_nil|].
  intros [(name & _ & Hn)%list_elem_of_omap|Hin]%elem_of_app.
  - destruct (relative_to read_root (dirpath ++ [name])); [|done]. injection Hn as <- _. by eexists.
  - apply list_elem_of_In, in_concat in Hin as (l & Hl & Hin). apply list_elem_of_In, list_elem_of_fmap in Hl as (name & -> & _).
    apply list_elem_of_In, IH in Hin. transitivity (dirpath ++ [name]); [by eexists|done].
Qed.

Lemma list_dir_agree path recursive pattern max_results :
  _list_dir_impl resolve fnmatch match_file read_root d path recursive pattern max_results =
  _list_dir_impl resolve fnmatch match_file read_root d' path recursive pattern max_results.
Proof.
  unfold _list_dir_impl. destruct (resolve_path resolve read_root path) as [p|] eqn:Ep; [|done].
  apply resolve_path_below in Ep. destruct (require_agree p Ep) as (_ & Ed & _). destruct Ep as [Ep _]. cbn. rewrite Ed.
  assert (Hg : _load_gitignore read_root d = _load_gitignore read_root d').
  { unfold _load_gitignore. destruct (entry_enclosed (read_root ++ [".gitignore"%string])) as (-> & _ & _ & -> & _);
      [by eexists|done]. }
  rewrite Hg. destruct (_require_dir d' p) as [[]|]; [|done]. cbn.
  destruct (_load_gitignore read_root d') as [gitignore|]; [|done]. cbn.
  assert (Hl : (if default false recursive then _list_recursive fnmatch match_file else _list_immediate fnmatch match_file) d p pattern gitignore =
    (if default false recursive then _list_recursive fnmatch match_file else _list_immediate fnmatch match_file) d' p pattern gitignore).
  { destruct (default false recursive).
    - unfold _list_recursive. rewrite (depth_agree read_root d d') by done. by apply list_walk_agree.
    - unfold _list_immediate. rewrite (child_names_agree read_root d d') by done.
      apply list_omap_ext, Forall_Forall2_diag, Forall_forall. intros name _. unfold file_entry.
      by destruct (entry_enclosed (p ++ [name])) as (_ & -> & _ & _ & ->); [by apply prefix_app_r|]. }
  by rewrite Hl.
Qed.

Lemma grep_loop_agree search ctx limit mode files g :
  (forall p rel, (p, rel) ∈ files -> read_root `prefix_of` p) ->
  grep_loop py_int d search ctx limit mode files g = grep_loop py_int d' search ctx limit mode files g.
Proof.
  revert g. induction files as [|[p rel] files IH]; intros g Hf; [done|]. cbn [grep_loop].
  destruct (entry_enclosed p) as (_ & _ & _ & -> & _); [eapply Hf; left|].
  assert (Hrec : forall g, grep_loop py_int d search ctx limit mode files g = grep_loop py_int d' search ctx limit mode files g)
    by (intros g'; apply IH; intros q rel' Hq; eapply Hf; by right).
  destruct (read_text d' p) as [text|]; [|done]. destruct (_grep_search_file _ _ _ _ _) as [out count].
  case_decide; [done|]. destruct mode; [|by case_match|done].
  destruct (rmap _ out) as [matches|]; [|done]. cbn. by case_match.
Qed.

Lemma grep_agree threshold lines pattern path case ctx limit include mode :
  _grep_impl resolve re_search fnmatch py_int read_root threshold lines d pattern path case ctx limit include mode =
  _grep_impl resolve re_search fnmatch py_int read_root threshold lines d' pattern path case ctx limit include mode.
Proof.
  unfold _grep_impl. destruct (_grep_compile _ _ _) as [search|]; [|done]. cbn -[grep_walk].
  destruct (base_of resolve read_root path) as [p|] eqn:Ep; [|done].
  apply base_of_below in Ep. destruct (require_agree p Ep) as (_ & Ed & _). destruct Ep as [Ep _].
  cbn -[grep_walk]. rewrite Ed.
  unfold _grep_iter_files. rewrite (depth_agree read_root d d') by done.
  rewrite <- (grep_walk_agree (S (depth d' p)) include p) by done.
  rewrite grep_loop_agree; [done|]. intros q rel Hq%grep_walk_below. by transitivity p.
Qed.
End enclosed.

(** The calls that follow the links they come across *)
Definition follows_links (call : read_call) : bool :=
  match call with CallListDir _ _ _ _ | CallGrep _ _ _ _ _ _ _ => true | _ => false end.

End reach.

(** ** Small disks *)

Module Root.
Definition root : fpath := ["r"%string].
(** A pattern here matches the name of an entry. *)
Definition glob (d : file_tree) (base : fpath) (pattern : string) : list fpath :=
  (fun name => base ++ [name]) <$> filter (fun name => str_in pattern name) (child_names d base).

(** Without links *)
Definition plain (d : disk) : file_tree := {| nodes := d; links := ∅ |}.

Lemma reading_ok d d' :
  agree root (plain d) (plain d') -> reading plain_resolve plain_canonical glob root (plain d) (plain d').
Proof.
  intros Ha. constructor; try done.
  - constructor; [by apply segb_ok|constructor].
  - intros raw. unfold plain_resolve. destruct (segb raw) eqn:E; repeat (constructor; [by apply segb_ok|]); constructor.
  - intros p. unfold plain_canonical. destruct (forallb segb p) eqn:E; [|constructor].
    apply Forall_forall. intros x Hx. apply segb_ok. rewrite forallb_forall in E. apply E. by apply list_elem_of_In.
  - intros base pattern Hb. unfold glob. by rewrite (child_names_agree root (plain d) (plain d')).
Qed.

Lemma plain_enclosed d : enclosed root (plain d).
Proof. intros p q _. cbn. by rewrite lookup_empty. Qed.

Definition inside : disk := list_to_map [(root, Dir); (["r"; "a"]%string, File "yes")].
Definition outside (secret : string) : disk := <[["s"%string] := File secret]> inside.

Lemma outside_agrees s1 s2 : agree root (plain (outside s1)) (plain (outside s2)).
Proof. intros p [q ->]. split; [|done]. unfold plain, nodes, outside. by rewrite !lookup_insert_ne. Qed.

(** A link below the root to the file outside *)
Definition linked (secret : string) : file_tree :=
  {| nodes := outside secret; links := {[ ["r"; "link"]%string := ["s"%string] ]} |}.

Abbreviation called d call := (fst (run_read plain_resolve plain_canonical (fun _ pattern => Some (str_in pattern)) glob
  (fun _ _ => true) (fun _ _ => false) (fun _ _ _ _ => ""%string) (fun _ => ""%string) (fun _ => Some 1%Z) root
  (fun _ => 0%Z) 1000 10 "s" d call ∅)).

(** A text whose 8192nd byte is the first of a character of two bytes *)
Fixpoint letters (n : nat) (s : string) : string := match n with O => s | S n' => String (Ascii.ascii_of_nat 97) (letters n' s) end.
Definition cut_text : string :=
  letters (Z.to_nat 8191) (String (Ascii.ascii_of_nat 195) (String (Ascii.ascii_of_nat 169) EmptyString)).

Example cut_text_is_binary : is_utf8 cut_text = true /\ is_binary_text cut_text = true.
Proof. by vm_compute. Qed.

(** A preview of one long line is the line. *)
Example preview_of_a_line : pv_content (check_and_preview "abcdefgh" 4 1) =
  ("abcdefgh" +:+ separator 0 1 8)%string.
Proof. by vm_compute. Qed.
End Root.

(** The two disks are the same below the root, and a search shows what is outside: a link to it is opened. *)
Lemma grep_follows_links :
  agree Root.root (Root.linked "yes, secret") (Root.linked "no") /\
  Root.called (Root.linked "yes, secret") (CallGrep "yes" None None None None None (Some ModeContent)) =
    Ok (OutGrep [{| gm_file := "a"; gm_line_number := 1; gm_line := "yes" |};
                 {| gm_file := "link"; gm_line_number := 1; gm_line := "yes, secret" |}] None
         ("a:1:yes" +:+ (newline +:+ "link:1:yes, secret"))%string) /\
  Root.called (Root.linked "no") (CallGrep "yes" None None None None None (Some ModeContent)) =
    Ok (OutGrep [{| gm_file := "a"; gm_line_number := 1; gm_line := "yes" |}] None "a:1:yes"%string).
Proof.
  split_and!; [|vm_compute; reflexivity..].
  intros p [q ->]. split; [|done]. unfold Root.linked, nodes, Root.outside. by rewrite !lookup_insert_ne.
Qed.

