(* ===== verification/SearchSpec.v ===== *)
(** Theorems about the grep tool of [ReadTools]: which files a search looks at, and what it reports of them. *)
From stdpp Require Import pretty.
From S2P Require Import Prelude PyDict Text WriteSafety WriteSafetySpec WriteScope Secrets Auth AuthSpec ReadTools ReadToolsSpec.

(** ** Numbers in decimal *)

Lemma pretty_digits n s : partition_colon s = None -> partition_colon (pretty.pretty_N_go n s) = None.
Proof.
  revert s. induction (N.lt_wf_0 n) as [n _ IH]; intros s Hs.
  destruct (decide (0 < n)%N) as [Hn|Hn]; [|assert (n = 0%N) as -> by lia; by rewrite pretty.pretty_N_go_0].
  rewrite pretty.pretty_N_go_step by done. apply IH; [by apply N.div_lt|]. cbn [partition_colon].
  assert (Hc : pretty.pretty_N_char (n mod 10) <> colon) by (unfold pretty.pretty_N_char; repeat case_match; done).
  rewrite decide_False by done. by rewrite Hs.
Qed.

Lemma pretty_no_colon (z : Z) : (0 <= z)%Z -> partition_colon (pretty z) = None.
Proof.
  destruct z as [|p|p]; [done| |lia]. intros _. change (pretty (Z.pos p)) with (pretty (N.pos p)).
  unfold pretty, pretty.pretty_N. case_decide; [done|]. by apply pretty_digits.
Qed.

Section search.
Context (resolve : fpath -> string -> fpath) (re_search : bool -> string -> option (string -> bool)).
Context (fnmatch : string -> string -> bool) (py_int : string -> option Z) (read_root : fpath).

(** ** The files *)

(** A directory that is no link *)
Definition real_dir (d : file_tree) (p : fpath) : Prop := is_dir d p = true /\ is_link d p = false.

(** A search below [dir] looks at the entry [p]: it is, or leads to, no directory and no binary file, its name is
    wanted, and neither it nor a directory on the way to it is hidden; it is not reached through a link. *)
Definition searchable (d : file_tree) (include : option string) (dir p : fpath) : Prop :=
  exists segs name, p = dir ++ segs ++ [name] /\ Forall (fun seg => hidden seg = false) (segs ++ [name]) /\
    (forall n, 0 < n <= length segs -> real_dir d (dir ++ take n segs)) /\
    entry d p /\ is_dir d p = false /\ wanted fnmatch include name = true /\ _is_binary d p = false.

Lemma searchable_step d include dir p :
  searchable d include dir p <->
  (exists name, p = dir ++ [name] /\ entry d p /\ is_dir d p = false /\ hidden name = false /\
     wanted fnmatch include name = true /\ _is_binary d p = false) \/
  (exists name, real_dir d (dir ++ [name]) /\ hidden name = false /\ searchable d include (dir ++ [name]) p).
Proof.
  split.
  - intros (segs & name & -> & Hh & Hd & He & Hf & Hw & Hb). destruct segs as [|seg segs].
    + left. exists name. apply Forall_inv in Hh. by split_and!.
    + right. exists seg. apply Forall_cons in Hh as [Hh Hhs]. split_and!; [|done|].
      * apply (Hd 1). simpl. lia.
      * exists segs, name. rewrite <- app_assoc. split_and!; [done..| |done|done|done|done].
        intros n Hn. rewrite <- app_assoc. apply (Hd (S n)). simpl. lia.
  - intros [(name & -> & He & Hf & Hh & Hw & Hb)|(seg & Hd & Hh & segs & name & -> & Hhs & Hds & He & Hf & Hw & Hb)].
    + exists [], name. split_and!; [done|by repeat constructor| |done..]. simpl. intros n Hn. lia.
    + exists (seg :: segs), name. rewrite <- app_assoc in He, Hf, Hb. rewrite <- app_assoc.
      split_and!; [done|by constructor| |done..].
      intros [|n] Hn; [lia|]. simpl. destruct n as [|n]; [done|]. specialize (Hds (S n)). rewrite <- app_assoc in Hds.
      apply Hds. simpl in Hn. lia.
Qed.

Lemma searchable_below d include dir p : searchable d include dir p -> dir `prefix_of` p /\ entry d p.
Proof. intros (segs & name & -> & _ & _ & He & _). split; [by eexists|done]. Qed.

(** Whether the walk has fuel for all paths below [dir] *)
Definition shallow (d : file_tree) (dir : fpath) (fuel : nat) : Prop :=
  forall p, dir `prefix_of` p -> entry d p -> length p < length dir + fuel.

Lemma shallow_depth d dir : shallow d dir (S (depth d dir)).
Proof.
  intros p Hp Hn. enough (length p <= depth d dir) by lia. unfold depth.
  assert (Hin : p ∈ filter (fun p => take (length dir) p = dir) (entries d)).
  { apply list_elem_of_filter. rewrite prefix_take. split; [done|]. by apply elem_of_entries. }
  revert Hin. clear Hp Hn. generalize (filter (fun p => take (length dir) p = dir) (entries d)).
  intros l Hin. induction Hin as [q l|q q' l _ IH]; csimpl; lia.
Qed.

Lemma dir_entry_there d p : is_dir d p = true -> is_link d p = false -> entry d p.
Proof.
  unfold is_dir, is_link, node_at, real. intros Hd Hl%bool_decide_eq_false. left.
  destruct (links d !! p) as [q|]; [by destruct Hl|]. cbn in Hd. by destruct (nodes d !! p).
Qed.

Abbreviation walk := (grep_walk fnmatch read_root).

Lemma grep_walk_spec fuel d include dir p rel :
  shallow d dir fuel ->
  (p, rel) ∈ walk fuel d include dir <-> searchable d include dir p /\ relative_to read_root p = Some rel.
Proof.
  revert dir. induction fuel as [|fuel IH]; intros dir Hs.
  { split; [by intros ?%not_elem_of_nil|]. intros [[Hp Hn]%searchable_below _].
    apply Hs in Hn; [|done]. apply prefix_length in Hp. lia. }
  assert (Hs' : forall name, shallow d (dir ++ [name]) fuel).
  { intros name q Hq Hn. apply Hs in Hn; [|etransitivity; [|exact Hq]; by eexists]. rewrite length_app. simpl. lia. }
  rewrite searchable_step. cbn [grep_walk]. rewrite elem_of_app, list_elem_of_omap, list_elem_of_In, in_concat.
  split.
  - intros [(name & Hn & He)|(l & Hl & Hin)].
    + apply list_elem_of_filter in Hn as [(Hf & Hh & Hw & Hb) Hent%elem_of_child_names].
      destruct (relative_to read_root (dir ++ [name])) as [r|] eqn:Er; [|done]. injection He as <- <-.
      split; [|done]. left. exists name. split_and!; try done; by apply Is_true_true.
    + apply list_elem_of_In, list_elem_of_fmap in Hl as (name & -> & [Hlink [[Hd Hh] _]%list_elem_of_filter]%list_elem_of_filter).
      apply list_elem_of_In, IH in Hin as [Hp Hr]; [|done]. split; [|done]. right. exists name.
      split_and!; try done. split; [by apply Is_true_true|done].
  - intros [[(name & -> & He & Hf & Hh & Hw & Hb)|(name & [Hd Hlink] & Hh & Hp)] Hr].
    + left. exists name. rewrite list_elem_of_filter, elem_of_child_names, Hr. split; [|done].
      rewrite Hf, Hw. by split_and!.
    + right. exists (walk fuel d include (dir ++ [name])). split; [|apply list_elem_of_In; by apply IH].
      apply list_elem_of_In, list_elem_of_fmap. exists name. split; [done|].
      rewrite !list_elem_of_filter, elem_of_child_names, Hd. split_and!; try done. by apply dir_entry_there.
Qed.

Lemma grep_walk_extends fuel d include dir p :
  p ∈ (walk fuel d include dir).*1 -> exists name segs, p = dir ++ name :: segs.
Proof.
  revert dir p. induction fuel as [|fuel IH]; intros dir p; [by intros ?%not_elem_of_nil|]. cbn [grep_walk].
  rewrite fmap_app. intros [Hin|Hin]%elem_of_app; apply list_elem_of_fmap in Hin as ([q rel] & -> & Hin); cbn.
  - apply list_elem_of_omap in Hin as (name & _ & Hn). exists name, [].
    destruct (relative_to _ _); [|done]. by injection Hn as <- _.
  - apply list_elem_of_In, in_concat in Hin as (l & Hl & Hin).
    apply list_elem_of_In, list_elem_of_fmap in Hl as (name & -> & _).
    assert (Hq : q ∈ (walk fuel d include (dir ++ [name])).*1)
      by (apply list_elem_of_fmap; exists (q, rel); split; [done|by apply list_elem_of_In]).
    apply IH in Hq as (name' & segs & ->). exists name, (name' :: segs). by rewrite <- app_assoc.
Qed.

Lemma NoDup_concat_fmap {A B C} (f : A -> list B) (g : B -> C) (l : list A) :
  NoDup l -> (forall x, NoDup (g <$> f x)) ->
  (forall x y z, z ∈ g <$> f x -> z ∈ g <$> f y -> x = y) -> NoDup (g <$> concat (f <$> l)).
Proof.
  intros Hl Hf Hd. induction Hl as [|x l Hx _ IH]; [constructor|]. cbn. rewrite fmap_app. apply NoDup_app.
  split_and!; [apply Hf| |done]. intros z Hz Hin. apply list_elem_of_fmap in Hin as (b & -> & Hb).
  apply list_elem_of_In, in_concat in Hb as (l' & Hl' & Hb). apply list_elem_of_In, list_elem_of_fmap in Hl' as (y & -> & Hy).
  apply Hx. rewrite (Hd x y (g b)); [done|done|]. apply list_elem_of_fmap_2. by apply list_elem_of_In.
Qed.

Lemma grep_walk_NoDup fuel d include dir : NoDup (walk fuel d include dir).*1.
Proof.
  revert dir. induction fuel as [|fuel IH]; intros dir; [constructor|]. cbn [grep_walk].
  rewrite fmap_app, NoDup_app. split_and!.
  - rewrite list_fmap_omap. apply NoDup_omap_inj; [|apply NoDup_filter, NoDup_child_names].
    intros x y z Hx Hy. destruct (relative_to _ (dir ++ [x])), (relative_to _ (dir ++ [y])); try done. cbn in *.
    simplify_eq. done.
  - intros p Hp Hin. apply list_elem_of_fmap in Hp as ([q rel] & -> & (name & _ & Hn)%list_elem_of_omap).
    destruct (relative_to _ _); [|done]. injection Hn as <- _. cbn in Hin.
    apply list_elem_of_fmap in Hin as ([q' rel'] & E & Hin). cbn in E. subst q'.
    apply list_elem_of_In, in_concat in Hin as (l & Hl & Hin). apply list_elem_of_In, list_elem_of_fmap in Hl as (y & -> & _).
    assert (Hq : dir ++ [name] ∈ (walk fuel d include (dir ++ [y])).*1)
      by (apply list_elem_of_fmap; exists (dir ++ [name], rel'); split; [done|by apply list_elem_of_In]).
    apply grep_walk_extends in Hq as (n & segs & E). apply (f_equal length) in E. rewrite !length_app in E. simpl in E. lia.
  - apply NoDup_concat_fmap; [apply NoDup_filter, NoDup_filter, NoDup_child_names|intros; apply IH|].
    intros x y p (n & segs & ->)%grep_walk_extends (n' & segs' & E)%grep_walk_extends.
    rewrite <- !app_assoc in E. apply app_inv_head in E. by simplify_eq/=.
Qed.

(** ** What is reported of a file *)

(** A line is shown if one at most [ctx] lines away matches. *)
Definition near (search : string -> bool) (ctx : Z) (lines : list string) (i : nat) : bool :=
  existsb (fun j => match lines !! j with
                    | Some line => search line && bool_decide (Z.abs (Z.of_nat i - Z.of_nat j) <= ctx)%Z
                    | None => false
                    end) (seq 0 (length lines)).

Definition shown (search : string -> bool) (ctx : Z) (file : string * list string) : list GrepMatch :=
  omap (fun il : nat * string =>
    if near search ctx file.2 il.1 then
      Some {| gm_file := file.1; gm_line_number := Z.of_nat il.1 + 1; gm_line := il.2 |}
    else None) (imap pair file.2).

Definition printed (m : GrepMatch) : string :=
  (gm_file m +:+ (":" +:+ (pretty (gm_line_number m) +:+ (":" +:+ gm_line m))))%string.

Definition matches_in (search : string -> bool) (lines : list string) : nat := length (filter (fun l => search l) lines).

(** The files with a match, and their lines *)
Definition file_hit (d : file_tree) (search : string -> bool) (file : fpath * string) : option (string * list string) :=
  match read_text d file.1 with
  | Ok text => let lines := splitlines false text in
               if decide (matches_in search lines = 0) then None else Some (file.2, lines)
  | Raise _ => None
  end.
Definition hits (d : file_tree) (search : string -> bool) (files : list (fpath * string)) : list (string * list string) :=
  omap (file_hit d search) files.

Lemma near_match_near search lines ctx i :
  i < length lines -> near_match search lines ctx i = near search ctx lines i.
Proof.
  intros Hi. apply eq_true_iff_eq. unfold near_match, near. rewrite !existsb_exists. split.
  - intros ([j line] & Hin & [Hs Hb]%andb_prop). apply list_elem_of_In, list_elem_of_lookup in Hin as [k Hk].
    rewrite list_lookup_imap in Hk. destruct (lines !! k) as [l|] eqn:El; [|done]. cbn in *. injection Hk as <- <-.
    apply bool_decide_eq_true in Hb. exists k. split; [apply in_seq; apply lookup_lt_Some in El; lia|].
    rewrite El, Hs. apply bool_decide_eq_true. lia.
  - intros (j & Hj%in_seq & Hb). destruct (lines !! j) as [line|] eqn:El; [|done]. apply andb_prop in Hb as [Hs Hb].
    apply bool_decide_eq_true in Hb. exists (j, line). split.
    + apply list_elem_of_In, list_elem_of_lookup. exists j. by rewrite list_lookup_imap, El.
    + cbn. rewrite Hs. apply bool_decide_eq_true. lia.
Qed.

Lemma search_file_spec lines rel search ctx :
  _grep_search_file lines rel search ctx ModeContent = (printed <$> shown search ctx (rel, lines), matches_in search lines).
Proof.
  unfold _grep_search_file. rewrite decide_True by done. f_equal. unfold shown. rewrite list_fmap_omap.
  apply list_omap_ext, Forall_Forall2_diag, Forall_forall. intros [i line] Hin.
  apply list_elem_of_lookup in Hin as [k Hk]. rewrite list_lookup_imap in Hk.
  cbn [snd] in Hk. destruct (lines !! k) as [l|] eqn:El; [|done]. cbn [fmap option_fmap option_map fst snd] in *. injection Hk as <- <-.
  rewrite near_match_near by (by eapply lookup_lt_Some). by destruct (near search ctx lines k).
Qed.

Lemma search_file_other lines rel search ctx mode :
  mode <> ModeContent -> _grep_search_file lines rel search ctx mode = ([], matches_in search lines).
Proof. intros Hm. unfold _grep_search_file. by rewrite decide_False. Qed.

Hypothesis Hint : forall n, (0 <= n)%Z -> py_int (pretty n) = Some n.

Lemma parse_printed m :
  partition_colon (gm_file m) = None -> (0 <= gm_line_number m)%Z -> parse_shown py_int (printed m) = Ok (Some m).
Proof.
  intros Hf Hn. unfold parse_shown. replace (printed m) with
    (gm_file m +:+ String colon (pretty (gm_line_number m) +:+ String colon (gm_line m)))%string by reflexivity.
  unfold split_colon_2. rewrite (partition_colon_none (gm_file m)) by done. cbn [mbind option_bind].
  rewrite (partition_colon_none (pretty (gm_line_number m))) by by apply pretty_no_colon. cbn [mbind option_bind].
  rewrite Hint by done. cbn. by destruct m.
Qed.

Lemma parse_all ms :
  Forall (fun m => partition_colon (gm_file m) = None /\ (0 <= gm_line_number m)%Z) ms ->
  rmap (parse_shown py_int) (printed <$> ms) = Ok (Some <$> ms).
Proof.
  induction 1 as [|m ms [Hf Hn] _ IH]; [done|]. cbn [fmap list_fmap rmap]. rewrite parse_printed by done. cbn.
  by rewrite IH.
Qed.

Lemma shown_ok search ctx rel lines :
  partition_colon rel = None ->
  Forall (fun m => partition_colon (gm_file m) = None /\ (0 <= gm_line_number m)%Z) (shown search ctx (rel, lines)).
Proof.
  intros Hr. apply Forall_forall. intros m ([i line] & _ & Hm)%list_elem_of_omap. cbn [fst snd] in Hm.
  destruct (near _ _ _ _); [|done]. injection Hm as <-. cbn. split; [done|lia].
Qed.

(** ** The loop *)

(** What the files up to the one that reaches [n] have together *)
Fixpoint upto {A} (n : nat) (lists : list (list A)) : list A :=
  match lists with
  | [] => []
  | l :: lists' => l ++ if decide (n <= length l) then [] else upto (n - length l) lists'
  end.

Lemma upto_Forall {A} (P : A -> Prop) n (lists : list (list A)) : Forall (Forall P) lists -> Forall P (upto n lists).
Proof.
  intros H. revert n. induction H as [|l lists Hl _ IH]; intros n; [constructor|]. cbn. apply Forall_app.
  split; [done|]. case_decide; [constructor|apply IH].
Qed.

Lemma found_ok search ctx n (hs : list (string * list string)) :
  Forall (fun h => partition_colon h.1 = None) hs ->
  Forall (fun m => partition_colon (gm_file m) = None /\ (0 <= gm_line_number m)%Z) (upto n (shown search ctx <$> hs)).
Proof.
  intros H. apply upto_Forall, Forall_fmap. eapply Forall_impl; [exact H|]. intros [rel lines] Hr. by apply shown_ok.
Qed.

Lemma omap_some {A} (l : list A) : omap id (Some <$> l) = l.
Proof. induction l as [|x l IH]; [done|]. csimpl. by rewrite IH. Qed.

Lemma take_upto {A} n (lists : list (list A)) : take n (upto n lists) = take n (concat lists).
Proof.
  revert n. induction lists as [|l lists IH]; intros n; [done|]. cbn. case_decide.
  - rewrite app_nil_r, take_app_le by done. done.
  - rewrite !take_app, IH. done.
Qed.

Abbreviation state output count files matches limit := {| gs_output := output; gs_count := count; gs_files := files;
  gs_matches := matches; gs_hit_limit := limit |}.

Definition total (search : string -> bool) (hs : list (string * list string)) : nat :=
  sum_list_with (fun h => matches_in search h.2) hs.

Lemma hits_cons d search p rel files :
  hits d search ((p, rel) :: files) =
  match read_text d p with
  | Ok text =>
      if decide (matches_in search (splitlines false text) = 0) then hits d search files
      else (rel, splitlines false text) :: hits d search files
  | Raise _ => hits d search files
  end.
Proof. cbn. unfold file_hit at 1. cbn. destruct (read_text d p); [|done]. by case_decide. Qed.

Lemma grep_loop_count d search ctx limit files output count fs matches :
  grep_loop py_int d search ctx limit ModeCount files (state output count fs matches false) =
  Ok (state output (count + total search (hits d search files)) fs matches false).
Proof.
  revert count. induction files as [|[p rel] files IH]; intros count.
  { unfold total. cbn. by rewrite Nat.add_0_r. }
  cbn [grep_loop]. rewrite hits_cons. destruct (read_text d p) as [text|]; [|apply IH].
  rewrite search_file_other by done.
  case_decide as E; cbn [gs_output gs_count gs_files gs_matches]; rewrite IH; [by rewrite E, Nat.add_0_r|].
  unfold total. cbn. by rewrite Nat.add_assoc.
Qed.

Lemma grep_loop_files d search ctx limit files output count fs matches :
  length fs < limit ->
  exists count', grep_loop py_int d search ctx (Z.of_nat limit) ModeFilesOnly files (state output count fs matches false) =
    Ok (state output count' (take limit (fs ++ (hits d search files).*1)) matches
          (bool_decide (limit <= length fs + length (hits d search files)))).
Proof.
  revert count fs. induction files as [|[p rel] files IH]; intros count fs Hfs.
  { exists count. cbn. rewrite app_nil_r, take_ge by lia. rewrite bool_decide_false by lia. done. }
  cbn [grep_loop]. rewrite hits_cons. destruct (read_text d p) as [text|]; [|by apply IH].
  rewrite search_file_other by done.
  case_decide as E; cbn [gs_output gs_count gs_files gs_matches]; [by apply IH|].
  rewrite length_app. cbn [length]. case Z.leb_spec; intros Hl.
  - eexists. f_equal. f_equal.
    + rewrite fmap_cons. rewrite take_app_ge by (rewrite ?length_app; simpl; lia).
      replace (limit - length fs) with 1 by lia. done.
    + rewrite bool_decide_true; [done|]. cbn. lia.
  - destruct (IH (count + matches_in search (splitlines false text)) (fs ++ [rel])) as [count' H];
      [rewrite length_app; simpl; lia|].
    exists count'. rewrite H, <- app_assoc, length_app. cbn. do 2 f_equal. apply bool_decide_ext. lia.
Qed.

Lemma rmap_app {A B} (f : A -> result B) l1 l2 :
  rmap f (l1 ++ l2) = (r1 ← rmap f l1; r2 ← rmap f l2; Ok (r1 ++ r2)).
Proof.
  induction l1 as [|x l1 IH]; cbn [rmap app].
  { cbn. by destruct (rmap f l2). }
  destruct (f x) as [y|]; [|done]. cbn. rewrite IH. destruct (rmap f l1); [|done]. cbn. by destruct (rmap f l2).
Qed.

Lemma grep_loop_content d search ctx limit files output count fs matches :
  length output < limit ->
  let found := upto (limit - length output) (shown search ctx <$> hits d search files) in
  match rmap (parse_shown py_int) (printed <$> found) with
  | Ok ms => exists count',
      grep_loop py_int d search ctx (Z.of_nat limit) ModeContent files (state output count fs matches false) =
        Ok (state (take limit (output ++ (printed <$> found))) count' fs (matches ++ omap id ms)
              (bool_decide (limit <= length output + length found)))
  | Raise e =>
      grep_loop py_int d search ctx (Z.of_nat limit) ModeContent files (state output count fs matches false) = Raise e
  end.
Proof.
  revert count output matches. induction files as [|[p rel] files IH]; intros count output matches Hout found.
  { exists count. cbn. rewrite !app_nil_r, take_ge by lia. rewrite bool_decide_false by lia. done. }
  subst found. cbn [grep_loop]. rewrite hits_cons in *. destruct (read_text d p) as [text|]; [|by apply IH].
  rewrite search_file_spec. case_decide as E; cbn [gs_output gs_count gs_files gs_matches]; [by apply IH|].
  set (new := shown search ctx (rel, splitlines false text)).
  rewrite fmap_cons. fold new. cbn [upto]. rewrite fmap_app, rmap_app.
  destruct (rmap (parse_shown py_int) (printed <$> new)) as [ms|e]; [|done]. cbn [mbind result_bind].
  rewrite length_app, length_fmap. case Z.leb_spec; intros Hl.
  - rewrite decide_True by lia. cbn [fmap list_fmap rmap mbind result_bind]. eexists. rewrite !app_nil_r. f_equal. f_equal.
    + by rewrite py_take_nonneg, Nat2Z.id by lia.
    + rewrite bool_decide_true; [done|]. lia.
  - rewrite decide_False by lia.
    specialize (IH (count + matches_in search (splitlines false text)) (output ++ (printed <$> new))
      (matches ++ omap id ms)). rewrite length_app, length_fmap in IH. specialize (IH ltac:(lia)). cbv zeta in IH.
    replace (limit - (length output + length new)) with (limit - length output - length new) in IH by lia.
    destruct (rmap _ (printed <$> upto _ _)) as [ms'|e]; [|exact IH]. destruct IH as [count' H]. exists count'.
    rewrite H, <- !app_assoc, omap_app. do 2 f_equal. apply bool_decide_ext. rewrite length_app. lia.
Qed.

Lemma join_snoc sep x l y : join sep ((x :: l) ++ [y]) = (join sep (x :: l) +:+ (sep +:+ y))%string.
Proof. cbn. by rewrite foldl_app. Qed.

(** C26. A search looks at every searchable entry below its directory ([searchable]: links to files are followed,
    links to directories are not), once, and at no other.  It counts all their matches; or lists the files with a
    match, up to the limit; or shows the lines near a match, with their files and numbers, up to the limit - while
    the matches it returns beside that text are those of all files up to the one that reaches the limit.  For the
    last it parses what it shows, so that it raises if a name has a colon that is followed by no number, and returns
    the matches as found if no file with a match has a colon in its name.  The directory exists, the expression
    compiles, and the limit is positive. *)
Theorem grep_exact d pattern path case ctx limit include mode search dir threshold preview :
  re_search (default true case) pattern = Some search -> base_of resolve read_root path = Ok dir ->
  is_dir d dir = true -> (1 <= default 100 limit)%Z ->
  exists files, NoDup files.*1 /\
    (forall p rel, (p, rel) ∈ files <-> searchable d include dir p /\ relative_to read_root p = Some rel) /\
    let hs := hits d search files in
    let max := Z.to_nat (default 100%Z limit) in
    let mark (b : bool) := if b then [truncation (default 100%Z limit)] else [] in
    let result := _grep_impl resolve re_search fnmatch py_int read_root threshold preview d pattern path case ctx limit
                    include mode in
    match default ModeContent mode with
    | ModeCount => result = Ok ([], Some (Z.of_nat (total search hs)), pretty (Z.of_nat (total search hs)))
    | ModeFilesOnly =>
        result = Ok ([], None,
          match hs with
          | [] => "No matches found."%string
          | _ => join newline (take max hs.*1 ++ mark (bool_decide (max <= length hs)))
          end)
    | ModeContent =>
        let found : list GrepMatch := upto max (shown search (default 0%Z ctx) <$> hs) in
        let text : string := match found with
                    | [] => "No matches found."%string
                    | _ => pv_content (check_and_preview
                             (join newline (take max (printed <$> found) ++ mark (bool_decide (max <= length found))))
                             threshold preview)
                    end in
        let lines : list string := printed <$> found in
        result = match rmap (parse_shown py_int) lines with
                 | Ok parsed => Ok (omap id parsed, None, text)
                 | Raise e => Raise e
                 end /\
        (Forall (fun h => partition_colon h.1 = None) hs -> result = Ok (found, None, text))
    end.
Proof.
  intros Hre Hbase Hdir Hlimit. exists (_grep_iter_files fnmatch read_root d dir include). unfold _grep_iter_files.
  split_and!; [apply grep_walk_NoDup|intros p rel; apply grep_walk_spec, shallow_depth|]. cbv zeta.
  set (files := walk _ d include dir). unfold _grep_impl, _grep_compile, _require_dir, _grep_iter_files. fold files.
  rewrite Hre, Hbase. cbn [or_raise mbind result_bind]. rewrite Hdir. fold files.
  set (max := Z.to_nat (default 100%Z limit)). assert (Hmax : default 100%Z limit = Z.of_nat max) by lia.
  rewrite Hmax. destruct (default ModeContent mode).
  - set (found := upto max (shown search (default 0%Z ctx) <$> hits d search files)).
    assert (H := grep_loop_content d search (default 0%Z ctx) max files [] 0 [] []). cbn [length] in H.
    specialize (H ltac:(lia)). cbv zeta in H. rewrite Nat.sub_0_r in H. fold found in H.
    match goal with |- ?P /\ _ => assert (Hresult : P) end;
      [|split; [exact Hresult|]; intros Hc; rewrite Hresult, parse_all by (by apply found_ok); cbn; by rewrite omap_some].
    destruct (rmap (parse_shown py_int) (printed <$> found)) as [ms|e]; cbn [mbind result_bind]; [|by rewrite H].
    destruct H as [count H]. rewrite H. cbn [mbind result_bind gs_matches gs_output gs_hit_limit gs_count _grep_format_results].
    rewrite decide_False by done. rewrite !app_nil_l. rewrite Nat.add_0_l.
    destruct found as [|m found']; [by destruct max|].
    destruct max as [|max']; [lia|]. cbn [fmap list_fmap take].
    destruct (bool_decide (S max' <= length (m :: found'))); [by rewrite join_snoc|by rewrite app_nil_r, str_app_nil_r].
  - destruct (grep_loop_files d search (default 0%Z ctx) max files [] 0 [] []) as [count H]; [cbn; lia|].
    cbn [mbind result_bind]. rewrite H. cbn [mbind result_bind gs_matches gs_files gs_hit_limit gs_count _grep_format_results].
    rewrite decide_False by done. rewrite !app_nil_l. cbn [length]. rewrite Nat.add_0_l.
    destruct (hits d search files) as [|h hs]; [by destruct max|]. destruct max as [|max']; [lia|]. done.
  - rewrite grep_loop_count. cbn [mbind result_bind gs_matches gs_count _grep_format_results].
    by rewrite decide_True, Nat.add_0_l.
Qed.
End search.

(** ** A small search *)

Module Tree.
(** [int] of decimal digits *)
Definition digit (a : Ascii.ascii) : option N :=
  let n := N.of_nat (Ascii.nat_of_ascii a) in if ((48 <=? n) && (n <=? 57))%N then Some (n - 48)%N else None.
Fixpoint digits (acc : N) (s : string) : option N :=
  match s with
  | EmptyString => Some acc
  | String a s' => k ← digit a; digits (10 * acc + k) s'
  end.
Definition decimal_int (s : string) : option Z := Z.of_N <$> digits 0 s.

Lemma digit_char k : (k < 10)%N -> digit (pretty.pretty_N_char k) = Some k.
Proof.
  intros H. assert (k = 0 \/ k = 1 \/ k = 2 \/ k = 3 \/ k = 4 \/ k = 5 \/ k = 6 \/ k = 7 \/ k = 8 \/ k = 9)%N as Hk by lia.
  by repeat destruct Hk as [-> |Hk]; [..|subst k].
Qed.

Lemma digits_go n s : digits 0 (pretty.pretty_N_go n s) = digits n s.
Proof.
  revert s. induction (N.lt_wf_0 n) as [n _ IH]; intros s.
  destruct (decide (0 < n)%N) as [Hn|Hn]; [|assert (n = 0%N) as -> by lia; by rewrite pretty.pretty_N_go_0].
  rewrite pretty.pretty_N_go_step, IH by (done || by apply N.div_lt). cbn [digits].
  rewrite digit_char by by apply N.mod_lt. cbn [mbind option_bind]. f_equal.
  rewrite <- N.div_mod' with (b := 10%N). lia.
Qed.

Lemma decimal_int_pretty n : (0 <= n)%Z -> decimal_int (pretty n) = Some n.
Proof.
  destruct n as [|p|p]; [done| |lia]. intros _. change (pretty (Z.pos p)) with (pretty (N.pos p)).
  unfold decimal_int, pretty, pretty.pretty_N. case_decide; [done|]. by rewrite digits_go.
Qed.

Definition root : fpath := ["r"%string].
Definition lines (l : list string) : string := join newline l.

(** Two files, one in a directory, and a hidden one; links to the first, to the directory, and to nothing *)
Definition files : disk :=
  list_to_map [(root, Dir); (["r"; "a"]%string, File (lines ["x"; "yes"; "z"; "yes"])); (["r"; "d"]%string, Dir);
               (["r"; "d"; "b"]%string, File "yes"); (["r"; ".h"]%string, File "yes")].
Definition tree : file_tree := {| nodes := files;
  links := list_to_map [(["r"; "l"], ["r"; "a"]); (["r"; "m"], ["r"; "d"]); (["r"; "n"], ["r"; "no"])]%string |}.
Definition contains (case_sensitive : bool) (pattern : string) : option (string -> bool) := Some (str_in pattern).
Definition any_name (name pattern : string) : bool := true.

Definition search (limit : option Z) (mode : grep_mode) : result (list GrepMatch * option Z * string) :=
  _grep_impl plain_resolve contains any_name decimal_int root 1000 10 tree "yes" None None (Some 1%Z) limit None
    (Some mode).

Example count_all : search None ModeCount = Ok ([], Some 5%Z, "5"%string).
Proof. by vm_compute. Qed.

(** The link to a file is followed, the one to a directory is not. *)
Example files_found : search None ModeFilesOnly = Ok ([], None, lines ["a"; "l"; "d/b"]%string).
Proof. by vm_compute. Qed.

(** The limit cuts the text, not the matches. *)
Example text_is_cut :
  search (Some 2%Z) ModeContent =
  Ok ([{| gm_file := "a"; gm_line_number := 1; gm_line := "x" |}; {| gm_file := "a"; gm_line_number := 2; gm_line := "yes" |};
       {| gm_file := "a"; gm_line_number := 3; gm_line := "z" |}; {| gm_file := "a"; gm_line_number := 4; gm_line := "yes" |}],
      None, lines ["a:1:x"; "a:2:yes"; "(truncated at 2 results)"])%string.
Proof. by vm_compute. Qed.

(** A file whose name has a colon *)
Example colon_in_name :
  _grep_impl plain_resolve contains any_name decimal_int root 1000 10 (Root.plain (<[["r"; "b:c"]%string := File "yes"]> files))
    "yes" None None None None None None = Raise (ValueError "invalid literal for int()").
Proof. by vm_compute. Qed.
End Tree.

Lemma grep_exact_witness :
  exists files, NoDup files.*1 /\
    (forall p rel, (p, rel) ∈ files <-> searchable Tree.any_name Tree.tree None Tree.root p /\
                                        relative_to Tree.root p = Some rel) /\
    Tree.search None ModeCount =
      Ok ([], Some (Z.of_nat (total (str_in "yes") (hits Tree.tree (str_in "yes") files))),
          pretty (Z.of_nat (total (str_in "yes") (hits Tree.tree (str_in "yes") files)))).
Proof.
  apply (grep_exact plain_resolve Tree.contains Tree.any_name Tree.decimal_int Tree.root Tree.decimal_int_pretty
    Tree.tree "yes" None None (Some 1%Z) None None (Some ModeCount) (str_in "yes") Tree.root 1000 10); done.
Defined.
